(* ===== verification/_CoqProject ===== *)
-Q . S2P
Prelude.v
OrdMap.v
Checked.v
Reason.v
Text.v
Units.v
Name.v
SemVer.v
Hash.v
Catalog.v
CatalogEnums.v
Evidence.v
State.v
Codec.v
CodecTypes.v
CodecThms.v
Compat.v
Registry.v
RegistryOps.v
RegistryInv.v
Derivation.v
RegistryThms.v
AdmissionThms.v
RecoveryThms.v
Persist.v
PersistFormat.v
TypedThms.v
LedgerThms.v
RefusalThms.v
PersistThms.v
StoreThms.v
Protocol.v
ProtocolThms.v
Json.v
JsonThms.v
JsonSound.v
Export.v
Import.v
ImportThms.v
Printable.v
ExportThms.v
DocumentThms.v
Net.v
Service.v
ServiceThreads.v
ServiceThms.v
HistoryThms.v
Client.v
ClientThms.v
ConnectionThms.v
Sockets.v
Tools.v
ArgumentThms.v
ServiceTool.v
ToolThms.v
ServiceToolThms.v
CrashThms.v
