(* ===== verification/Prelude.v ===== *)
(** * Offload Capability Registry: verification library

    The Offload Capability Registry keeps timestamped evidence of what offload
    devices can do, and decides whether a requirement is met. Evidence arrives
    from sources with a configured authority, is filed by device incarnation,
    capability and source, is superseded, retired, fenced or evicted, and is
    never guessed: a decision says compatible, incompatible, unknown or
    conflicted, and why. The registry is persisted as a snapshot and a journal,
    exported as a canonical JSON document, and served over a framed protocol.

    ** The parts and their files

    Foundations. [Prelude] (this file): machine-width integers, total orders,
    sorting, list lemmas and the shared tactics. [OrdMap]: [std::map] as an
    association list in key order. [Checked]: include/ocreg/checked.hpp.
    [Reason]: the reason-code table (src/reason.cpp). [Text]: byte strings and
    decimal numbers. [Units]: src/units.cpp, exact conversion in 128-bit
    arithmetic. [Name]: src/name.cpp. [SemVer]: src/semver.cpp. [Hash]: SHA-256
    and CRC-32C (src/hash.cpp). [Catalog]: the capability catalogue and the
    feature and limit sets (src/catalog.cpp). [CatalogEnums]: the enumerators
    of include/ocreg/catalog.hpp, and that the tables describe every one.

    Data. [Evidence]: identities, evidence and ledger records (src/evidence.cpp,
    include/ocreg/evidence.hpp). [State]: outcomes, policies, requirements,
    decisions and the registry state (include/ocreg/registry.hpp, decision.hpp,
    outcome.hpp). [Codec], [CodecTypes]: the readers, writers and the encoding
    of every type (src/codec.cpp). [Codec.Codec] and [Codec.CanonicalCodec] are
    the interface an encoder and decoder promise; [CodecThms] discharges it for
    every pair, and persistence, protocol, service and client use only it.

    The engine. [Registry]: the state of [Registry::Impl] and the derivation of
    what is current, conflicts, eviction and the bounded stores. [RegistryOps]:
    one definition per public operation of src/registry.cpp, guards and
    roll-back included; an operation maps the state to an outcome and a state.
    [Compat]: the comparison of evidence with a requirement (src/compat.cpp).
    [RegistryInv] (the invariant and [reachable]), [Derivation], [RegistryThms],
    [AdmissionThms], [RecoveryThms]: its theorems. [TypedThms]: every field stays
    within its type, so a reachable state can be encoded. [LedgerThms]: what
    becomes of a record. [RefusalThms]: what a refused operation leaves.

    Persistence. [Persist]: the store of src/persist.cpp over an explicit disk;
    each system call takes one event of a script that lets it succeed, fail or
    crash after some bytes. [PersistFormat], [PersistThms], [StoreThms]: the
    layouts, a weakest-precondition calculus for such programs, the theorems.

    Documents. [Json]: the strict parser and the writer (src/json.cpp).
    [JsonThms], [JsonSound]: round trip and what is accepted. [Export],
    [Import]: the writers and readers of src/export.cpp. [ImportThms] (each
    reader inverts its writer, as instances of [ImportThms.Document]),
    [Printable] (what is written is canonical), [ExportThms]; [DocumentThms]:
    the documents of policies and requirements.

    The network. [Protocol], [ProtocolThms]: frames and payloads
    (src/protocol.cpp). [Net]: [recv_exact] and [send_all] over scripts of what
    the operating system returns (src/net.cpp). [Service]: dispatch and the loop
    of a connection; [ServiceThreads]: acceptor, workers and [stop] as a step
    relation (src/service.cpp); [ServiceThms]; [HistoryThms]: the service as one
    registry that serves one request at a time. [Client]: src/client.cpp;
    [ClientThms]: client, network and service together, through the interface
    [ClientThms.Served]. [ConnectionThms]: a whole connection, its requests
    pipelined. [Sockets]: connecting, listening, accepting, serving and closing,
    over scripts of answers and the table of descriptors (src/net.cpp, and their
    use in src/client.cpp and by the threads of src/service.cpp), with the theorem
    that nothing leaks.

    The programs. [Tools]: the command line tool (tools/ocreg_cli.cpp,
    tools/tool_support.hpp), a function from the arguments and the files to an
    exit code, the output and the files left. [ServiceTool]: the service
    executable, from boot to the final commit, and the boundaries of the crash
    helper (tools/ocreg_service.cpp, tools/ocreg_crash_helper.cpp).
    [ArgumentThms], [ToolThms], [ServiceToolThms], [CrashThms]: their theorems.

    ** How the code is modelled

    A function of the source is a function here, with its name where that is
    possible; a mutating method takes the state and returns it; a status or an
    optional is [Outcome], [option] or a sum whose left side is the reason. An
    integer is a [Z] and wrap-around is written out where the source can wrap
    ([u8] to [u64]); a byte is a [Z] of eight bits, text a [string] of bytes. A
    [std::map] is an ordered association list, so iteration order is the code's.
    Scripts stand for the operating system: what a call returns is given from
    outside and the theorems hold for every script, or for those their
    hypotheses describe.

    Fuel. Loops that are not structural take fuel, which the theorems show to be
    enough: the eviction loop one more than the number of records (in
    [RegistryThms]); the journal scan one more than the bytes (in [StoreThms]);
    the JSON parser twice the length plus one (in [JsonSound]: it never answers
    [Ok_], the reason of an exhausted parser); a connection one turn per byte to
    come (in [ServiceThms]).

    Threads. In [ServiceThreads] a step of the service comes from outside (a
    client connects, a sleeping worker wakes up for no reason) or is one of its
    own threads'. Threads block where the code does: the acceptor in [accept], a
    worker on the condition variable or in a read or write for a silent peer
    (the waiting events of [Net]), [stop] in its joins. What releases them is
    modelled step by step: [notify_one] and [notify_all], the connection of [stop]
    to itself, the closing of active sockets. [HistoryThms] keeps, beside a run, a
    book of the requests that its steps executed; [Sockets] follows the same life
    of a socket (queue, active connection, closed by its worker or by [stop],
    once) down to the descriptors.

    ** What the theorems show

    The exact conditions are in the comment of each theorem.

    Registry: every reachable state is well formed, and its snapshot meets the
    condition for rebuilding a registry, which then has that very snapshot; the
    live records are exactly the authoritative ones; a compatible decision has
    live, fresh, undisputed evidence that meets the requirement; an accepted
    record is recorded once; a retirement fences its stream; eviction spares what
    is live and terminates; adopting a persisted state keeps exactly its records
    and never revives old evidence; every operation pushes exactly the entries of
    the records it evicted on the ledger, so none disappears silently; the
    persisted values stay within their types; what each refusal leaves behind is
    stated by operation and reason (an admission refused for lack of room keeps
    its evictions).
    Store: a commit of a state that fits a journal entry is atomic under any crash
    or failure and durable once acknowledged; acknowledged commits of one store
    object, from a new store on, refine the last one's state; compaction is atomic;
    torn tails are discarded; the scan accepts only verified entries.
    Codec and protocol: states, frames and the payload of every request and
    response are read back, and accepted encodings are canonical. Documents: a
    complete export within the limits of the format is imported to the same state,
    and an import accepts only content that matches its digests; the JSON parser
    always stops with a canonical value or a refusal; policies and requirements
    are read back from their documents.
    Service: in every interleaving the bounds and the registry's invariant hold;
    each change of the registry is the execution of one request, the next one of
    its connection, and one order of them explains the registry and every byte
    sent; once called, [stop] completes, with all blocked threads released; a
    client's call leaves the service where the registry's operation does and shows
    the client that operation's answer as the protocol carries it; pipelined
    requests are answered in order, up to the quota, one whole frame each; every
    descriptor opened is closed.
    Programs: importing what was exported restores the state; commands that read
    leave the store as it was; a run of the service on a compacted store that
    exits with success has made its last state durable, and one killed at any
    point keeps that state or the old one; the boundaries of the crash helper are
    recovered from.
    Foundations: conversions and comparisons are exact, version precedence is the
    specification's, the hashes equal their reference definitions, the tables are
    unambiguous.

    Divergences that the proofs exposed are stated next to them
    ([StoreThms.failed_append_loses_next], [StoreThms.full_snapshot_unreadable],
    [StoreThms.rebind_loses_commit], [CodecThms.semver_decode_not_canonical],
    [JsonSound.unescaped_string_unbounded], [ClientThms.unknown_device_garbled],
    [ClientThms.retirement_reported_failed],
    [ServiceThms.unrepresentable_reply_dropped],
    [TypedThms.Wrapped.greatest_incarnation_unreadable],
    [ToolThms.Overfull.import_unopenable], [ToolThms.explain_never_available],
    [ServiceToolThms.Forgotten.restart_forgets_generation],
    [ArgumentThms.unsigned_wraps], [ArgumentThms.unit_truncated],
    [ArgumentThms.help_option_is_error]).

    ** Assumptions and what is not modelled

    The file system keeps what was synchronised and may lose or keep any prefix
    of an unsynchronised write; a rename is atomic. A closed socket ends reads
    and refuses writes, and releases a thread that waits in one; the connection of
    [stop] to the service, or the shut listener, makes [accept] return; a handle is
    not reused while it is in use. A critical
    section and one turn of a connection are atomic: the registry locks itself
    for each operation, the counters are atomic. The stop flag read by a
    connection may be older than its value. The C++ memory model, allocation
    failure and exceptions are left out.

    Not modelled: the getters of the registry and of the service, which read a
    field; the hints and options of sockets and the initialisation of Winsock; the
    examples, benchmarks and tests, which call the library.

    Next: clients that run against the service's threads, each over its own
    network, and the durability of what they were told. *)

From Stdlib Require Import ZArith Lia Permutation Sorted Ascii.
From stdpp Require Import base tactics list strings.

#[global] Open Scope Z_scope.

(** ** Machine-width integers

    A [w]-bit unsigned integer of the source is a [Z]; arithmetic that the
    source lets wrap is written out with [wrap]. *)

Definition wrap (w : Z) (x : Z) : Z := x mod 2 ^ w.
Definition u8 (x : Z) : Z := wrap 8 x.
Definition u16 (x : Z) : Z := wrap 16 x.
Definition u32 (x : Z) : Z := wrap 32 x.
Definition u64 (x : Z) : Z := wrap 64 x.

Definition u64_max : Z := 18446744073709551615.
Definition i64_max : Z := 9223372036854775807.
Definition i64_min : Z := -9223372036854775808.

Definition in_u (w : Z) (x : Z) : Prop := 0 <= x < 2 ^ w.
Definition in_i64 (x : Z) : Prop := i64_min <= x <= i64_max.

Lemma wrap_small w x : in_u w x -> wrap w x = x.
Proof. intros H. apply Z.mod_small, H. Qed.

Lemma wrap_bound w x : 0 <= w -> in_u w (wrap w x).
Proof. intros H. apply Z.mod_pos_bound. lia. Qed.

(** ** Total orders

    [operator<=>] of the source, as a comparison with the laws of a strict
    total order.  Every key type of a [std::map] has an instance. *)

Class Cmp (A : Type) := cmp : A -> A -> comparison.
#[global] Hint Mode Cmp ! : typeclass_instances.

Class CmpLaws (A : Type) `{Cmp A} : Prop := {
  cmp_eq : forall x y : A, cmp x y = Eq -> x = y;
  cmp_refl : forall x : A, cmp x x = Eq;
  cmp_flip : forall x y : A, cmp y x = CompOpp (cmp x y);
  cmp_lt_trans : forall x y z : A, cmp x y = Lt -> cmp y z = Lt -> cmp x z = Lt }.

Definition clt {A} `{Cmp A} (x y : A) : bool :=
  match cmp x y with Lt => true | _ => false end.
Definition cle {A} `{Cmp A} (x y : A) : bool :=
  match cmp x y with Gt => false | _ => true end.
Definition ceq {A} `{Cmp A} (x y : A) : bool :=
  match cmp x y with Eq => true | _ => false end.

(** [first c1, then c2]: the source's chains of
    [if (a.f != b.f) return a.f <=> b.f;]. *)
Definition then_cmp (c1 c2 : comparison) : comparison :=
  match c1 with Eq => c2 | c => c end.

Declare Scope ocreg_scope.
Delimit Scope ocreg_scope with ocreg.
Notation "c1 '<=>>' c2" := (then_cmp c1 c2)
  (at level 60, right associativity) : ocreg_scope.
#[global] Open Scope ocreg_scope.

Section cmp_facts.
Context {A : Type} `{CmpLaws A}.

Lemma cmp_eq_iff (x y : A) : cmp x y = Eq <-> x = y.
Proof. split; [apply cmp_eq | intros ->; apply cmp_refl]. Qed.

Lemma cmp_gt_lt (x y : A) : cmp x y = Gt <-> cmp y x = Lt.
Proof. rewrite (cmp_flip x y). destruct (cmp x y); simpl; split; congruence. Qed.

Lemma cmp_lt_irrefl (x : A) : cmp x x <> Lt.
Proof. rewrite cmp_refl. discriminate. Qed.

Lemma cmp_lt_ne (x y : A) : cmp x y = Lt -> x <> y.
Proof. intros Hlt ->. by apply cmp_lt_irrefl in Hlt. Qed.

Lemma ceq_true (x y : A) : ceq x y = true <-> x = y.
Proof. unfold ceq. rewrite <- cmp_eq_iff. destruct (cmp x y); split; congruence. Qed.

Lemma ceq_false (x y : A) : ceq x y = false <-> x <> y.
Proof. rewrite <- ceq_true. destruct (ceq x y); split; congruence. Qed.

Lemma ceq_refl (x : A) : ceq x x = true.
Proof. by apply ceq_true. Qed.

Lemma clt_true (x y : A) : clt x y = true <-> cmp x y = Lt.
Proof. unfold clt. destruct (cmp x y); split; congruence. Qed.

Lemma cle_true (x y : A) : cle x y = true <-> cmp y x <> Lt.
Proof. unfold cle. rewrite (cmp_flip x y). destruct (cmp x y); simpl; split; congruence. Qed.

Lemma cle_trans (x y z : A) : cle x y = true -> cle y z = true -> cle x z = true.
Proof.
  unfold cle. destruct (cmp x y) eqn:E1; try discriminate; intros _;
    destruct (cmp y z) eqn:E2; try discriminate; intros _.
  - apply cmp_eq in E1 as ->. by rewrite E2.
  - apply cmp_eq in E1 as ->. by rewrite E2.
  - apply cmp_eq in E2 as ->. by rewrite E1.
  - by rewrite (cmp_lt_trans _ _ _ E1 E2).
Qed.

Lemma cle_total (x y : A) : cle x y = false -> cle y x = true.
Proof. unfold cle. rewrite (cmp_flip x y). by destruct (cmp x y). Qed.

Lemma cle_antisym (x y : A) : cle x y = true -> cle y x = true -> x = y.
Proof.
  unfold cle. rewrite (cmp_flip x y). destruct (cmp x y) eqn:E; simpl; try discriminate.
  intros _ _. by apply cmp_eq.
Qed.

Lemma cle_refl (x : A) : cle x x = true.
Proof. unfold cle. by rewrite cmp_refl. Qed.
End cmp_facts.

#[export] Instance Z_cmp : Cmp Z := Z.compare.
#[export] Instance Z_cmp_laws : CmpLaws Z.
Proof.
  split; unfold cmp, Z_cmp.
  - intros x y. apply Z.compare_eq.
  - intros x. apply Z.compare_refl.
  - intros x y. apply Z.compare_antisym.
  - intros x y z. rewrite !Z.compare_lt_iff. lia.
Qed.

(** Comparison through an injective key. *)
Definition cmp_on {A B} `{Cmp B} (f : A -> B) : Cmp A := fun x y => cmp (f x) (f y).

Lemma cmp_on_laws {A B} `{CmpLaws B} (f : A -> B) :
  (forall x y, f x = f y -> x = y) -> @CmpLaws A (cmp_on f).
Proof.
  intros Hinj. split; unfold cmp, cmp_on.
  - intros x y Hc. by apply Hinj, cmp_eq.
  - intros x. apply cmp_refl.
  - intros x y. apply cmp_flip.
  - intros x y z. apply cmp_lt_trans.
Qed.

(** Lexicographic pairs. *)
#[export] Instance pair_cmp {A B} `{Cmp A, Cmp B} : Cmp (A * B) :=
  fun x y => cmp (fst x) (fst y) <=>> cmp (snd x) (snd y).

Lemma cmp_pair {A B} `{Cmp A, Cmp B} (a c : A) (b d : B) :
  cmp (a, b) (c, d) = (cmp a c <=>> cmp b d).
Proof. reflexivity. Qed.

#[export] Instance pair_cmp_laws {A B} `{CmpLaws A, CmpLaws B} : CmpLaws (A * B).
Proof.
  split.
  - intros [a b] [c d]. rewrite cmp_pair. unfold then_cmp.
    destruct (cmp a c) eqn:E; try discriminate.
    intros E2. apply cmp_eq in E, E2. congruence.
  - intros [a b]. by rewrite cmp_pair, !cmp_refl.
  - intros [a b] [c d]. rewrite !cmp_pair, (cmp_flip a c), (cmp_flip b d).
    by destruct (cmp a c), (cmp b d).
  - intros [a b] [c d] [e f]. rewrite !cmp_pair. unfold then_cmp.
    destruct (cmp a c) eqn:E1; try discriminate.
    + apply cmp_eq in E1 as ->. intros E2. destruct (cmp c e) eqn:E3; try discriminate; [|done].
      intros E4. by rewrite (cmp_lt_trans _ _ _ E2 E4).
    + intros _. destruct (cmp c e) eqn:E3; try discriminate.
      * apply cmp_eq in E3 as ->. by rewrite E1.
      * by rewrite (cmp_lt_trans _ _ _ E1 E3).
Qed.

(** Optional values: an absent value precedes every present one. *)
#[export] Instance option_cmp {A} `{Cmp A} : Cmp (option A) :=
  fun x y => match x, y with
             | None, None => Eq
             | None, Some _ => Lt
             | Some _, None => Gt
             | Some a, Some b => cmp a b
             end.

#[export] Instance option_cmp_laws {A} `{CmpLaws A} : CmpLaws (option A).
Proof.
  split.
  - intros [x|] [y|]; try discriminate; [|done]. intros E. f_equal. by apply cmp_eq.
  - intros [x|]; [apply (cmp_refl x) | done].
  - intros [x|] [y|]; try done. apply (cmp_flip x y).
  - intros [x|] [y|] [z|]; try done. apply (cmp_lt_trans x y z).
Qed.

(** Lexicographic lists: a proper prefix precedes its extensions, as for
    [std::string_view::compare] and the loops over [std::array]. *)
Fixpoint list_compare {A} `{Cmp A} (x y : list A) : comparison :=
  match x, y with
  | [], [] => Eq
  | [], _ :: _ => Lt
  | _ :: _, [] => Gt
  | a :: x', b :: y' => cmp a b <=>> list_compare x' y'
  end.
#[export] Instance list_cmp {A} `{Cmp A} : Cmp (list A) := list_compare.

#[export] Instance list_cmp_laws {A} `{CmpLaws A} : CmpLaws (list A).
Proof.
  split; unfold cmp, list_cmp.
  - intros x. induction x as [|a x IH]; intros [|b y]; simpl; try discriminate; [done|].
    unfold then_cmp. destruct (cmp a b) eqn:E; try discriminate.
    intros E2. f_equal; [by apply cmp_eq | by apply IH].
  - intros x. induction x as [|a x IH]; simpl; [done|]. by rewrite cmp_refl.
  - intros x. induction x as [|a x IH]; intros [|b y]; simpl; try done.
    rewrite (cmp_flip a b), IH. by destruct (cmp a b).
  - intros x. induction x as [|a x IH]; intros [|b y] [|c z]; simpl; try done.
    unfold then_cmp. destruct (cmp a b) eqn:E1; try discriminate.
    + apply cmp_eq in E1 as ->. intros E2. destruct (cmp b c) eqn:E3; try discriminate; [|done].
      intros E4. by apply (IH y).
    + intros _. destruct (cmp b c) eqn:E3; try discriminate.
      * apply cmp_eq in E3 as ->. by rewrite E1.
      * by rewrite (cmp_lt_trans _ _ _ E1 E3).
Qed.

(** Strings compare as their bytes. *)
#[export] Instance ascii_cmp : Cmp ascii := cmp_on Ascii.N_of_ascii (H := N.compare).
#[export] Instance ascii_cmp_laws : CmpLaws ascii.
Proof.
  unshelve eapply cmp_on_laws.
  - split; unfold cmp.
    + intros x y. apply N.compare_eq.
    + intros x. apply N.compare_refl.
    + intros x y. apply N.compare_antisym.
    + intros x y z. rewrite !N.compare_lt_iff. lia.
  - intros x y E. rewrite <- (Ascii.ascii_N_embedding x), <- (Ascii.ascii_N_embedding y).
    by rewrite E.
Qed.
#[export] Instance string_cmp : Cmp string := cmp_on String.list_ascii_of_string.
#[export] Instance string_cmp_laws : CmpLaws string.
Proof.
  apply cmp_on_laws. intros x y E.
  rewrite <- (String.string_of_list_ascii_of_string x),
          <- (String.string_of_list_ascii_of_string y).
  by rewrite E.
Qed.

(** ** Sorting

    [std::sort] with a comparator on a key.  Where keys are distinct the
    result is the only sorted permutation ([sorted_perm_unique]), so the
    choice of algorithm is immaterial. *)

Section sorting.
Context {A K : Type} `{CmpLaws K} (key : A -> K).

(** Also [v.insert(std::lower_bound(v.begin(), v.end(), x), x)]. *)
Fixpoint insert_by (x : A) (l : list A) : list A :=
  match l with
  | [] => [x]
  | y :: l' => if cle (key x) (key y) then x :: l else y :: insert_by x l'
  end.

Definition sort_by (l : list A) : list A := foldr insert_by [] l.

Definition key_le (x y : A) : Prop := cle (key x) (key y) = true.
Definition key_lt (x y : A) : Prop := cmp (key x) (key y) = Lt.

Lemma insert_by_perm x l : Permutation (insert_by x l) (x :: l).
Proof.
  induction l as [|y l IH]; simpl; [done|].
  case_match; [done|]. rewrite IH. apply perm_swap.
Qed.

Lemma sort_by_perm l : Permutation (sort_by l) l.
Proof. induction l as [|x l IH]; simpl; [done|]. by rewrite insert_by_perm, IH. Qed.

Lemma insert_by_sorted x l :
  StronglySorted key_le l -> StronglySorted key_le (insert_by x l).
Proof.
  induction 1 as [|y l Hs IH Hall]; simpl; [by repeat constructor|].
  case_match eqn:E.
  - constructor; [by constructor|]. constructor; [done|].
    eapply Forall_impl; [exact Hall|]. intros z. apply cle_trans, E.
  - constructor; [done|]. rewrite insert_by_perm. constructor; [by apply cle_total|done].
Qed.

Lemma sort_by_sorted l : StronglySorted key_le (sort_by l).
Proof. induction l; simpl; [constructor | by apply insert_by_sorted]. Qed.

Lemma sort_by_id l : StronglySorted key_le l -> sort_by l = l.
Proof.
  induction 1 as [|x l Hs IH Hall]; simpl; [done|]. rewrite IH.
  destruct Hall as [|y l Hy Hall]; simpl; [done|]. by unfold key_le in Hy; rewrite Hy.
Qed.

Lemma sort_by_length l : length (sort_by l) = length l.
Proof. apply Permutation_length, sort_by_perm. Qed.

Lemma sort_by_elem x l : x ∈ sort_by l <-> x ∈ l.
Proof. by rewrite sort_by_perm. Qed.

Lemma sorted_perm_unique l1 l2 :
  StronglySorted key_le l1 -> StronglySorted key_le l2 -> Permutation l1 l2 ->
  NoDup (key <$> l1) -> l1 = l2.
Proof.
  intros Hs1. revert l2. induction Hs1 as [|x l1 Hs1 IH Hall1]; intros l2 Hs2 Hp Hnd.
  - by apply Permutation_nil in Hp.
  - destruct Hs2 as [|y l2 Hs2 Hall2]; [by apply Permutation_sym, Permutation_nil in Hp|].
    simpl in Hnd. apply NoDup_cons in Hnd as [Hx Hnd].
    assert (x = y) as ->.
    { assert (Hxy : x ∈ y :: l2) by (rewrite <- Hp; constructor).
      assert (Hyx : y ∈ x :: l1) by (rewrite Hp; constructor).
      apply elem_of_cons in Hxy as [->|Hxy]; [done|].
      apply elem_of_cons in Hyx as [->|Hyx]; [done|].
      rewrite Forall_forall in Hall1, Hall2.
      assert (key x = key y) as E by (apply cle_antisym; [apply Hall1 | apply Hall2]; done).
      exfalso. apply Hx. rewrite E. apply list_elem_of_fmap. eauto. }
    f_equal. apply IH; [done| |done]. by apply Permutation_cons_inv in Hp.
Qed.

Lemma key_lt_le x y : key_lt x y -> key_le x y.
Proof. unfold key_lt, key_le, cle. by intros ->. Qed.

Lemma strict_sorted_le l : StronglySorted key_lt l -> StronglySorted key_le l.
Proof.
  induction 1 as [|x l Hs IH Hall]; constructor; [done|].
  eapply Forall_impl; [exact Hall|]. intros z. apply key_lt_le.
Qed.

Lemma strict_sorted_nodup l : StronglySorted key_lt l -> NoDup (key <$> l).
Proof.
  induction 1 as [|x l Hs IH Hall]; simpl; constructor; [|done].
  intros [y [E Hy]]%list_elem_of_fmap. rewrite Forall_forall in Hall.
  specialize (Hall y Hy). unfold key_lt in Hall. rewrite E in Hall.
  by apply cmp_lt_irrefl in Hall.
Qed.

(** [std::unique] on the key: drops an element equal to its predecessor. *)
Fixpoint unique_by (l : list A) : list A :=
  match l with
  | x :: (y :: _) as l' =>
      match unique_by l' with
      | [] => [x]
      | z :: r => if ceq (key x) (key z) then x :: r else x :: z :: r
      end
  | l => l
  end.
End sorting.

(** A list strictly increasing in its key: the canonical-order checks. *)
Fixpoint strictly_increasing {A K} `{Cmp K} (key : A -> K) (l : list A) : bool :=
  match l with
  | x :: (y :: _) as l' => clt (key x) (key y) && strictly_increasing key l'
  | _ => true
  end.

Lemma strictly_increasing_sorted {A K} `{CmpLaws K} (key : A -> K) l :
  strictly_increasing key l = true <-> StronglySorted (key_lt key) l.
Proof.
  split.
  - intros Hi. apply Sorted_StronglySorted.
    { intros x y z. apply cmp_lt_trans. }
    induction l as [|x l IH]; constructor.
    + destruct l; [constructor|]. simpl in Hi. apply andb_prop in Hi as [_ Hi]. by apply IH.
    + destruct l; constructor. simpl in Hi. apply andb_prop in Hi as [Hi _]. by apply clt_true.
  - induction 1 as [|x l Hs IH Hall]; [done|]. destruct l as [|y l]; [done|]. simpl.
    apply andb_true_intro. split; [|exact IH]. apply clt_true. by inversion Hall.
Qed.

Section unique.
Context {A K : Type} `{CmpLaws K} (key : A -> K).

Lemma unique_by_cons x l :
  exists r, unique_by key (x :: l) = x :: r /\ (forall y, y ∈ r -> y ∈ unique_by key l).
Proof.
  destruct l as [|y l]; [exists []; split; [done|intros z Hz; by apply elem_of_nil in Hz]|].
  change (unique_by key (x :: y :: l)) with
    (match unique_by key (y :: l) with
     | [] => [x]
     | z :: r => if ceq (key x) (key z) then x :: r else x :: z :: r
     end).
  destruct (unique_by key (y :: l)) as [|z r]; [exists []; split; [done|intros z Hz; by apply elem_of_nil in Hz]|].
  destruct (ceq _ _); eexists; split; eauto. intros w Hw. by constructor.
Qed.

Lemma unique_by_elem x l : x ∈ unique_by key l -> x ∈ l.
Proof.
  revert x. induction l as [|y l IH]; intros x Hx; [done|].
  destruct (unique_by_cons y l) as (r & E & Hr). rewrite E in Hx.
  apply elem_of_cons in Hx as [->|Hx]; [constructor|]. right. by apply IH, Hr.
Qed.

Lemma unique_by_key x l : x ∈ l -> exists y, y ∈ unique_by key l /\ key y = key x.
Proof.
  revert x. induction l as [|a l IH]; intros x Hx; [by apply elem_of_nil in Hx|].
  destruct l as [|b l].
  { apply list_elem_of_singleton in Hx as ->. exists a. split; [constructor|done]. }
  change (unique_by key (a :: b :: l)) with
    (match unique_by key (b :: l) with
     | [] => [a]
     | z :: r => if ceq (key a) (key z) then a :: r else a :: z :: r
     end).
  destruct (unique_by_cons b l) as (r & E & _). rewrite E in *.
  apply elem_of_cons in Hx as [->|Hx].
  - exists a. split; [|done]. destruct (ceq _ _); constructor.
  - destruct (IH x Hx) as (y & Hy & Ey). apply elem_of_cons in Hy as [->|Hy].
    + destruct (ceq (key a) (key b)) eqn:Ec.
      * apply ceq_true in Ec. exists a. split; [constructor|congruence].
      * exists b. split; [right; constructor|done].
    + exists y. split; [|done]. destruct (ceq _ _); [by right|by right; right].
Qed.

Lemma unique_by_sorted l :
  StronglySorted (key_le key) l -> StronglySorted (key_lt key) (unique_by key l).
Proof.
  induction 1 as [|a l Hs IH Hall]; [constructor|].
  destruct l as [|b l]; [repeat constructor|].
  change (unique_by key (a :: b :: l)) with
    (match unique_by key (b :: l) with
     | [] => [a]
     | z :: r => if ceq (key a) (key z) then a :: r else a :: z :: r
     end).
  destruct (unique_by_cons b l) as (r & E & _). rewrite E in *.
  apply StronglySorted_inv in IH as [IHs IHall]. apply Forall_cons in Hall as [Hab _].
  destruct (ceq (key a) (key b)) eqn:Ec.
  - apply ceq_true in Ec. constructor; [done|]. eapply Forall_impl; [exact IHall|].
    intros z. unfold key_lt. by rewrite Ec.
  - assert (key_lt key a b) as Hlt.
    { unfold key_lt, key_le in *. apply cle_true in Hab. apply ceq_false in Ec.
      destruct (cmp (key a) (key b)) eqn:E2; [by apply cmp_eq in E2|done|].
      by apply cmp_gt_lt in E2. }
    constructor; [by constructor|]. constructor; [done|]. eapply Forall_impl; [exact IHall|].
    intros z. unfold key_lt in *. by apply cmp_lt_trans.
Qed.

(** On a strictly increasing list, [std::unique] changes nothing. *)
Lemma unique_by_id l : StronglySorted (key_lt key) l -> unique_by key l = l.
Proof.
  induction 1 as [|a l Hs IH Hall]; [done|]. destruct l as [|b l]; [done|].
  change (unique_by key (a :: b :: l)) with
    (match unique_by key (b :: l) with
     | [] => [a]
     | z :: r => if ceq (key a) (key z) then a :: r else a :: z :: r
     end).
  rewrite IH. apply Forall_cons in Hall as [Hab _]. unfold key_lt in Hab. unfold ceq.
  by rewrite Hab.
Qed.
End unique.

(** ** Tactics and hint databases *)

Create HintDb ocreg.
#[export] Hint Resolve cmp_refl ceq_refl cle_refl : ocreg.

(** Splits every [if] and [match] of the goal, simplifying as it goes. *)
Ltac split_ifs := repeat (case_match; simplify_eq/=; try done).

(** Splits the outermost test of the goal. *)
Ltac case_if := match goal with |- context [if ?b then _ else _] => destruct b eqn:? end.

(** Turns boolean tests on [Z] in the hypotheses into propositions. *)
Ltac zb :=
  repeat match goal with
    | H : (_ =? _) = true |- _ => apply Z.eqb_eq in H
    | H : (_ =? _) = false |- _ => apply Z.eqb_neq in H
    | H : (_ <? _) = true |- _ => apply Z.ltb_lt in H
    | H : (_ <? _) = false |- _ => apply Z.ltb_ge in H
    | H : (_ <=? _) = true |- _ => apply Z.leb_le in H
    | H : (_ <=? _) = false |- _ => apply Z.leb_gt in H
    | H : (_ >? _) = true |- _ => rewrite Z.gtb_ltb in H
    | H : (_ >? _) = false |- _ => rewrite Z.gtb_ltb in H
    | H : (_ >=? _) = true |- _ => rewrite Z.geb_leb in H
    | H : (_ >=? _) = false |- _ => rewrite Z.geb_leb in H
    | H : _ && _ = true |- _ => apply andb_prop in H as [? ?]
    | H : _ || _ = false |- _ => apply orb_false_elim in H as [? ?]
    | H : negb _ = true |- _ => apply negb_true_iff in H
    | H : negb _ = false |- _ => apply negb_false_iff in H
    end.
