(* ===== verification/OrdMap.v ===== *)
(** * std::map: ordered association lists

    The registry keeps its tables in [std::map] and iterates over them, and
    the order of iteration is visible (snapshots, eviction ties, tombstone
    ties).  A map is its sequence of entries in increasing key order; the
    order is an invariant, [om_sorted], which every operation preserves. *)

From Stdlib Require Import ZArith Lia Permutation Sorted.
From stdpp Require Import base tactics list.
From S2P Require Import Prelude.

Section ordmap.
Context {K : Type} `{CmpLaws K}.

Section ops.
Context {V : Type}.

(** [m.find(k)], and [m.end()] as [None]. *)
Fixpoint om_find (k : K) (m : list (K * V)) : option V :=
  match m with
  | [] => None
  | (k', v) :: m' => if ceq k k' then Some v else om_find k m'
  end.

(** [m[k] = v]. *)
Fixpoint om_set (k : K) (v : V) (m : list (K * V)) : list (K * V) :=
  match m with
  | [] => [(k, v)]
  | (k', v') :: m' =>
      match cmp k k' with
      | Lt => (k, v) :: m
      | Eq => (k, v) :: m'
      | Gt => (k', v') :: om_set k v m'
      end
  end.

(** [m.erase(k)]. *)
Fixpoint om_erase (k : K) (m : list (K * V)) : list (K * V) :=
  match m with
  | [] => []
  | (k', v') :: m' => if ceq k k' then m' else (k', v') :: om_erase k m'
  end.

Definition om_sorted (m : list (K * V)) : Prop := StronglySorted (key_lt fst) m.

(** Every entry satisfies [P]. *)
Definition om_all (P : K -> V -> Prop) (m : list (K * V)) : Prop :=
  Forall (fun e => P (fst e) (snd e)) m.

(** The sum of [f] over the values. *)
Definition om_total (f : V -> nat) (m : list (K * V)) : nat :=
  foldr (fun e n => (f (snd e) + n)%nat) 0%nat m.

Definition opt_total (f : V -> nat) (o : option V) : nat :=
  match o with Some v => f v | None => 0%nat end.
End ops.

Section facts.
Context {V : Type}.
Implicit Types (m : list (K * V)) (k : K) (v : V).

Lemma om_sorted_cons k v m :
  om_sorted ((k, v) :: m) <-> om_sorted m /\ Forall (fun e => cmp k (fst e) = Lt) m.
Proof.
  split; [intros Hs; inversion Hs; subst; done|].
  intros [Hs Hall]. constructor; done.
Qed.

Lemma om_find_below k m : Forall (fun e => cmp k (fst e) = Lt) m -> om_find k m = None.
Proof.
  induction 1 as [|[k' v'] m Hk Hall IH]; simpl in *; [done|].
  unfold ceq. by rewrite Hk.
Qed.

Lemma om_find_elem k v m : om_find k m = Some v -> (k, v) ∈ m.
Proof.
  induction m as [|[k' v'] m IH]; simpl; [done|].
  destruct (ceq k k') eqn:E; [|intros Hf; right; by apply IH].
  apply ceq_true in E as ->. intros [= ->]. constructor.
Qed.

Lemma om_elem_find k v m : om_sorted m -> (k, v) ∈ m -> om_find k m = Some v.
Proof.
  induction m as [|[k' v'] m IH]; intros Hs Hin; [by apply elem_of_nil in Hin|].
  apply om_sorted_cons in Hs as [Hs Hall]. simpl.
  apply elem_of_cons in Hin as [[= -> ->]|Hin]; [by rewrite ceq_refl|].
  rewrite Forall_forall in Hall. specialize (Hall _ Hin). simpl in Hall.
  unfold ceq. rewrite (cmp_flip k' k), Hall. simpl. by apply IH.
Qed.

Lemma om_find_set_eq k v m : om_find k (om_set k v m) = Some v.
Proof.
  induction m as [|[k' v'] m IH]; simpl; [by rewrite ceq_refl|].
  destruct (cmp k k') eqn:E; simpl; rewrite ?ceq_refl; try done.
  unfold ceq. by rewrite E.
Qed.

Lemma om_find_set_ne k k' v m : k' <> k -> om_find k' (om_set k v m) = om_find k' m.
Proof.
  intros Hne. assert (ceq k' k = false) as Hf by by apply ceq_false.
  induction m as [|[k2 v2] m IH]; simpl; [by rewrite Hf|].
  destruct (cmp k k2) eqn:E; simpl; rewrite ?Hf; try done.
  - apply cmp_eq in E as ->. by rewrite Hf.
  - by rewrite IH.
Qed.

Lemma om_find_set k k' v m :
  om_find k' (om_set k v m) = if ceq k' k then Some v else om_find k' m.
Proof.
  destruct (ceq k' k) eqn:E.
  - apply ceq_true in E as ->. apply om_find_set_eq.
  - apply ceq_false in E. by apply om_find_set_ne.
Qed.

Lemma om_find_erase_ne k k' m : k' <> k -> om_find k' (om_erase k m) = om_find k' m.
Proof.
  intros Hne. induction m as [|[k2 v2] m IH]; simpl; [done|].
  destruct (ceq k k2) eqn:E; simpl.
  - apply ceq_true in E as ->. assert (ceq k' k2 = false) as -> by by apply ceq_false. done.
  - by rewrite IH.
Qed.

Lemma om_find_erase_eq k m : om_sorted m -> om_find k (om_erase k m) = None.
Proof.
  induction m as [|[k2 v2] m IH]; [done|]. intros [Hs Hall]%om_sorted_cons. simpl.
  destruct (ceq k k2) eqn:E; simpl.
  - apply ceq_true in E as ->. by apply om_find_below.
  - rewrite E. by apply IH.
Qed.

Lemma om_set_all (P : K -> V -> Prop) k v m :
  om_all P m -> P k v -> om_all P (om_set k v m).
Proof.
  intros Hall HP. induction Hall as [|[k' v'] m Hk Hall IH]; simpl in *.
  - by constructor.
  - destruct (cmp k k') eqn:E; repeat constructor; done.
Qed.

Lemma om_erase_all (P : K -> V -> Prop) k m : om_all P m -> om_all P (om_erase k m).
Proof.
  induction 1 as [|[k' v'] m Hk Hall IH]; simpl in *; [constructor|].
  destruct (ceq k k'); [done|]. by constructor.
Qed.

Lemma om_all_find (P : K -> V -> Prop) k v m :
  om_all P m -> om_find k m = Some v -> P k v.
Proof.
  intros Hall Hf%om_find_elem. unfold om_all in Hall. rewrite Forall_forall in Hall.
  by apply (Hall (k, v)).
Qed.

Lemma om_all_intro (P : K -> V -> Prop) m :
  om_sorted m -> (forall k v, om_find k m = Some v -> P k v) -> om_all P m.
Proof.
  intros Hs HP. unfold om_all. apply Forall_forall. intros [k v] Hin. simpl.
  apply HP. by apply om_elem_find.
Qed.

Lemma om_all_impl (P Q : K -> V -> Prop) m :
  om_all P m -> (forall k v, P k v -> Q k v) -> om_all Q m.
Proof. intros Hall HPQ. eapply Forall_impl; [exact Hall|]. intros [k v]. apply HPQ. Qed.

Lemma om_set_sorted k v m : om_sorted m -> om_sorted (om_set k v m).
Proof.
  induction m as [|[k' v'] m IH]; simpl; [repeat constructor|].
  intros [Hs Hall]%om_sorted_cons.
  destruct (cmp k k') eqn:E.
  - apply cmp_eq in E as ->. by apply om_sorted_cons.
  - apply om_sorted_cons. split; [by apply om_sorted_cons|].
    constructor; [done|]. eapply Forall_impl; [exact Hall|]. simpl. intros e.
    by apply cmp_lt_trans.
  - apply om_sorted_cons. split; [by apply IH|].
    apply (om_set_all (fun k2 _ => cmp k' k2 = Lt)); [done|]. by apply cmp_gt_lt.
Qed.

Lemma om_erase_sorted k m : om_sorted m -> om_sorted (om_erase k m).
Proof.
  induction m as [|[k' v'] m IH]; simpl; [done|]. intros [Hs Hall]%om_sorted_cons.
  destruct (ceq k k'); [done|]. apply om_sorted_cons. split; [by apply IH|].
  by apply (om_erase_all (fun k2 _ => cmp k' k2 = Lt)).
Qed.

Lemma om_total_set (f : V -> nat) k v m :
  om_sorted m ->
  (om_total f (om_set k v m) + opt_total f (om_find k m) = om_total f m + f v)%nat.
Proof.
  induction m as [|[k' v'] m IH]; [simpl; lia|]. intros [Hs Hall]%om_sorted_cons.
  specialize (IH Hs). simpl. unfold ceq. destruct (cmp k k') eqn:E; simpl; [lia| |lia].
  rewrite om_find_below; [simpl; lia|]. eapply Forall_impl; [exact Hall|].
  intros e. by apply cmp_lt_trans.
Qed.

Lemma om_total_erase (f : V -> nat) k m :
  (om_total f (om_erase k m) + opt_total f (om_find k m) = om_total f m)%nat.
Proof.
  induction m as [|[k' v'] m IH]; simpl; [lia|].
  destruct (ceq k k'); simpl; lia.
Qed.

Lemma om_length_total m : length m = om_total (fun _ => 1%nat) m.
Proof. induction m; simpl; lia. Qed.

Lemma om_find_total (f : V -> nat) k v m :
  om_find k m = Some v -> (f v <= om_total f m)%nat.
Proof.
  induction m as [|[k' v'] m IH]; simpl; [done|].
  destruct (ceq k k'); [intros [= ->]; lia | intros Hf; specialize (IH Hf); lia].
Qed.

(** Two sorted maps with the same lookups are equal. *)
Lemma om_ext m1 m2 :
  om_sorted m1 -> om_sorted m2 -> (forall k, om_find k m1 = om_find k m2) -> m1 = m2.
Proof.
  intros Hs1 Hs2 Hext.
  apply (sorted_perm_unique fst).
  - by apply strict_sorted_le.
  - by apply strict_sorted_le.
  - apply NoDup_Permutation.
    + apply (NoDup_fmap_1 fst). by apply strict_sorted_nodup.
    + apply (NoDup_fmap_1 fst). by apply strict_sorted_nodup.
    + intros [k v]. split; intros Hin; apply om_find_elem;
        [rewrite <- Hext | rewrite Hext]; by apply om_elem_find.
  - by apply strict_sorted_nodup.
Qed.

Lemma om_set_id k v m : om_sorted m -> om_find k m = Some v -> om_set k v m = m.
Proof.
  intros Hs Hf. apply om_ext; [by apply om_set_sorted|done|]. intros k'.
  rewrite om_find_set. destruct (ceq k' k) eqn:E; [|done].
  apply ceq_true in E as ->. done.
Qed.

Lemma om_set_set k v v' m : om_sorted m -> om_set k v (om_set k v' m) = om_set k v m.
Proof.
  intros Hs. apply om_ext; try by repeat apply om_set_sorted. intros k2.
  rewrite !om_find_set. by destruct (ceq k2 k).
Qed.

(** A key above all present ones goes to the end. *)
Lemma om_set_last k v m :
  Forall (fun e => cmp (fst e) k = Lt) m -> om_set k v m = m ++ [(k, v)] /\ om_find k m = None.
Proof.
  induction 1 as [|[k' v'] m Hk Hm [IH1 IH2]]; [done|]. cbn in *. unfold ceq.
  rewrite (cmp_flip k' k), Hk. cbn. by rewrite IH1, IH2.
Qed.

Lemma om_sorted_before m e m' : om_sorted (m ++ e :: m') -> Forall (fun a => cmp (fst a) (fst e) = Lt) m.
Proof.
  induction m as [|a m IH]; intros Hs; [constructor|]. apply StronglySorted_inv in Hs as [Hs Ha].
  constructor; [|by apply IH]. apply Forall_app in Ha as [_ Ha]. by apply Forall_cons in Ha as [Ha _].
Qed.

Lemma om_find_None_elem k v m : om_find k m = None -> (k, v) ∈ m -> False.
Proof.
  induction m as [|[k' v'] m IH]; simpl; [intros _ Hin; by apply elem_of_nil in Hin|].
  destruct (ceq k k') eqn:E; [done|]. apply ceq_false in E.
  intros Hf [[= -> ->]|Hin]%elem_of_cons; [done|]. by apply IH.
Qed.
End facts.
End ordmap.

#[export] Hint Resolve om_set_sorted om_erase_sorted om_set_all om_erase_all : ocreg.
