(* ===== verification/Checked.v ===== *)
(** * Checked arithmetic (include/ocreg/checked.hpp)

    The overflow-reporting helpers, for every integral type at once: a type
    is its signedness and width, [numeric_limits] are its bounds and
    [static_cast] is reduction into its range.  The helpers return the
    result, or [None] where the source returns [false]. *)

From Stdlib Require Import ZArith Lia.
From stdpp Require Import base tactics.
From S2P Require Import Prelude.

Record IntTy := mkIntTy { it_signed : bool; it_width : Z }.

Definition uint64_t : IntTy := mkIntTy false 64.
Definition uint32_t : IntTy := mkIntTy false 32.
Definition int64_t : IntTy := mkIntTy true 64.

Definition int_min (t : IntTy) : Z := if it_signed t then - 2 ^ (it_width t - 1) else 0.
Definition int_max (t : IntTy) : Z :=
  if it_signed t then 2 ^ (it_width t - 1) - 1 else 2 ^ it_width t - 1.
Definition fits (t : IntTy) (x : Z) : Prop := int_min t <= x <= int_max t.
Definition fitsb (t : IntTy) (x : Z) : bool := (int_min t <=? x) && (x <=? int_max t).
Definition cast (t : IntTy) (x : Z) : Z := (x - int_min t) mod 2 ^ it_width t + int_min t.

Definition checked_add (t : IntTy) (a b : Z) : option Z :=
  if negb (it_signed t) then
    if a >? cast t (int_max t - b) then None else Some (cast t (a + b))
  else if (b >? 0) && (a >? cast t (int_max t - b)) then None
  else if (b <? 0) && (a <? cast t (int_min t - b)) then None
  else Some (cast t (a + b)).

Definition checked_sub (t : IntTy) (a b : Z) : option Z :=
  if negb (it_signed t) then
    if a <? b then None else Some (cast t (a - b))
  else if (b <? 0) && (a >? cast t (int_max t + b)) then None
  else if (b >? 0) && (a <? cast t (int_min t + b)) then None
  else Some (cast t (a - b)).

Definition checked_mul (t : IntTy) (a b : Z) : option Z :=
  if (a =? 0) || (b =? 0) then Some 0
  else if negb (it_signed t) then
    if a >? cast t (Z.quot (int_max t) b) then None else Some (cast t (a * b))
  else
    let overflow :=
      if a >? 0 then
        if b >? 0 then a >? Z.quot (int_max t) b else b <? Z.quot (int_min t) a
      else
        if b >? 0 then a <? Z.quot (int_min t) b
        else negb (a =? 0) && (b <? Z.quot (int_max t) a) in
    if overflow then None else Some (cast t (a * b)).

Definition checked_div (t : IntTy) (a b : Z) : option Z :=
  if b =? 0 then None
  else if it_signed t && (a =? int_min t) && (b =? -1) then None
  else Some (cast t (Z.quot a b)).

(** The type of the usual arithmetic conversions. *)
Definition promote (t : IntTy) : IntTy :=
  if it_width t <? 32 then mkIntTy true 32 else t.
Definition common_type (a b : IntTy) : IntTy :=
  let a := promote a in let b := promote b in
  if Bool.eqb (it_signed a) (it_signed b) then
    mkIntTy (it_signed a) (Z.max (it_width a) (it_width b))
  else
    let u := if it_signed a then b else a in
    let s := if it_signed a then a else b in
    if it_width u >=? it_width s then u else s.

Definition checked_narrow (to from : IntTy) (value : Z) : option Z :=
  if it_signed from && negb (it_signed to) && (value <? 0) then None
  else
    let c := common_type to from in
    let widened := cast c value in
    if widened <? cast c (int_min to) then None
    else if widened >? cast c (int_max to) then None
    else Some (cast to value).

Definition fits_u32 (value : Z) : bool := value <=? int_max uint32_t.
Definition fits_size (value : Z) : bool := value <=? int_max uint64_t.

(** [BoundedCounter]. *)
Record BoundedCounter := mkBoundedCounter { bc_value : Z; bc_limit : Z }.

Definition bc_try_add (c : BoundedCounter) (amount : Z) : bool * BoundedCounter :=
  match checked_add uint64_t (bc_value c) amount with
  | None => (false, c)
  | Some next => if next >? bc_limit c then (false, c) else (true, mkBoundedCounter next (bc_limit c))
  end.
Definition bc_reset (c : BoundedCounter) : BoundedCounter := mkBoundedCounter 0 (bc_limit c).

(** ** Facts *)

(** A type of the source: at least one bit. *)
Definition int_ok (t : IntTy) : Prop := 0 < it_width t.

Lemma int_range t : int_ok t -> int_max t = int_min t + 2 ^ it_width t - 1 /\ 1 <= 2 ^ it_width t.
Proof.
  intros Hw. unfold int_max, int_min, int_ok in *. split; [|lia].
  destruct (it_signed t); [|lia].
  replace (it_width t) with (Z.succ (it_width t - 1)) at 3 by lia.
  rewrite Z.pow_succ_r by lia. lia.
Qed.

Lemma int_signs t : int_ok t -> int_min t <= 0 <= int_max t.
Proof.
  intros Hw. unfold int_max, int_min, int_ok in *.
  destruct (it_signed t); [|lia].
  pose proof (Z.pow_pos_nonneg 2 (it_width t - 1)). lia.
Qed.

Lemma fitsb_true t x : fitsb t x = true <-> fits t x.
Proof. unfold fitsb, fits. rewrite andb_true_iff, !Z.leb_le. done. Qed.

Lemma cast_fits t x : int_ok t -> fits t x -> cast t x = x.
Proof.
  intros Hw [H1 H2]. destruct (int_range t Hw) as [Hm _]. unfold cast.
  rewrite Z.mod_small; lia.
Qed.

(** Common frame: an operation that returns [Some (cast t r)] exactly when [r]
    is in range returns the mathematical result or nothing. *)
Lemma checked_frame (t : IntTy) (r : Z) (b : bool) :
  int_ok t -> (b = true <-> ~ fits t r) ->
  (if b then None else Some (cast t r)) = (if fitsb t r then Some r else None).
Proof.
  intros Hw Hb. destruct (fitsb t r) eqn:E.
  - apply fitsb_true in E. destruct b; [by destruct (proj1 Hb eq_refl)|].
    by rewrite cast_fits.
  - destruct b; [done|]. exfalso. assert (fits t r \/ ~ fits t r) as [Hf|Hf].
    { unfold fits. lia. }
    + apply fitsb_true in Hf. congruence.
    + by apply Hb in Hf.
Qed.

Lemma quot_pos_gt m a b : 0 <= m -> 0 < b -> (a >? Z.quot m b) = true <-> m < a * b.
Proof.
  intros Hm Hb. rewrite Z.gtb_ltb, Z.ltb_lt, Z.quot_div_nonneg by lia.
  pose proof (Z.div_mod m b). pose proof (Z.mod_pos_bound m b). nia.
Qed.

Lemma quot_neg_lt m a b : m <= 0 -> 0 < a -> (b <? Z.quot m a) = true <-> a * b < m.
Proof.
  intros Hm Ha. rewrite Z.ltb_lt.
  replace m with (- (- m)) by lia. rewrite Z.quot_opp_l by lia.
  rewrite Z.quot_div_nonneg by lia.
  pose proof (Z.div_mod (- m) a). pose proof (Z.mod_pos_bound (- m) a). nia.
Qed.

Lemma quot_negneg_lt m a b : 0 <= m -> a < 0 -> (b <? Z.quot m a) = true <-> m < a * b.
Proof.
  intros Hm Ha. rewrite Z.ltb_lt.
  replace a with (- (- a)) at 1 by lia. rewrite Z.quot_opp_r by lia.
  rewrite Z.quot_div_nonneg by lia.
  pose proof (Z.div_mod m (- a)). pose proof (Z.mod_pos_bound m (- a)). nia.
Qed.

Lemma checked_add_exact t a b :
  int_ok t -> fits t a -> fits t b ->
  checked_add t a b = if fitsb t (a + b) then Some (a + b) else None.
Proof.
  intros Hw Ha Hb. pose proof (int_range t Hw). pose proof (int_signs t Hw).
  unfold fits in *. unfold checked_add. destruct (it_signed t) eqn:Es; simpl.
  - rewrite <- (checked_frame t (a + b)
      (((b >? 0) && (a >? cast t (int_max t - b))) || ((b <? 0) && (a <? cast t (int_min t - b)))) Hw).
    + by destruct ((b >? 0) && _), ((b <? 0) && _).
    + destruct (Z.gtb_spec b 0), (Z.ltb_spec b 0); try lia; simpl;
        rewrite ?orb_false_r, ?cast_fits by (unfold fits; lia || done);
        unfold fits; rewrite ?Z.gtb_ltb, ?Z.ltb_lt; lia.
  - unfold int_min in *. rewrite Es in *.
    rewrite cast_fits by (unfold fits, int_min; rewrite ?Es; lia || done).
    apply checked_frame; [done|]. unfold fits, int_min. rewrite Es, Z.gtb_ltb, Z.ltb_lt. lia.
Qed.

Lemma checked_sub_exact t a b :
  int_ok t -> fits t a -> fits t b ->
  checked_sub t a b = if fitsb t (a - b) then Some (a - b) else None.
Proof.
  intros Hw Ha Hb. pose proof (int_range t Hw). pose proof (int_signs t Hw).
  unfold fits in *. unfold checked_sub. destruct (it_signed t) eqn:Es; simpl.
  - rewrite <- (checked_frame t (a - b)
      (((b <? 0) && (a >? cast t (int_max t + b))) || ((b >? 0) && (a <? cast t (int_min t + b)))) Hw).
    + by destruct ((b <? 0) && _), ((b >? 0) && _).
    + destruct (Z.gtb_spec b 0), (Z.ltb_spec b 0); try lia; simpl;
        rewrite ?orb_false_r, ?cast_fits by (unfold fits; lia || done);
        unfold fits; rewrite ?Z.gtb_ltb, ?Z.ltb_lt; lia.
  - apply checked_frame; [done|]. unfold fits, int_min in *. rewrite Es in *.
    rewrite Z.ltb_lt. lia.
Qed.

Lemma checked_mul_exact t a b :
  int_ok t -> fits t a -> fits t b ->
  checked_mul t a b = if fitsb t (a * b) then Some (a * b) else None.
Proof.
  intros Hw Ha Hb. pose proof (int_range t Hw). pose proof (int_signs t Hw) as Hsg.
  unfold checked_mul. destruct ((a =? 0) || (b =? 0)) eqn:Ez.
  { assert (a * b = 0) as -> by (apply orb_true_iff in Ez; lia).
    assert (fitsb t 0 = true) as -> by by apply fitsb_true. done. }
  apply orb_false_iff in Ez as [Ea Eb]. zb.
  destruct (it_signed t) eqn:Es; simpl.
  - apply checked_frame; [done|]. unfold fits in *.
    destruct (Z.gtb_spec a 0), (Z.gtb_spec b 0); simpl.
    + rewrite quot_pos_gt by lia. nia.
    + rewrite quot_neg_lt by lia. nia.
    + rewrite quot_neg_lt by lia. nia.
    + destruct (Z.eqb_spec a 0); [lia|]. simpl. rewrite quot_negneg_lt by lia. nia.
  - unfold int_min in *. rewrite Es in *.
    rewrite cast_fits; [| done | ].
    + apply checked_frame; [done|]. unfold fits, int_min in *. rewrite Es in *.
      rewrite quot_pos_gt by lia. nia.
    + unfold fits, int_min in *. rewrite Es in *. rewrite Z.quot_div_nonneg by lia.
      split; [apply Z.div_pos; lia|]. apply Z.div_le_upper_bound; [lia|]. nia.
Qed.

Lemma quot_bounds a b : b <> 0 -> Z.abs (Z.quot a b) <= Z.abs a.
Proof.
  intros Hb. rewrite <- Z.quot_abs by done. rewrite Z.quot_div_nonneg by lia.
  apply Z.div_le_upper_bound; nia.
Qed.

Lemma checked_div_exact t a b :
  int_ok t -> fits t a -> fits t b ->
  checked_div t a b =
    if b =? 0 then None else if fitsb t (Z.quot a b) then Some (Z.quot a b) else None.
Proof.
  intros Hw Ha Hb. pose proof (int_range t Hw). pose proof (int_signs t Hw) as Hsg.
  unfold checked_div. destruct (Z.eqb_spec b 0) as [->|Hne]; [done|].
  apply checked_frame; [done|]. pose proof (quot_bounds a b Hne) as Hq.
  unfold fits in *. destruct (it_signed t) eqn:Es; simpl.
  - assert (int_max t = - int_min t - 1) as Hmx by (unfold int_max, int_min; rewrite Es; lia).
    destruct (Z.eqb_spec a (int_min t)) as [Hmin|]; simpl; [|split; [done|]; lia].
    destruct (Z.eqb_spec b (-1)) as [->|Hb1].
    + change (-1) with (- (1)). rewrite Z.quot_opp_r, Z.quot_1_r by lia. lia.
    + split; [done|]. intros Hn. exfalso. apply Hn.
      split; [lia|]. destruct (Z_lt_le_dec 0 b).
      * assert (Z.quot a b <= 0); [|lia]. replace a with (- (- a)) by lia.
        rewrite Z.quot_opp_l, Z.quot_div_nonneg by lia.
        pose proof (Z.div_pos (- a) b). lia.
      * replace a with (- (- a)) by lia. replace b with (- (- b)) by lia.
        rewrite Z.quot_opp_opp, Z.quot_div_nonneg by lia.
        assert ((- a) / (- b) <= (- a) / 2) by (apply Z.div_le_compat_l; lia).
        assert ((- a) / 2 <= - int_min t - 1); [|lia].
        pose proof (Z.div_mod (- a) 2). pose proof (Z.mod_pos_bound (- a) 2). lia.
  - unfold int_min in *. rewrite Es in *.
    rewrite Z.quot_div_nonneg in * by lia. pose proof (Z.div_pos a b). split; [done|]. lia.
Qed.

(** Every checked helper returns the mathematical result exactly when that
    result is representable in the operand type, and reports failure otherwise
    (division also refuses a zero divisor): no result ever wraps. *)
Theorem checked_arithmetic_exact (t : IntTy) (a b : Z) :
  int_ok t -> fits t a -> fits t b ->
  checked_add t a b = (if fitsb t (a + b) then Some (a + b) else None) /\
  checked_sub t a b = (if fitsb t (a - b) then Some (a - b) else None) /\
  checked_mul t a b = (if fitsb t (a * b) then Some (a * b) else None) /\
  checked_div t a b =
    (if b =? 0 then None else if fitsb t (Z.quot a b) then Some (Z.quot a b) else None).
Proof.
  intros Hw Ha Hb. split_and!; [apply checked_add_exact | apply checked_sub_exact
    | apply checked_mul_exact | apply checked_div_exact]; done.
Qed.

Lemma checked_arithmetic_exact_witness :
  checked_mul int64_t i64_min (-1) = None /\ checked_mul uint64_t 4294967296 4294967296 = None /\
  checked_mul int64_t (-6) 7 = Some (-42).
Proof.
  pose proof (checked_arithmetic_exact int64_t (-6) 7) as Hw.
  assert (int_ok int64_t) as H1 by reflexivity.
  assert (fits int64_t (-6)) as H2 by (apply fitsb_true; reflexivity).
  assert (fits int64_t 7) as H3 by (apply fitsb_true; reflexivity).
  destruct (Hw H1 H2 H3) as (_ & _ & Hm & _).
  split; [reflexivity | split; [reflexivity | exact Hm]].
Defined.

Lemma cast_id_u t x : it_signed t = false -> 0 <= x < 2 ^ it_width t -> cast t x = x.
Proof.
  intros Es Hx. unfold cast, int_min. rewrite Es, Z.mod_small; lia.
Qed.

(** The one instantiation family the code uses: unsigned to unsigned, at
    widths no integer promotion touches. *)
Lemma checked_narrow_exact wt wf x :
  32 <= wt -> 32 <= wf -> 0 <= x < 2 ^ wf ->
  checked_narrow (mkIntTy false wt) (mkIntTy false wf) x =
    if x <? 2 ^ wt then Some x else None.
Proof.
  intros Ht Hf Hx. unfold checked_narrow, common_type, promote. simpl.
  destruct (Z.ltb_spec wt 32), (Z.ltb_spec wf 32); try lia. simpl.
  assert (2 ^ wt <= 2 ^ Z.max wt wf) by (apply Z.pow_le_mono_r; lia).
  assert (2 ^ wf <= 2 ^ Z.max wt wf) by (apply Z.pow_le_mono_r; lia).
  assert (0 < 2 ^ wt) by lia.
  rewrite !(cast_id_u (mkIntTy false (Z.max wt wf))) by (simpl; unfold int_min, int_max; simpl; lia).
  unfold int_min, int_max; simpl.
  destruct (Z.ltb_spec x 0); [lia|]. destruct (Z.ltb_spec x (2 ^ wt)).
  - destruct (Z.gtb_spec x (2 ^ wt - 1)); [lia|]. rewrite cast_id_u; simpl; auto with lia.
  - destruct (Z.gtb_spec x (2 ^ wt - 1)); [done|lia].
Qed.

Lemma bc_try_add_bounded c amount :
  0 <= bc_value c <= bc_limit c -> bc_limit c <= u64_max -> 0 <= amount <= u64_max ->
  let '(ok, c') := bc_try_add c amount in
  bc_limit c' = bc_limit c /\
  (ok = true <-> bc_value c + amount <= bc_limit c) /\
  bc_value c' = (if ok then bc_value c + amount else bc_value c) /\
  0 <= bc_value c' <= bc_limit c'.
Proof.
  intros Hc Hl Ha. unfold bc_try_add, u64_max in *.
  rewrite checked_add_exact by (try reflexivity; unfold fits, int_min, int_max; simpl; lia).
  destruct (fitsb uint64_t (bc_value c + amount)) eqn:E.
  - apply fitsb_true in E. destruct (Z.gtb_spec (bc_value c + amount) (bc_limit c)); simpl;
      repeat split; try done; lia.
  - simpl. repeat split; try done; try lia. intros Hle. exfalso.
    assert (fits uint64_t (bc_value c + amount)) as Hf
      by (unfold fits, int_min, int_max; simpl; lia).
    apply fitsb_true in Hf. congruence.
Qed.
