(* ===== verification/Reason.v ===== *)
(** * Reason codes (include/ocreg/reason.hpp, src/reason.cpp)

    The closed table of stable reason codes: numeric value, category and
    failure flag of each code, its canonical spelling, and the look-ups over
    the table. *)

From Stdlib Require Import ZArith Lia Ascii String.
From stdpp Require Import base tactics list strings.
From S2P Require Import Prelude.

Inductive ReasonCategory :=
| Acceptance | Idempotent | Rejection | Unknown_ | Incompatible_ | Conflict | Persistence
| Recovery | Accounting | Transport | Cancellation.

(** One constructor per row of [OCREG_REASON_TABLE]; [Ok] is [Ok_]. *)
Inductive ReasonCode :=
| Ok_
| AcceptedNew
| AcceptedSuperseding
| AlreadyPresent
| AcceptedAuthoritativeOverride
| AcceptedAfterRetirement
| RejectedMalformedName
| RejectedMalformedVersion
| RejectedMalformedFeature
| RejectedMalformedLimit
| RejectedMalformedDocument
| RejectedOversizedInput
| RejectedTruncatedInput
| RejectedDuplicateKey
| RejectedInvalidUtf8
| RejectedNestingTooDeep
| RejectedUnexpectedField
| RejectedMissingField
| RejectedTrailingGarbage
| RejectedUnknownCapabilityKind
| RejectedUnknownFeatureCode
| RejectedUnknownLimitCode
| RejectedFeatureNotInKind
| RejectedLimitNotInKind
| RejectedLimitUnitInvalid
| RejectedLimitUnitScaleInvalid
| RejectedNegativeLimit
| RejectedLimitScaleNotPermitted
| RejectedUnsupportedSemanticVersion
| RejectedZeroIncarnation
| RejectedUnknownSource
| RejectedSourceRevoked
| RejectedSourceUntrusted
| RejectedAuthorityInsufficient
| RejectedGenerationRegression
| RejectedGenerationCollision
| RejectedSupersededGeneration
| RejectedStaleObservation
| RejectedFutureObservation
| RejectedValidityWindowInverted
| RejectedRetiredStream
| RejectedDeviceIncarnationFenced
| RejectedEpochOutOfRange
| RejectedRuleGenerationOutOfRange
| RejectedFeatureBudgetExceeded
| RejectedLimitBudgetExceeded
| RejectedRecordBudgetExhausted
| RejectedHistoryBudgetExhausted
| RejectedStreamBudgetExhausted
| RejectedDeviceBudgetExhausted
| RejectedBeyondRetentionHorizon
| UnknownNoEvidence
| UnknownStaleEvidence
| UnknownConflictingEvidence
| UnknownEvidenceEvicted
| UnknownFencedEvidence
| UnknownUnitMismatch
| UnknownInexactUnitConversion
| UnknownLimitNotReported
| UnknownDeviceNotRegistered
| UnknownIncarnationNotCurrent
| UnknownSourceNotConfigured
| UnknownPolicyNotConfigured
| UnknownCapabilityRetired
| UnknownRuleGenerationMismatch
| UnknownFirmwareGenerationAbsent
| UnknownRuntimeGenerationAbsent
| UnknownTruncatedHistory
| IncompatibleVersionTooLow
| IncompatibleFeatureAbsent
| IncompatibleLimitBelowRequirement
| IncompatibleFirmwareGenerationTooLow
| IncompatibleRuntimeGenerationTooLow
| IncompatibleCapabilityRetired
| IncompatibleDeviceReincarnated
| IncompatibleSourceRevoked
| ConflictEqualAuthority
| ConflictOutranked
| ConflictResolvedByAuthority
| ConflictResolvedByResolution
| ConflictUnresolved
| EvictedSuperseded
| EvictedRetired
| EvictedBudgetPressure
| EvictionRecorded
| ExportTruncated
| ExportComplete
| StoreNotFound
| StoreEmptyNew
| StoreHeaderCorrupt
| StoreVersionIncompatible
| StoreSemanticMismatch
| StorePayloadCorrupt
| StoreTornTail
| StoreJournalCorrupt
| StoreFooterMissing
| StoreOversized
| StoreWriteFailed
| StoreReadFailed
| StoreSyncFailed
| StoreEpochReplay
| StoreBootReplay
| StoreIncarnationReplay
| StoreGenerationReplay
| StoreRotationPerformed
| StoreCommitDurable
| RecoveryCleanOpen
| RecoveryTornTailTruncated
| RecoveryTrailingCorruptDropped
| RecoveryRefused
| RecoveryRebuiltFromSnapshot
| RecoveryJournalReplayed
| ProtocolFrameTooLarge
| ProtocolFrameMalformed
| ProtocolVersionUnsupported
| ProtocolChecksumMismatch
| ProtocolSequenceViolation
| ProtocolUnknownOpcode
| ProtocolConnectionLimit
| ProtocolBackpressure
| ProtocolShutdownInProgress
| ProtocolRequestIdReplay
| TransportClosed
| TransportUnavailable
| TransportListening
| TransportAccepted
| Cancelled
| CancelTooLate
| InternalInvariantViolated.

(** [static_cast<std::uint16_t>(code)]. *)
Definition reason_num (r : ReasonCode) : Z :=
  match r with
  | Ok_ => 0
  | AcceptedNew => 1
  | AcceptedSuperseding => 2
  | AlreadyPresent => 3
  | AcceptedAuthoritativeOverride => 4
  | AcceptedAfterRetirement => 5
  | RejectedMalformedName => 16
  | RejectedMalformedVersion => 17
  | RejectedMalformedFeature => 18
  | RejectedMalformedLimit => 19
  | RejectedMalformedDocument => 20
  | RejectedOversizedInput => 21
  | RejectedTruncatedInput => 22
  | RejectedDuplicateKey => 23
  | RejectedInvalidUtf8 => 24
  | RejectedNestingTooDeep => 25
  | RejectedUnexpectedField => 26
  | RejectedMissingField => 27
  | RejectedTrailingGarbage => 28
  | RejectedUnknownCapabilityKind => 32
  | RejectedUnknownFeatureCode => 33
  | RejectedUnknownLimitCode => 34
  | RejectedFeatureNotInKind => 35
  | RejectedLimitNotInKind => 36
  | RejectedLimitUnitInvalid => 37
  | RejectedLimitUnitScaleInvalid => 38
  | RejectedNegativeLimit => 39
  | RejectedLimitScaleNotPermitted => 40
  | RejectedUnsupportedSemanticVersion => 41
  | RejectedZeroIncarnation => 42
  | RejectedUnknownSource => 48
  | RejectedSourceRevoked => 49
  | RejectedSourceUntrusted => 50
  | RejectedAuthorityInsufficient => 51
  | RejectedGenerationRegression => 52
  | RejectedGenerationCollision => 53
  | RejectedSupersededGeneration => 54
  | RejectedStaleObservation => 55
  | RejectedFutureObservation => 56
  | RejectedValidityWindowInverted => 57
  | RejectedRetiredStream => 58
  | RejectedDeviceIncarnationFenced => 59
  | RejectedEpochOutOfRange => 60
  | RejectedRuleGenerationOutOfRange => 61
  | RejectedFeatureBudgetExceeded => 62
  | RejectedLimitBudgetExceeded => 63
  | RejectedRecordBudgetExhausted => 64
  | RejectedHistoryBudgetExhausted => 65
  | RejectedStreamBudgetExhausted => 66
  | RejectedDeviceBudgetExhausted => 67
  | RejectedBeyondRetentionHorizon => 68
  | UnknownNoEvidence => 80
  | UnknownStaleEvidence => 81
  | UnknownConflictingEvidence => 82
  | UnknownEvidenceEvicted => 83
  | UnknownFencedEvidence => 84
  | UnknownUnitMismatch => 85
  | UnknownInexactUnitConversion => 86
  | UnknownLimitNotReported => 87
  | UnknownDeviceNotRegistered => 88
  | UnknownIncarnationNotCurrent => 89
  | UnknownSourceNotConfigured => 90
  | UnknownPolicyNotConfigured => 91
  | UnknownCapabilityRetired => 92
  | UnknownRuleGenerationMismatch => 93
  | UnknownFirmwareGenerationAbsent => 94
  | UnknownRuntimeGenerationAbsent => 95
  | UnknownTruncatedHistory => 96
  | IncompatibleVersionTooLow => 112
  | IncompatibleFeatureAbsent => 113
  | IncompatibleLimitBelowRequirement => 114
  | IncompatibleFirmwareGenerationTooLow => 115
  | IncompatibleRuntimeGenerationTooLow => 116
  | IncompatibleCapabilityRetired => 117
  | IncompatibleDeviceReincarnated => 118
  | IncompatibleSourceRevoked => 119
  | ConflictEqualAuthority => 144
  | ConflictOutranked => 145
  | ConflictResolvedByAuthority => 146
  | ConflictResolvedByResolution => 147
  | ConflictUnresolved => 148
  | EvictedSuperseded => 160
  | EvictedRetired => 161
  | EvictedBudgetPressure => 162
  | EvictionRecorded => 163
  | ExportTruncated => 164
  | ExportComplete => 165
  | StoreNotFound => 176
  | StoreEmptyNew => 177
  | StoreHeaderCorrupt => 178
  | StoreVersionIncompatible => 179
  | StoreSemanticMismatch => 180
  | StorePayloadCorrupt => 181
  | StoreTornTail => 182
  | StoreJournalCorrupt => 183
  | StoreFooterMissing => 184
  | StoreOversized => 185
  | StoreWriteFailed => 186
  | StoreReadFailed => 187
  | StoreSyncFailed => 188
  | StoreEpochReplay => 189
  | StoreBootReplay => 190
  | StoreIncarnationReplay => 191
  | StoreGenerationReplay => 192
  | StoreRotationPerformed => 193
  | StoreCommitDurable => 194
  | RecoveryCleanOpen => 208
  | RecoveryTornTailTruncated => 209
  | RecoveryTrailingCorruptDropped => 210
  | RecoveryRefused => 211
  | RecoveryRebuiltFromSnapshot => 212
  | RecoveryJournalReplayed => 213
  | ProtocolFrameTooLarge => 224
  | ProtocolFrameMalformed => 225
  | ProtocolVersionUnsupported => 226
  | ProtocolChecksumMismatch => 227
  | ProtocolSequenceViolation => 228
  | ProtocolUnknownOpcode => 229
  | ProtocolConnectionLimit => 230
  | ProtocolBackpressure => 231
  | ProtocolShutdownInProgress => 232
  | ProtocolRequestIdReplay => 233
  | TransportClosed => 234
  | TransportUnavailable => 235
  | TransportListening => 236
  | TransportAccepted => 237
  | Cancelled => 248
  | CancelTooLate => 249
  | InternalInvariantViolated => 250
  end.

Record ReasonRow := mkReasonRow {
  row_code : ReasonCode; row_category : ReasonCategory; row_failure : bool; row_identifier : string }.

(** The rows of the table, in order (kCodes, kCategories, kFailures, kIdentifiers). *)
Definition reason_rows : list ReasonRow :=
  [mkReasonRow Ok_ Acceptance false "Ok";
   mkReasonRow AcceptedNew Acceptance false "AcceptedNew";
   mkReasonRow AcceptedSuperseding Acceptance false "AcceptedSuperseding";
   mkReasonRow AlreadyPresent Idempotent false "AlreadyPresent";
   mkReasonRow AcceptedAuthoritativeOverride Acceptance false "AcceptedAuthoritativeOverride";
   mkReasonRow AcceptedAfterRetirement Acceptance false "AcceptedAfterRetirement";
   mkReasonRow RejectedMalformedName Rejection true "RejectedMalformedName";
   mkReasonRow RejectedMalformedVersion Rejection true "RejectedMalformedVersion";
   mkReasonRow RejectedMalformedFeature Rejection true "RejectedMalformedFeature";
   mkReasonRow RejectedMalformedLimit Rejection true "RejectedMalformedLimit";
   mkReasonRow RejectedMalformedDocument Rejection true "RejectedMalformedDocument";
   mkReasonRow RejectedOversizedInput Rejection true "RejectedOversizedInput";
   mkReasonRow RejectedTruncatedInput Rejection true "RejectedTruncatedInput";
   mkReasonRow RejectedDuplicateKey Rejection true "RejectedDuplicateKey";
   mkReasonRow RejectedInvalidUtf8 Rejection true "RejectedInvalidUtf8";
   mkReasonRow RejectedNestingTooDeep Rejection true "RejectedNestingTooDeep";
   mkReasonRow RejectedUnexpectedField Rejection true "RejectedUnexpectedField";
   mkReasonRow RejectedMissingField Rejection true "RejectedMissingField";
   mkReasonRow RejectedTrailingGarbage Rejection true "RejectedTrailingGarbage";
   mkReasonRow RejectedUnknownCapabilityKind Rejection true "RejectedUnknownCapabilityKind";
   mkReasonRow RejectedUnknownFeatureCode Rejection true "RejectedUnknownFeatureCode";
   mkReasonRow RejectedUnknownLimitCode Rejection true "RejectedUnknownLimitCode";
   mkReasonRow RejectedFeatureNotInKind Rejection true "RejectedFeatureNotInKind";
   mkReasonRow RejectedLimitNotInKind Rejection true "RejectedLimitNotInKind";
   mkReasonRow RejectedLimitUnitInvalid Rejection true "RejectedLimitUnitInvalid";
   mkReasonRow RejectedLimitUnitScaleInvalid Rejection true "RejectedLimitUnitScaleInvalid";
   mkReasonRow RejectedNegativeLimit Rejection true "RejectedNegativeLimit";
   mkReasonRow RejectedLimitScaleNotPermitted Rejection true "RejectedLimitScaleNotPermitted";
   mkReasonRow RejectedUnsupportedSemanticVersion Rejection true "RejectedUnsupportedSemanticVersion";
   mkReasonRow RejectedZeroIncarnation Rejection true "RejectedZeroIncarnation";
   mkReasonRow RejectedUnknownSource Rejection true "RejectedUnknownSource";
   mkReasonRow RejectedSourceRevoked Rejection true "RejectedSourceRevoked";
   mkReasonRow RejectedSourceUntrusted Rejection true "RejectedSourceUntrusted";
   mkReasonRow RejectedAuthorityInsufficient Rejection true "RejectedAuthorityInsufficient";
   mkReasonRow RejectedGenerationRegression Rejection true "RejectedGenerationRegression";
   mkReasonRow RejectedGenerationCollision Rejection true "RejectedGenerationCollision";
   mkReasonRow RejectedSupersededGeneration Rejection true "RejectedSupersededGeneration";
   mkReasonRow RejectedStaleObservation Rejection true "RejectedStaleObservation";
   mkReasonRow RejectedFutureObservation Rejection true "RejectedFutureObservation";
   mkReasonRow RejectedValidityWindowInverted Rejection true "RejectedValidityWindowInverted";
   mkReasonRow RejectedRetiredStream Rejection true "RejectedRetiredStream";
   mkReasonRow RejectedDeviceIncarnationFenced Rejection true "RejectedDeviceIncarnationFenced";
   mkReasonRow RejectedEpochOutOfRange Rejection true "RejectedEpochOutOfRange";
   mkReasonRow RejectedRuleGenerationOutOfRange Rejection true "RejectedRuleGenerationOutOfRange";
   mkReasonRow RejectedFeatureBudgetExceeded Rejection true "RejectedFeatureBudgetExceeded";
   mkReasonRow RejectedLimitBudgetExceeded Rejection true "RejectedLimitBudgetExceeded";
   mkReasonRow RejectedRecordBudgetExhausted Rejection true "RejectedRecordBudgetExhausted";
   mkReasonRow RejectedHistoryBudgetExhausted Rejection true "RejectedHistoryBudgetExhausted";
   mkReasonRow RejectedStreamBudgetExhausted Rejection true "RejectedStreamBudgetExhausted";
   mkReasonRow RejectedDeviceBudgetExhausted Rejection true "RejectedDeviceBudgetExhausted";
   mkReasonRow RejectedBeyondRetentionHorizon Rejection true "RejectedBeyondRetentionHorizon";
   mkReasonRow UnknownNoEvidence Unknown_ false "UnknownNoEvidence";
   mkReasonRow UnknownStaleEvidence Unknown_ false "UnknownStaleEvidence";
   mkReasonRow UnknownConflictingEvidence Unknown_ false "UnknownConflictingEvidence";
   mkReasonRow UnknownEvidenceEvicted Unknown_ false "UnknownEvidenceEvicted";
   mkReasonRow UnknownFencedEvidence Unknown_ false "UnknownFencedEvidence";
   mkReasonRow UnknownUnitMismatch Unknown_ false "UnknownUnitMismatch";
   mkReasonRow UnknownInexactUnitConversion Unknown_ false "UnknownInexactUnitConversion";
   mkReasonRow UnknownLimitNotReported Unknown_ false "UnknownLimitNotReported";
   mkReasonRow UnknownDeviceNotRegistered Unknown_ false "UnknownDeviceNotRegistered";
   mkReasonRow UnknownIncarnationNotCurrent Unknown_ false "UnknownIncarnationNotCurrent";
   mkReasonRow UnknownSourceNotConfigured Unknown_ false "UnknownSourceNotConfigured";
   mkReasonRow UnknownPolicyNotConfigured Unknown_ false "UnknownPolicyNotConfigured";
   mkReasonRow UnknownCapabilityRetired Unknown_ false "UnknownCapabilityRetired";
   mkReasonRow UnknownRuleGenerationMismatch Unknown_ false "UnknownRuleGenerationMismatch";
   mkReasonRow UnknownFirmwareGenerationAbsent Unknown_ false "UnknownFirmwareGenerationAbsent";
   mkReasonRow UnknownRuntimeGenerationAbsent Unknown_ false "UnknownRuntimeGenerationAbsent";
   mkReasonRow UnknownTruncatedHistory Unknown_ false "UnknownTruncatedHistory";
   mkReasonRow IncompatibleVersionTooLow Incompatible_ false "IncompatibleVersionTooLow";
   mkReasonRow IncompatibleFeatureAbsent Incompatible_ false "IncompatibleFeatureAbsent";
   mkReasonRow IncompatibleLimitBelowRequirement Incompatible_ false "IncompatibleLimitBelowRequirement";
   mkReasonRow IncompatibleFirmwareGenerationTooLow Incompatible_ false "IncompatibleFirmwareGenerationTooLow";
   mkReasonRow IncompatibleRuntimeGenerationTooLow Incompatible_ false "IncompatibleRuntimeGenerationTooLow";
   mkReasonRow IncompatibleCapabilityRetired Incompatible_ false "IncompatibleCapabilityRetired";
   mkReasonRow IncompatibleDeviceReincarnated Incompatible_ false "IncompatibleDeviceReincarnated";
   mkReasonRow IncompatibleSourceRevoked Incompatible_ false "IncompatibleSourceRevoked";
   mkReasonRow ConflictEqualAuthority Conflict false "ConflictEqualAuthority";
   mkReasonRow ConflictOutranked Conflict false "ConflictOutranked";
   mkReasonRow ConflictResolvedByAuthority Conflict false "ConflictResolvedByAuthority";
   mkReasonRow ConflictResolvedByResolution Conflict false "ConflictResolvedByResolution";
   mkReasonRow ConflictUnresolved Conflict false "ConflictUnresolved";
   mkReasonRow EvictedSuperseded Accounting false "EvictedSuperseded";
   mkReasonRow EvictedRetired Accounting false "EvictedRetired";
   mkReasonRow EvictedBudgetPressure Accounting false "EvictedBudgetPressure";
   mkReasonRow EvictionRecorded Accounting false "EvictionRecorded";
   mkReasonRow ExportTruncated Accounting false "ExportTruncated";
   mkReasonRow ExportComplete Accounting false "ExportComplete";
   mkReasonRow StoreNotFound Persistence true "StoreNotFound";
   mkReasonRow StoreEmptyNew Persistence false "StoreEmptyNew";
   mkReasonRow StoreHeaderCorrupt Persistence true "StoreHeaderCorrupt";
   mkReasonRow StoreVersionIncompatible Persistence true "StoreVersionIncompatible";
   mkReasonRow StoreSemanticMismatch Persistence true "StoreSemanticMismatch";
   mkReasonRow StorePayloadCorrupt Persistence true "StorePayloadCorrupt";
   mkReasonRow StoreTornTail Persistence false "StoreTornTail";
   mkReasonRow StoreJournalCorrupt Persistence true "StoreJournalCorrupt";
   mkReasonRow StoreFooterMissing Persistence true "StoreFooterMissing";
   mkReasonRow StoreOversized Persistence true "StoreOversized";
   mkReasonRow StoreWriteFailed Persistence true "StoreWriteFailed";
   mkReasonRow StoreReadFailed Persistence true "StoreReadFailed";
   mkReasonRow StoreSyncFailed Persistence true "StoreSyncFailed";
   mkReasonRow StoreEpochReplay Persistence true "StoreEpochReplay";
   mkReasonRow StoreBootReplay Persistence true "StoreBootReplay";
   mkReasonRow StoreIncarnationReplay Persistence true "StoreIncarnationReplay";
   mkReasonRow StoreGenerationReplay Persistence true "StoreGenerationReplay";
   mkReasonRow StoreRotationPerformed Persistence false "StoreRotationPerformed";
   mkReasonRow StoreCommitDurable Persistence false "StoreCommitDurable";
   mkReasonRow RecoveryCleanOpen Recovery false "RecoveryCleanOpen";
   mkReasonRow RecoveryTornTailTruncated Recovery false "RecoveryTornTailTruncated";
   mkReasonRow RecoveryTrailingCorruptDropped Recovery false "RecoveryTrailingCorruptDropped";
   mkReasonRow RecoveryRefused Recovery true "RecoveryRefused";
   mkReasonRow RecoveryRebuiltFromSnapshot Recovery false "RecoveryRebuiltFromSnapshot";
   mkReasonRow RecoveryJournalReplayed Recovery false "RecoveryJournalReplayed";
   mkReasonRow ProtocolFrameTooLarge Transport true "ProtocolFrameTooLarge";
   mkReasonRow ProtocolFrameMalformed Transport true "ProtocolFrameMalformed";
   mkReasonRow ProtocolVersionUnsupported Transport true "ProtocolVersionUnsupported";
   mkReasonRow ProtocolChecksumMismatch Transport true "ProtocolChecksumMismatch";
   mkReasonRow ProtocolSequenceViolation Transport true "ProtocolSequenceViolation";
   mkReasonRow ProtocolUnknownOpcode Transport true "ProtocolUnknownOpcode";
   mkReasonRow ProtocolConnectionLimit Transport true "ProtocolConnectionLimit";
   mkReasonRow ProtocolBackpressure Transport true "ProtocolBackpressure";
   mkReasonRow ProtocolShutdownInProgress Transport true "ProtocolShutdownInProgress";
   mkReasonRow ProtocolRequestIdReplay Transport true "ProtocolRequestIdReplay";
   mkReasonRow TransportClosed Transport true "TransportClosed";
   mkReasonRow TransportUnavailable Transport true "TransportUnavailable";
   mkReasonRow TransportListening Transport false "TransportListening";
   mkReasonRow TransportAccepted Transport false "TransportAccepted";
   mkReasonRow Cancelled Cancellation true "Cancelled";
   mkReasonRow CancelTooLate Cancellation false "CancelTooLate";
   mkReasonRow InternalInvariantViolated Rejection true "InternalInvariantViolated"].

Definition is_upper (c : ascii) : bool :=
  let n := Ascii.N_of_ascii c in (65 <=? n)%N && (n <=? 90)%N.
Definition is_lower (c : ascii) : bool :=
  let n := Ascii.N_of_ascii c in (97 <=? n)%N && (n <=? 122)%N.
Definition is_digit (c : ascii) : bool :=
  let n := Ascii.N_of_ascii c in (48 <=? n)%N && (n <=? 57)%N.
Definition to_lower (c : ascii) : ascii := Ascii.ascii_of_N (Ascii.N_of_ascii c + 32).
Definition to_upper (c : ascii) : ascii := Ascii.ascii_of_N (Ascii.N_of_ascii c - 32).

(** The first loop of [canonical_spelling]: an underscore before an upper-case
    letter that follows a lower-case letter or a digit, and lower-casing. *)
Fixpoint spelling_loop (prev : option ascii) (id : string) : string :=
  match id with
  | EmptyString => EmptyString
  | String c id' =>
      let upper := is_upper c in
      let sep := upper && match prev with
                          | None => false
                          | Some p => is_lower p || is_digit p
                          end in
      let out := String (if upper then to_lower c else c) (spelling_loop (Some c) id') in
      if sep then String "_" out else out
  end.

Fixpoint upcase (s : string) : string :=
  match s with
  | EmptyString => EmptyString
  | String c s' => String (if is_lower c then to_upper c else c) (upcase s')
  end.

Definition canonical_spelling (identifier : string) : string :=
  upcase (spelling_loop None identifier).

Record TableEntry := mkTableEntry {
  te_code : ReasonCode; te_category : ReasonCategory; te_failure : bool; te_text : string }.

Definition reason_table : list TableEntry :=
  (fun r => mkTableEntry (row_code r) (row_category r) (row_failure r)
              (canonical_spelling (row_identifier r))) <$> reason_rows.

Fixpoint table_find (p : TableEntry -> bool) (l : list TableEntry) : option TableEntry :=
  match l with
  | [] => None
  | e :: l' => if p e then Some e else table_find p l'
  end.

Definition find_reason (code : ReasonCode) : option TableEntry :=
  table_find (fun e => reason_num (te_code e) =? reason_num code) reason_table.

Definition reason_to_string (code : ReasonCode) : string :=
  match find_reason code with Some e => te_text e | None => "UNKNOWN_REASON_CODE" end.

Definition is_failure (code : ReasonCode) : bool :=
  match find_reason code with Some e => te_failure e | None => true end.

Definition category_of (code : ReasonCode) : ReasonCategory :=
  match find_reason code with Some e => te_category e | None => Rejection end.

Definition category_num (c : ReasonCategory) : Z :=
  match c with
  | Acceptance => 0 | Idempotent => 1 | Rejection => 2 | Unknown_ => 3 | Incompatible_ => 4
  | Conflict => 5 | Persistence => 6 | Recovery => 7 | Accounting => 8 | Transport => 9
  | Cancellation => 10
  end.

Definition category_to_string (c : ReasonCategory) : string :=
  match c with
  | Acceptance => "ACCEPTANCE" | Idempotent => "IDEMPOTENT" | Rejection => "REJECTION"
  | Unknown_ => "UNKNOWN" | Incompatible_ => "INCOMPATIBLE" | Conflict => "CONFLICT"
  | Persistence => "PERSISTENCE" | Recovery => "RECOVERY" | Accounting => "ACCOUNTING"
  | Transport => "TRANSPORT" | Cancellation => "CANCELLATION"
  end.

Definition parse_reason_code (text : string) : option ReasonCode :=
  te_code <$> table_find (fun e => String.eqb (te_text e) text) reason_table.

Definition reason_code_count : nat := length reason_table.

(** [reason_from] of src/codec.cpp: the switch over the numeric column. *)
Definition reason_from (raw : Z) : option ReasonCode :=
  te_code <$> table_find (fun e => reason_num (te_code e) =? raw) reason_table.

(** ** Facts *)

Lemma reason_from_num r : reason_from (reason_num r) = Some r.
Proof. destruct r; vm_compute; reflexivity. Qed.

Lemma reason_num_inj r s : reason_num r = reason_num s -> r = s.
Proof.
  intros E. apply (f_equal reason_from) in E. rewrite !reason_from_num in E. congruence.
Qed.

#[export] Instance reason_eq_dec : EqDecision ReasonCode.
Proof.
  intros r s. destruct (decide (reason_num r = reason_num s)) as [E|E].
  - left. by apply reason_num_inj.
  - right. congruence.
Defined.

#[export] Instance reason_cmp : Cmp ReasonCode := cmp_on reason_num.
#[export] Instance reason_cmp_laws : CmpLaws ReasonCode.
Proof. apply cmp_on_laws, reason_num_inj. Qed.

#[export] Instance category_eq_dec : EqDecision ReasonCategory.
Proof. solve_decision. Defined.

Lemma reason_num_range r : 0 <= reason_num r < 256.
Proof. destruct r; simpl; lia. Qed.

Lemma table_find_some p l e : table_find p l = Some e -> p e = true /\ e ∈ l.
Proof.
  induction l as [|x l IH]; simpl; [done|]. destruct (p x) eqn:E.
  - intros [= ->]. split; [done|constructor].
  - intros Hf. destruct (IH Hf). split; [done|by constructor].
Qed.

Lemma reason_from_some raw r : reason_from raw = Some r -> reason_num r = raw.
Proof.
  unfold reason_from. destruct (table_find _ _) as [e|] eqn:E; simpl; [|done].
  intros [= <-]. apply table_find_some in E as [E _]. lia.
Qed.

Lemma table_texts e : e ∈ reason_table -> te_text e = reason_to_string (te_code e).
Proof.
  intros Hin%list_elem_of_In. apply String.eqb_eq. revert e Hin. apply forallb_forall.
  vm_compute. reflexivity.
Qed.

Lemma table_failures e :
  e ∈ reason_table -> te_failure e = true ->
  te_category e ∈ [Rejection; Persistence; Recovery; Transport; Cancellation].
Proof.
  intros Hin%list_elem_of_In Hf.
  assert (implb (te_failure e) (bool_decide (te_category e ∈
    [Rejection; Persistence; Recovery; Transport; Cancellation])) = true) as Hb.
  { revert e Hin Hf. intros e Hin _. revert e Hin. apply forallb_forall. vm_compute. reflexivity. }
  rewrite Hf in Hb. simpl in Hb. by apply bool_decide_eq_true in Hb.
Qed.

(** The reason table is closed and unambiguous: every code is found by its
    numeric value and by its canonical spelling and by nothing else, so neither
    the binary nor the textual form can denote two codes, and only codes of the
    rejection, persistence, recovery, transport and cancellation categories are
    failures. *)
Theorem reason_table_unambiguous (r : ReasonCode) :
  reason_from (reason_num r) = Some r /\
  parse_reason_code (reason_to_string r) = Some r /\
  (forall raw, reason_from raw = Some r -> raw = reason_num r) /\
  (forall text, parse_reason_code text = Some r -> text = reason_to_string r) /\
  (is_failure r = true ->
   category_of r ∈ [Rejection; Persistence; Recovery; Transport; Cancellation]).
Proof.
  split_and!.
  - apply reason_from_num.
  - destruct r; vm_compute; reflexivity.
  - intros raw Hr. by apply reason_from_some in Hr.
  - intros text. unfold parse_reason_code.
    destruct (table_find _ _) as [e|] eqn:E; simpl; [|done]. intros [= <-].
    apply table_find_some in E as [Et%String.eqb_eq Hin]. subst text.
    by apply table_texts.
  - destruct (find_reason r) as [e|] eqn:E; unfold is_failure, category_of; rewrite E.
    + apply table_find_some in E as [_ Hin]. by apply table_failures.
    + exfalso. destruct r; vm_compute in E; discriminate.
Qed.
