(* ===== verification/Text.v ===== *)
(** * Text helpers

    What the source uses of [std::string_view] and [std::to_string]: search
    for a separator, character tests, decimal printing and reading, and the
    bytes of a string. *)

From Stdlib Require Import ZArith Lia Ascii String.
From stdpp Require Import base tactics list strings.
From S2P Require Import Prelude Reason.

#[global] Arguments String.append : simpl nomatch.
#[local] Open Scope string_scope.
#[local] Open Scope Z_scope.

(** [pos = s.find(c)]: the text before and after the first [c]. *)
Fixpoint str_break (c : ascii) (s : string) : option (string * string) :=
  match s with
  | EmptyString => None
  | String a s' =>
      if Ascii.eqb a c then Some ("", s')
      else match str_break c s' with
           | Some (x, y) => Some (String a x, y)
           | None => None
           end
  end.

Fixpoint str_all (p : ascii -> bool) (s : string) : bool :=
  match s with
  | EmptyString => true
  | String a s' => p a && str_all p s'
  end.

Definition str_empty (s : string) : bool :=
  match s with EmptyString => true | _ => false end.

Definition char_is (c a : ascii) : bool := Ascii.eqb a c.

Definition digit_val (c : ascii) : Z := Z.of_N (Ascii.N_of_ascii c) - 48.
Definition digit_char (d : Z) : ascii := Ascii.ascii_of_N (Z.to_N (d + 48)).

(** [std::to_string] of an unsigned value.  Twenty digits are enough for any
    64-bit value. *)
Fixpoint dec_loop (fuel : nat) (n : Z) (acc : string) : string :=
  match fuel with
  | O => acc
  | S f => let acc' := String (digit_char (n mod 10)) acc in
           if n <? 10 then acc' else dec_loop f (n / 10) acc'
  end.
Definition dec_str (n : Z) : string := dec_loop 20 n "".

(** The accumulation [value = value * 10 + (c - '0')]. *)
Fixpoint dec_acc (value : Z) (s : string) : Z :=
  match s with
  | EmptyString => value
  | String c s' => dec_acc (value * 10 + digit_val c) s'
  end.
Definition dec_val (s : string) : Z := dec_acc 0 s.

(** The bytes of a string, as values of [std::uint8_t]. *)
Definition byte_of_char (c : ascii) : Z := Z.of_N (Ascii.N_of_ascii c).
Definition char_of_byte (b : Z) : ascii := Ascii.ascii_of_N (Z.to_N b).
Fixpoint bytes_of_string (s : string) : list Z :=
  match s with
  | EmptyString => []
  | String c s' => byte_of_char c :: bytes_of_string s'
  end.
Fixpoint string_of_bytes (l : list Z) : string :=
  match l with
  | [] => ""
  | b :: l' => String (char_of_byte b) (string_of_bytes l')
  end.

(** ** Facts *)

Lemma string_of_bytes_of_string s : string_of_bytes (bytes_of_string s) = s.
Proof.
  induction s as [|c s IH]; simpl; [done|]. rewrite IH. f_equal.
  unfold char_of_byte, byte_of_char. by rewrite N2Z.id, Ascii.ascii_N_embedding.
Qed.

Lemma bytes_of_string_length s : length (bytes_of_string s) = String.length s.
Proof. induction s; simpl; congruence. Qed.

Lemma byte_of_char_range c : 0 <= byte_of_char c < 256.
Proof. unfold byte_of_char. pose proof (Ascii.N_ascii_bounded c). lia. Qed.

Lemma bytes_of_string_range s : Forall (fun b => 0 <= b < 256) (bytes_of_string s).
Proof. induction s; simpl; constructor; [apply byte_of_char_range | done]. Qed.

Lemma bytes_of_string_of_bytes l :
  Forall (fun b => 0 <= b < 256) l -> bytes_of_string (string_of_bytes l) = l.
Proof.
  induction 1 as [|b l Hb Hl IH]; simpl; [done|]. rewrite IH. f_equal.
  unfold byte_of_char, char_of_byte. rewrite Ascii.N_ascii_embedding by lia. lia.
Qed.

Lemma string_of_bytes_length l : String.length (string_of_bytes l) = length l.
Proof. induction l; simpl; congruence. Qed.

Lemma str_all_app p a b : str_all p (a ++ b) = str_all p a && str_all p b.
Proof. induction a as [|c a IH]; simpl; [done|]. by rewrite IH, andb_assoc. Qed.

Lemma str_all_impl (p q : ascii -> bool) s :
  (forall c, p c = true -> q c = true) -> str_all p s = true -> str_all q s = true.
Proof.
  intros Hpq. induction s as [|c s IH]; simpl; [done|]. intros [H1 H2]%andb_prop.
  by rewrite (Hpq _ H1), IH.
Qed.

Lemma str_break_app c a b :
  str_all (fun x => negb (char_is c x)) a = true ->
  str_break c (a ++ String c b) = Some (a, b).
Proof.
  induction a as [|x a IH]; simpl; [by rewrite Ascii.eqb_refl|].
  intros [Hx Ha]%andb_prop. unfold char_is in Hx. apply negb_true_iff in Hx.
  by rewrite Hx, IH.
Qed.

Lemma str_break_none c a :
  str_all (fun x => negb (char_is c x)) a = true -> str_break c a = None.
Proof.
  induction a as [|x a IH]; simpl; [done|]. intros [Hx Ha]%andb_prop.
  unfold char_is in Hx. apply negb_true_iff in Hx. by rewrite Hx, IH.
Qed.

Lemma str_break_some c s a b :
  str_break c s = Some (a, b) ->
  s = a ++ String c b /\ str_all (fun x => negb (char_is c x)) a = true.
Proof.
  revert a b. induction s as [|x s IH]; simpl; [done|]. intros a b.
  destruct (Ascii.eqb x c) eqn:E.
  - apply Ascii.eqb_eq in E as ->. intros [= <- <-]. done.
  - destruct (str_break c s) as [[u v]|]; [|done]. intros [= <- <-].
    destruct (IH u v eq_refl) as [-> Hu]. simpl. unfold char_is. rewrite E. done.
Qed.

Lemma str_break_none_inv c s :
  str_break c s = None -> str_all (fun x => negb (char_is c x)) s = true.
Proof.
  induction s as [|x s IH]; simpl; [done|]. unfold char_is.
  destruct (Ascii.eqb x c); [done|]. destruct (str_break c s) as [[? ?]|]; [done|]. auto.
Qed.

Lemma str_app_nil s : (s ++ "" = s)%string.
Proof. induction s; simpl; congruence. Qed.

Lemma str_app_assoc a b c : (a ++ (b ++ c) = (a ++ b) ++ c)%string.
Proof. induction a; simpl; congruence. Qed.

Lemma str_app_length a b : String.length (a ++ b) = (String.length a + String.length b)%nat.
Proof. induction a; simpl; congruence. Qed.

Lemma digit_char_val d : 0 <= d < 10 -> digit_val (digit_char d) = d.
Proof.
  intros Hd. unfold digit_val, digit_char. rewrite Ascii.N_ascii_embedding; lia.
Qed.

Lemma digit_char_digit d : 0 <= d < 10 -> is_digit (digit_char d) = true.
Proof.
  intros Hd. unfold is_digit, digit_char. rewrite Ascii.N_ascii_embedding by lia.
  apply andb_true_intro. split; apply N.leb_le; lia.
Qed.

Lemma dec_acc_app v a b : dec_acc v (a ++ b) = dec_acc (dec_acc v a) b.
Proof. revert v. induction a as [|c a IH]; intros v; simpl; [done|]. apply IH. Qed.

Lemma dec_acc_shift v s :
  dec_acc v s = v * 10 ^ Z.of_nat (String.length s) + dec_val s.
Proof.
  revert v. induction s as [|c s IH]; intros v; [simpl; unfold dec_val; simpl; lia|].
  unfold dec_val. cbn [dec_acc String.length]. rewrite IH, (IH (0 * 10 + _)).
  rewrite Nat2Z.inj_succ, Z.pow_succ_r by lia. lia.
Qed.

(** The shape of printed numbers: digits only, no leading zero except "0"
    itself, and the value reads back. *)
Record dec_ok (n : Z) (s : string) : Prop := mk_dec_ok {
  dec_ok_digits : str_all is_digit s = true;
  dec_ok_val : dec_val s = n;
  dec_ok_head : match s with
                | EmptyString => False
                | String c s' => s' = "" \/ c <> "0"%char
                end;
  dec_ok_len : n < 10 -> String.length s = 1%nat }.

Lemma dec_loop_app f n acc : dec_loop f n acc = dec_loop f n "" ++ acc.
Proof.
  revert n acc. induction f as [|f IH]; intros n acc; simpl; [done|].
  destruct (n <? 10); [done|]. rewrite IH, (IH _ (String _ "")), <- str_app_assoc. done.
Qed.

Lemma dec_loop_ok f n :
  0 <= n < 10 ^ Z.of_nat (S f) ->
  dec_ok n (dec_loop (S f) n "") /\ (0 < n -> ~ exists s, dec_loop (S f) n "" = String "0" s).
Proof.
  revert n. induction f as [|f IH]; intros n Hn.
  - change (10 ^ Z.of_nat 1) with 10 in Hn. simpl.
    assert (n mod 10 = n) as -> by (apply Z.mod_small; lia).
    destruct (Z.ltb_spec n 10); [|lia]. split.
    + split; simpl; auto.
      * by rewrite digit_char_digit by lia.
      * unfold dec_val. simpl. rewrite digit_char_val; lia.
    + intros Hp [s Hs]. injection Hs as Hs _. apply (f_equal digit_val) in Hs.
      rewrite digit_char_val in Hs by lia. change (digit_val "0") with 0 in Hs. lia.
  - remember (S f) as g eqn:Eg. simpl. pose proof (Z.mod_pos_bound n 10).
    destruct (Z.ltb_spec n 10).
    + assert (n mod 10 = n) as -> by (apply Z.mod_small; lia). split.
      * split; simpl; auto.
        -- by rewrite digit_char_digit by lia.
        -- unfold dec_val. simpl. rewrite digit_char_val; lia.
      * intros Hp [s Hs]. injection Hs as Hs _. apply (f_equal digit_val) in Hs.
        rewrite digit_char_val in Hs by lia. change (digit_val "0") with 0 in Hs. lia.
    + rewrite dec_loop_app. subst g.
      destruct (IH (n / 10)) as [[Hd Hv Hh Hl] Hz].
      { split; [apply Z.div_pos; lia|]. apply Z.div_lt_upper_bound; [lia|].
        rewrite Nat2Z.inj_succ, Z.pow_succ_r in Hn by lia. lia. }
      assert (0 < n / 10) as Hpos by (apply Z.div_str_pos; lia).
      specialize (Hz Hpos). set (t := dec_loop (S f) (n / 10) "") in *. split.
      * split.
        -- rewrite str_all_app, Hd. simpl. by rewrite digit_char_digit by lia.
        -- unfold dec_val in *. rewrite dec_acc_app, Hv. simpl.
           rewrite digit_char_val by lia. pose proof (Z.div_mod n 10). lia.
        -- destruct t as [|c t']; [done|]. simpl. right. intros ->. apply Hz. eauto.
        -- lia.
      * intros _ [s Hs]. destruct t as [|c t']; [done|]. simpl in Hs.
        injection Hs as -> _. apply Hz. eauto.
Qed.

Lemma dec_str_ok n : 0 <= n <= u64_max -> dec_ok n (dec_str n).
Proof.
  intros Hn. unfold dec_str. apply (dec_loop_ok 19). change (Z.of_nat 20) with 20.
  unfold u64_max in Hn. lia.
Qed.
