(* ===== verification/Units.v ===== *)
(** * Exact units (include/ocreg/units.hpp, src/units.cpp)

    Unit codes, scales and dimensions, the 128-bit product and exact division
    behind a conversion, and the exact conversion and comparison of
    quantities. *)

From Stdlib Require Import ZArith Lia Ascii String.
From stdpp Require Import base tactics list strings.
From S2P Require Import Prelude Checked Reason Text.

#[local] Open Scope string_scope.
#[local] Open Scope Z_scope.

Inductive UnitCode :=
| UNone | UCount | UBit | UByte | UBitPerSecond | UBytePerSecond | UPacketPerSecond
| UNanoSecond | UMicroSecond | UMilliSecond | USecond | UHertz | UPartsPerMillion | UPercent
| UOperationPerSecond.

Definition unit_code_num (c : UnitCode) : Z :=
  match c with
  | UNone => 0 | UCount => 1 | UBit => 2 | UByte => 3 | UBitPerSecond => 4
  | UBytePerSecond => 5 | UPacketPerSecond => 6 | UNanoSecond => 7 | UMicroSecond => 8
  | UMilliSecond => 9 | USecond => 10 | UHertz => 11 | UPartsPerMillion => 12
  | UPercent => 13 | UOperationPerSecond => 14
  end.

Inductive UnitScale := Unity | Decimal | Binary.

Definition unit_scale_num (s : UnitScale) : Z :=
  match s with Unity => 0 | Decimal => 1 | Binary => 2 end.

Inductive Dimension :=
| DDimensionless | DCount | DData | DDataRate | DRate | DTime | DFrequency | DRatio.

#[export] Instance unit_code_eq_dec : EqDecision UnitCode.
Proof. solve_decision. Defined.
#[export] Instance unit_scale_eq_dec : EqDecision UnitScale.
Proof. solve_decision. Defined.
#[export] Instance dimension_eq_dec : EqDecision Dimension.
Proof. solve_decision. Defined.

Definition kMaxUnitExponent : Z := 6.

Record Unit := mkUnit { unit_code : UnitCode; unit_scale : UnitScale; unit_exponent : Z }.

#[export] Instance unit_eq_dec : EqDecision Unit.
Proof. solve_decision. Defined.

(** [operator<=>] on units. *)
#[export] Instance unit_cmp : Cmp Unit := fun a b =>
  cmp (unit_code_num (unit_code a)) (unit_code_num (unit_code b)) <=>>
  cmp (unit_scale_num (unit_scale a)) (unit_scale_num (unit_scale b)) <=>>
  cmp (unit_exponent a) (unit_exponent b).

Definition unity (code : UnitCode) : Unit := mkUnit code Unity 0.

(** ** 128-bit arithmetic *)

Record U128 := mkU128 { u128_hi : Z; u128_lo : Z }.

(** The branch that has a 128-bit integer type. *)
Definition mul_u64 (a b : Z) : U128 :=
  let product := wrap 128 (a * b) in
  mkU128 (u64 (Z.shiftr product 64)) (u64 product).

(** The portable branch: four 32-bit partial products. *)
Definition mul_u64_portable (a b : Z) : U128 :=
  let mask := 4294967295 in
  let a_lo := Z.land a mask in
  let a_hi := Z.shiftr a 32 in
  let b_lo := Z.land b mask in
  let b_hi := Z.shiftr b 32 in
  let p0 := u64 (a_lo * b_lo) in
  let p1 := u64 (a_lo * b_hi) in
  let p2 := u64 (a_hi * b_lo) in
  let p3 := u64 (a_hi * b_hi) in
  let carry := Z.shiftr (u64 (u64 (Z.shiftr p0 32 + Z.land p1 mask) + Z.land p2 mask)) 32 in
  mkU128 (u64 (u64 (u64 (p3 + Z.shiftr p1 32) + Z.shiftr p2 32) + carry))
         (u64 (u64 (p0 + u64 (Z.shiftl p1 32)) + u64 (Z.shiftl p2 32))).

(** One round of the restoring division, for one bit position. *)
Definition div_round (value : U128) (divisor bit : Z) (st : Z * Z) : option (Z * Z) :=
  let '(remainder, result) := st in
  let next_bit := if bit >=? 64 then Z.land (Z.shiftr (u128_hi value) (bit - 64)) 1
                  else Z.land (Z.shiftr (u128_lo value) bit) 1 in
  let carry := negb (Z.shiftr remainder 63 =? 0) in
  let remainder := Z.lor (u64 (Z.shiftl remainder 1)) next_bit in
  if carry || (remainder >=? divisor) then
    let remainder := u64 (remainder - divisor) in
    if bit >=? 64 then None else Some (remainder, Z.lor result (u64 (Z.shiftl 1 bit)))
  else Some (remainder, result).

(** [for (int bit = n - 1; bit >= 0; --bit)]. *)
Fixpoint div_rounds (value : U128) (divisor : Z) (n : nat) (st : Z * Z) : option (Z * Z) :=
  match n with
  | O => Some st
  | S n' => match div_round value divisor (Z.of_nat n') st with
            | None => None
            | Some st' => div_rounds value divisor n' st'
            end
  end.

Definition div_u128_exact (value : U128) (divisor : Z) : option Z :=
  if divisor =? 0 then None
  else if u128_hi value >=? divisor then None
  else match div_rounds value divisor 128 (0, 0) with
       | None => None
       | Some (remainder, result) => if negb (remainder =? 0) then None else Some result
       end.

(** ** The unit table *)

Record UnitCodeInfo := mkUnitCodeInfo {
  uci_code : UnitCode; uci_name : string; uci_dimension : Dimension; uci_base_factor : Z;
  uci_decimal_scale : bool; uci_binary_scale : bool }.

Definition kUnitCodes : list UnitCodeInfo :=
  [mkUnitCodeInfo UNone "none" DDimensionless 1 false false;
   mkUnitCodeInfo UCount "count" DCount 1 false false;
   mkUnitCodeInfo UBit "bit" DData 1 true true;
   mkUnitCodeInfo UByte "byte" DData 8 true true;
   mkUnitCodeInfo UBitPerSecond "bit_per_second" DDataRate 1 true true;
   mkUnitCodeInfo UBytePerSecond "byte_per_second" DDataRate 8 true true;
   mkUnitCodeInfo UPacketPerSecond "packet_per_second" DRate 1 true true;
   mkUnitCodeInfo UOperationPerSecond "operation_per_second" DRate 1 true false;
   mkUnitCodeInfo UNanoSecond "nanosecond" DTime 1 true false;
   mkUnitCodeInfo UMicroSecond "microsecond" DTime 1000 true false;
   mkUnitCodeInfo UMilliSecond "millisecond" DTime 1000000 true false;
   mkUnitCodeInfo USecond "second" DTime 1000000000 true false;
   mkUnitCodeInfo UHertz "hertz" DFrequency 1 true false;
   mkUnitCodeInfo UPartsPerMillion "parts_per_million" DRatio 1 false false;
   mkUnitCodeInfo UPercent "percent" DRatio 10000 false false].

Definition find_code (code : UnitCode) : option UnitCodeInfo :=
  find (fun i => bool_decide (uci_code i = code)) kUnitCodes.

(** The loop of [scale_multiplier], [n] iterations left. *)
Fixpoint scale_loop (base result : Z) (n : nat) : option Z :=
  match n with
  | O => Some result
  | S n' => match checked_mul uint64_t result base with
            | None => None
            | Some next => scale_loop base next n'
            end
  end.

Definition scale_multiplier (scale : UnitScale) (exponent : Z) : option Z :=
  let base := match scale with Decimal => 10 | _ => 1024 end in
  scale_loop base 1 (Z.to_nat exponent).

Definition unit_is_well_formed (u : Unit) : bool :=
  match find_code (unit_code u) with
  | None => false
  | Some info =>
      if unit_exponent u >? kMaxUnitExponent then false
      else match unit_scale u with
           | Unity => unit_exponent u =? 0
           | Decimal => uci_decimal_scale info
           | Binary => uci_binary_scale info
           end
  end.

Definition dimension_of (code : UnitCode) : Dimension :=
  match find_code code with None => DDimensionless | Some info => uci_dimension info end.

Definition unit_scale_permitted (code : UnitCode) (scale : UnitScale) : bool :=
  match find_code code with
  | None => false
  | Some info => match scale with
                 | Unity => true
                 | Decimal => uci_decimal_scale info
                 | Binary => uci_binary_scale info
                 end
  end.

Definition factor_to_base (u : Unit) : option Z :=
  if negb (unit_is_well_formed u) then None
  else match find_code (unit_code u) with
       | None => None
       | Some info =>
           match scale_multiplier (unit_scale u) (unit_exponent u) with
           | None => None
           | Some multiplier => checked_mul uint64_t (uci_base_factor info) multiplier
           end
       end.

(** ** Conversion and comparison *)

Definition convert_exact (value : Z) (from to : Unit) : option Z :=
  if negb (unit_is_well_formed from) || negb (unit_is_well_formed to) then None
  else if bool_decide (dimension_of (unit_code from) = dimension_of (unit_code to)) then
    match factor_to_base from, factor_to_base to with
    | Some from_factor, Some to_factor =>
        let negative := value <? 0 in
        let magnitude := if negative then u64 (u64 (- (value + 1)) + 1) else u64 value in
        let product := mul_u64 magnitude from_factor in
        match div_u128_exact product to_factor with
        | None => None
        | Some quotient =>
            if quotient >? i64_max then
              if negb (negative && (quotient =? i64_max + 1)) then None else Some i64_min
            else Some (if negative then - quotient else quotient)
        end
    | _, _ => None
    end
  else None.

Definition compare_exact (lhs : Z) (lhs_unit : Unit) (rhs : Z) (rhs_unit : Unit)
  : option comparison :=
  if bool_decide (lhs_unit = rhs_unit) then Some (lhs ?= rhs)
  else match convert_exact lhs lhs_unit rhs_unit with
       | Some lhs_in_rhs => Some (lhs_in_rhs ?= rhs)
       | None => match convert_exact rhs rhs_unit lhs_unit with
                 | Some rhs_in_lhs => Some (lhs ?= rhs_in_lhs)
                 | None => None
                 end
       end.

(** ** Spellings *)

Definition unit_code_to_string (code : UnitCode) : string :=
  match find_code code with None => "none" | Some info => uci_name info end.

Definition unit_scale_to_string (scale : UnitScale) : string :=
  match scale with Unity => "unity" | Decimal => "dec" | Binary => "bin" end.

Definition dimension_to_string (d : Dimension) : string :=
  match d with
  | DDimensionless => "dimensionless" | DCount => "count" | DData => "data"
  | DDataRate => "data_rate" | DRate => "rate" | DTime => "time" | DFrequency => "frequency"
  | DRatio => "ratio"
  end.

Definition unit_to_string (u : Unit) : string :=
  unit_code_to_string (unit_code u) ++
  match unit_scale u with
  | Unity => ""
  | s => "." ++ unit_scale_to_string s ++ dec_str (unit_exponent u)
  end.

Definition parse_unit_code (text : string) : option UnitCode :=
  uci_code <$> find (fun i => String.eqb (uci_name i) text) kUnitCodes.

(** The scale suffix of [parse_unit]: three letters and at most two digits. *)
Definition parse_unit_suffix (rest : string) : option (UnitScale * Z) :=
  if (String.length rest <? 4)%nat then None
  else
    let scale_text := String.substring 0 3 rest in
    let exponent_text := String.substring 3 (String.length rest - 3) rest in
    let scale := if String.eqb scale_text "dec" then Some Decimal
                 else if String.eqb scale_text "bin" then Some Binary else None in
    match scale with
    | None => None
    | Some scale =>
        if str_empty exponent_text || (2 <? String.length exponent_text)%nat then None
        else if negb (str_all is_digit exponent_text) then None
        else let parsed := dec_val exponent_text in
             if parsed >? kMaxUnitExponent then None else Some (scale, parsed)
    end.

Definition parse_unit (text : string) : option Unit :=
  if str_empty text || (48 <? String.length text)%nat then None
  else
    let code_text := match str_break "." text with Some (a, _) => a | None => text end in
    match parse_unit_code code_text with
    | None => None
    | Some code =>
        let suffix := match str_break "." text with
                      | None => Some (Unity, 0)
                      | Some (_, rest) => parse_unit_suffix rest
                      end in
        match suffix with
        | None => None
        | Some (scale, exponent) =>
            let candidate := mkUnit code scale exponent in
            if negb (unit_is_well_formed candidate) then None else Some candidate
        end
    end.

(** ** Facts: wide multiplication and division *)

Definition u128_val (v : U128) : Z := u128_hi v * 2 ^ 64 + u128_lo v.

Lemma u64_id x : 0 <= x < 2 ^ 64 -> u64 x = x.
Proof. apply wrap_small. Qed.

Lemma u64_add_l x y : u64 (u64 x + y) = u64 (x + y).
Proof. apply Zplus_mod_idemp_l. Qed.

Lemma u64_add_r x y : u64 (x + u64 y) = u64 (x + y).
Proof. apply Zplus_mod_idemp_r. Qed.

Lemma mul_bound_u64 a b : in_u 64 a -> in_u 64 b -> 0 <= a * b < 2 ^ 128.
Proof. unfold in_u. intros. nia. Qed.

Lemma mul_u64_val a b :
  in_u 64 a -> in_u 64 b ->
  u128_val (mul_u64 a b) = a * b /\ in_u 64 (u128_hi (mul_u64 a b)) /\
  in_u 64 (u128_lo (mul_u64 a b)).
Proof.
  intros Ha Hb. pose proof (mul_bound_u64 a b Ha Hb) as Hp.
  unfold mul_u64, u128_val; simpl.
  assert (wrap 128 (a * b) = a * b) as -> by by apply wrap_small.
  rewrite Z.shiftr_div_pow2 by lia.
  assert (0 <= a * b / 2 ^ 64 < 2 ^ 64) as Hd.
  { split; [apply Z.div_pos; lia|]. apply Z.div_lt_upper_bound; lia. }
  rewrite (u64_id (a * b / 2 ^ 64)) by done.
  split_and!; [|done|by apply wrap_bound].
  unfold u64, wrap. pose proof (Z.div_mod (a * b) (2 ^ 64)). lia.
Qed.

Lemma land_mask32 x : Z.land x 4294967295 = x mod 2 ^ 32.
Proof. change 4294967295 with (Z.ones 32). by rewrite Z.land_ones by lia. Qed.

Lemma mul_u64_portable_eq a b :
  in_u 64 a -> in_u 64 b -> mul_u64_portable a b = mul_u64 a b.
Proof.
  intros Ha Hb. pose proof (mul_bound_u64 a b Ha Hb) as Hp.
  destruct (mul_u64_val a b Ha Hb) as (Hv & Hh & Hl).
  unfold mul_u64_portable. rewrite !land_mask32, !Z.shiftr_div_pow2, !Z.shiftl_mul_pow2 by lia.
  unfold in_u in *.
  pose proof (Z.div_mod a (2 ^ 32)) as Ea. pose proof (Z.div_mod b (2 ^ 32)) as Eb.
  pose proof (Z.mod_pos_bound a (2 ^ 32)) as Ba. pose proof (Z.mod_pos_bound b (2 ^ 32)) as Bb.
  assert (0 <= a / 2 ^ 32 < 2 ^ 32) as Ca
    by (split; [apply Z.div_pos; lia | apply Z.div_lt_upper_bound; lia]).
  assert (0 <= b / 2 ^ 32 < 2 ^ 32) as Cb
    by (split; [apply Z.div_pos; lia | apply Z.div_lt_upper_bound; lia]).
  set (ah := a / 2 ^ 32) in *. set (al := a mod 2 ^ 32) in *.
  set (bh := b / 2 ^ 32) in *. set (bl := b mod 2 ^ 32) in *.
  assert (forall x y, 0 <= x < 2 ^ 32 -> 0 <= y < 2 ^ 32 -> 0 <= x * y <= (2 ^ 32 - 1) * (2 ^ 32 - 1))
    as Hxy by (intros; nia).
  pose proof (Hxy al bl ltac:(lia) ltac:(lia)) as B0. pose proof (Hxy al bh ltac:(lia) ltac:(lia)) as B1.
  pose proof (Hxy ah bl ltac:(lia) ltac:(lia)) as B2. pose proof (Hxy ah bh ltac:(lia) ltac:(lia)) as B3.
  rewrite !(u64_id (_ * _)) by lia.
  assert (a * b = ah * bh * 2 ^ 64 + (al * bh + ah * bl) * 2 ^ 32 + al * bl) as Eab
    by (rewrite Ea, Eb by lia; ring).
  set (p0 := al * bl) in *. set (p1 := al * bh) in *. set (p2 := ah * bl) in *. set (p3 := ah * bh) in *.
  clearbody p0 p1 p2 p3. clear Hxy Ea Eb Ba Bb Ca Cb ah al bh bl.
  pose proof (Z.div_mod p0 (2 ^ 32)) as D0. pose proof (Z.mod_pos_bound p0 (2 ^ 32)) as M0.
  pose proof (Z.div_mod p1 (2 ^ 32)) as D1. pose proof (Z.mod_pos_bound p1 (2 ^ 32)) as M1.
  pose proof (Z.div_mod p2 (2 ^ 32)) as D2. pose proof (Z.mod_pos_bound p2 (2 ^ 32)) as M2.
  set (q0 := p0 / 2 ^ 32) in *. set (r0 := p0 mod 2 ^ 32) in *.
  set (q1 := p1 / 2 ^ 32) in *. set (r1 := p1 mod 2 ^ 32) in *.
  set (q2 := p2 / 2 ^ 32) in *. set (r2 := p2 mod 2 ^ 32) in *.
  rewrite (u64_id (q0 + r1)), (u64_id (q0 + r1 + r2)) by lia.
  pose proof (Z.div_mod (q0 + r1 + r2) (2 ^ 32)) as Dc.
  pose proof (Z.mod_pos_bound (q0 + r1 + r2) (2 ^ 32)) as Mc.
  set (c := (q0 + r1 + r2) / 2 ^ 32) in *. set (m := (q0 + r1 + r2) mod 2 ^ 32) in *.
  assert (a * b = (p3 + q1 + q2 + c) * 2 ^ 64 + (m * 2 ^ 32 + r0)) as Esum by lia.
  rewrite !(u64_id (p3 + _)), !(u64_id (p3 + _ + _)), (u64_id (p3 + _ + _ + _)) by lia.
  assert (u64 (u64 (p0 + u64 (p1 * 2 ^ 32)) + u64 (p2 * 2 ^ 32)) = m * 2 ^ 32 + r0) as ->.
  { rewrite u64_add_r, u64_add_l, (Z.add_comm p0), <- Z.add_assoc, u64_add_l, Z.add_assoc. unfold u64, wrap.
    replace (p1 * 2 ^ 32 + p0 + p2 * 2 ^ 32)
      with (m * 2 ^ 32 + r0 + (q1 + q2 + c) * 2 ^ 64) by lia.
    rewrite Z.mod_add by lia. apply Z.mod_small. lia. }
  destruct (mul_u64 a b) as [hi lo]; simpl in *. unfold u128_val in Hv; simpl in Hv.
  f_equal; lia.
Qed.

(** [x | bit] on an even number is addition. *)
Lemma lor_even x b : 0 <= b <= 1 -> Z.lor (2 * x) b = 2 * x + b.
Proof.
  intros Hb. assert (b = 0 \/ b = 1) as [-> | ->] by lia.
  - rewrite Z.lor_0_r. lia.
  - destruct x as [|[]|[]]; reflexivity.
Qed.

Lemma lor_pow2_step q b :
  0 <= b -> Z.lor (q * 2 ^ (b + 1)) (2 ^ b) = (2 * q + 1) * 2 ^ b.
Proof.
  intros Hb.
  replace (q * 2 ^ (b + 1)) with (Z.shiftl (2 * q) b)
    by (rewrite Z.shiftl_mul_pow2, Z.pow_add_r by lia; lia).
  replace (2 ^ b) with (Z.shiftl 1 b) at 1 by (rewrite Z.shiftl_mul_pow2 by lia; lia).
  rewrite <- Z.shiftl_lor, lor_even, Z.shiftl_mul_pow2 by lia. done.
Qed.

Lemma u64_double r : u64 (2 * r) = 2 * (r mod 2 ^ 63).
Proof.
  unfold u64, wrap. change (2 ^ 64) with (2 * 2 ^ 63).
  rewrite Z.mul_mod_distr_l by lia. done.
Qed.

(** The bit that a round shifts in is that bit of the 128-bit value. *)
Lemma next_bit_val v b :
  in_u 64 (u128_hi v) -> in_u 64 (u128_lo v) -> 0 <= b ->
  (if b >=? 64 then Z.land (Z.shiftr (u128_hi v) (b - 64)) 1
   else Z.land (Z.shiftr (u128_lo v) b) 1) = (u128_val v / 2 ^ b) mod 2.
Proof.
  intros Hh Hl Hb. change 1 with (Z.ones 1). rewrite !Z.land_ones by lia. change (2 ^ 1) with 2.
  unfold u128_val, in_u in *. destruct (b >=? 64) eqn:E; zb; rewrite Z.shiftr_div_pow2 by lia.
  - replace (2 ^ b) with (2 ^ 64 * 2 ^ (b - 64)) by (rewrite <- Z.pow_add_r by lia; f_equal; lia).
    rewrite <- Z.div_div by lia. rewrite Z.div_add_l, (Z.div_small (u128_lo v)) by lia.
    by rewrite Z.add_0_r.
  - replace (u128_hi v * 2 ^ 64) with (u128_hi v * 2 ^ (63 - b) * 2 * 2 ^ b).
    2:{ rewrite <- !Z.mul_assoc. f_equal. change 2 with (2 ^ 1) at 2.
        rewrite <- !Z.pow_add_r by lia. f_equal; lia. }
    rewrite Z.div_add_l by lia. rewrite Z.add_comm, Z.mod_add by lia. done.
Qed.

(** State of the restoring division once the bits from [n] up are consumed. *)
Definition div_inv (v : U128) (d n : Z) (st : Z * Z) : Prop :=
  st = ((u128_val v / 2 ^ n) mod d, u128_val v / 2 ^ n / d * 2 ^ n).

Lemma halve V b : 0 <= b -> V / 2 ^ b = 2 * (V / 2 ^ (b + 1)) + (V / 2 ^ b) mod 2.
Proof.
  intros Hb. rewrite Z.pow_add_r, <- Z.div_div by lia. change (2 ^ 1) with 2.
  apply Z.div_mod. lia.
Qed.

(** The quotient has no bit at or above position 64. *)
Lemma high_quotient v d b :
  in_u 64 (u128_hi v) -> in_u 64 (u128_lo v) -> u128_hi v < d -> 64 <= b ->
  0 <= u128_val v / 2 ^ b < d.
Proof.
  unfold u128_val, in_u. intros Hh Hl Hd Hb. split; [apply Z.div_pos; lia|].
  apply Z.div_lt_upper_bound; [lia|].
  assert (2 ^ 64 <= 2 ^ b) by (apply Z.pow_le_mono_r; lia). nia.
Qed.

Lemma div_round_step v d b st :
  in_u 64 (u128_hi v) -> in_u 64 (u128_lo v) -> 0 < d < 2 ^ 64 -> u128_hi v < d -> 0 <= b ->
  div_inv v d (b + 1) st ->
  exists st', div_round v d b st = Some st' /\ div_inv v d b st'.
Proof.
  intros Hh Hl Hd Hlt Hb ->. unfold div_round, div_inv. rewrite next_bit_val by done.
  set (V := u128_val v). pose proof (halve V b Hb) as HV.
  pose proof (Z.mod_pos_bound (V / 2 ^ b) 2 ltac:(lia)) as Hn.
  set (n := (V / 2 ^ b) mod 2) in *. set (W := V / 2 ^ (b + 1)) in *. rewrite HV.
  pose proof (Z.mod_pos_bound W d ltac:(lia)) as Hr.
  pose proof (Z.div_mod W d ltac:(lia)) as Hq.
  set (r := W mod d) in *. set (q := W / d) in *.
  rewrite Z.shiftl_mul_pow2, Z.mul_comm, u64_double, lor_even by lia.
  rewrite Z.shiftr_div_pow2 by lia.
  assert (r / 2 ^ 63 = 0 /\ r mod 2 ^ 63 = r /\ r < 2 ^ 63 \/
          r / 2 ^ 63 = 1 /\ r mod 2 ^ 63 = r - 2 ^ 63 /\ 2 ^ 63 <= r) as Hc.
  { pose proof (Z.div_mod r (2 ^ 63) ltac:(lia)). pose proof (Z.mod_pos_bound r (2 ^ 63) ltac:(lia)).
    nia. }
  destruct (decide (2 * r + n < d)) as [Hsmall|Hbig].
  - assert (negb (r / 2 ^ 63 =? 0) || (2 * (r mod 2 ^ 63) + n >=? d) = false) as ->
      by (destruct Hc as [(-> & -> & ?)|(-> & -> & ?)]; simpl; lia).
    eexists; split; [done|].
    replace (2 * W + n) with (2 * r + n + 2 * q * d) by lia.
    rewrite Z.mod_add, Z.div_add, (Z.mod_small (_ + n)), Z.div_small by lia.
    f_equal; [destruct Hc as [(_ & -> & _)|(_ & _ & ?)]; lia|]. rewrite Z.pow_add_r by lia. lia.
  - assert (negb (r / 2 ^ 63 =? 0) || (2 * (r mod 2 ^ 63) + n >=? d) = true) as ->
      by (destruct Hc as [(-> & -> & ?)|(-> & -> & ?)]; simpl; lia).
    destruct (b >=? 64) eqn:E; zb.
    { exfalso. pose proof (high_quotient v d b Hh Hl Hlt ltac:(lia)) as Hhq. fold V in Hhq.
      rewrite HV in Hhq. assert (0 <= q) by (apply Z.div_pos; lia).
      nia. }
    eexists; split; [done|].
    replace (2 * W + n) with (2 * r + n - d + (2 * q + 1) * d) by lia.
    rewrite Z.mod_add, Z.div_add, (Z.mod_small (_ - d)), Z.div_small by lia.
    f_equal.
    + unfold u64, wrap. destruct Hc as [(_ & -> & _)|(_ & -> & _)].
      * rewrite Z.mod_small by lia. lia.
      * replace (2 * (r - 2 ^ 63) + n - d) with (2 * r + n - d + (-1) * 2 ^ 64) by lia.
        rewrite Z.mod_add, Z.mod_small by lia. done.
    + rewrite Z.shiftl_mul_pow2, Z.mul_1_l by lia.
      rewrite u64_id by (split; [lia|apply Z.pow_lt_mono_r; lia]). by rewrite lor_pow2_step.
Qed.

Lemma div_rounds_inv v d n st :
  in_u 64 (u128_hi v) -> in_u 64 (u128_lo v) -> 0 < d < 2 ^ 64 -> u128_hi v < d ->
  div_inv v d (Z.of_nat n) st ->
  div_rounds v d n st = Some (u128_val v mod d, u128_val v / d).
Proof.
  intros Hh Hl Hd Hlt. revert st. induction n as [|n IH]; intros st Hinv; simpl.
  - unfold div_inv in Hinv. simpl in Hinv. rewrite Z.div_1_r, Z.mul_1_r in Hinv. by subst.
  - destruct (div_round_step v d (Z.of_nat n) st) as (st' & -> & Hst'); auto with lia.
    by replace (Z.of_nat n + 1) with (Z.of_nat (S n)) by lia.
Qed.

(** The bit-serial division returns the quotient exactly when it is an integer
    that fits 64 bits. *)
Lemma div_u128_exact_spec v d :
  in_u 64 (u128_hi v) -> in_u 64 (u128_lo v) -> in_u 64 d ->
  forall q, div_u128_exact v d = Some q <-> (0 < d /\ in_u 64 q /\ u128_val v = q * d).
Proof.
  intros Hh Hl Hd q. unfold div_u128_exact.
  destruct (d =? 0) eqn:E0; zb; [split; [done|lia]|].
  unfold in_u in Hd.
  destruct (u128_hi v >=? d) eqn:E1; zb.
  - split; [done|]. intros (_ & Hq & HV). unfold u128_val, in_u in *. nia.
  - assert (div_inv v d (Z.of_nat 128) (0, 0)) as Hinit.
    { unfold div_inv. rewrite (Z.div_small (u128_val v)), Z.mod_0_l, Z.div_0_l; [done..|].
      unfold u128_val, in_u in *. change (2 ^ Z.of_nat 128) with (2 ^ 64 * 2 ^ 64). nia. }
    rewrite (div_rounds_inv v d _ _ Hh Hl ltac:(lia) ltac:(lia) Hinit).
    pose proof (Z.div_mod (u128_val v) d ltac:(lia)) as Hdm.
    destruct (u128_val v mod d =? 0) eqn:E2; simpl; zb.
    + split.
      * intros [= <-]. split_and!; [lia| |lia]. unfold u128_val, in_u in *. nia.
      * intros (_ & _ & HV). f_equal. nia.
    + split; [done|]. intros (_ & _ & HV). exfalso. apply E2. rewrite HV. apply Z.mod_mul. lia.
Qed.

(** ** Facts: conversion and comparison *)

(** What a unit is worth in the base unit of its dimension. *)
Definition unit_base_worth (u : Unit) : Z :=
  match find_code (unit_code u) with Some i => uci_base_factor i | None => 0 end *
  (match unit_scale u with Decimal => 10 | _ => 1024 end) ^ unit_exponent u.

Lemma well_formed_exponent u :
  unit_is_well_formed u = true -> unit_exponent u <= 6.
Proof.
  unfold unit_is_well_formed, kMaxUnitExponent. destruct (find_code _); [|done].
  destruct (unit_exponent u >? 6) eqn:E; [done|]. intros _. zb. lia.
Qed.

(** Every well-formed unit has a factor, positive and within 64 bits. *)
Lemma factor_to_base_total u :
  0 <= unit_exponent u -> unit_is_well_formed u = true ->
  factor_to_base u = Some (unit_base_worth u) /\ 0 < unit_base_worth u < 2 ^ 64.
Proof.
  intros H0 Hwf. pose proof (well_formed_exponent u Hwf) as H6.
  destruct u as [c s e]; simpl in *.
  assert (e = 0 \/ e = 1 \/ e = 2 \/ e = 3 \/ e = 4 \/ e = 5 \/ e = 6) as He by lia.
  destruct He as [->|[->|[->|[->|[->|[->| ->]]]]]]; destruct s; destruct c;
    first [by vm_compute in Hwf | by vm_compute].
Qed.

(** The magnitude computed for a signed value. *)
Lemma magnitude_val v :
  in_i64 v -> (if v <? 0 then u64 (u64 (- (v + 1)) + 1) else u64 v) = Z.abs v /\ in_u 64 (Z.abs v).
Proof.
  unfold in_i64, in_u, i64_min, i64_max. intros Hv.
  destruct (v <? 0) eqn:E; zb; rewrite ?u64_add_l, ?u64_id by lia; lia.
Qed.

Lemma convert_exact_spec v f t r :
  in_i64 v -> 0 <= unit_exponent f -> 0 <= unit_exponent t ->
  convert_exact v f t = Some r <->
  unit_is_well_formed f = true /\ unit_is_well_formed t = true /\
  dimension_of (unit_code f) = dimension_of (unit_code t) /\
  in_i64 r /\ v * unit_base_worth f = r * unit_base_worth t.
Proof.
  intros Hv Hf Ht. unfold convert_exact.
  destruct (unit_is_well_formed f) eqn:Wf; simpl; [|by split; [|intros (? & _)]].
  destruct (unit_is_well_formed t) eqn:Wt; simpl; [|by split; [|intros (_ & ? & _)]].
  case_bool_decide as Hd; [|by split; [|intros (_ & _ & ? & _)]].
  destruct (factor_to_base_total f Hf Wf) as [-> Bf].
  destruct (factor_to_base_total t Ht Wt) as [-> Bt].
  destruct (magnitude_val v Hv) as [-> Hm].
  set (F := unit_base_worth f) in *. set (T := unit_base_worth t) in *.
  destruct (mul_u64_val (Z.abs v) F) as (Hval & Hhi & Hlo); [done|unfold in_u; lia|].
  pose proof (div_u128_exact_spec (mul_u64 (Z.abs v) F) T Hhi Hlo ltac:(unfold in_u; lia)) as Hq.
  rewrite Hval in Hq. clear Hval Hhi Hlo. unfold in_i64, in_u, i64_min, i64_max in *.
  destruct (div_u128_exact _ T) as [q|].
  - destruct (proj1 (Hq q) eq_refl) as (_ & Bq & Eq). clear Hq.
    assert (v * F = r * T <-> r = if v <? 0 then - q else q) as ->.
    { rewrite <- (Z.mul_cancel_r r _ T) by lia.
      destruct (v <? 0) eqn:E; zb; [rewrite Z.abs_neq in Eq by lia|rewrite Z.abs_eq in Eq by lia]; lia. }
    destruct (v <? 0) eqn:E; destruct (q >? _) eqn:E2; simpl; try destruct (q =? _) eqn:E3; zb; simpl;
      (split; [first [done|intros [= <-]; split_and!; (done || lia)]
              |intros (_ & _ & _ & ? & ->); first [lia | f_equal; lia]]).
  - split; [done|]. intros (_ & _ & _ & ? & Hr).
    assert (None = Some (Z.abs r)); [|done]. apply Hq. split_and!; [lia..|].
    rewrite <- (Z.abs_eq F), <- (Z.abs_eq T), <- !Z.abs_mul by lia. by rewrite Hr.
Qed.

(** C39: [convert_exact] succeeds exactly when both units are well formed and of
    one dimension and the value is representable in the target unit as a 64-bit
    integer, and then the converted quantity is worth the same in the base unit
    of the dimension: no conversion rounds, saturates or wraps. *)
Theorem convert_exact_iff v f t r :
  in_i64 v -> 0 <= unit_exponent f -> 0 <= unit_exponent t ->
  convert_exact v f t = Some r <->
  unit_is_well_formed f = true /\ unit_is_well_formed t = true /\
  dimension_of (unit_code f) = dimension_of (unit_code t) /\
  in_i64 r /\ v * unit_base_worth f = r * unit_base_worth t.
Proof. apply convert_exact_spec. Qed.

Lemma convert_exact_iff_witness :
  convert_exact (-3) (mkUnit UByte Binary 2) (mkUnit UBit Unity 0) = Some (-25165824) /\
  convert_exact 1500 (mkUnit UBitPerSecond Unity 0) (mkUnit UBitPerSecond Decimal 3) = None.
Proof.
  split.
  - apply convert_exact_iff; [unfold in_i64; split; by vm_compute|by vm_compute..|].
    split; [by vm_compute|]. split; [by vm_compute|]. split; [by vm_compute|].
    split; [unfold in_i64; split; by vm_compute|by vm_compute].
  - by vm_compute.
Defined.

Lemma compare_scale x y k : 0 < k -> (x * k ?= y * k) = (x ?= y).
Proof.
  intros Hk. destruct (Z.compare_spec x y); [subst; apply Z.compare_refl| |];
    [apply Z.compare_lt_iff|apply Z.compare_gt_iff]; nia.
Qed.

(** A comparison that [compare_exact] answers orders the two quantities by
    what they are worth in the base unit, whichever unit each is stated in, and
    it answers the mirrored question with the mirrored result. *)
Theorem compare_exact_sound a ua b ub c :
  in_i64 a -> in_i64 b -> 0 <= unit_exponent ua -> 0 <= unit_exponent ub ->
  unit_is_well_formed ua = true ->
  compare_exact a ua b ub = Some c ->
  c = (a * unit_base_worth ua ?= b * unit_base_worth ub) /\
  compare_exact b ub a ua = Some (CompOpp c).
Proof.
  intros Ha Hb Hua Hub Wa. unfold compare_exact.
  destruct (decide (ua = ub)) as [<-|Hne].
  - rewrite !bool_decide_eq_true_2 by done. intros [= <-].
    destruct (factor_to_base_total ua Hua Wa) as [_ Hk]. rewrite compare_scale by lia.
    by rewrite <- Z.compare_antisym.
  - rewrite !bool_decide_eq_false_2 by congruence.
    destruct (convert_exact a ua ub) as [a'|] eqn:Ea.
    + pose proof Ea as (_ & Wb & _ & _ & Eab)%convert_exact_spec; [|done..].
      destruct (factor_to_base_total ub Hub Wb) as [_ Hk].
      intros [= <-]. rewrite Eab, compare_scale by lia. split; [done|].
      destruct (convert_exact b ub ua) as [b'|] eqn:Eb; [|by rewrite <- Z.compare_antisym].
      apply convert_exact_spec in Eb as (_ & _ & _ & _ & Eb); [|done..].
      destruct (factor_to_base_total ua Hua Wa) as [_ Hk'].
      f_equal. rewrite <- Z.compare_antisym, <- (compare_scale b a' _ (proj1 Hk)), <- Eab, Eb.
      by rewrite compare_scale by lia.
    + destruct (convert_exact b ub ua) as [b'|] eqn:Eb; [|done].
      apply convert_exact_spec in Eb as (_ & _ & _ & _ & Eb); [|done..].
      destruct (factor_to_base_total ua Hua Wa) as [_ Hk].
      intros [= <-]. rewrite Eb, compare_scale by lia. by rewrite <- Z.compare_antisym.
Qed.

Lemma compare_exact_sound_witness :
  compare_exact 8000 (mkUnit UBit Decimal 3) 1 (mkUnit UByte Decimal 6) = Some Eq /\
  compare_exact 1 (mkUnit UByte Decimal 6) 8000 (mkUnit UBit Decimal 3) = Some (CompOpp Eq).
Proof.
  split; [by vm_compute|].
  refine (proj2 (compare_exact_sound 8000 (mkUnit UBit Decimal 3) 1 (mkUnit UByte Decimal 6) Eq
                   _ _ _ _ _ _));
    [unfold in_i64, i64_min, i64_max; lia|unfold in_i64, i64_min, i64_max; lia|by vm_compute..].
Defined.

(** The portable multiplication (four 32-bit partial products with carry
    propagation) computes the same 128-bit product as the branch that has a
    128-bit integer type. *)
Theorem mul_u64_portable_equiv a b :
  in_u 64 a -> in_u 64 b ->
  mul_u64_portable a b = mul_u64 a b /\ u128_val (mul_u64 a b) = a * b.
Proof. intros Ha Hb. split; [by apply mul_u64_portable_eq|by apply mul_u64_val]. Qed.

Lemma mul_u64_portable_equiv_witness :
  mul_u64_portable u64_max u64_max = mul_u64 u64_max u64_max /\
  u128_val (mul_u64 u64_max u64_max) = u64_max * u64_max.
Proof.
  apply (mul_u64_portable_equiv u64_max u64_max); unfold in_u, u64_max; lia.
Defined.

(** Printing and re-reading a well-formed unit is the identity, and the
    parser only ever yields well-formed units. *)
Lemma parse_unit_roundtrip :
  (forall u, 0 <= unit_exponent u -> unit_is_well_formed u = true ->
             parse_unit (unit_to_string u) = Some u) /\
  (forall text u, parse_unit text = Some u -> unit_is_well_formed u = true).
Proof.
  split.
  - intros u H0 Hwf. pose proof (well_formed_exponent u Hwf) as H6.
    destruct u as [c s e]; simpl in *.
    assert (e = 0 \/ e = 1 \/ e = 2 \/ e = 3 \/ e = 4 \/ e = 5 \/ e = 6) as He by lia.
    destruct He as [->|[->|[->|[->|[->|[->| ->]]]]]]; destruct s; destruct c;
      first [by vm_compute in Hwf | by vm_compute].
  - intros text u. unfold parse_unit. destruct (_ || _); [done|].
    destruct (parse_unit_code _); [|done].
    destruct (match str_break "." text with None => _ | Some _ => _ end) as [[]|]; [|done].
    destruct (unit_is_well_formed _) eqn:E; simpl; [|done]. by intros [= <-].
Qed.
