(* ===== verification/Name.v ===== *)
(** * Name tokens (include/ocreg/name.hpp, src/name.cpp)

    A [Name] is the text of a validated token; the fixed-capacity array and its
    size byte are the characters of a Rocq string.  The default-constructed
    name is the empty string.  [ProviderId], [DeviceModelId], [DeviceSerialId],
    [SourceId] and [PolicyId] are the five tagged instances of one type; their
    order is the order of the text. *)

From Stdlib Require Import ZArith Lia Ascii String.
From stdpp Require Import base tactics list strings.
From S2P Require Import Prelude Reason Text.

#[local] Open Scope string_scope.
#[local] Open Scope Z_scope.

Definition kMaxNameLength : nat := 48.

Notation Name := string (only parsing).

Definition is_lower_alnum (c : ascii) : bool := is_lower c || is_digit c.

Definition is_separator (c : ascii) : bool :=
  char_is "." c || char_is "_" c || char_is "-" c.

Definition is_continuation (c : ascii) : bool := is_lower_alnum c || is_separator c.

(** [text.front()] and [text.back()] of a non-empty text. *)
Definition str_front (s : string) : ascii :=
  match s with EmptyString => zero | String c _ => c end.
Fixpoint str_back (s : string) : ascii :=
  match s with
  | EmptyString => zero
  | String c EmptyString => c
  | String _ s' => str_back s'
  end.

(** The loop over adjacent characters. *)
Fixpoint doubled_separator (prev : ascii) (s : string) : bool :=
  match s with
  | EmptyString => false
  | String cur s' => (is_separator prev && is_separator cur) || doubled_separator cur s'
  end.

Definition name_parse (text : string) : option Name :=
  if str_empty text || (kMaxNameLength <? String.length text)%nat then None
  else if negb (is_lower_alnum (str_front text)) then None
  else if negb (str_all is_continuation text) then None
  else if is_separator (str_back text) then None
  else match text with
       | EmptyString => None
       | String c s => if doubled_separator c s then None else Some text
       end.

(** ** The grammar

    Lower-case alphanumeric characters, with single separators between them. *)
Inductive NameToken : string -> Prop :=
| tok_char c : is_lower_alnum c = true -> NameToken (String c "")
| tok_cons c s : is_lower_alnum c = true -> NameToken s -> NameToken (String c s)
| tok_sep c d s : is_lower_alnum c = true -> is_separator d = true -> NameToken s ->
                  NameToken (String c (String d s)).

Lemma separator_not_alnum c : is_separator c = true -> is_lower_alnum c = false.
Proof.
  unfold is_separator, char_is. intros [[H|H]%orb_prop|H]%orb_prop;
    apply Ascii.eqb_eq in H as ->; done.
Qed.

Lemma alnum_not_separator c : is_lower_alnum c = true -> is_separator c = false.
Proof.
  destruct (is_separator c) eqn:E; [|done]. by rewrite (separator_not_alnum c E).
Qed.

Lemma token_checks s :
  NameToken s ->
  is_lower_alnum (str_front s) = true /\ str_all is_continuation s = true /\
  is_separator (str_back s) = false /\
  match s with EmptyString => False | String c s' => doubled_separator c s' = false end.
Proof.
  induction 1 as [c Hc|c s Hc Hs (IH1 & IH2 & IH3 & IH4)|c d s Hc Hd Hs (IH1 & IH2 & IH3 & IH4)];
    simpl; unfold is_continuation at 1; rewrite Hc, ?(alnum_not_separator _ Hc); simpl; auto.
  - destruct s as [|c' s']; [done|]. simpl in *. rewrite (alnum_not_separator c' IH1), andb_false_r. auto.
  - destruct s as [|c' s']; [done|]. simpl in IH1. cbn [doubled_separator].
    rewrite (alnum_not_separator c' IH1), andb_false_r. simpl in IH4 |- *.
    unfold is_continuation at 1. rewrite Hd, orb_true_r. auto.
Qed.

Lemma checks_token c s :
  is_lower_alnum c = true -> str_all is_continuation s = true ->
  is_separator (str_back (String c s)) = false -> doubled_separator c s = false ->
  NameToken (String c s).
Proof.
  assert (forall n s c, (String.length s <= n)%nat -> is_lower_alnum c = true ->
    str_all is_continuation s = true -> is_separator (str_back (String c s)) = false ->
    doubled_separator c s = false -> NameToken (String c s)) as H; [|by eapply H].
  clear. induction n as [|n IH]; intros s c Hn Hc Ha Hb Hd.
  - destruct s; [by constructor|simpl in Hn; lia].
  - destruct s as [|d s]; [by constructor|]. simpl in Ha, Hd, Hn.
    apply andb_prop in Ha as [Hcd Ha]. apply orb_false_elim in Hd as [_ Hd].
    apply orb_prop in Hcd as [Hcd|Hcd].
    + apply tok_cons; [done|]. apply IH; auto. lia.
    + destruct s as [|e s]; [simpl in Hb; congruence|].
      simpl in Ha, Hd. rewrite Hcd in Hd. apply orb_false_elim in Hd as [He Hd].
      apply andb_prop in Ha as [Hce Ha].
      apply tok_sep; [done..|]. apply IH; auto; simpl in *; [lia|].
      unfold is_continuation in Hce. rewrite He, orb_false_r in Hce. done.
Qed.

(** [Name::parse] accepts exactly the non-empty tokens of at most 48
    characters in which lower-case alphanumeric characters are separated by
    single dots, underscores or dashes, and it returns the text unchanged: two
    spellings never denote one identity. *)
Theorem name_parse_grammar text n :
  name_parse text = Some n <->
  n = text /\ NameToken text /\ (String.length text <= kMaxNameLength)%nat.
Proof.
  unfold name_parse. split.
  - destruct text as [|c s]; [done|]. cbn [str_empty orb str_front].
    destruct (_ <? _)%nat eqn:El; [done|]. apply Nat.ltb_ge in El.
    destruct (is_lower_alnum c) eqn:Ec; [|done].
    destruct (str_all _ _) eqn:Ea; [|done]. cbn [str_all] in Ea. apply andb_prop in Ea as [_ Ea].
    cbn [negb]. destruct (is_separator _) eqn:Eb; [done|].
    destruct (doubled_separator _ _) eqn:Ed; [done|].
    intros [= <-]. split_and!; [done|by apply checks_token|done].
  - intros (-> & Ht & Hl). destruct (token_checks _ Ht) as (H1 & H2 & H3 & H4).
    destruct text as [|c s]; [done|]. cbn [str_empty orb].
    apply Nat.ltb_ge in Hl. rewrite Hl, H1, H2, H3, H4. done.
Qed.

Lemma name_parse_id text n : name_parse text = Some n -> n = text.
Proof. unfold name_parse. destruct text; [done|]. split_ifs; congruence. Qed.
