(* ===== verification/SemVer.v ===== *)
(** * Semantic versions (include/ocreg/semver.hpp, src/semver.cpp)

    Strict parsing and printing, identity and precedence, and half-open version
    requirements.  The size bytes kept beside the qualifier strings always equal
    the string sizes (at most 32) and are not separate fields. *)

From Stdlib Require Import ZArith Lia Ascii String.
From stdpp Require Import base tactics list strings.
From S2P Require Import Prelude Reason Text.

#[local] Open Scope string_scope.
#[local] Open Scope Z_scope.
#[local] Open Scope ocreg_scope.

Definition kMaxSemVerQualifierLength : nat := 32.

Record SemVer := mkSemVer {
  sv_major : Z; sv_minor : Z; sv_patch : Z; sv_prerelease : string; sv_build : string }.

#[export] Instance semver_eq_dec : EqDecision SemVer.
Proof. solve_decision. Defined.

Definition semver_default : SemVer := mkSemVer 0 0 0 "" "".

Definition is_alnum_dash (c : ascii) : bool :=
  is_digit c || is_lower c || is_upper c || char_is "-" c.

Definition is_numeric_identifier (text : string) : bool :=
  negb (str_empty text) && str_all is_digit text.

(** The substrings between successive dots, in order. *)
Fixpoint str_split (c : ascii) (s : string) : list string :=
  match s with
  | EmptyString => [""]
  | String a s' =>
      if Ascii.eqb a c then "" :: str_split c s'
      else match str_split c s' with
           | x :: l => String a x :: l
           | [] => [String a ""]
           end
  end.

Definition leading_zero (text : string) : bool :=
  (1 <? String.length text)%nat && match text with String c _ => char_is "0" c | _ => false end.

(** One iteration of the loop of [parse_identifiers]. *)
Definition identifier_ok (enforce_numeric_rule : bool) (identifier : string) : bool :=
  if str_empty identifier then false
  else if negb (str_all is_alnum_dash identifier) then false
  else if enforce_numeric_rule && is_numeric_identifier identifier && leading_zero identifier
       then false else true.

Definition parse_identifiers (text : string) (enforce_numeric_rule : bool) : bool :=
  if str_empty text || (kMaxSemVerQualifierLength <? String.length text)%nat then false
  else forallb (identifier_ok enforce_numeric_rule) (str_split "." text).

(** [value = value * 10 + digit], refused as soon as it leaves 32 bits. *)
Fixpoint component_loop (value : Z) (text : string) : option Z :=
  match text with
  | EmptyString => Some value
  | String c text' =>
      let value := u64 (value * 10 + digit_val c) in
      if value >? 4294967295 then None else component_loop value text'
  end.

Definition parse_component (text : string) : option Z :=
  if str_empty text || (10 <? String.length text)%nat then None
  else if negb (str_all is_digit text) then None
  else if leading_zero text then None
  else component_loop 0 text.

(** [(core, prerelease, build)]. *)
Definition split (text : string) : option (string * string * string) :=
  match (match str_break "+" text with
         | Some (t, b) => if str_empty b then None
                          else match str_break "+" b with Some _ => None | None => Some (t, b) end
         | None => Some (text, "")
         end) with
  | None => None
  | Some (text, build) =>
      match str_break "-" text with
      | Some (core, prerelease) =>
          if str_empty prerelease then None else Some (core, prerelease, build)
      | None => Some (text, "", build)
      end
  end.

(** The three iterations over the version core. *)
Definition parse_core (core : string) : option (Z * Z * Z) :=
  match str_break "." core with
  | None => None
  | Some (c0, rest) =>
      match parse_component c0, str_break "." rest with
      | Some major, Some (c1, c2) =>
          match parse_component c1, str_break "." c2 with
          | Some minor, None =>
              match parse_component c2 with
              | Some patch => Some (major, minor, patch)
              | None => None
              end
          | _, _ => None
          end
      | _, _ => None
      end
  end.

Definition semver_parse (text : string) : option SemVer :=
  if str_empty text || (128 <? String.length text)%nat then None
  else match split text with
       | None => None
       | Some (core, prerelease, build) =>
           match parse_core core with
           | None => None
           | Some (major, minor, patch) =>
               if negb (str_empty prerelease) && negb (parse_identifiers prerelease true) then None
               else if negb (str_empty build) && negb (parse_identifiers build false) then None
               else Some (mkSemVer major minor patch prerelease build)
           end
       end.

Definition semver_str (v : SemVer) : string :=
  dec_str (sv_major v) ++ "." ++ dec_str (sv_minor v) ++ "." ++ dec_str (sv_patch v) ++
  (if str_empty (sv_prerelease v) then "" else "-" ++ sv_prerelease v) ++
  (if str_empty (sv_build v) then "" else "+" ++ sv_build v).

(** [operator<=>]: identity. *)
Definition semver_key (v : SemVer) : Z * (Z * (Z * (string * string))) :=
  (sv_major v, (sv_minor v, (sv_patch v, (sv_prerelease v, sv_build v)))).
#[export] Instance semver_cmp : Cmp SemVer := cmp_on semver_key.
#[export] Instance semver_cmp_laws : CmpLaws SemVer.
Proof. apply cmp_on_laws. intros [] []; unfold semver_key; simpl. congruence. Qed.

(** [start >= size]: nothing but an empty tail is left. *)
Definition ids_done (l : list string) : bool :=
  match l with [] => true | [s] => str_empty s | _ => false end.

Fixpoint compare_identifiers_loop (l r : list string) : comparison :=
  if ids_done l && ids_done r then Eq
  else if ids_done l then Lt
  else if ids_done r then Gt
  else match l, r with
       | lhs_id :: l', rhs_id :: r' =>
           let lhs_numeric := is_numeric_identifier lhs_id in
           let rhs_numeric := is_numeric_identifier rhs_id in
           (if lhs_numeric && rhs_numeric then
              cmp (Z.of_nat (String.length lhs_id)) (Z.of_nat (String.length rhs_id)) <=>>
              cmp lhs_id rhs_id
            else if negb (Bool.eqb lhs_numeric rhs_numeric) then
              (if lhs_numeric then Lt else Gt)
            else cmp lhs_id rhs_id) <=>>
           match l', r' with [], [] => Eq | _, _ => compare_identifiers_loop l' r' end
       | _, _ => Eq
       end.

Definition compare_identifiers (lhs rhs : string) : comparison :=
  compare_identifiers_loop (str_split "." lhs) (str_split "." rhs).

Definition precedence_compare (a b : SemVer) : comparison :=
  cmp (sv_major a) (sv_major b) <=>> cmp (sv_minor a) (sv_minor b) <=>>
  cmp (sv_patch a) (sv_patch b) <=>>
  let lhs_pre := negb (str_empty (sv_prerelease a)) in
  let rhs_pre := negb (str_empty (sv_prerelease b)) in
  if negb lhs_pre && negb rhs_pre then Eq
  else if negb lhs_pre then Gt
  else if negb rhs_pre then Lt
  else compare_identifiers (sv_prerelease a) (sv_prerelease b).

Record VersionRequirement := mkVersionRequirement {
  vr_minimum : SemVer; vr_maximum_exclusive : option SemVer }.

#[export] Instance version_requirement_eq_dec : EqDecision VersionRequirement.
Proof. solve_decision. Defined.

Definition satisfied_by (req : VersionRequirement) (candidate : SemVer) : bool :=
  match precedence_compare candidate (vr_minimum req) with
  | Lt => false
  | _ => match vr_maximum_exclusive req with
         | None => true
         | Some m => match precedence_compare candidate m with Lt => true | _ => false end
         end
  end.

Definition version_requirement_str (r : VersionRequirement) : string :=
  ">=" ++ semver_str (vr_minimum r) ++
  match vr_maximum_exclusive r with None => "" | Some m => ",<" ++ semver_str m end.

(** ** Facts: canonical decimals *)

(** A non-empty digit string without a redundant leading zero. *)
Definition canonical_decimal (s : string) : Prop :=
  is_numeric_identifier s = true /\ leading_zero s = false.

Lemma digit_val_range c : is_digit c = true -> 0 <= digit_val c <= 9.
Proof.
  unfold is_digit, digit_val. intros [H1%N.leb_le H2%N.leb_le]%andb_prop.
  change (N_of_ascii "0") with 48%N in H1. change (N_of_ascii "9") with 57%N in H2. lia.
Qed.

Lemma digit_val_inj a b : digit_val a = digit_val b -> a = b.
Proof.
  unfold digit_val. intros E. rewrite <- (Ascii.ascii_N_embedding a), <- (Ascii.ascii_N_embedding b).
  f_equal. lia.
Qed.

Lemma dec_val_cons c s :
  dec_val (String c s) = digit_val c * 10 ^ Z.of_nat (String.length s) + dec_val s.
Proof. unfold dec_val at 1. simpl. by rewrite dec_acc_shift. Qed.

Lemma dec_val_bound s :
  str_all is_digit s = true -> 0 <= dec_val s < 10 ^ Z.of_nat (String.length s).
Proof.
  induction s as [|c s IH]; [done|]. cbn [str_all]. intros [Hc Hs]%andb_prop.
  specialize (IH Hs). pose proof (digit_val_range c Hc). rewrite dec_val_cons.
  cbn [String.length]. rewrite Nat2Z.inj_succ, Z.pow_succ_r by lia. nia.
Qed.

Lemma string_cmp_cons a s b t : cmp (String a s) (String b t) = cmp a b <=>> cmp s t.
Proof. done. Qed.

Lemma ascii_cmp_digit a b : cmp a b = (digit_val a ?= digit_val b).
Proof.
  unfold cmp, ascii_cmp, cmp_on, cmp, digit_val.
  destruct (N.compare_spec (N_of_ascii a) (N_of_ascii b));
    destruct (Z.compare_spec (Z.of_N (N_of_ascii a) - 48) (Z.of_N (N_of_ascii b) - 48));
    first [done | lia].
Qed.

Lemma dec_cmp_same_length a b :
  str_all is_digit a = true -> str_all is_digit b = true ->
  String.length a = String.length b -> cmp a b = (dec_val a ?= dec_val b).
Proof.
  revert b. induction a as [|c a IH]; intros [|d b]; simpl str_all; try done.
  intros [Hc Ha]%andb_prop [Hd Hb]%andb_prop [= El].
  rewrite string_cmp_cons, ascii_cmp_digit, !dec_val_cons, (IH b Ha Hb El), El.
  pose proof (dec_val_bound a Ha) as Ba. pose proof (dec_val_bound b Hb) as Bb. rewrite El in Ba.
  destruct (Z.compare_spec (digit_val c) (digit_val d)) as [->|H|H]; simpl; symmetry.
  - destruct (Z.compare_spec (dec_val a) (dec_val b));
      [apply Z.compare_eq_iff|apply Z.compare_lt_iff|apply Z.compare_gt_iff]; lia.
  - apply Z.compare_lt_iff. nia.
  - apply Z.compare_gt_iff. nia.
Qed.

Lemma canonical_lower_bound s :
  canonical_decimal s -> (1 < String.length s)%nat ->
  10 ^ (Z.of_nat (String.length s) - 1) <= dec_val s.
Proof.
  unfold canonical_decimal, is_numeric_identifier, leading_zero. destruct s as [|c s]; [done|].
  simpl str_all. intros [[_ [Hc Hs]%andb_prop]%andb_prop Hz] Hl. apply Nat.ltb_lt in Hl. rewrite Hl in Hz.
  rewrite dec_val_cons. pose proof (dec_val_bound s Hs). pose proof (digit_val_range c Hc).
  assert (digit_val c <> 0) as Hne.
  { intros E. rewrite (digit_val_inj c "0" E) in Hz. done. }
  cbn [String.length]. replace (Z.of_nat (S (String.length s)) - 1) with (Z.of_nat (String.length s)) by lia.
  nia.
Qed.

(** Shorter canonical decimals are smaller numbers. *)
Lemma canonical_length_lt a b :
  canonical_decimal a -> canonical_decimal b ->
  (String.length a < String.length b)%nat -> dec_val a < dec_val b.
Proof.
  intros [[Hne Ha]%andb_prop _] Hb Hl. pose proof (dec_val_bound a Ha) as Ba.
  assert (1 <= String.length a)%nat by (destruct a; [done|simpl; lia]).
  pose proof (canonical_lower_bound b Hb ltac:(lia)) as Bb.
  enough (10 ^ Z.of_nat (String.length a) <= 10 ^ (Z.of_nat (String.length b) - 1)) by lia.
  apply Z.pow_le_mono_r; lia.
Qed.

(** Length first, then text, is the numeric order. *)
Lemma canonical_cmp a b :
  canonical_decimal a -> canonical_decimal b ->
  cmp (Z.of_nat (String.length a)) (Z.of_nat (String.length b)) <=>> cmp a b =
  (dec_val a ?= dec_val b).
Proof.
  intros Ha Hb. unfold cmp at 1, Z_cmp.
  destruct (Z.compare_spec (Z.of_nat (String.length a)) (Z.of_nat (String.length b))) as [E|E|E];
    simpl.
  - destruct Ha as [[_ Ha]%andb_prop _], Hb as [[_ Hb]%andb_prop _].
    apply dec_cmp_same_length; [done..|lia].
  - symmetry. apply Z.compare_lt_iff, canonical_length_lt; [done..|lia].
  - symmetry. apply Z.compare_gt_iff, canonical_length_lt; [done..|lia].
Qed.

Lemma canonical_unique a b :
  canonical_decimal a -> canonical_decimal b -> dec_val a = dec_val b -> a = b.
Proof.
  intros Ha Hb E. pose proof (canonical_cmp a b Ha Hb) as H.
  rewrite E, Z.compare_refl in H. unfold then_cmp in H.
  destruct (cmp (Z.of_nat _) _); try done. by apply cmp_eq.
Qed.

Lemma dec_str_canonical n : 0 <= n <= u64_max -> canonical_decimal (dec_str n) /\ dec_val (dec_str n) = n.
Proof.
  intros Hn. destruct (dec_str_ok n Hn) as [Hd Hv Hh _]. split; [|done].
  unfold canonical_decimal, is_numeric_identifier, leading_zero.
  destruct (dec_str n) as [|c s]; [done|]. split; [done|].
  destruct Hh as [->|Hc]; [done|]. unfold char_is.
  destruct (Ascii.eqb_spec c "0"); [done|]. by rewrite andb_false_r.
Qed.

(** ** Facts: parsing and printing *)

Lemma dec_acc_ge v s : 0 <= v -> str_all is_digit s = true -> v <= dec_acc v s.
Proof.
  intros Hv Hs. rewrite dec_acc_shift. pose proof (dec_val_bound s Hs).
  assert (1 <= 10 ^ Z.of_nat (String.length s)) by lia. nia.
Qed.

Lemma component_loop_spec s v :
  0 <= v <= 4294967295 -> str_all is_digit s = true ->
  component_loop v s = if dec_acc v s >? 4294967295 then None else Some (dec_acc v s).
Proof.
  revert v. induction s as [|c s IH]; intros v Hv; cbn [str_all component_loop dec_acc].
  - intros _. destruct (v >? _) eqn:E; zb; [lia|done].
  - intros [Hc Hs]%andb_prop. pose proof (digit_val_range c Hc).
    unfold u64. rewrite wrap_small by (unfold in_u; lia).
    destruct (_ * 10 + _ >? _) eqn:E; zb; [|apply IH; [lia|done]].
    pose proof (dec_acc_ge (v * 10 + digit_val c) s ltac:(lia) Hs).
    destruct (dec_acc _ s >? _) eqn:E2; zb; [done|lia].
Qed.

Lemma parse_component_spec text n :
  parse_component text = Some n <-> in_u 32 n /\ text = dec_str n.
Proof.
  unfold parse_component, in_u. split.
  - destruct (str_empty text) eqn:E0; [done|]. cbn [orb].
    destruct (_ <? _)%nat eqn:E1; [done|].
    destruct (str_all is_digit text) eqn:E2; [|done]. cbn [negb].
    destruct (leading_zero text) eqn:E3; [done|].
    rewrite component_loop_spec by (done || lia).
    destruct (_ >? _) eqn:E4; zb; [done|]. intros [= <-].
    pose proof (dec_val_bound text E2) as B. fold (dec_val text) in *. split; [lia|].
    destruct (dec_str_canonical (dec_val text)) as [Hc Hv]; [unfold u64_max; lia|].
    apply canonical_unique; [|done|done]. split; [|done].
    unfold is_numeric_identifier. by rewrite E0, E2.
  - intros [Hn ->]. destruct (dec_str_canonical n) as [Hc Hv]; [unfold u64_max; lia|].
    pose proof Hc as [[H0 Hd]%andb_prop Hz]. apply negb_true_iff in H0.
    rewrite H0, Hd, Hz. cbn [orb negb].
    destruct (_ <? _)%nat eqn:E1.
    { apply Nat.ltb_lt in E1. exfalso.
      pose proof (canonical_lower_bound (dec_str n) Hc ltac:(lia)) as B. rewrite Hv in B.
      enough (10 ^ 10 <= 10 ^ (Z.of_nat (String.length (dec_str n)) - 1)) by lia.
      apply Z.pow_le_mono_r; lia. }
    rewrite component_loop_spec by (done || lia). fold (dec_val (dec_str n)). rewrite Hv.
    destruct (n >? _) eqn:E; zb; [lia|done].
Qed.

Lemma dec_str_digits n : in_u 32 n -> str_all is_digit (dec_str n) = true.
Proof.
  unfold in_u. intros Hn. destruct (dec_str_ok n) as [Hd _ _ _]; [unfold u64_max; lia|done].
Qed.

(** Characters that end a component of a version. *)
Lemma digits_no c s :
  is_digit c = false -> str_all is_digit s = true ->
  str_all (fun x => negb (char_is c x)) s = true.
Proof.
  intros Hc. apply str_all_impl. intros x Hx. unfold char_is.
  destruct (Ascii.eqb_spec x c) as [->|]; [congruence|done].
Qed.

Lemma str_split_all p c s :
  forallb (str_all p) (str_split c s) = true ->
  str_all (fun x => p x || char_is c x) s = true.
Proof.
  induction s as [|a s IH]; simpl; [done|]. unfold char_is at 1.
  destruct (Ascii.eqb a c); simpl; [by rewrite orb_true_r|].
  destruct (str_split c s) as [|x l] eqn:E; [destruct s; simpl in E; repeat case_match; done|].
  simpl in *. intros [[Ha Hx]%andb_prop Hl]%andb_prop. rewrite Ha. simpl. apply IH.
  by rewrite Hx, Hl.
Qed.

Lemma identifiers_chars s b c :
  is_alnum_dash c = false -> char_is "." c = false ->
  parse_identifiers s b = true -> str_all (fun x => negb (char_is c x)) s = true.
Proof.
  intros Hc Hdot. unfold parse_identifiers. destruct (_ || _); [done|]. intros H.
  apply str_all_impl with (p := fun x => is_alnum_dash x || char_is "." x).
  - intros x Hx. unfold char_is at 1. destruct (Ascii.eqb_spec x c) as [->|]; [|done].
    by rewrite Hc, Hdot in Hx.
  - apply str_split_all. rewrite forallb_forall in H |- *. intros x Hx. specialize (H x Hx).
    unfold identifier_ok in H. by destruct (str_empty x), (str_all _ x).
Qed.

Definition core_str (a b c : Z) : string := dec_str a ++ "." ++ dec_str b ++ "." ++ dec_str c.

Lemma parse_core_spec core a b c :
  parse_core core = Some (a, b, c) <->
  (in_u 32 a /\ in_u 32 b /\ in_u 32 c) /\ core = core_str a b c.
Proof.
  unfold parse_core, core_str. split.
  - destruct (str_break "." core) as [[c0 rest]|] eqn:E0; [|done].
    destruct (parse_component c0) as [x|] eqn:P0; [|done].
    destruct (str_break "." rest) as [[c1 c2]|] eqn:E1; [|done].
    destruct (parse_component c1) as [y|] eqn:P1; [|done].
    destruct (str_break "." c2) eqn:E2; [done|].
    destruct (parse_component c2) as [z|] eqn:P2; [|done].
    intros [= <- <- <-].
    apply str_break_some in E0 as [-> _], E1 as [-> _].
    apply parse_component_spec in P0 as [? ->], P1 as [? ->], P2 as [? ->]. done.
  - intros [(Ha & Hb & Hc) ->].
    assert (forall n, in_u 32 n -> str_all (fun x => negb (char_is "." x)) (dec_str n) = true) as Hn
      by (intros n Hn; apply digits_no; [done|by apply dec_str_digits]).
    cbn [String.append]. rewrite str_break_app by auto.
    rewrite (proj2 (parse_component_spec _ a)) by auto.
    rewrite str_break_app by auto. rewrite (proj2 (parse_component_spec _ b)) by auto.
    rewrite str_break_none by auto. by rewrite (proj2 (parse_component_spec _ c)) by auto.
Qed.

(** What every parsed version satisfies. *)
Record semver_valid (v : SemVer) : Prop := {
  sv_components : in_u 32 (sv_major v) /\ in_u 32 (sv_minor v) /\ in_u 32 (sv_patch v);
  sv_prerelease_ok : sv_prerelease v = "" \/ parse_identifiers (sv_prerelease v) true = true;
  sv_build_ok : sv_build v = "" \/ parse_identifiers (sv_build v) false = true }.

Lemma identifiers_bound s b : parse_identifiers s b = true -> (String.length s <= 32)%nat.
Proof.
  unfold parse_identifiers, kMaxSemVerQualifierLength. destruct (str_empty s); [done|]. cbn [orb].
  destruct (_ <? _)%nat eqn:E; [done|]. by apply Nat.ltb_ge in E.
Qed.

Lemma dec_str_length n : in_u 32 n -> (1 <= String.length (dec_str n) <= 10)%nat.
Proof.
  intros Hn. pose proof (proj2 (parse_component_spec (dec_str n) n) (conj Hn eq_refl)) as H.
  unfold parse_component in H. destruct (dec_str n) as [|c s]; [done|]. cbn [str_empty orb] in H.
  destruct (_ <? _)%nat eqn:E; [done|]. apply Nat.ltb_ge in E. simpl in *. lia.
Qed.

Lemma core_no c a b d :
  is_digit c = false -> char_is c "." = false -> in_u 32 a -> in_u 32 b -> in_u 32 d ->
  str_all (fun x => negb (char_is c x)) (core_str a b d) = true.
Proof.
  intros Hc Hdot Ha Hb Hd. unfold core_str. rewrite !str_all_app. cbn [str_all].
  rewrite !digits_no by (done || by apply dec_str_digits). by rewrite Hdot.
Qed.

(** [split] undoes the concatenation of the three parts. *)
Lemma split_spec text core pre bld :
  split text = Some (core, pre, bld) ->
  text = core ++ (if str_empty pre then "" else "-" ++ pre)
              ++ (if str_empty bld then "" else "+" ++ bld).
Proof.
  unfold split. intros H.
  destruct (str_break "+" text) as [[t b]|] eqn:Ep.
  - apply str_break_some in Ep as [-> _].
    destruct (str_empty b) eqn:Eb; [done|]. destruct (str_break "+" b); [done|].
    destruct (str_break "-" t) as [[c p]|] eqn:Ed.
    + destruct (str_empty p) eqn:Epe; [done|]. injection H as -> -> ->.
      apply str_break_some in Ed as [-> _]. rewrite Epe, Eb. simpl. by rewrite <- str_app_assoc.
    + injection H as -> <- ->. rewrite Eb. done.
  - destruct (str_break "-" text) as [[c p]|] eqn:Ed.
    + destruct (str_empty p) eqn:Epe; [done|]. injection H as -> -> <-.
      apply str_break_some in Ed as [-> _]. rewrite Epe. simpl. by rewrite str_app_nil.
    + injection H as -> <- <-. simpl. by rewrite !str_app_nil.
Qed.

Lemma split_join core pre bld :
  str_all (fun x => negb (char_is "+" x)) core = true ->
  str_all (fun x => negb (char_is "-" x)) core = true ->
  str_all (fun x => negb (char_is "+" x)) pre = true ->
  str_all (fun x => negb (char_is "+" x)) bld = true ->
  split (core ++ (if str_empty pre then "" else "-" ++ pre)
              ++ (if str_empty bld then "" else "+" ++ bld)) = Some (core, pre, bld).
Proof.
  intros H1 H2 H3 H4. unfold split.
  set (head := core ++ (if str_empty pre then "" else "-" ++ pre)).
  assert (str_all (fun x => negb (char_is "+" x)) head = true) as Hh.
  { unfold head. rewrite str_all_app, H1. by destruct pre. }
  assert (str_break "-" head = (if str_empty pre then None else Some (core, pre))) as Hb.
  { unfold head. destruct pre as [|c p]; simpl; [rewrite str_app_nil; by apply str_break_none|].
    by apply str_break_app. }
  rewrite str_app_assoc. fold head. destruct bld as [|c b].
  - simpl. rewrite str_app_nil, (str_break_none _ _ Hh). cbv beta iota. rewrite Hb. unfold head.
    destruct pre; [|done]. cbn [str_empty]. by rewrite str_app_nil.
  - cbn [str_empty String.append]. rewrite (str_break_app _ _ _ Hh), (str_break_none _ _ H4).
    cbn [str_empty]. cbv beta iota. rewrite Hb. unfold head. destruct pre; [|done]. cbn [str_empty]. by rewrite str_app_nil.
Qed.

Lemma semver_str_core v :
  semver_str v = core_str (sv_major v) (sv_minor v) (sv_patch v) ++
                 (if str_empty (sv_prerelease v) then "" else "-" ++ sv_prerelease v) ++
                 (if str_empty (sv_build v) then "" else "+" ++ sv_build v).
Proof. unfold semver_str, core_str. by rewrite <- !str_app_assoc. Qed.

Lemma qualifier_length c s b :
  s = "" \/ parse_identifiers s b = true ->
  (String.length (if str_empty s then "" else String c s) <= 33)%nat.
Proof. intros [->|H]; [simpl; lia|]. apply identifiers_bound in H. destruct s; simpl in *; lia. Qed.

Lemma semver_str_length v :
  semver_valid v -> str_empty (semver_str v) = false /\ (String.length (semver_str v) <= 128)%nat.
Proof.
  intros [(Ha & Hb & Hc) Hp Hq]. rewrite semver_str_core. unfold core_str.
  pose proof (dec_str_length _ Ha). pose proof (dec_str_length _ Hb). pose proof (dec_str_length _ Hc).
  pose proof (qualifier_length "-" _ _ Hp). pose proof (qualifier_length "+" _ _ Hq). split.
  - destruct (dec_str (sv_major v)); simpl in *; [lia|done].
  - repeat rewrite str_app_length. change (String.length ".") with 1%nat. simpl String.append in *. lia.
Qed.

Lemma qualifier_ok s b :
  negb (str_empty s) && negb (parse_identifiers s b) = false <->
  (s = "" \/ parse_identifiers s b = true).
Proof. destruct s; simpl; [tauto|]. destruct (parse_identifiers _ _); simpl; intuition congruence. Qed.

Lemma qualifier_no_plus s b :
  s = "" \/ parse_identifiers s b = true -> str_all (fun x => negb (char_is "+" x)) s = true.
Proof. intros [->|H]; [done|]. by apply (identifiers_chars s b "+"). Qed.

Lemma semver_parse_spec text v :
  semver_parse text = Some v <-> semver_valid v /\ text = semver_str v.
Proof.
  unfold semver_parse. split.
  - destruct (_ || _); [done|]. destruct (split text) as [[[core pre] bld]|] eqn:Es; [|done].
    destruct (parse_core core) as [[[a b] c]|] eqn:Ec; [|done].
    destruct (_ && _) eqn:Ep; [done|]. destruct (negb (str_empty bld) && _) eqn:Eb; [done|].
    intros [= <-]. apply parse_core_spec in Ec as [Hc ->]. apply split_spec in Es as ->.
    rewrite semver_str_core. split; [|done]. split; simpl; [done|by apply qualifier_ok..].
  - intros [Hv ->]. destruct (semver_str_length v Hv) as [-> Hl]. cbn [orb].
    apply Nat.ltb_ge in Hl. rewrite Hl. destruct Hv as [(Ha & Hb & Hc) Hp Hq].
    rewrite semver_str_core, split_join by
      (first [by apply core_no | by eapply qualifier_no_plus]).
    rewrite (proj2 (parse_core_spec _ _ _ _) (conj (conj Ha (conj Hb Hc)) eq_refl)).
    rewrite (proj2 (qualifier_ok _ _) Hp), (proj2 (qualifier_ok _ _) Hq). by destruct v.
Qed.

(** Parsing accepts exactly the canonical spellings: it yields a version if
    and only if that version is valid and the text is what [str] prints for it,
    so printing and parsing are mutually inverse. *)
Theorem semver_roundtrip text v :
  semver_parse text = Some v <-> semver_valid v /\ text = semver_str v.
Proof. apply semver_parse_spec. Qed.

(** ** Facts: precedence *)

(** The order of the specification on one identifier: numeric identifiers by
    value and below alphanumeric ones, those by their text. *)
Definition identifier_key (s : string) : Z * (Z * string) :=
  if is_numeric_identifier s then (0, (dec_val s, "")) else (1, (0, s)).

(** The specification's precedence as one lexicographic key. *)
Definition precedence_key (v : SemVer) : Z * (Z * (Z * (Z * list (Z * (Z * string))))) :=
  (sv_major v, (sv_minor v, (sv_patch v,
    if str_empty (sv_prerelease v) then (1, [])
    else (0, identifier_key <$> str_split "." (sv_prerelease v))))).

Lemma identifier_ok_numeric s :
  identifier_ok true s = true -> is_numeric_identifier s = true -> canonical_decimal s.
Proof.
  unfold identifier_ok. intros H Hn. split; [done|].
  destruct (str_empty s); [done|]. destruct (str_all _ s); [|done]. rewrite Hn in H.
  by destruct (leading_zero s).
Qed.

Lemma identifier_cmp a b :
  identifier_ok true a = true -> identifier_ok true b = true ->
  (if is_numeric_identifier a && is_numeric_identifier b then
     cmp (Z.of_nat (String.length a)) (Z.of_nat (String.length b)) <=>> cmp a b
   else if negb (Bool.eqb (is_numeric_identifier a) (is_numeric_identifier b)) then
     (if is_numeric_identifier a then Lt else Gt)
   else cmp a b) = cmp (identifier_key a) (identifier_key b).
Proof.
  intros Ha Hb. unfold identifier_key.
  destruct (is_numeric_identifier a) eqn:Na, (is_numeric_identifier b) eqn:Nb; try done;
    cbn [andb Bool.eqb negb]; rewrite !cmp_pair.
  rewrite canonical_cmp by (by apply identifier_ok_numeric).
  rewrite cmp_refl. cbn [then_cmp]. change (cmp (dec_val a) (dec_val b)) with (dec_val a ?= dec_val b).
  by destruct (dec_val a ?= dec_val b).
Qed.

Lemma ids_done_nil l : forallb (identifier_ok true) l = true -> ids_done l = match l with [] => true | _ => false end.
Proof.
  destruct l as [|s [|]]; try done. cbn. unfold identifier_ok. by destruct (str_empty s).
Qed.

Lemma compare_identifiers_key l r :
  forallb (identifier_ok true) l = true -> forallb (identifier_ok true) r = true ->
  compare_identifiers_loop l r = cmp (identifier_key <$> l) (identifier_key <$> r).
Proof.
  revert r. induction l as [|a l IH]; intros r Hl Hr.
  - cbn [compare_identifiers_loop]. rewrite (ids_done_nil r Hr). by destruct r.
  - cbn [compare_identifiers_loop]. rewrite (ids_done_nil _ Hl), (ids_done_nil _ Hr).
    destruct r as [|b r]; [done|]. cbn [andb]. cbn [forallb] in Hl, Hr.
    apply andb_prop in Hl as [Ha Hl], Hr as [Hb Hr]. rewrite (identifier_cmp a b Ha Hb).
    change (cmp (identifier_key <$> a :: l) (identifier_key <$> b :: r))
      with (cmp (identifier_key a) (identifier_key b) <=>> cmp (identifier_key <$> l) (identifier_key <$> r)).
    f_equal. destruct l as [|a' l], r as [|b' r]; [done|by apply IH..].
Qed.

Lemma precedence_key_spec a b :
  semver_valid a -> semver_valid b ->
  precedence_compare a b = cmp (precedence_key a) (precedence_key b).
Proof.
  intros Ha Hb. unfold precedence_compare, precedence_key. rewrite !cmp_pair.
  f_equal. f_equal. f_equal.
  destruct (sv_prerelease_ok a Ha) as [Ea|Ea], (sv_prerelease_ok b Hb) as [Eb|Eb].
  - by rewrite Ea, Eb.
  - rewrite Ea. cbn. by destruct (sv_prerelease b).
  - rewrite Eb. cbn. by destruct (sv_prerelease a).
  - unfold parse_identifiers in Ea, Eb.
    destruct (str_empty (sv_prerelease a)); [done|]. destruct (str_empty (sv_prerelease b)); [done|].
    cbn [orb negb andb] in *. destruct (_ <? _)%nat; [done|].
    destruct (_ <? _)%nat; [done|]. unfold compare_identifiers.
    by rewrite compare_identifiers_key.
Qed.

(** C40: precedence is the lexicographic order the specification states: major,
    minor and patch numerically, a pre-release below its release, pre-release
    identifiers one by one with numeric ones by value and below the others;
    build metadata does not take part.  In particular it is antisymmetric and
    transitive on parsed versions. *)
Theorem precedence_follows_specification a b :
  semver_valid a -> semver_valid b ->
  precedence_compare a b = cmp (precedence_key a) (precedence_key b) /\
  precedence_compare b a = CompOpp (precedence_compare a b) /\
  (forall c, semver_valid c -> precedence_compare a b = Lt -> precedence_compare b c = Lt ->
             precedence_compare a c = Lt).
Proof.
  intros Ha Hb. split_and!.
  - by apply precedence_key_spec.
  - rewrite !precedence_key_spec by done. apply cmp_flip.
  - intros c Hc. rewrite !precedence_key_spec by done. apply cmp_lt_trans.
Qed.

Lemma precedence_follows_specification_witness :
  let a := mkSemVer 1 0 0 "alpha.9" "" in
  let b := mkSemVer 1 0 0 "alpha.10" "x" in
  semver_valid a /\ semver_valid b /\ precedence_compare a b = Lt /\ precedence_compare b a = Gt.
Proof.
  intros a b. assert (semver_valid a) as Ha by (split; [by vm_compute|by right|by left]).
  assert (semver_valid b) as Hb by (split; [by vm_compute|by right|by right]).
  split; [done|]. split; [done|]. split; [by vm_compute|].
  destruct (precedence_follows_specification a b Ha Hb) as (_ & H & _).
  rewrite H. by vm_compute.
Defined.

(** A requirement is satisfied exactly by the versions of the half-open
    interval from the minimum up to, and excluding, the maximum, in the
    specification's order. *)
Theorem satisfied_by_interval req v :
  semver_valid v -> semver_valid (vr_minimum req) ->
  (forall m, vr_maximum_exclusive req = Some m -> semver_valid m) ->
  satisfied_by req v = true <->
  cle (precedence_key (vr_minimum req)) (precedence_key v) = true /\
  (forall m, vr_maximum_exclusive req = Some m -> clt (precedence_key v) (precedence_key m) = true).
Proof.
  intros Hv Hmin Hmax. unfold satisfied_by. rewrite precedence_key_spec by done.
  rewrite cle_true. destruct (vr_maximum_exclusive req) as [m|].
  - rewrite precedence_key_spec by auto. split.
    + destruct (cmp (precedence_key v) (precedence_key (vr_minimum req))); try done;
        unfold clt; (destruct (cmp _ (precedence_key m)) eqn:E; [done| |done]);
        intros _; split; try done; intros m' [= <-]; by rewrite E.
    + intros [H1 H2]. specialize (H2 m eq_refl). apply clt_true in H2. rewrite H2.
      by destruct (cmp _ _).
  - split; [|intros [H1 _]; by destruct (cmp _ _)].
    destruct (cmp _ _); done.
Qed.

Lemma satisfied_by_interval_witness :
  let req := mkVersionRequirement (mkSemVer 1 2 0 "" "") (Some (mkSemVer 2 0 0 "" "")) in
  let v := mkSemVer 1 10 0 "" "" in
  satisfied_by req v = true /\ cle (precedence_key (vr_minimum req)) (precedence_key v) = true.
Proof.
  intros req v.
  assert (forall a b c, in_u 32 a -> in_u 32 b -> in_u 32 c -> semver_valid (mkSemVer a b c "" "")) as H
    by (intros; split; [done|by left|by left]).
  assert (satisfied_by req v = true) as E by by vm_compute. split; [done|].
  refine (proj1 (proj1 (satisfied_by_interval req v _ _ _) E)); [apply H; by vm_compute..|].
  intros m [= <-]. apply H; by vm_compute.
Defined.
