(* ===== verification/Hash.v ===== *)
(** * Digests and checksums (include/ocreg/hash.hpp, src/hash.cpp)

    SHA-256 as the streaming state machine of the class [Sha256], the digest
    and its hexadecimal form, the table-driven CRC-32C and the FNV-1a hash.
    Words are [Z] values below 2^32; bytes are [Z] values below 2^8. *)

From Stdlib Require Import ZArith Lia Ascii String.
From stdpp Require Import base tactics list strings.
From S2P Require Import Prelude Reason Text.

#[local] Open Scope string_scope.
#[local] Open Scope Z_scope.

Definition kDigestBytes : nat := 32.

(** A digest is its 32 bytes; the default digest is all zero. *)
Notation Digest256 := (list Z) (only parsing).
Definition digest_zero : Digest256 := replicate kDigestBytes 0.

(** ** SHA-256 *)

Definition rotr (value shift : Z) : Z :=
  Z.lor (Z.shiftr value shift) (u32 (Z.shiftl value (Z.land (32 - shift) 31))).

Definition add32 (a b : Z) : Z := u32 (a + b).

(** [~e] on 32 bits. *)
Definition not32 (x : Z) : Z := 4294967295 - x.

Definition kSha256K : list Z :=
   0x428a2f98 :: 0x71374491 :: 0xb5c0fbcf :: 0xe9b5dba5 :: 0x3956c25b ::
   0x59f111f1 :: 0x923f82a4 :: 0xab1c5ed5 :: 0xd807aa98 :: 0x12835b01 ::
   0x243185be :: 0x550c7dc3 :: 0x72be5d74 :: 0x80deb1fe :: 0x9bdc06a7 ::
   0xc19bf174 :: 0xe49b69c1 :: 0xefbe4786 :: 0x0fc19dc6 :: 0x240ca1cc ::
   0x2de92c6f :: 0x4a7484aa :: 0x5cb0a9dc :: 0x76f988da :: 0x983e5152 ::
   0xa831c66d :: 0xb00327c8 :: 0xbf597fc7 :: 0xc6e00bf3 :: 0xd5a79147 ::
   0x06ca6351 :: 0x14292967 :: 0x27b70a85 :: 0x2e1b2138 :: 0x4d2c6dfc ::
   0x53380d13 :: 0x650a7354 :: 0x766a0abb :: 0x81c2c92e :: 0x92722c85 ::
   0xa2bfe8a1 :: 0xa81a664b :: 0xc24b8b70 :: 0xc76c51a3 :: 0xd192e819 ::
   0xd6990624 :: 0xf40e3585 :: 0x106aa070 :: 0x19a4c116 :: 0x1e376c08 ::
   0x2748774c :: 0x34b0bcb5 :: 0x391c0cb3 :: 0x4ed8aa4a :: 0x5b9cca4f ::
   0x682e6ff3 :: 0x748f82ee :: 0x78a5636f :: 0x84c87814 :: 0x8cc70208 ::
   0x90befffa :: 0xa4506ceb :: 0xbef9a3f7 :: 0xc67178f2 :: [].

(** [w[0..15]]: big-endian assembly of the block. *)
Fixpoint load_words (n : nat) (block : list Z) : list Z :=
  match n with
  | O => []
  | S n' =>
      let b i := nth i block 0 in
      Z.lor (Z.lor (Z.lor (Z.shiftl (b 0%nat) 24) (Z.shiftl (b 1%nat) 16)) (Z.shiftl (b 2%nat) 8))
            (b 3%nat) :: load_words n' (drop 4 block)
  end.

(** [w[16..63]], kept newest first: with [i] the next index, [rw] holds
    [w[i-1]], [w[i-2]], ... *)
Fixpoint extend_schedule (n : nat) (rw : list Z) : list Z :=
  match n with
  | O => rw
  | S n' =>
      let x := nth 14 rw 0 in
      let y := nth 1 rw 0 in
      let sigma0 := Z.lxor (Z.lxor (rotr x 7) (rotr x 18)) (Z.shiftr x 3) in
      let sigma1 := Z.lxor (Z.lxor (rotr y 17) (rotr y 19)) (Z.shiftr y 10) in
      extend_schedule n' (add32 (add32 (add32 (nth 15 rw 0) sigma0) (nth 6 rw 0)) sigma1 :: rw)
  end.

Definition message_schedule (block : list Z) : list Z :=
  rev (extend_schedule 48 (rev (load_words 16 block))).

(** The eight working variables [a] to [h]. *)
Record Working := mkWorking {
  wa : Z; wb : Z; wc : Z; wd : Z; we : Z; wf : Z; wg : Z; wh : Z }.

Definition sha_round (v : Working) (kw : Z * Z) : Working :=
  let '(k, w) := kw in
  let big_sigma1 := Z.lxor (Z.lxor (rotr (we v) 6) (rotr (we v) 11)) (rotr (we v) 25) in
  let choose := Z.lxor (Z.land (we v) (wf v)) (Z.land (not32 (we v)) (wg v)) in
  let temp1 := add32 (add32 (add32 (add32 (wh v) big_sigma1) choose) k) w in
  let big_sigma0 := Z.lxor (Z.lxor (rotr (wa v) 2) (rotr (wa v) 13)) (rotr (wa v) 22) in
  let majority := Z.lxor (Z.lxor (Z.land (wa v) (wb v)) (Z.land (wa v) (wc v))) (Z.land (wb v) (wc v)) in
  let temp2 := add32 big_sigma0 majority in
  mkWorking (add32 temp1 temp2) (wa v) (wb v) (wc v) (add32 (wd v) temp1) (we v) (wf v) (wg v).

Definition compress (st : Working) (block : list Z) : Working :=
  let v := fold_left sha_round (combine kSha256K (message_schedule block)) st in
  mkWorking (add32 (wa st) (wa v)) (add32 (wb st) (wb v)) (add32 (wc st) (wc v))
            (add32 (wd st) (wd v)) (add32 (we st) (we v)) (add32 (wf st) (wf v))
            (add32 (wg st) (wg v)) (add32 (wh st) (wh v)).

(** The object: chaining state, the buffered bytes ([buffer_[0..buffered_)]),
    the byte counter and the final flag. *)
Record Sha256 := mkSha256 {
  sha_state : Working; sha_buffer : list Z; sha_total_bytes : Z; sha_finished : bool }.

Definition sha_init : Sha256 :=
  mkSha256 (mkWorking 0x6a09e667 0xbb67ae85 0x3c6ef372 0xa54ff53a
                      0x510e527f 0x9b05688c 0x1f83d9ab 0x5be0cd19) [] 0 false.

(** [while (remaining >= 64) compress(cursor)], then the tail is buffered.
    [n] bounds the number of blocks. *)
Fixpoint absorb_blocks (n : nat) (st : Working) (data : list Z) : Working * list Z :=
  match n with
  | O => (st, data)
  | S n' => if (64 <=? length data)%nat then absorb_blocks n' (compress st (take 64 data)) (drop 64 data)
            else (st, data)
  end.

Definition sha_update (h : Sha256) (data : list Z) : Sha256 :=
  if sha_finished h || match data with [] => true | _ => false end then h
  else
    let total := u64 (sha_total_bytes h + Z.of_nat (length data)) in
    match sha_buffer h with
    | [] => let '(st, rest) := absorb_blocks (length data) (sha_state h) data in
            mkSha256 st rest total false
    | buf =>
        let room := (64 - length buf)%nat in
        let take_n := if (length data <? room)%nat then length data else room in
        let filled := (buf ++ take take_n data)%list in
        let data' := drop take_n data in
        if (length filled <? 64)%nat then mkSha256 (sha_state h) filled total false
        else let '(st, rest) := absorb_blocks (length data') (compress (sha_state h) filled) data' in
             mkSha256 st rest total false
    end.

Definition sha_update_byte (h : Sha256) (byte : Z) : Sha256 :=
  if sha_finished h then h
  else let buf := (sha_buffer h ++ [byte])%list in
       let total := u64 (sha_total_bytes h + 1) in
       if (length buf =? 64)%nat then mkSha256 (compress (sha_state h) buf) [] total false
       else mkSha256 (sha_state h) buf total false.

Definition sha_update_u16 (h : Sha256) (value : Z) : Sha256 :=
  sha_update_byte (sha_update_byte h (u8 (Z.shiftr value 8))) (u8 (Z.land value 255)).

Definition sha_update_u32 (h : Sha256) (value : Z) : Sha256 :=
  let h := sha_update_byte h (u8 (Z.shiftr value 24)) in
  let h := sha_update_byte h (u8 (Z.shiftr value 16)) in
  let h := sha_update_byte h (u8 (Z.shiftr value 8)) in
  sha_update_byte h (u8 (Z.land value 255)).

Definition sha_update_u64 (h : Sha256) (value : Z) : Sha256 :=
  let h := sha_update_byte h (u8 (Z.shiftr value 56)) in
  let h := sha_update_byte h (u8 (Z.shiftr value 48)) in
  let h := sha_update_byte h (u8 (Z.shiftr value 40)) in
  let h := sha_update_byte h (u8 (Z.shiftr value 32)) in
  let h := sha_update_byte h (u8 (Z.shiftr value 24)) in
  let h := sha_update_byte h (u8 (Z.shiftr value 16)) in
  let h := sha_update_byte h (u8 (Z.shiftr value 8)) in
  sha_update_byte h (u8 (Z.land value 255)).

Definition sha_update_bytes (h : Sha256) (data : string) : Sha256 :=
  sha_update (sha_update_u32 h (u32 (Z.of_nat (String.length data)))) (bytes_of_string data).

(** The eight length bytes of the padding. *)
Definition be_bytes8 (v : Z) : list Z :=
  [u8 (Z.shiftr v 56); u8 (Z.shiftr v 48); u8 (Z.shiftr v 40); u8 (Z.shiftr v 32);
   u8 (Z.shiftr v 24); u8 (Z.shiftr v 16); u8 (Z.shiftr v 8); u8 (Z.shiftr v 0)].

(** Padding and final compressions. *)
Definition sha_pad (h : Sha256) : Working :=
  let bit_length := u64 (Z.shiftl (sha_total_bytes h) 3) in
  let buf := (sha_buffer h ++ [128])%list in
  let '(st, buf) := if (56 <? length buf)%nat
                    then (compress (sha_state h) (buf ++ replicate (64 - length buf) 0)%list, [])
                    else (sha_state h, buf) in
  compress st (buf ++ replicate (56 - length buf) 0 ++ be_bytes8 bit_length)%list.

Definition word_bytes (s : Z) : list Z :=
  [u8 (Z.shiftr s 24); u8 (Z.shiftr s 16); u8 (Z.shiftr s 8); u8 (Z.land s 255)].

Definition sha_serialise (v : Working) : Digest256 :=
  concat (map word_bytes [wa v; wb v; wc v; wd v; we v; wf v; wg v; wh v]).

(** The finished object and the digest. *)
Definition sha_finish (h : Sha256) : Sha256 * Digest256 :=
  let h' := if sha_finished h then h else mkSha256 (sha_pad h) [] (sha_total_bytes h) true in
  (h', sha_serialise (sha_state h')).

(** [Digest256::of]. *)
Definition digest_of (data : list Z) : Digest256 := snd (sha_finish (sha_update sha_init data)).

(** ** Hexadecimal form *)

Definition hex_digit_value (c : ascii) : Z :=
  if is_digit c then digit_val c
  else let n := byte_of_char c in
       if (97 <=? n) && (n <=? 102) then n - 97 + 10 else 255.

Definition kHexDigits (d : Z) : ascii :=
  if d <? 10 then digit_char d else char_of_byte (d - 10 + 97).

Fixpoint digest_parse_loop (hex : string) : option (list Z) :=
  match hex with
  | String a (String b rest) =>
      let hi := hex_digit_value a in
      let lo := hex_digit_value b in
      if (hi =? 255) || (lo =? 255) then None
      else match digest_parse_loop rest with
           | Some l => Some (u8 (Z.lor (Z.shiftl hi 4) lo) :: l)
           | None => None
           end
  | _ => Some []
  end.

Definition digest_parse (hex : string) : option Digest256 :=
  if negb (String.length hex =? kDigestBytes * 2)%nat then None else digest_parse_loop hex.

Fixpoint digest_hex (d : Digest256) : string :=
  match d with
  | [] => ""
  | b :: d' => String (kHexDigits (Z.land (Z.shiftr b 4) 15))
                 (String (kHexDigits (Z.land b 15)) (digest_hex d'))
  end.

(** ** CRC-32C *)

Definition crc_bit (crc : Z) : Z :=
  if negb (Z.land crc 1 =? 0) then Z.lxor (Z.shiftr crc 1) 0x82F63B78 else Z.shiftr crc 1.

Definition crc_entry (i : Z) : Z := Nat.iter 8 crc_bit i.

Definition make_crc32c_table : list Z := map (fun n => crc_entry (Z.of_nat n)) (seq 0 256).

Definition kCrc32cTable : list Z := Eval vm_compute in make_crc32c_table.

Definition crc32c_update_byte (crc byte : Z) : Z :=
  Z.lxor (nth (Z.to_nat (Z.land (Z.lxor crc byte) 255)) kCrc32cTable 0) (Z.shiftr crc 8).

Definition crc_update (state : Z) (data : list Z) : Z := fold_left crc32c_update_byte data state.

Definition crc32c (data : list Z) : Z := Z.lxor (crc_update 0xFFFFFFFF data) 0xFFFFFFFF.

(** ** FNV-1a *)

Definition fnv1a64 (data : string) : Z :=
  fold_left (fun hash c => u64 (Z.lxor hash c * 1099511628211)) (bytes_of_string data)
            14695981039346656037.

(** Known answers of the specifications. *)
Example sha256_empty :
  digest_hex (digest_of []) =
  "e3b0c44298fc1c149afbf4c8996fb92427ae41e4649b934ca495991b7852b855".
Proof. vm_compute. reflexivity. Qed.

Example sha256_abc :
  digest_hex (digest_of (bytes_of_string "abc")) =
  "ba7816bf8f01cfea414140de5dae2223b00361a396177a9cb410ff61f20015ad".
Proof. vm_compute. reflexivity. Qed.

Example crc32c_check : crc32c (bytes_of_string "123456789") = 0xE3069283.
Proof. vm_compute. reflexivity. Qed.

(** ** Facts: streaming *)

(** All complete blocks of [data] absorbed, and the tail. *)
Definition absorb (st : Working) (data : list Z) : Working * list Z :=
  absorb_blocks (length data) st data.

Lemma absorb_blocks_fuel n m st data :
  (length data <= n)%nat -> (length data <= m)%nat ->
  absorb_blocks n st data = absorb_blocks m st data.
Proof.
  revert m st data. induction n as [|n IH]; intros m st data Hn Hm.
  - destruct data; [|simpl in Hn; lia]. by destruct m.
  - destruct m as [|m]; [destruct data; [done|simpl in Hm; lia]|]. cbn [absorb_blocks].
    destruct (64 <=? length data)%nat eqn:E; [|done]. apply Nat.leb_le in E.
    apply IH; rewrite length_drop; lia.
Qed.

Lemma absorb_short st data : (length data < 64)%nat -> absorb st data = (st, data).
Proof.
  unfold absorb. destruct data as [|b data]; [done|]. intros H. cbn [length absorb_blocks].
  apply Nat.leb_gt in H. cbn [length] in H. by rewrite H.
Qed.

Lemma absorb_block st block data :
  length block = 64%nat -> absorb st (block ++ data)%list = absorb (compress st block) data.
Proof.
  intros Hb. unfold absorb.
  rewrite (absorb_blocks_fuel _ (S (64 + length data))) by (rewrite ?length_app; lia).
  remember (64 + length data)%nat as fuel eqn:Ef. cbn [absorb_blocks].
  assert ((64 <=? length (block ++ data)%list)%nat = true) as ->
    by (apply Nat.leb_le; rewrite length_app; lia).
  rewrite take_app_length', drop_app_length' by done. apply absorb_blocks_fuel; lia.
Qed.

Lemma split_block (x : list Z) :
  ~ (length x < 64)%nat ->
  exists b r, x = (b ++ r)%list /\ length b = 64%nat /\ (length r < length x)%nat.
Proof.
  intros H. exists (take 64 x), (drop 64 x). rewrite take_drop, length_take, length_drop.
  split; [done|]. lia.
Qed.

Lemma absorb_tail st data : (length (snd (absorb st data)) < 64)%nat.
Proof.
  remember (length data) as n eqn:En. revert st data En.
  induction (lt_wf n) as [n _ IH]. intros st data ->.
  destruct (decide (length data < 64)%nat) as [H|H]; [by rewrite absorb_short|].
  destruct (split_block data H) as (b & r & -> & Hb & Hr). rewrite absorb_block by done.
  by eapply IH.
Qed.

Lemma absorb_app st x y :
  absorb st (x ++ y)%list = absorb (fst (absorb st x)) (snd (absorb st x) ++ y)%list.
Proof.
  remember (length x) as n eqn:En. revert st x En.
  induction (lt_wf n) as [n _ IH]. intros st x ->.
  destruct (decide (length x < 64)%nat) as [H|H]; [by rewrite (absorb_short st x)|].
  destruct (split_block x H) as (b & r & -> & Hb & Hr). rewrite <- app_assoc.
  rewrite (absorb_block st b (r ++ y)%list), (absorb_block st b r) by done. by apply (IH (length r)).
Qed.

(** Between calls the buffer holds less than one block. *)
Definition sha_wf (h : Sha256) : Prop := (length (sha_buffer h) < 64)%nat.

(** What an update of a live object amounts to, whatever was buffered. *)
Lemma sha_update_absorb h data :
  sha_wf h -> sha_finished h = false -> data <> [] ->
  sha_update h data =
  let '(st, rest) := absorb (sha_state h) (sha_buffer h ++ data)%list in
  mkSha256 st rest (u64 (sha_total_bytes h + Z.of_nat (length data))) false.
Proof.
  intros Hwf Hf Hd. unfold sha_update. rewrite Hf. destruct data as [|d0 data]; [done|].
  cbn [orb]. set (D := d0 :: data) in *. unfold sha_wf in Hwf.
  destruct (sha_buffer h) as [|b0 buf]; [done|]. set (B := b0 :: buf) in *.
  destruct (length D <? 64 - length B)%nat eqn:E.
  - apply Nat.ltb_lt in E. rewrite firstn_all, skipn_all. rewrite length_app.
    assert ((length B + length D <? 64)%nat = true) as -> by (apply Nat.ltb_lt; lia).
    rewrite absorb_short by (rewrite length_app; lia). done.
  - apply Nat.ltb_ge in E. rewrite length_app, length_take.
    assert ((length B + Nat.min (64 - length B) (length D) <? 64)%nat = false) as ->
      by (apply Nat.ltb_ge; lia).
    rewrite <- (take_drop (64 - length B) D) at 4. rewrite (app_assoc B).
    rewrite absorb_block by (rewrite length_app, length_take; lia). done.
Qed.

Lemma sha_update_nil h : sha_update h [] = h.
Proof. unfold sha_update. by rewrite orb_true_r. Qed.

Lemma sha_update_finished h data : sha_finished h = true -> sha_update h data = h.
Proof. unfold sha_update. by intros ->. Qed.

Lemma sha_update_wf h data : sha_wf h -> sha_wf (sha_update h data).
Proof.
  intros Hwf. destruct (sha_finished h) eqn:Hf; [by rewrite sha_update_finished|].
  destruct data as [|d data]; [by rewrite sha_update_nil|].
  rewrite sha_update_absorb by done. unfold sha_wf. 
  pose proof (absorb_tail (sha_state h) (sha_buffer h ++ d :: data)%list).
  by destruct (absorb _ _).
Qed.

Lemma sha_update_app_spec h a b :
  sha_wf h -> sha_update (sha_update h a) b = sha_update h (a ++ b)%list.
Proof.
  intros Hwf. destruct (sha_finished h) eqn:Hf; [by rewrite !(sha_update_finished h)|].
  destruct a as [|a0 a]; [by rewrite sha_update_nil|].
  destruct b as [|b0 b]; [by rewrite sha_update_nil, app_nil_r|].
  pose proof (sha_update_wf h (a0 :: a) Hwf) as Hwf1.
  rewrite (sha_update_absorb h (a0 :: a)) in * by done.
  rewrite (sha_update_absorb h (_ ++ _)%list) by done.
  rewrite (app_assoc (sha_buffer h)), (absorb_app _ (sha_buffer h ++ a0 :: a)%list (b0 :: b)).
  destruct (absorb (sha_state h) (sha_buffer h ++ a0 :: a)%list) as [st rest] eqn:E.
  cbv beta iota in Hwf1 |- *. rewrite sha_update_absorb by done. cbn [fst snd sha_state sha_buffer sha_total_bytes].
  destruct (absorb st _). f_equal. unfold u64, wrap.
  rewrite Zplus_mod_idemp_l, length_app. f_equal. lia.
Qed.

Lemma sha_update_byte_spec h b : sha_wf h -> sha_update_byte h b = sha_update h [b].
Proof.
  intros Hwf. unfold sha_update_byte. destruct (sha_finished h) eqn:Hf; [by rewrite sha_update_finished|].
  rewrite sha_update_absorb by done. unfold sha_wf in Hwf. rewrite length_app. cbn [length].
  destruct (length (sha_buffer h) + 1 =? 64)%nat eqn:E.
  - apply Nat.eqb_eq in E. rewrite <- (app_nil_r (_ ++ [b])%list).
    rewrite absorb_block by (rewrite length_app; simpl; lia). by rewrite app_nil_r.
  - apply Nat.eqb_neq in E. by rewrite absorb_short by (rewrite length_app; simpl; lia).
Qed.

Lemma sha_serialise_length v : length (sha_serialise v) = kDigestBytes.
Proof. done. Qed.

Lemma sha_serialise_range v : Forall (in_u 8) (sha_serialise v).
Proof.
  unfold sha_serialise. apply Forall_concat, Forall_map, Forall_true. intros s.
  unfold word_bytes. repeat constructor; apply (wrap_bound 8); lia.
Qed.

(** C37: the streaming interface is a function of the concatenated message: any
    split of the input across [update] calls, byte-wise updates included,
    yields the digest of the whole; every digest has 32 bytes; and after
    [finish] the object ignores input and keeps returning the same digest. *)
Theorem sha256_streaming h a b x :
  sha_wf h ->
  sha_update (sha_update h a) b = sha_update h (a ++ b)%list /\
  sha_update_byte h x = sha_update h [x] /\
  (length (snd (sha_finish h)) = kDigestBytes /\ Forall (in_u 8) (snd (sha_finish h))) /\
  sha_finish (sha_update (fst (sha_finish h)) a) = (fst (sha_finish h), snd (sha_finish h)).
Proof.
  intros Hwf. split_and!.
  - by apply sha_update_app_spec.
  - by apply sha_update_byte_spec.
  - done.
  - apply sha_serialise_range.
  - assert (sha_finished (fst (sha_finish h)) = true) as Hf
      by (unfold sha_finish; by destruct (sha_finished h) eqn:E).
    rewrite (sha_update_finished _ _ Hf). unfold sha_finish at 1. rewrite Hf.
    by destruct (sha_finish h) eqn:E; unfold sha_finish in E; injection E as <- <-.
Qed.

Lemma sha256_streaming_witness :
  digest_of (bytes_of_string "abc") =
  snd (sha_finish (sha_update (sha_update sha_init (bytes_of_string "a")) (bytes_of_string "bc"))).
Proof.
  unfold digest_of.
  rewrite (proj1 (sha256_streaming sha_init (bytes_of_string "a") (bytes_of_string "bc") 0
                    ltac:(unfold sha_wf; simpl; lia))).
  reflexivity.
Defined.

(** ** Facts: hexadecimal form *)

(** A property of a byte holds when it holds of all 256. *)
Lemma byte_exhaustive (P : Z -> bool) :
  forallb P (map Z.of_nat (seq 0 256)) = true -> forall b, in_u 8 b -> P b = true.
Proof.
  unfold in_u. intros H b Hb. rewrite forallb_forall in H. apply H.
  apply in_map_iff. exists (Z.to_nat b). split; [lia|]. apply in_seq. lia.
Qed.

Lemma hex_byte b :
  in_u 8 b ->
  let hi := hex_digit_value (kHexDigits (Z.land (Z.shiftr b 4) 15)) in
  let lo := hex_digit_value (kHexDigits (Z.land b 15)) in
  hi <> 255 /\ lo <> 255 /\ u8 (Z.lor (Z.shiftl hi 4) lo) = b.
Proof.
  intros Hb.
  pose proof (byte_exhaustive (fun b =>
    let hi := hex_digit_value (kHexDigits (Z.land (Z.shiftr b 4) 15)) in
    let lo := hex_digit_value (kHexDigits (Z.land b 15)) in
    negb (hi =? 255) && negb (lo =? 255) && (u8 (Z.lor (Z.shiftl hi 4) lo) =? b))
    ltac:(vm_compute; reflexivity) b Hb) as H. cbv beta zeta in H |- *.
  apply andb_prop in H as [[H1 H2]%andb_prop H3].
  apply negb_true_iff, Z.eqb_neq in H1, H2. apply Z.eqb_eq in H3. done.
Qed.

Lemma digest_hex_parse_loop d : Forall (in_u 8) d -> digest_parse_loop (digest_hex d) = Some d.
Proof.
  induction 1 as [|b d Hb Hd IH]; [done|]. cbn [digest_hex digest_parse_loop].
  destruct (hex_byte b Hb) as (H1 & H2 & H3). cbv zeta in *.
  apply Z.eqb_neq in H1, H2. by rewrite H1, H2, IH, H3.
Qed.

Lemma digest_hex_length d : String.length (digest_hex d) = (2 * length d)%nat.
Proof. induction d; simpl; [done|]. lia. Qed.

(** The two characters of a byte are recovered from its value. *)
Lemma hex_pair a b :
  hex_digit_value a <> 255 -> hex_digit_value b <> 255 ->
  let v := u8 (Z.lor (Z.shiftl (hex_digit_value a) 4) (hex_digit_value b)) in
  kHexDigits (Z.land (Z.shiftr v 4) 15) = a /\ kHexDigits (Z.land v 15) = b /\ in_u 8 v.
Proof.
  assert (forall c, hex_digit_value c <> 255 -> hex_digit_value c ∈ map Z.of_nat (seq 0 16) /\
                    kHexDigits (hex_digit_value c) = c) as Hc.
  { intros [[] [] [] [] [] [] [] []]; vm_compute; intros H; try (by destruct H);
      split; try reflexivity; repeat constructor. }
  intros [Ha Ea]%Hc [Hb Eb]%Hc. cbv zeta.
  assert (forallb (fun x => forallb (fun y =>
    let v := u8 (Z.lor (Z.shiftl x 4) y) in
    (Z.land (Z.shiftr v 4) 15 =? x) && (Z.land v 15 =? y) && (0 <=? v) && (v <? 256))
    (map Z.of_nat (seq 0 16))) (map Z.of_nat (seq 0 16)) = true) as H by (vm_compute; reflexivity).
  rewrite forallb_forall in H. specialize (H (hex_digit_value a) ltac:(by apply list_elem_of_In)).
  rewrite forallb_forall in H. specialize (H (hex_digit_value b) ltac:(by apply list_elem_of_In)).
  cbv zeta in H.
  apply andb_prop in H as [[[H1 H2]%andb_prop H3]%andb_prop H4].
  apply Z.eqb_eq in H1, H2. rewrite H1, H2. unfold in_u. split_and!; [done|done|lia|lia].
Qed.

Lemma digest_parse_loop_hex n s d :
  String.length s = (2 * n)%nat -> digest_parse_loop s = Some d ->
  digest_hex d = s /\ length d = n /\ Forall (in_u 8) d.
Proof.
  revert s d. induction n as [|n IH]; intros s d Hl.
  - destruct s; [|simpl in Hl; lia]. simpl. intros [= <-]. done.
  - destruct s as [|a [|b s]]; [simpl in Hl; lia..|]. cbn [digest_parse_loop].
    destruct (hex_digit_value a =? 255) eqn:E1; [done|].
    destruct (hex_digit_value b =? 255) eqn:E2; [done|]. cbn [orb].
    destruct (digest_parse_loop s) as [l|] eqn:E; [|done]. intros [= <-].
    apply Z.eqb_neq in E1, E2. destruct (hex_pair a b E1 E2) as (H1 & H2 & H3). cbv zeta in *.
    destruct (IH s l ltac:(simpl in Hl; lia) E) as (Hh & Hn & Hr).
    cbn [digest_hex length]. rewrite H1, H2, Hh, Hn. auto.
Qed.

(** The hexadecimal form of a digest has one spelling: parsing accepts
    exactly the 64-character texts that [hex] prints. *)
Lemma digest_hex_roundtrip s d :
  digest_parse s = Some d <->
  length d = kDigestBytes /\ Forall (in_u 8) d /\ s = digest_hex d.
Proof.
  unfold digest_parse. split.
  - destruct (_ =? _)%nat eqn:E; [|done]. apply Nat.eqb_eq in E. cbn [negb]. intros Hp.
    destruct (digest_parse_loop_hex kDigestBytes s d) as (H1 & H2 & H3); [unfold kDigestBytes in *; lia|done|].
    auto.
  - intros (Hl & Hr & ->). rewrite digest_hex_length, Hl. simpl. by apply digest_hex_parse_loop.
Qed.

(** ** Facts: the CRC table *)

Lemma crc_bit_testbit c : crc_bit c = Z.lxor (Z.shiftr c 1) (if Z.testbit c 0 then 0x82F63B78 else 0).
Proof.
  unfold crc_bit. change 1 with (Z.ones 1) at 1. rewrite Z.land_ones, Z.bit0_odd by lia.
  change (2 ^ 1) with 2. rewrite Zmod_odd.
  destruct (Z.odd c); cbn [negb Z.eqb]; [done|by rewrite Z.lxor_0_r].
Qed.

Lemma crc_bit_lxor a b : crc_bit (Z.lxor a b) = Z.lxor (crc_bit a) (crc_bit b).
Proof.
  rewrite !crc_bit_testbit, Z.shiftr_lxor, Z.lxor_spec.
  apply Z.bits_inj'. intros n _. rewrite !Z.lxor_spec.
  destruct (Z.testbit a 0), (Z.testbit b 0); cbn [xorb]; rewrite ?Z.bits_0;
    by destruct (Z.testbit (Z.shiftr a 1) n), (Z.testbit (Z.shiftr b 1) n), (Z.testbit 0x82F63B78 n).
Qed.

Lemma crc_iter_lxor n a b :
  Nat.iter n crc_bit (Z.lxor a b) = Z.lxor (Nat.iter n crc_bit a) (Nat.iter n crc_bit b).
Proof. induction n as [|n IH]; simpl; [done|]. by rewrite IH, crc_bit_lxor. Qed.

Lemma crc_iter_shiftl n y : Nat.iter n crc_bit (Z.shiftl y (Z.of_nat n)) = y.
Proof.
  induction n as [|n IH]; [by rewrite Z.shiftl_0_r|].
  rewrite Nat.iter_succ_r, crc_bit_testbit.
  rewrite Z.shiftl_spec_low, Z.lxor_0_r, Z.shiftr_shiftl_l by lia.
  by replace (Z.of_nat (S n) - 1) with (Z.of_nat n) by lia.
Qed.

Lemma low_byte_split x : x = Z.lxor (Z.land x 255) (Z.shiftl (Z.shiftr x 8) 8).
Proof.
  apply Z.bits_inj'. intros n Hn. rewrite Z.lxor_spec, Z.land_spec, Z.shiftl_spec by lia.
  change 255 with (Z.ones 8). destruct (decide (n < 8)) as [H|H].
  - rewrite Z.ones_spec_low, (Z.testbit_neg_r (Z.shiftr x 8)) by lia. by destruct (Z.testbit x n).
  - rewrite Z.ones_spec_high, Z.shiftr_spec by lia. rewrite andb_false_r, Z.sub_add. by destruct (Z.testbit x n).
Qed.

Lemma land255_range x : in_u 8 (Z.land x 255).
Proof. change 255 with (Z.ones 8). rewrite Z.land_ones by lia. apply Z.mod_pos_bound. lia. Qed.

Lemma crc_table_entry b : in_u 8 b -> nth (Z.to_nat b) kCrc32cTable 0 = Nat.iter 8 crc_bit b.
Proof.
  intros Hb. apply Z.eqb_eq. revert b Hb.
  apply (byte_exhaustive (fun b => nth (Z.to_nat b) kCrc32cTable 0 =? Nat.iter 8 crc_bit b)).
  vm_compute. reflexivity.
Qed.

(** The defining bit-serial division step of the reflected CRC-32C. *)
Definition crc_byte_bitwise (crc byte : Z) : Z := Nat.iter 8 crc_bit (Z.lxor crc byte).

Lemma crc_step_eq crc byte :
  in_u 8 byte -> crc32c_update_byte crc byte = crc_byte_bitwise crc byte.
Proof.
  intros Hb. unfold crc32c_update_byte, crc_byte_bitwise. set (x := Z.lxor crc byte).
  rewrite crc_table_entry by apply land255_range.
  rewrite (low_byte_split x) at 2. rewrite crc_iter_lxor. f_equal.
  change 8 with (Z.of_nat 8) at 3. rewrite crc_iter_shiftl. unfold x.
  rewrite Z.shiftr_lxor. unfold in_u in Hb.
  assert (Z.shiftr byte 8 = 0) as -> by (rewrite Z.shiftr_div_pow2 by lia; apply Z.div_small; lia).
  by rewrite Z.lxor_0_r.
Qed.

(** C38: the table-driven CRC-32C equals the bit-serial definition over the
    reflected Castagnoli polynomial, and checksumming in pieces equals
    checksumming the concatenation. *)
Theorem crc32c_table_equiv data more :
  Forall (in_u 8) data -> Forall (in_u 8) more ->
  crc32c (data ++ more)%list =
    Z.lxor (fold_left crc_byte_bitwise (data ++ more)%list 0xFFFFFFFF) 0xFFFFFFFF /\
  crc_update (crc_update 0xFFFFFFFF data) more = crc_update 0xFFFFFFFF (data ++ more)%list.
Proof.
  intros Hd Hm. split; [|unfold crc_update; by rewrite fold_left_app].
  unfold crc32c, crc_update. f_equal. generalize 0xFFFFFFFF.
  assert (Forall (in_u 8) (data ++ more)%list) as H by by apply Forall_app.
  induction H as [|b l Hb Hl IH]; intros crc; simpl; [done|]. by rewrite crc_step_eq, IH.
Qed.

Lemma crc32c_table_equiv_witness :
  crc32c ([49; 50] ++ [51])%list =
    Z.lxor (fold_left crc_byte_bitwise ([49; 50] ++ [51])%list 0xFFFFFFFF) 0xFFFFFFFF.
Proof.
  apply (crc32c_table_equiv [49; 50] [51]); repeat constructor; unfold in_u; lia.
Defined.
