(* ===== verification/Catalog.v ===== *)
(** * The capability catalog (include/ocreg/catalog.hpp, src/catalog.cpp)

    Capability kinds are an inductive type; a feature or limit code is an
    enumeration over [std::uint32_t] that can hold any 32-bit value, so it is
    that number, and the catalog tables say which numbers exist, how they are
    spelled, which kinds they belong to and, for limits, their unit. *)

From Stdlib Require Import ZArith Lia Ascii String Sorted Permutation.
From stdpp Require Import base tactics list strings.
From S2P Require Import Prelude Checked Reason Text Units Hash.

#[local] Open Scope string_scope.
#[local] Open Scope Z_scope.
#[local] Open Scope ocreg_scope.

Definition kMaxFeaturesPerRecord : Z := 64.
Definition kMaxLimitsPerRecord : Z := 64.

Inductive CapabilityKind :=
| PacketClassification
| ChecksumOffload
| TlsRecordCrypto
| IpsecEsp
| RdmaTransport
| OvsDatapath
| ProgrammablePipeline
| CompressionOffload
| BulkCrypto
| Timestamping
| VirtualSwitch
| StorageOffload
| DmaEngine
| FlowSteering.

Definition kind_num (k : CapabilityKind) : Z :=
  match k with
  | PacketClassification => 1
  | ChecksumOffload => 2
  | TlsRecordCrypto => 3
  | IpsecEsp => 4
  | RdmaTransport => 5
  | OvsDatapath => 6
  | ProgrammablePipeline => 7
  | CompressionOffload => 8
  | BulkCrypto => 9
  | Timestamping => 10
  | VirtualSwitch => 11
  | StorageOffload => 12
  | DmaEngine => 13
  | FlowSteering => 14
  end.

#[export] Instance capability_kind_eq_dec : EqDecision CapabilityKind.
Proof. solve_decision. Defined.
#[export] Instance capability_kind_cmp : Cmp CapabilityKind := cmp_on kind_num.
#[export] Instance capability_kind_cmp_laws : CmpLaws CapabilityKind.
Proof. apply cmp_on_laws. by intros [] []. Qed.

(** [FeatureCode] and [LimitCode]: the underlying 32-bit values. *)
Notation FeatureCode := Z (only parsing).
Notation LimitCode := Z (only parsing).

Record FeatureInfo := mkFeatureInfo { fi_code : FeatureCode; fi_name : string; fi_kind_mask : Z }.
Record LimitInfo := mkLimitInfo {
  li_code : LimitCode; li_name : string; li_kind_mask : Z; li_unit : UnitCode;
  li_decimal_scale_permitted : bool; li_binary_scale_permitted : bool }.

Definition kind_bit (kind : CapabilityKind) : Z := u16 (Z.shiftl 1 (kind_num kind - 1)).

Definition kPC : Z := kind_bit PacketClassification.
Definition kCO : Z := kind_bit ChecksumOffload.
Definition kTLS : Z := kind_bit TlsRecordCrypto.
Definition kIPSEC : Z := kind_bit IpsecEsp.
Definition kRDMA : Z := kind_bit RdmaTransport.
Definition kOVS : Z := kind_bit OvsDatapath.
Definition kPP : Z := kind_bit ProgrammablePipeline.
Definition kCOMP : Z := kind_bit CompressionOffload.
Definition kCRYPTO : Z := kind_bit BulkCrypto.
Definition kTS : Z := kind_bit Timestamping.
Definition kVS : Z := kind_bit VirtualSwitch.
Definition kSTOR : Z := kind_bit StorageOffload.
Definition kDMA : Z := kind_bit DmaEngine.
Definition kFS : Z := kind_bit FlowSteering.
Definition kAllKinds : Z :=
  u16 (foldr Z.lor 0 [kPC; kCO; kTLS; kIPSEC; kRDMA; kOVS; kPP;
       kCOMP; kCRYPTO; kTS; kVS; kSTOR; kDMA; kFS]).

Definition kKinds : list CapabilityKind :=
  [PacketClassification;
   ChecksumOffload;
   TlsRecordCrypto;
   IpsecEsp;
   RdmaTransport;
   OvsDatapath;
   ProgrammablePipeline;
   CompressionOffload;
   BulkCrypto;
   Timestamping;
   VirtualSwitch;
   StorageOffload;
   DmaEngine;
   FlowSteering].

(** Each row carries the enumerator's numeric value.  The array is declared with
    101 elements and initialised with 99, so its last two elements are
    value-initialised. *)
Definition kFeatures : list FeatureInfo :=
  [mkFeatureInfo 1 "classify_l2_ethertype" kPC;
   mkFeatureInfo 2 "classify_l3_ipv4" kPC;
   mkFeatureInfo 3 "classify_l3_ipv6" kPC;
   mkFeatureInfo 4 "classify_l4_tcp_udp" kPC;
   mkFeatureInfo 5 "classify_tunnel_vxlan" kPC;
   mkFeatureInfo 6 "classify_tunnel_geneve" kPC;
   mkFeatureInfo 7 "classify_inner_header" kPC;
   mkFeatureInfo 8 "classify_mpls" kPC;
   mkFeatureInfo 20 "checksum_ipv4_header_tx" kCO;
   mkFeatureInfo 21 "checksum_ipv4_header_rx" kCO;
   mkFeatureInfo 22 "checksum_l4_tx" kCO;
   mkFeatureInfo 23 "checksum_l4_rx" kCO;
   mkFeatureInfo 24 "checksum_outer_l4" kCO;
   mkFeatureInfo 25 "checksum_large_receive_offload" kCO;
   mkFeatureInfo 26 "checksum_receive_coalescing" kCO;
   mkFeatureInfo 40 "tls_1_2" kTLS;
   mkFeatureInfo 41 "tls_1_3" kTLS;
   mkFeatureInfo 42 "tls_aes_gcm_128" kTLS;
   mkFeatureInfo 43 "tls_aes_gcm_256" kTLS;
   mkFeatureInfo 44 "tls_chacha20_poly1305" kTLS;
   mkFeatureInfo 45 "tls_record_alignment" kTLS;
   mkFeatureInfo 46 "tls_key_update" kTLS;
   mkFeatureInfo 60 "ipsec_esp_transport" kIPSEC;
   mkFeatureInfo 61 "ipsec_esp_tunnel" kIPSEC;
   mkFeatureInfo 62 "ipsec_aes_gcm_128" kIPSEC;
   mkFeatureInfo 63 "ipsec_aes_gcm_256" kIPSEC;
   mkFeatureInfo 64 "ipsec_aes_cbc_sha256" kIPSEC;
   mkFeatureInfo 65 "ipsec_anti_replay" kIPSEC;
   mkFeatureInfo 66 "ipsec_nat_traversal" kIPSEC;
   mkFeatureInfo 80 "rdma_roce_v1" kRDMA;
   mkFeatureInfo 81 "rdma_roce_v2" kRDMA;
   mkFeatureInfo 82 "rdma_iwarp" kRDMA;
   mkFeatureInfo 83 "rdma_reliable_connection" kRDMA;
   mkFeatureInfo 84 "rdma_unreliable_datagram" kRDMA;
   mkFeatureInfo 85 "rdma_atomic_operations" kRDMA;
   mkFeatureInfo 86 "rdma_memory_windows" kRDMA;
   mkFeatureInfo 87 "rdma_scatter_gather" kRDMA;
   mkFeatureInfo 100 "ovs_kernel_datapath" kOVS;
   mkFeatureInfo 101 "ovs_userspace_datapath" kOVS;
   mkFeatureInfo 102 "ovs_conntrack" kOVS;
   mkFeatureInfo 103 "ovs_meter" kOVS;
   mkFeatureInfo 104 "ovs_tunnel_vxlan" kOVS;
   mkFeatureInfo 105 "ovs_tunnel_geneve" kOVS;
   mkFeatureInfo 106 "ovs_recirculation" kOVS;
   mkFeatureInfo 120 "pipeline_p4_16" kPP;
   mkFeatureInfo 121 "pipeline_p4_14" kPP;
   mkFeatureInfo 122 "pipeline_psa_architecture" kPP;
   mkFeatureInfo 123 "pipeline_v1model_architecture" kPP;
   mkFeatureInfo 124 "pipeline_parser_state" kPP;
   mkFeatureInfo 125 "pipeline_register_array" kPP;
   mkFeatureInfo 126 "pipeline_meter_array" kPP;
   mkFeatureInfo 127 "pipeline_digest_export" kPP;
   mkFeatureInfo 128 "pipeline_extern_function" kPP;
   mkFeatureInfo 140 "compression_deflate" kCOMP;
   mkFeatureInfo 141 "compression_lz4" kCOMP;
   mkFeatureInfo 142 "compression_zstd" kCOMP;
   mkFeatureInfo 143 "compression_snappy" kCOMP;
   mkFeatureInfo 144 "compression_stateless" kCOMP;
   mkFeatureInfo 145 "compression_stateful" kCOMP;
   mkFeatureInfo 160 "crypto_aes_cbc_128" kCRYPTO;
   mkFeatureInfo 161 "crypto_aes_cbc_256" kCRYPTO;
   mkFeatureInfo 162 "crypto_aes_xts_256" kCRYPTO;
   mkFeatureInfo 163 "crypto_aes_gcm_128" kCRYPTO;
   mkFeatureInfo 164 "crypto_aes_gcm_256" kCRYPTO;
   mkFeatureInfo 165 "crypto_sha1_hmac" kCRYPTO;
   mkFeatureInfo 166 "crypto_sha256_hmac" kCRYPTO;
   mkFeatureInfo 167 "crypto_chacha20_poly1305" kCRYPTO;
   mkFeatureInfo 168 "crypto_key_wrap" kCRYPTO;
   mkFeatureInfo 180 "timestamp_ptp_v2" kTS;
   mkFeatureInfo 181 "timestamp_hardware_tx" kTS;
   mkFeatureInfo 182 "timestamp_hardware_rx" kTS;
   mkFeatureInfo 183 "timestamp_one_step" kTS;
   mkFeatureInfo 184 "timestamp_two_step" kTS;
   mkFeatureInfo 185 "timestamp_phc" kTS;
   mkFeatureInfo 200 "virtual_switch_sriov_vf" kVS;
   mkFeatureInfo 201 "virtual_switch_virtio_net" kVS;
   mkFeatureInfo 202 "virtual_switch_vdpa" kVS;
   mkFeatureInfo 203 "virtual_switch_mac_learning" kVS;
   mkFeatureInfo 204 "virtual_switch_vlan_tagging" kVS;
   mkFeatureInfo 205 "virtual_switch_port_mirroring" kVS;
   mkFeatureInfo 206 "virtual_switch_lag_bonding" kVS;
   mkFeatureInfo 220 "storage_nvme_tcp" kSTOR;
   mkFeatureInfo 221 "storage_nvme_rdma" kSTOR;
   mkFeatureInfo 222 "storage_iscsi" kSTOR;
   mkFeatureInfo 223 "storage_t10_dif" kSTOR;
   mkFeatureInfo 224 "storage_erasure_coding" kSTOR;
   mkFeatureInfo 225 "storage_replication" kSTOR;
   mkFeatureInfo 240 "dma_descriptor_ring" kDMA;
   mkFeatureInfo 241 "dma_scatter_gather" kDMA;
   mkFeatureInfo 242 "dma_interrupt_coalescing" kDMA;
   mkFeatureInfo 243 "dma_atomic_transfer" kDMA;
   mkFeatureInfo 260 "flow_steering_rss" kFS;
   mkFeatureInfo 261 "flow_steering_rss_hash_ipv4" kFS;
   mkFeatureInfo 262 "flow_steering_rss_hash_ipv6" kFS;
   mkFeatureInfo 263 "flow_steering_flow_director" kFS;
   mkFeatureInfo 264 "flow_steering_tc_flower" kFS;
   mkFeatureInfo 265 "flow_steering_action_mark" kFS;
   mkFeatureInfo 266 "flow_steering_action_mirror" kFS;
   mkFeatureInfo 267 "flow_steering_action_drop" kFS;
   mkFeatureInfo 0 "" 0;
   mkFeatureInfo 0 "" 0].

Definition kLimits : list LimitInfo :=
  [mkLimitInfo 1 "classifier_entries" (foldr Z.lor 0 [kPC; kFS; kOVS]) UCount false false;
   mkLimitInfo 2 "classifier_entries_ipv6" (foldr Z.lor 0 [kPC; kFS; kOVS]) UCount false false;
   mkLimitInfo 3 "acl_rules" (foldr Z.lor 0 [kPC; kFS; kOVS]) UCount false false;
   mkLimitInfo 4 "flow_table_entries" (foldr Z.lor 0 [kOVS; kFS; kPP]) UCount false false;
   mkLimitInfo 5 "meter_count" (foldr Z.lor 0 [kOVS; kPP; kFS]) UCount false false;
   mkLimitInfo 6 "register_cells" kPP UCount false false;
   mkLimitInfo 7 "parser_states" kPP UCount false false;
   mkLimitInfo 8 "parser_depth" kPP UCount false false;
   mkLimitInfo 9 "bandwidth" (foldr Z.lor 0 [kPC; kCO; kTLS; kIPSEC; kRDMA; kOVS; kVS; kFS; kDMA; kCRYPTO; kCOMP; kSTOR]) UBitPerSecond true true;
   mkLimitInfo 10 "packet_rate" (foldr Z.lor 0 [kPC; kCO; kOVS; kFS; kVS]) UPacketPerSecond true true;
   mkLimitInfo 11 "conntrack_entries" (foldr Z.lor 0 [kOVS; kVS; kFS]) UCount false false;
   mkLimitInfo 12 "tls_sessions" kTLS UCount false false;
   mkLimitInfo 13 "ipsec_security_associations" kIPSEC UCount false false;
   mkLimitInfo 14 "rdma_queue_pairs" kRDMA UCount false false;
   mkLimitInfo 15 "rdma_completion_queues" kRDMA UCount false false;
   mkLimitInfo 16 "rdma_memory_region_bytes" kRDMA UByte true true;
   mkLimitInfo 17 "dma_channels" kDMA UCount false false;
   mkLimitInfo 18 "dma_descriptor_depth" kDMA UCount false false;
   mkLimitInfo 19 "maximum_transmission_unit" (foldr Z.lor 0 [kPC; kCO; kTLS; kIPSEC; kOVS; kVS; kFS]) UByte false false;
   mkLimitInfo 20 "maximum_record_size" kTLS UByte true true;
   mkLimitInfo 21 "crypto_throughput" (foldr Z.lor 0 [kCRYPTO; kIPSEC; kTLS]) UBytePerSecond true true;
   mkLimitInfo 22 "compression_throughput" kCOMP UBytePerSecond true true;
   mkLimitInfo 23 "compression_ratio" kCOMP UPercent false false;
   mkLimitInfo 24 "latency" kAllKinds UNanoSecond true false;
   mkLimitInfo 25 "jitter" kAllKinds UNanoSecond true false;
   mkLimitInfo 26 "phc_clock_accuracy" kTS UNanoSecond true false;
   mkLimitInfo 27 "timestamp_resolution" kTS UNanoSecond true false;
   mkLimitInfo 28 "virtual_functions" (foldr Z.lor 0 [kVS; kPC; kFS]) UCount false false;
   mkLimitInfo 29 "queue_count" (foldr Z.lor 0 [kRDMA; kVS; kCO; kDMA]) UCount false false;
   mkLimitInfo 30 "receive_queues" (foldr Z.lor 0 [kCO; kVS; kFS; kRDMA]) UCount false false;
   mkLimitInfo 31 "transmit_queues" (foldr Z.lor 0 [kCO; kVS; kFS; kRDMA]) UCount false false;
   mkLimitInfo 32 "storage_iops" kSTOR UOperationPerSecond true false;
   mkLimitInfo 33 "storage_throughput" kSTOR UBytePerSecond true true;
   mkLimitInfo 34 "nvme_queue_depth" kSTOR UCount false false;
   mkLimitInfo 35 "erasure_code_fragments" kSTOR UCount false false;
   mkLimitInfo 36 "shared_memory_bytes" (foldr Z.lor 0 [kRDMA; kDMA; kPP; kVS]) UByte true true;
   mkLimitInfo 37 "firmware_image_bytes" kAllKinds UByte true true].

Definition capability_kind_to_string (kind : CapabilityKind) : string :=
  match kind with
  | PacketClassification => "packet_classification"
  | ChecksumOffload => "checksum_offload"
  | TlsRecordCrypto => "tls_record_crypto"
  | IpsecEsp => "ipsec_esp"
  | RdmaTransport => "rdma_transport"
  | OvsDatapath => "ovs_datapath"
  | ProgrammablePipeline => "programmable_pipeline"
  | CompressionOffload => "compression_offload"
  | BulkCrypto => "bulk_crypto"
  | Timestamping => "timestamping"
  | VirtualSwitch => "virtual_switch"
  | StorageOffload => "storage_offload"
  | DmaEngine => "dma_engine"
  | FlowSteering => "flow_steering"
  end.

Definition feature_info (code : FeatureCode) : option FeatureInfo :=
  find (fun i => fi_code i =? code) kFeatures.

Definition limit_info (code : LimitCode) : option LimitInfo :=
  find (fun i => li_code i =? code) kLimits.

Definition feature_to_string (code : FeatureCode) : string :=
  match feature_info code with None => "unknown" | Some i => fi_name i end.

Definition limit_to_string (code : LimitCode) : string :=
  match limit_info code with None => "unknown" | Some i => li_name i end.

Definition parse_capability_kind (text : string) : option CapabilityKind :=
  find (fun k => String.eqb (capability_kind_to_string k) text) kKinds.

Definition parse_feature_code (text : string) : option FeatureCode :=
  fi_code <$> find (fun i => String.eqb (fi_name i) text) kFeatures.

Definition parse_limit_code (text : string) : option LimitCode :=
  li_code <$> find (fun i => String.eqb (li_name i) text) kLimits.

Definition capability_kind_from_code (raw : Z) : option CapabilityKind :=
  find (fun k => kind_num k =? raw) kKinds.

Definition feature_from_code (raw : Z) : option FeatureCode :=
  fi_code <$> find (fun i => fi_code i =? raw) kFeatures.

Definition limit_from_code (raw : Z) : option LimitCode :=
  li_code <$> find (fun i => li_code i =? raw) kLimits.

Definition feature_allowed_for (code : FeatureCode) (kind : CapabilityKind) : bool :=
  match feature_info code with
  | None => false
  | Some i => negb (Z.land (fi_kind_mask i) (kind_bit kind) =? 0)
  end.

Definition limit_allowed_for (code : LimitCode) (kind : CapabilityKind) : bool :=
  match limit_info code with
  | None => false
  | Some i => negb (Z.land (li_kind_mask i) (kind_bit kind) =? 0)
  end.

Definition canonical_unit_for (code : LimitCode) : option Unit :=
  match limit_info code with None => None | Some i => Some (unity (li_unit i)) end.

Definition unit_valid_for_limit (code : LimitCode) (u : Unit) : bool :=
  match limit_info code with
  | None => false
  | Some i =>
      if negb (bool_decide (unit_code u = li_unit i)) then false
      else if negb (unit_is_well_formed u) then false
      else match unit_scale u with
           | Unity => unit_exponent u =? 0
           | Decimal => li_decimal_scale_permitted i
           | Binary => li_binary_scale_permitted i
           end
  end.

(** The updates [catalog_fingerprint] feeds the hash, in order. *)
Definition catalog_fingerprint : Z :=
  let hash := sha_update_u32 sha_init (Z.of_nat (length kKinds)) in
  let hash := fold_left (fun h kind =>
      sha_update_bytes (sha_update_u16 h (kind_num kind)) (capability_kind_to_string kind))
      kKinds hash in
  let hash := sha_update_u32 hash (Z.of_nat (length kFeatures)) in
  let hash := fold_left (fun h info =>
      sha_update_u16 (sha_update_bytes (sha_update_u32 h (fi_code info)) (fi_name info))
                     (fi_kind_mask info)) kFeatures hash in
  let hash := sha_update_u32 hash (Z.of_nat (length kLimits)) in
  let hash := fold_left (fun h info =>
      let h := sha_update_bytes (sha_update_u32 h (li_code info)) (li_name info) in
      let h := sha_update_u16 h (li_kind_mask info) in
      let h := sha_update_u16 h (unit_code_num (li_unit info)) in
      let h := sha_update_byte h (if li_decimal_scale_permitted info then 1 else 0) in
      sha_update_byte h (if li_binary_scale_permitted info then 1 else 0)) kLimits hash in
  let bytes := snd (sha_finish hash) in
  let b i := nth i bytes 0 in
  Z.lor (Z.lor (Z.lor (Z.shiftl (b 0%nat) 24) (Z.shiftl (b 1%nat) 16)) (Z.shiftl (b 2%nat) 8)) (b 3%nat).

(** ** Feature sets

    The vector [codes_] of a set. *)
Notation FeatureSet := (list Z) (only parsing).

(** The loop over the sorted codes; [prev] is [sorted[i - 1]]. *)
Fixpoint feature_make_loop (kind : CapabilityKind) (prev : option FeatureCode)
    (sorted : list FeatureCode) : ReasonCode :=
  match sorted with
  | [] => Ok_
  | code :: rest =>
      if bool_decide (prev = Some code) then RejectedDuplicateKey
      else if negb (feature_allowed_for code kind) then
        match feature_info code with
        | None => RejectedUnknownFeatureCode
        | Some _ => RejectedFeatureNotInKind
        end
      else feature_make_loop kind (Some code) rest
  end.

(** The set, or the reason of the first problem. *)
Definition feature_set_make (codes : list FeatureCode) (kind : CapabilityKind)
  : ReasonCode + FeatureSet :=
  if Z.of_nat (length codes) >? kMaxFeaturesPerRecord then inl RejectedFeatureBudgetExceeded
  else let sorted := sort_by (fun c => c) codes in
       match feature_make_loop kind None sorted with
       | Ok_ => inr sorted
       | reason => inl reason
       end.

Definition feature_set_from_validated (codes : list FeatureCode) : FeatureSet :=
  unique_by (fun c => c) (sort_by (fun c => c) codes).

(** [std::binary_search] on the ordered vector: the halving of
    [std::lower_bound] on the range of [len] elements from [first]. *)
Fixpoint lower_bound_loop (fuel : nat) (code : Z) (codes : list Z) (first len : nat) : nat :=
  match fuel with
  | O => first
  | S f =>
      match len with
      | O => first
      | _ => let half := Nat.div2 len in
             let mid := (first + half)%nat in
             match codes !! mid with
             | Some c => if c <? code then lower_bound_loop f code codes (S mid) (len - half - 1)
                         else lower_bound_loop f code codes first half
             | None => first
             end
      end
  end.

Definition feature_contains (set : FeatureSet) (code : FeatureCode) : bool :=
  let pos := lower_bound_loop (S (length set)) code set 0 (length set) in
  match set !! pos with
  | Some c => negb (code <? c)
  | None => false
  end.

Definition feature_contains_all (set required : FeatureSet) : bool :=
  forallb (feature_contains set) required.

(** ** Limit sets *)

Record LimitValue := mkLimitValue { lv_code : LimitCode; lv_unit : Unit; lv_value : Z }.
#[export] Instance limit_value_eq_dec : EqDecision LimitValue.
Proof. solve_decision. Defined.

Notation LimitSet := (list LimitValue) (only parsing).

(** The checks of one entry of a limit set against its kind. *)
Definition limit_check (kind : CapabilityKind) (value : LimitValue) : ReasonCode :=
  match limit_info (lv_code value) with
  | None => RejectedUnknownLimitCode
  | Some info =>
      if negb (limit_allowed_for (lv_code value) kind) then RejectedLimitNotInKind
      else if lv_value value <? 0 then RejectedNegativeLimit
      else if negb (bool_decide (unit_code (lv_unit value) = li_unit info)) then RejectedLimitUnitInvalid
      else if negb (unit_is_well_formed (lv_unit value)) then RejectedLimitUnitScaleInvalid
      else if negb (unit_valid_for_limit (lv_code value) (lv_unit value)) then
        RejectedLimitScaleNotPermitted
      else Ok_
  end.

Fixpoint limit_make_loop (kind : CapabilityKind) (prev : option LimitCode)
    (sorted : list LimitValue) : ReasonCode :=
  match sorted with
  | [] => Ok_
  | value :: rest =>
      if bool_decide (prev = Some (lv_code value)) then RejectedDuplicateKey
      else match limit_check kind value with
           | Ok_ => limit_make_loop kind (Some (lv_code value)) rest
           | reason => reason
           end
  end.

Definition limit_set_make (values : list LimitValue) (kind : CapabilityKind)
  : ReasonCode + LimitSet :=
  if Z.of_nat (length values) >? kMaxLimitsPerRecord then inl RejectedLimitBudgetExceeded
  else let sorted := sort_by lv_code values in
       match limit_make_loop kind None sorted with
       | Ok_ => inr sorted
       | reason => inl reason
       end.

Definition limit_set_from_validated (values : list LimitValue) : LimitSet :=
  unique_by lv_code (sort_by lv_code values).

Definition limit_find (set : LimitSet) (code : LimitCode) : option LimitValue :=
  find (fun v => lv_code v =? code) set.

(** [canonical_order_ok] of both sets (src/codec.cpp). *)
Definition feature_order_ok (set : FeatureSet) : bool := strictly_increasing (fun c => c) set.
Definition limit_order_ok (set : LimitSet) : bool := strictly_increasing lv_code set.

(** ** Facts: tables *)

Lemma find_some_spec {A} (p : A -> bool) l x :
  List.find p l = Some x -> p x = true /\ x ∈ l.
Proof. intros H. apply List.find_some in H as [H1 H2]. split; [done|by apply list_elem_of_In]. Qed.

(** The catalog is unambiguous: every enumerated feature and limit code and
    every kind is found again from its number and from its spelling, and no
    spelling or non-zero number is shared by two rows. *)
Theorem catalog_unambiguous :
  (forall i, i ∈ kFeatures -> fi_code i <> 0 ->
     feature_info (fi_code i) = Some i /\ feature_from_code (fi_code i) = Some (fi_code i) /\
     parse_feature_code (fi_name i) = Some (fi_code i)) /\
  (forall i, i ∈ kLimits ->
     limit_info (li_code i) = Some i /\ limit_from_code (li_code i) = Some (li_code i) /\
     parse_limit_code (li_name i) = Some (li_code i) /\
     unit_valid_for_limit (li_code i) (unity (li_unit i)) = true) /\
  (forall k, capability_kind_from_code (kind_num k) = Some k /\
     parse_capability_kind (capability_kind_to_string k) = Some k).
Proof.
  split_and!.
  - assert (forallb (fun i => (fi_code i =? 0) ||
        bool_decide (fi_code <$> feature_info (fi_code i) = Some (fi_code i)) &&
        bool_decide (fi_name <$> feature_info (fi_code i) = Some (fi_name i)) &&
        bool_decide (fi_kind_mask <$> feature_info (fi_code i) = Some (fi_kind_mask i)) &&
        bool_decide (feature_from_code (fi_code i) = Some (fi_code i)) &&
        bool_decide (parse_feature_code (fi_name i) = Some (fi_code i))) kFeatures = true) as H
      by (vm_compute; reflexivity).
    rewrite forallb_forall in H. intros i Hi Hz. specialize (H i ltac:(by apply list_elem_of_In)).
    apply orb_prop in H as [H|H]; [zb; done|].
    repeat (apply andb_prop in H as [H ?%bool_decide_eq_true]). apply bool_decide_eq_true in H.
    split; [|done]. destruct (feature_info (fi_code i)) as [j|]; [|done]. destruct i, j; simpl in *.
    congruence.
  - assert (forallb (fun i =>
        bool_decide (li_code <$> limit_info (li_code i) = Some (li_code i)) &&
        bool_decide (li_name <$> limit_info (li_code i) = Some (li_name i)) &&
        bool_decide (li_kind_mask <$> limit_info (li_code i) = Some (li_kind_mask i)) &&
        bool_decide (li_unit <$> limit_info (li_code i) = Some (li_unit i)) &&
        bool_decide (li_decimal_scale_permitted <$> limit_info (li_code i) =
                     Some (li_decimal_scale_permitted i)) &&
        bool_decide (li_binary_scale_permitted <$> limit_info (li_code i) =
                     Some (li_binary_scale_permitted i)) &&
        bool_decide (limit_from_code (li_code i) = Some (li_code i)) &&
        bool_decide (parse_limit_code (li_name i) = Some (li_code i)) &&
        bool_decide (unit_valid_for_limit (li_code i) (unity (li_unit i)) = true)) kLimits = true) as H
      by (vm_compute; reflexivity).
    rewrite forallb_forall in H. intros i Hi. specialize (H i ltac:(by apply list_elem_of_In)).
    repeat (apply andb_prop in H as [H ?%bool_decide_eq_true]). apply bool_decide_eq_true in H.
    split; [|done]. destruct (limit_info (li_code i)) as [j|]; [|done]. destruct i, j; simpl in *.
    congruence.
  - intros []; by vm_compute.
Qed.

(** The feature table is declared with 101 elements and initialised with 99,
    so the reserved code 0 is present in it: it is found as a feature, accepted
    from its number, and parsed from the empty spelling; no kind allows it. *)
Theorem reserved_feature_code_present :
  feature_info 0 = Some (mkFeatureInfo 0 "" 0) /\ feature_from_code 0 = Some 0 /\
  parse_feature_code "" = Some 0 /\ (forall k, feature_allowed_for 0 k = false).
Proof. split_and!; [by vm_compute..|]. by intros []. Qed.

(** ** Facts: binary search *)

Lemma strict_sorted_lookup (l : list Z) i j x y :
  StronglySorted (key_lt (fun c : Z => c)) l -> l !! i = Some x -> l !! j = Some y ->
  (i < j)%nat -> x < y.
Proof.
  intros Hs. revert i j. induction Hs as [|z l Hs IH Hall]; intros i j Hi Hj Hij; [done|].
  destruct j as [|j]; [lia|]. destruct i as [|i]; simpl in *.
  - injection Hi as <-. rewrite Forall_forall in Hall. apply list_elem_of_lookup_2 in Hj.
    specialize (Hall y Hj). by apply Z.compare_lt_iff.
  - apply (IH i j Hi Hj). lia.
Qed.

(** The invariant of the halving loop: everything before the result is below
    the code, everything from it on is not. *)
Lemma lower_bound_loop_spec fuel code codes first len :
  StronglySorted (key_lt (fun c : Z => c)) codes ->
  (len < fuel)%nat -> (first + len <= length codes)%nat ->
  (forall i c, (i < first)%nat -> codes !! i = Some c -> c < code) ->
  (forall i c, (first + len <= i)%nat -> codes !! i = Some c -> code <= c) ->
  let pos := lower_bound_loop fuel code codes first len in
  (forall i c, (i < pos)%nat -> codes !! i = Some c -> c < code) /\
  (forall i c, (pos <= i)%nat -> codes !! i = Some c -> code <= c).
Proof.
  intros Hs. revert first len. induction fuel as [|f IH]; intros first len Hf Hb Hlo Hhi; [lia|].
  destruct len as [|len'].
  { cbn. rewrite Nat.add_0_r in Hhi. done. }
  cbn [lower_bound_loop]. remember (S len') as len eqn:El.
  assert (Nat.div2 len < len)%nat as Hh by (apply Nat.lt_div2; lia).
  remember (Nat.div2 len) as half eqn:Ehalf. clear Ehalf.
  set (mid := (first + half)%nat).
  destruct (lookup_lt_is_Some_2 codes mid) as [m Hm]; [unfold mid; lia|]. rewrite Hm.
  destruct (m <? code) eqn:E; zb.
  - apply (IH (S mid) (len - half - 1)%nat); [lia|unfold mid; lia| |].
    + intros i c Hi Hc. destruct (decide (i = mid)) as [->|]; [rewrite Hm in Hc; injection Hc as <-; lia|].
      assert (c < m); [|lia]. apply (strict_sorted_lookup codes i mid); [done..|lia].
    + intros i c Hi. apply Hhi. unfold mid in *. lia.
  - apply (IH first half); [lia|lia|done|].
    intros i c Hi Hc. destruct (decide (i = mid)) as [->|]; [rewrite Hm in Hc; injection Hc as <-; lia|].
    assert (m < c); [|lia]. apply (strict_sorted_lookup codes mid i); [done..|unfold mid in *; lia].
Qed.

Lemma feature_contains_elem set code :
  feature_order_ok set = true -> feature_contains set code = true <-> code ∈ set.
Proof.
  intros Ho. apply strictly_increasing_sorted in Ho. unfold feature_contains.
  destruct (lower_bound_loop_spec (S (length set)) code set 0 (length set) Ho) as [Hlo Hhi];
    [lia|done|intros; lia|intros i c Hi Hc; apply lookup_lt_Some in Hc; lia|].
  set (pos := lower_bound_loop _ _ _ _ _) in *. split.
  - destruct (set !! pos) as [c|] eqn:E; [|done]. intros H. 
    assert (c = code) as <- by (specialize (Hhi pos c ltac:(lia) E); zb; lia).
    by apply list_elem_of_lookup_2 in E.
  - intros [i Hi]%list_elem_of_lookup_1. destruct (decide (i < pos)%nat) as [H|H].
    { specialize (Hlo i code H Hi). lia. }
    destruct (set !! pos) as [c|] eqn:E.
    + specialize (Hhi pos c ltac:(lia) E). destruct (decide (i = pos)) as [->|]; [|].
      * rewrite E in Hi. injection Hi as ->. destruct (code <? code) eqn:E2; zb; [lia|done].
      * assert (c < code); [|lia]. apply (strict_sorted_lookup set pos i); [done..|lia].
    + apply lookup_lt_Some in Hi. apply lookup_ge_None in E. lia.
Qed.

(** Membership by binary search agrees with membership in the list, for
    every set in canonical order, and so [contains_all] is set inclusion. *)
Theorem feature_contains_spec set required :
  feature_order_ok set = true ->
  (forall code, feature_contains set code = true <-> code ∈ set) /\
  (feature_contains_all set required = true <-> forall code, code ∈ required -> code ∈ set).
Proof.
  intros Ho. split; [intros; by apply feature_contains_elem|].
  unfold feature_contains_all. rewrite forallb_forall. split.
  - intros H code Hc. apply feature_contains_elem; [done|]. by apply H, list_elem_of_In.
  - intros H code Hc. apply feature_contains_elem; [done|]. by apply H, list_elem_of_In.
Qed.

Lemma feature_contains_spec_witness :
  feature_order_ok [1; 3; 7; 20] = true /\ feature_contains [1; 3; 7; 20] 7 = true /\
  feature_contains_all [1; 3; 7; 20] [20; 3] = true.
Proof.
  split; [by vm_compute|]. destruct (feature_contains_spec [1; 3; 7; 20] [20; 3] ltac:(by vm_compute)) as [H1 H2].
  split; [by vm_compute|]. apply H2. intros code Hc.
  apply H1. apply elem_of_cons in Hc as [->|Hc]; [by vm_compute|].
  apply elem_of_cons in Hc as [->|Hc]; [by vm_compute|]. by apply elem_of_nil in Hc.
Defined.

(** ** Facts: construction of sets *)

Lemma feature_make_loop_ok kind prev l :
  feature_make_loop kind prev l = Ok_ ->
  forallb (fun c => feature_allowed_for c kind) l = true /\
  (forall c l', l = c :: l' -> prev <> Some c) /\
  (StronglySorted (key_le (fun c : FeatureCode => c)) l -> strictly_increasing (fun c : FeatureCode => c) l = true).
Proof.
  revert prev. induction l as [|c l IH]; intros prev; [done|]. cbn [feature_make_loop].
  case_bool_decide as Hp; [done|].
  destruct (feature_allowed_for c kind) eqn:E; cbn [negb]; [|by destruct (feature_info c)].
  intros Hl. destruct (IH _ Hl) as (H1 & H2 & H3). split_and!.
  - cbn [forallb]. by rewrite E, H1.
  - intros c' l' [= <- <-]. done.
  - intros Hs. apply StronglySorted_inv in Hs as [Hs Hall]. specialize (H3 Hs).
    destruct l as [|d l]; [done|]. cbn [strictly_increasing] in *.
    apply andb_true_intro. split; [|done].
    apply Forall_cons in Hall as [Hcd _]. apply clt_true. unfold key_le in Hcd. apply cle_true in Hcd.
    specialize (H2 d l eq_refl). destruct (cmp c d) eqn:Ec; [|done|].
    + apply cmp_eq in Ec as ->. done.
    + apply cmp_gt_lt in Ec. done.
Qed.

(** [FeatureSet::make] yields a set only if the requested codes, in
    canonical strictly increasing order, are all known and allowed for the
    kind; the set is a permutation of the request within the width bound. *)
Theorem feature_set_make_ok codes kind s :
  feature_set_make codes kind = inr s ->
  Permutation s codes /\ feature_order_ok s = true /\
  forallb (fun c => feature_allowed_for c kind) s = true /\
  Z.of_nat (length s) <= kMaxFeaturesPerRecord.
Proof.
  unfold feature_set_make. destruct (_ >? _) eqn:El; [done|]. zb.
  destruct (feature_make_loop kind None _) eqn:E; try done. intros [= <-].
  destruct (feature_make_loop_ok _ _ _ E) as (H1 & _ & H3). split_and!.
  - apply sort_by_perm.
  - apply H3, sort_by_sorted.
  - done.
  - rewrite sort_by_length. lia.
Qed.

Lemma feature_set_make_ok_witness :
  feature_set_make [3; 1] PacketClassification = inr [1; 3] /\ feature_order_ok [1; 3] = true.
Proof.
  split; [by vm_compute|].
  destruct (feature_set_make_ok [3; 1] PacketClassification [1; 3] ltac:(by vm_compute)) as (_ & H & _).
  exact H.
Defined.
