(* ===== verification/CatalogEnums.v ===== *)
(** * The enumerators of the catalogue (include/ocreg/catalog.hpp)

    The tables of [Catalog] list their codes as numbers; here are the
    enumerators those numbers stand for, and that the tables of src/catalog.cpp
    describe every one of them, in the order of their declaration. *)

From Stdlib Require Import ZArith Lia String.
From stdpp Require Import base tactics list strings.
From S2P Require Import Prelude Units Catalog.

#[local] Open Scope Z_scope.
#[local] Open Scope list_scope.

Module Feature.
Inductive FeatureCode :=
| ClassifyL2Ethertype | ClassifyL3Ipv4 | ClassifyL3Ipv6 | ClassifyL4TcpUdp | ClassifyTunnelVxlan
| ClassifyTunnelGeneve | ClassifyInnerHeader | ClassifyMpls | ChecksumIpv4HeaderTx
| ChecksumIpv4HeaderRx | ChecksumL4Tx | ChecksumL4Rx | ChecksumOuterL4
| ChecksumLargeReceiveOffload | ChecksumReceiveCoalescing | Tls12 | Tls13 | TlsAesGcm128
| TlsAesGcm256 | TlsChacha20Poly1305 | TlsRecordAlignment | TlsKeyUpdate | IpsecEspTransport
| IpsecEspTunnel | IpsecAesGcm128 | IpsecAesGcm256 | IpsecAesCbcSha256 | IpsecAntiReplay
| IpsecNatTraversal | RdmaRoceV1 | RdmaRoceV2 | RdmaIwrap | RdmaReliableConnection
| RdmaUnreliableDatagram | RdmaAtomicOperations | RdmaMemoryWindows | RdmaScatterGather
| OvsKernelDatapath | OvsUserspaceDatapath | OvsConntrack | OvsMeter | OvsTunnelVxlan
| OvsTunnelGeneve | OvsRecirculation | PipelineP4_16 | PipelineP4_14 | PipelinePsaArchitecture
| PipelineV1ModelArchitecture | PipelineParserState | PipelineRegisterArray | PipelineMeterArray
| PipelineDigestExport | PipelineExternFunction | CompressionDeflate | CompressionLz4
| CompressionZstd | CompressionSnappy | CompressionStateless | CompressionStateful
| CryptoAesCbc128 | CryptoAesCbc256 | CryptoAesXts256 | CryptoAesGcm128 | CryptoAesGcm256
| CryptoSha1Hmac | CryptoSha256Hmac | CryptoChacha20Poly1305 | CryptoKeyWrap | TimestampPtpV2
| TimestampHardwareTx | TimestampHardwareRx | TimestampOneStep | TimestampTwoStep | TimestampPhc
| VirtualSwitchSriovVf | VirtualSwitchVirtioNet | VirtualSwitchVdpa | VirtualSwitchMacLearning
| VirtualSwitchVlanTagging | VirtualSwitchPortMirroring | VirtualSwitchLagBonding | StorageNvmeTcp
| StorageNvmeRdma | StorageIscsi | StorageT10Dif | StorageErasureCoding | StorageReplication
| DmaDescriptorRing | DmaScatterGather | DmaInterruptCoalescing | DmaAtomicTransfer
| FlowSteeringRss | FlowSteeringRssHashIpv4 | FlowSteeringRssHashIpv6 | FlowSteeringFlowDirector
| FlowSteeringTcFlower | FlowSteeringActionMark | FlowSteeringActionMirror | FlowSteeringActionDrop.

(** The numeric code, [static_cast<std::uint32_t>]. *)
Definition feature_num (x : FeatureCode) : Z :=
  match x with
  | ClassifyL2Ethertype => 1 | ClassifyL3Ipv4 => 2 | ClassifyL3Ipv6 => 3 | ClassifyL4TcpUdp => 4
  | ClassifyTunnelVxlan => 5 | ClassifyTunnelGeneve => 6 | ClassifyInnerHeader => 7
  | ClassifyMpls => 8 | ChecksumIpv4HeaderTx => 20 | ChecksumIpv4HeaderRx => 21
  | ChecksumL4Tx => 22 | ChecksumL4Rx => 23 | ChecksumOuterL4 => 24
  | ChecksumLargeReceiveOffload => 25 | ChecksumReceiveCoalescing => 26 | Tls12 => 40 | Tls13 => 41
  | TlsAesGcm128 => 42 | TlsAesGcm256 => 43 | TlsChacha20Poly1305 => 44 | TlsRecordAlignment => 45
  | TlsKeyUpdate => 46 | IpsecEspTransport => 60 | IpsecEspTunnel => 61 | IpsecAesGcm128 => 62
  | IpsecAesGcm256 => 63 | IpsecAesCbcSha256 => 64 | IpsecAntiReplay => 65
  | IpsecNatTraversal => 66 | RdmaRoceV1 => 80 | RdmaRoceV2 => 81 | RdmaIwrap => 82
  | RdmaReliableConnection => 83 | RdmaUnreliableDatagram => 84 | RdmaAtomicOperations => 85
  | RdmaMemoryWindows => 86 | RdmaScatterGather => 87 | OvsKernelDatapath => 100
  | OvsUserspaceDatapath => 101 | OvsConntrack => 102 | OvsMeter => 103 | OvsTunnelVxlan => 104
  | OvsTunnelGeneve => 105 | OvsRecirculation => 106 | PipelineP4_16 => 120 | PipelineP4_14 => 121
  | PipelinePsaArchitecture => 122 | PipelineV1ModelArchitecture => 123
  | PipelineParserState => 124 | PipelineRegisterArray => 125 | PipelineMeterArray => 126
  | PipelineDigestExport => 127 | PipelineExternFunction => 128 | CompressionDeflate => 140
  | CompressionLz4 => 141 | CompressionZstd => 142 | CompressionSnappy => 143
  | CompressionStateless => 144 | CompressionStateful => 145 | CryptoAesCbc128 => 160
  | CryptoAesCbc256 => 161 | CryptoAesXts256 => 162 | CryptoAesGcm128 => 163
  | CryptoAesGcm256 => 164 | CryptoSha1Hmac => 165 | CryptoSha256Hmac => 166
  | CryptoChacha20Poly1305 => 167 | CryptoKeyWrap => 168 | TimestampPtpV2 => 180
  | TimestampHardwareTx => 181 | TimestampHardwareRx => 182 | TimestampOneStep => 183
  | TimestampTwoStep => 184 | TimestampPhc => 185 | VirtualSwitchSriovVf => 200
  | VirtualSwitchVirtioNet => 201 | VirtualSwitchVdpa => 202 | VirtualSwitchMacLearning => 203
  | VirtualSwitchVlanTagging => 204 | VirtualSwitchPortMirroring => 205
  | VirtualSwitchLagBonding => 206 | StorageNvmeTcp => 220 | StorageNvmeRdma => 221
  | StorageIscsi => 222 | StorageT10Dif => 223 | StorageErasureCoding => 224
  | StorageReplication => 225 | DmaDescriptorRing => 240 | DmaScatterGather => 241
  | DmaInterruptCoalescing => 242 | DmaAtomicTransfer => 243 | FlowSteeringRss => 260
  | FlowSteeringRssHashIpv4 => 261 | FlowSteeringRssHashIpv6 => 262
  | FlowSteeringFlowDirector => 263 | FlowSteeringTcFlower => 264 | FlowSteeringActionMark => 265
  | FlowSteeringActionMirror => 266 | FlowSteeringActionDrop => 267
  end.

Definition all : list FeatureCode :=
  [ClassifyL2Ethertype; ClassifyL3Ipv4; ClassifyL3Ipv6; ClassifyL4TcpUdp; ClassifyTunnelVxlan;
   ClassifyTunnelGeneve; ClassifyInnerHeader; ClassifyMpls; ChecksumIpv4HeaderTx;
   ChecksumIpv4HeaderRx; ChecksumL4Tx; ChecksumL4Rx; ChecksumOuterL4; ChecksumLargeReceiveOffload;
   ChecksumReceiveCoalescing; Tls12; Tls13; TlsAesGcm128; TlsAesGcm256; TlsChacha20Poly1305;
   TlsRecordAlignment; TlsKeyUpdate; IpsecEspTransport; IpsecEspTunnel; IpsecAesGcm128;
   IpsecAesGcm256; IpsecAesCbcSha256; IpsecAntiReplay; IpsecNatTraversal; RdmaRoceV1; RdmaRoceV2;
   RdmaIwrap; RdmaReliableConnection; RdmaUnreliableDatagram; RdmaAtomicOperations;
   RdmaMemoryWindows; RdmaScatterGather; OvsKernelDatapath; OvsUserspaceDatapath; OvsConntrack;
   OvsMeter; OvsTunnelVxlan; OvsTunnelGeneve; OvsRecirculation; PipelineP4_16; PipelineP4_14;
   PipelinePsaArchitecture; PipelineV1ModelArchitecture; PipelineParserState;
   PipelineRegisterArray; PipelineMeterArray; PipelineDigestExport; PipelineExternFunction;
   CompressionDeflate; CompressionLz4; CompressionZstd; CompressionSnappy; CompressionStateless;
   CompressionStateful; CryptoAesCbc128; CryptoAesCbc256; CryptoAesXts256; CryptoAesGcm128;
   CryptoAesGcm256; CryptoSha1Hmac; CryptoSha256Hmac; CryptoChacha20Poly1305; CryptoKeyWrap;
   TimestampPtpV2; TimestampHardwareTx; TimestampHardwareRx; TimestampOneStep; TimestampTwoStep;
   TimestampPhc; VirtualSwitchSriovVf; VirtualSwitchVirtioNet; VirtualSwitchVdpa;
   VirtualSwitchMacLearning; VirtualSwitchVlanTagging; VirtualSwitchPortMirroring;
   VirtualSwitchLagBonding; StorageNvmeTcp; StorageNvmeRdma; StorageIscsi; StorageT10Dif;
   StorageErasureCoding; StorageReplication; DmaDescriptorRing; DmaScatterGather;
   DmaInterruptCoalescing; DmaAtomicTransfer; FlowSteeringRss; FlowSteeringRssHashIpv4;
   FlowSteeringRssHashIpv6; FlowSteeringFlowDirector; FlowSteeringTcFlower; FlowSteeringActionMark;
   FlowSteeringActionMirror; FlowSteeringActionDrop].

Lemma in_all_feature x : x ∈ all.
Proof. apply list_elem_of_In. destruct x; vm_compute; tauto. Qed.

Lemma find_feature_num x : find (fun y => feature_num y =? feature_num x) all = Some x.
Proof. destruct x; vm_compute; reflexivity. Qed.

#[export] Instance code_inj : Inj (=) (=) feature_num.
Proof. intros x y H. pose proof (find_feature_num x) as Hx. rewrite H, find_feature_num in Hx. congruence. Qed.
End Feature.

Module Limit.
Inductive LimitCode :=
| ClassifierEntries | ClassifierEntriesIpv6 | AclRules | FlowTableEntries | MeterCount
| RegisterCells | ParserStates | ParserDepth | Bandwidth | PacketRate | ConntrackEntries
| TlsSessions | IpsecSecurityAssociations | RdmaQueuePairs | RdmaCompletionQueues
| RdmaMemoryRegionBytes | DmaChannels | DmaDescriptorDepth | MaximumTransmissionUnit
| MaximumRecordSize | CryptoThroughput | CompressionThroughput | CompressionRatio | Latency
| Jitter | PhcClockAccuracy | TimestampResolution | VirtualFunctions | QueueCount | ReceiveQueues
| TransmitQueues | StorageIops | StorageThroughput | NvmeQueueDepth | ErasureCodeFragments
| SharedMemoryBytes | FirmwareImageBytes.

(** The numeric code, [static_cast<std::uint32_t>]. *)
Definition limit_num (x : LimitCode) : Z :=
  match x with
  | ClassifierEntries => 1 | ClassifierEntriesIpv6 => 2 | AclRules => 3 | FlowTableEntries => 4
  | MeterCount => 5 | RegisterCells => 6 | ParserStates => 7 | ParserDepth => 8 | Bandwidth => 9
  | PacketRate => 10 | ConntrackEntries => 11 | TlsSessions => 12 | IpsecSecurityAssociations => 13
  | RdmaQueuePairs => 14 | RdmaCompletionQueues => 15 | RdmaMemoryRegionBytes => 16
  | DmaChannels => 17 | DmaDescriptorDepth => 18 | MaximumTransmissionUnit => 19
  | MaximumRecordSize => 20 | CryptoThroughput => 21 | CompressionThroughput => 22
  | CompressionRatio => 23 | Latency => 24 | Jitter => 25 | PhcClockAccuracy => 26
  | TimestampResolution => 27 | VirtualFunctions => 28 | QueueCount => 29 | ReceiveQueues => 30
  | TransmitQueues => 31 | StorageIops => 32 | StorageThroughput => 33 | NvmeQueueDepth => 34
  | ErasureCodeFragments => 35 | SharedMemoryBytes => 36 | FirmwareImageBytes => 37
  end.

Definition all : list LimitCode :=
  [ClassifierEntries; ClassifierEntriesIpv6; AclRules; FlowTableEntries; MeterCount; RegisterCells;
   ParserStates; ParserDepth; Bandwidth; PacketRate; ConntrackEntries; TlsSessions;
   IpsecSecurityAssociations; RdmaQueuePairs; RdmaCompletionQueues; RdmaMemoryRegionBytes;
   DmaChannels; DmaDescriptorDepth; MaximumTransmissionUnit; MaximumRecordSize; CryptoThroughput;
   CompressionThroughput; CompressionRatio; Latency; Jitter; PhcClockAccuracy; TimestampResolution;
   VirtualFunctions; QueueCount; ReceiveQueues; TransmitQueues; StorageIops; StorageThroughput;
   NvmeQueueDepth; ErasureCodeFragments; SharedMemoryBytes; FirmwareImageBytes].

Lemma in_all_limit x : x ∈ all.
Proof. apply list_elem_of_In. destruct x; vm_compute; tauto. Qed.

Lemma find_limit_num x : find (fun y => limit_num y =? limit_num x) all = Some x.
Proof. destruct x; vm_compute; reflexivity. Qed.

#[export] Instance code_inj : Inj (=) (=) limit_num.
Proof. intros x y H. pose proof (find_limit_num x) as Hx. rewrite H, find_limit_num in Hx. congruence. Qed.
End Limit.

(** ** The tables are complete *)

(** The rows of [kFeatures] are the enumerators in order, then the two rows the
    declared size of the array adds; the rows of [kLimits] are the enumerators. *)
Lemma tables_complete :
  map fi_code kFeatures = map Feature.feature_num Feature.all ++ [0; 0] /\
  map li_code kLimits = map Limit.limit_num Limit.all.
Proof. split; vm_compute; reflexivity. Qed.

(** Every enumerator has its row: a name that parses back to it, the number that
    decodes to it, and at least one kind that may assert it. *)
Lemma feature_described f :
  exists i, feature_info (Feature.feature_num f) = Some i /\ fi_code i = Feature.feature_num f /\
    feature_from_code (Feature.feature_num f) = Some (Feature.feature_num f) /\
    parse_feature_code (feature_to_string (Feature.feature_num f)) = Some (Feature.feature_num f) /\
    existsb (feature_allowed_for (Feature.feature_num f)) kKinds = true.
Proof. destruct f; eexists; (split; [vm_compute; reflexivity|]); vm_compute; split_and!; reflexivity. Qed.

Lemma limit_described l :
  exists i, limit_info (Limit.limit_num l) = Some i /\ li_code i = Limit.limit_num l /\
    limit_from_code (Limit.limit_num l) = Some (Limit.limit_num l) /\
    parse_limit_code (limit_to_string (Limit.limit_num l)) = Some (Limit.limit_num l) /\
    existsb (limit_allowed_for (Limit.limit_num l)) kKinds = true /\
    exists u, canonical_unit_for (Limit.limit_num l) = Some u /\ unit_valid_for_limit (Limit.limit_num l) u = true.
Proof.
  destruct l; eexists; (split; [vm_compute; reflexivity|]); vm_compute; split_and!; try reflexivity;
    eexists; split; reflexivity.
Qed.

(** A number that decodes and is not reserved is the code of an enumerator. *)
Lemma feature_decodes raw c : feature_from_code raw = Some c -> c <> 0 -> exists f, Feature.feature_num f = c.
Proof.
  unfold feature_from_code. destruct (find _ kFeatures) as [i|] eqn:E; [|done]. intros [= <-] Hn.
  apply List.find_some in E as [Hin _]. apply (in_map fi_code) in Hin. rewrite (proj1 tables_complete) in Hin.
  apply in_app_or in Hin as [Hin|[Hin|[Hin|[]]]]; [|congruence..].
  apply in_map_iff in Hin as (f & Hf & _). by exists f.
Qed.
