(* ===== verification/Evidence.v ===== *)
(** * The evidence model (include/ocreg/evidence.hpp, src/evidence.cpp)

    Identities, their orders, the asserted evidence, the registry's bookkeeping
    around it and the enumerations with their spellings.  The strong scalar
    types of include/ocreg/strong.hpp (ticks, generations, epochs, incarnation
    counters, revisions) are unsigned 64-bit values; the four content-derived
    identifiers are digests. *)

From Stdlib Require Import ZArith Lia Ascii String Sorted Permutation.
From stdpp Require Import base tactics list strings.
From S2P Require Import Prelude Checked Reason Text Units Name SemVer Hash Catalog.

#[local] Open Scope string_scope.
#[local] Open Scope Z_scope.

(** ** Scalars and identifiers *)

Notation Tick := Z (only parsing).
Notation EvidenceId := (list Z) (only parsing).
Notation ConflictId := (list Z) (only parsing).
Notation DecisionId := (list Z) (only parsing).
Notation ResolutionId := (list Z) (only parsing).
Notation SourceId := string (only parsing).

(** [Strong::is_unset]. *)
Definition is_unset (x : Z) : bool := x =? 0.

Definition kMaxDeviceUnitIndex : Z := 4095.

(** ** Enumerations *)

Inductive SourceKind :=
| SkSynthetic | SkAdjacentRuntime | SkDeviceSelfReport | SkOperatorDeclaration | SkImportedBundle.

Definition source_kind_num (x : SourceKind) : Z :=
  match x with SkSynthetic => 1 | SkAdjacentRuntime => 2 | SkDeviceSelfReport => 3 | SkOperatorDeclaration => 4 | SkImportedBundle => 5 end.

#[export] Instance source_kind_eq_dec : EqDecision SourceKind.
Proof. solve_decision. Defined.

#[export] Instance source_kind_cmp : Cmp SourceKind := cmp_on source_kind_num.
#[export] Instance source_kind_cmp_laws : CmpLaws SourceKind.
Proof. apply cmp_on_laws. by intros [] []. Qed.

Definition source_kind_to_string (x : SourceKind) : string :=
  match x with
  | SkSynthetic => "synthetic"
  | SkAdjacentRuntime => "adjacent_runtime"
  | SkDeviceSelfReport => "device_self_report"
  | SkOperatorDeclaration => "operator_declaration"
  | SkImportedBundle => "imported_bundle"
  end.

Definition parse_source_kind (text : string) : option SourceKind :=
  find (fun c => String.eqb (source_kind_to_string c) text)
    [SkSynthetic; SkAdjacentRuntime; SkDeviceSelfReport; SkOperatorDeclaration; SkImportedBundle].

Inductive AuthorityRank :=
| ArNone | ArSynthetic | ArImported | ArAdjacentRuntime | ArDeviceSelfReport | ArOperator.

Definition authority_rank_num (x : AuthorityRank) : Z :=
  match x with ArNone => 0 | ArSynthetic => 1 | ArImported => 2 | ArAdjacentRuntime => 3 | ArDeviceSelfReport => 4 | ArOperator => 5 end.

#[export] Instance authority_rank_eq_dec : EqDecision AuthorityRank.
Proof. solve_decision. Defined.

#[export] Instance authority_rank_cmp : Cmp AuthorityRank := cmp_on authority_rank_num.
#[export] Instance authority_rank_cmp_laws : CmpLaws AuthorityRank.
Proof. apply cmp_on_laws. by intros [] []. Qed.

Definition authority_rank_to_string (x : AuthorityRank) : string :=
  match x with
  | ArNone => "none"
  | ArSynthetic => "synthetic"
  | ArImported => "imported"
  | ArAdjacentRuntime => "adjacent_runtime"
  | ArDeviceSelfReport => "device_self_report"
  | ArOperator => "operator"
  end.

Definition parse_authority_rank (text : string) : option AuthorityRank :=
  find (fun c => String.eqb (authority_rank_to_string c) text)
    [ArNone; ArSynthetic; ArImported; ArAdjacentRuntime; ArDeviceSelfReport; ArOperator].

Inductive SourceTrustState :=
| Trusted | Untrusted | Revoked.

Definition source_trust_state_num (x : SourceTrustState) : Z :=
  match x with Trusted => 1 | Untrusted => 2 | Revoked => 3 end.

#[export] Instance source_trust_state_eq_dec : EqDecision SourceTrustState.
Proof. solve_decision. Defined.

#[export] Instance source_trust_state_cmp : Cmp SourceTrustState := cmp_on source_trust_state_num.
#[export] Instance source_trust_state_cmp_laws : CmpLaws SourceTrustState.
Proof. apply cmp_on_laws. by intros [] []. Qed.

Definition source_trust_state_to_string (x : SourceTrustState) : string :=
  match x with
  | Trusted => "trusted"
  | Untrusted => "untrusted"
  | Revoked => "revoked"
  end.

Definition parse_source_trust_state (text : string) : option SourceTrustState :=
  find (fun c => String.eqb (source_trust_state_to_string c) text)
    [Trusted; Untrusted; Revoked].

Inductive EvidenceLifecycle :=
| LcAdmitted | LcRejected | LcRetired.

Definition evidence_lifecycle_num (x : EvidenceLifecycle) : Z :=
  match x with LcAdmitted => 1 | LcRejected => 2 | LcRetired => 3 end.

#[export] Instance evidence_lifecycle_eq_dec : EqDecision EvidenceLifecycle.
Proof. solve_decision. Defined.

#[export] Instance evidence_lifecycle_cmp : Cmp EvidenceLifecycle := cmp_on evidence_lifecycle_num.
#[export] Instance evidence_lifecycle_cmp_laws : CmpLaws EvidenceLifecycle.
Proof. apply cmp_on_laws. by intros [] []. Qed.

Definition evidence_lifecycle_to_string (x : EvidenceLifecycle) : string :=
  match x with
  | LcAdmitted => "admitted"
  | LcRejected => "rejected"
  | LcRetired => "retired"
  end.

Definition parse_evidence_lifecycle (text : string) : option EvidenceLifecycle :=
  find (fun c => String.eqb (evidence_lifecycle_to_string c) text)
    [LcAdmitted; LcRejected; LcRetired].

Inductive EvidenceState :=
| StActive | StSuperseded | StRetired | StRejected | StFenced | StStale | StOutranked | StEvicted.

Definition evidence_state_num (x : EvidenceState) : Z :=
  match x with StActive => 1 | StSuperseded => 2 | StRetired => 3 | StRejected => 4 | StFenced => 5 | StStale => 6 | StOutranked => 7 | StEvicted => 8 end.

#[export] Instance evidence_state_eq_dec : EqDecision EvidenceState.
Proof. solve_decision. Defined.

#[export] Instance evidence_state_cmp : Cmp EvidenceState := cmp_on evidence_state_num.
#[export] Instance evidence_state_cmp_laws : CmpLaws EvidenceState.
Proof. apply cmp_on_laws. by intros [] []. Qed.

Definition evidence_state_to_string (x : EvidenceState) : string :=
  match x with
  | StActive => "active"
  | StSuperseded => "superseded"
  | StRetired => "retired"
  | StRejected => "rejected"
  | StFenced => "fenced"
  | StStale => "stale"
  | StOutranked => "outranked"
  | StEvicted => "evicted"
  end.

Definition parse_evidence_state (text : string) : option EvidenceState :=
  find (fun c => String.eqb (evidence_state_to_string c) text)
    [StActive; StSuperseded; StRetired; StRejected; StFenced; StStale; StOutranked; StEvicted].

(** ** Identities *)

Record DeviceIdentity := mkDeviceIdentity {
  di_provider : string; di_model : string; di_unit_index : Z; di_serial : option string }.

Record DeviceIncarnationRef := mkDeviceRef { dr_device : DeviceIdentity; dr_incarnation : Z }.

Record SourceIncarnation := mkSourceIncarnation { si_source : SourceId; si_counter : Z }.

Record EvidenceKey := mkEvidenceKey {
  ek_device : DeviceIncarnationRef; ek_kind : CapabilityKind; ek_source : SourceId }.

#[export] Instance device_identity_eq_dec : EqDecision DeviceIdentity.
Proof. solve_decision. Defined.
#[export] Instance device_ref_eq_dec : EqDecision DeviceIncarnationRef.
Proof. solve_decision. Defined.
#[export] Instance source_incarnation_eq_dec : EqDecision SourceIncarnation.
Proof. solve_decision. Defined.
#[export] Instance evidence_key_eq_dec : EqDecision EvidenceKey.
Proof. solve_decision. Defined.

(** The comparison chains: provider, model, unit index, then the serial with an
    absent one first. *)
Definition device_identity_key (d : DeviceIdentity) :=
  (di_provider d, (di_model d, (di_unit_index d, di_serial d))).
#[export] Instance device_identity_cmp : Cmp DeviceIdentity := cmp_on device_identity_key.
#[export] Instance device_identity_cmp_laws : CmpLaws DeviceIdentity.
Proof. apply cmp_on_laws. intros [] []; unfold device_identity_key; simpl. congruence. Qed.

Definition device_ref_key (d : DeviceIncarnationRef) := (dr_device d, dr_incarnation d).
#[export] Instance device_ref_cmp : Cmp DeviceIncarnationRef := cmp_on device_ref_key.
#[export] Instance device_ref_cmp_laws : CmpLaws DeviceIncarnationRef.
Proof. apply cmp_on_laws. intros [] []; unfold device_ref_key; simpl. congruence. Qed.

Definition source_incarnation_key (s : SourceIncarnation) := (si_source s, si_counter s).
#[export] Instance source_incarnation_cmp : Cmp SourceIncarnation := cmp_on source_incarnation_key.
#[export] Instance source_incarnation_cmp_laws : CmpLaws SourceIncarnation.
Proof. apply cmp_on_laws. intros [] []; unfold source_incarnation_key; simpl. congruence. Qed.

Definition evidence_key_key (k : EvidenceKey) := (ek_device k, (ek_kind k, ek_source k)).
#[export] Instance evidence_key_cmp : Cmp EvidenceKey := cmp_on evidence_key_key.
#[export] Instance evidence_key_cmp_laws : CmpLaws EvidenceKey.
Proof. apply cmp_on_laws. intros [] []; unfold evidence_key_key; simpl. congruence. Qed.

(** ** Evidence *)

(** What a source stated; [ce_id_cache] is the cached identifier. *)
Record CapabilityEvidence := mkEvidence {
  ce_key : EvidenceKey;
  ce_source_incarnation : SourceIncarnation;
  ce_capability_version : SemVer;
  ce_features : FeatureSet;
  ce_limits : LimitSet;
  ce_firmware_version : option SemVer;
  ce_firmware_generation : Z;
  ce_runtime_version : option SemVer;
  ce_runtime_generation : Z;
  ce_observed_at : Tick;
  ce_valid_until : option Tick;
  ce_generation : Z;
  ce_authority : AuthorityRank;
  ce_epoch_at_ingest : Z;
  ce_boot_at_ingest : Z;
  ce_policy_revision : Z;
  ce_id_cache : Digest256 }.

#[export] Instance evidence_eq_dec : EqDecision CapabilityEvidence.
Proof. solve_decision. Defined.

(** [CapabilityEvidence::id]. *)
Definition evidence_id (e : CapabilityEvidence) : EvidenceId := ce_id_cache e.

Definition with_id_cache (e : CapabilityEvidence) (d : Digest256) : CapabilityEvidence :=
  mkEvidence (ce_key e) (ce_source_incarnation e) (ce_capability_version e) (ce_features e)
    (ce_limits e) (ce_firmware_version e) (ce_firmware_generation e) (ce_runtime_version e)
    (ce_runtime_generation e) (ce_observed_at e) (ce_valid_until e) (ce_generation e)
    (ce_authority e) (ce_epoch_at_ingest e) (ce_boot_at_ingest e) (ce_policy_revision e) d.

(** A record as held by the registry. *)
Record StoredEvidence := mkStored {
  se_evidence : CapabilityEvidence;
  se_lifecycle : EvidenceLifecycle;
  se_admission_reason : ReasonCode;
  se_admitted_at : Tick;
  se_retired_at : option Tick;
  se_retirement_reason : ReasonCode }.

#[export] Instance stored_eq_dec : EqDecision StoredEvidence.
Proof. solve_decision. Defined.

Definition stored_id (s : StoredEvidence) : EvidenceId := evidence_id (se_evidence s).
Definition stored_generation (s : StoredEvidence) : Z := ce_generation (se_evidence s).

Record RetirementRecord := mkRetirement {
  rr_key : EvidenceKey; rr_generation : Z; rr_retired_at : Tick; rr_reason : ReasonCode;
  rr_epoch : Z; rr_policy_revision : Z; rr_authority : AuthorityRank }.

Record ConflictGroup := mkConflictGroup {
  cg_id : ConflictId; cg_device : DeviceIncarnationRef; cg_kind : CapabilityKind;
  cg_authority : AuthorityRank; cg_members : list EvidenceId; cg_generations : list Z;
  cg_observed_first : Tick; cg_observed_last : Tick }.

Record ConflictResolution := mkResolution {
  cr_id : ResolutionId; cr_conflict : ConflictId; cr_chosen : EvidenceId;
  cr_rejected_members : list EvidenceId; cr_resolver : SourceId; cr_resolved_at : Tick;
  cr_epoch : Z }.

Record EvictionEntry := mkEviction {
  ev_id : EvidenceId; ev_key : EvidenceKey; ev_generation : Z;
  ev_state_at_eviction : EvidenceState; ev_reason : ReasonCode; ev_evicted_at : Tick }.

#[export] Instance retirement_eq_dec : EqDecision RetirementRecord.
Proof. solve_decision. Defined.
#[export] Instance conflict_group_eq_dec : EqDecision ConflictGroup.
Proof. solve_decision. Defined.
#[export] Instance resolution_eq_dec : EqDecision ConflictResolution.
Proof. solve_decision. Defined.
#[export] Instance eviction_eq_dec : EqDecision EvictionEntry.
Proof. solve_decision. Defined.

(** [canonicalize_reasons] (src/codec.cpp): sorted by number, duplicates
    dropped. *)
Definition canonical_reasons (reasons : list ReasonCode) : list ReasonCode :=
  unique_by reason_num (sort_by reason_num reasons).

(** ** Facts *)

Lemma canonical_reasons_elem x l : x ∈ canonical_reasons l <-> x ∈ l.
Proof.
  unfold canonical_reasons. split.
  - intros Hx. apply unique_by_elem in Hx. by apply sort_by_elem in Hx.
  - intros Hx. destruct (unique_by_key reason_num x (sort_by reason_num l)) as (y & Hy & E);
      [by apply sort_by_elem|]. apply reason_num_inj in E as ->. done.
Qed.

Lemma canonical_reasons_sorted l :
  StronglySorted (key_lt reason_num) (canonical_reasons l).
Proof. apply unique_by_sorted, sort_by_sorted. Qed.

(** A canonical reason list has exactly the reasons of its input, strictly
    ascending by number; so the list depends only on the set of reasons, not on
    the order or multiplicity in which they were collected. *)
Lemma canonical_reasons_spec l l' :
  (forall r, r ∈ canonical_reasons l <-> r ∈ l) /\
  strictly_increasing reason_num (canonical_reasons l) = true /\
  ((forall r, r ∈ l <-> r ∈ l') -> canonical_reasons l = canonical_reasons l').
Proof.
  split_and!.
  - intros r. apply canonical_reasons_elem.
  - apply strictly_increasing_sorted, canonical_reasons_sorted.
  - intros Heq. pose proof (canonical_reasons_sorted l) as H1.
    pose proof (canonical_reasons_sorted l') as H2.
    apply (sorted_perm_unique reason_num); [by apply strict_sorted_le..| |by apply strict_sorted_nodup].
    apply NoDup_Permutation.
    + apply (NoDup_fmap_1 reason_num), strict_sorted_nodup, H1.
    + apply (NoDup_fmap_1 reason_num), strict_sorted_nodup, H2.
    + intros r. by rewrite !canonical_reasons_elem.
Qed.

(** Every enumerator of the evidence model is read back from its spelling. *)
Lemma evidence_enum_roundtrip :
  (forall x, parse_source_kind (source_kind_to_string x) = Some x) /\
  (forall x, parse_authority_rank (authority_rank_to_string x) = Some x) /\
  (forall x, parse_source_trust_state (source_trust_state_to_string x) = Some x) /\
  (forall x, parse_evidence_lifecycle (evidence_lifecycle_to_string x) = Some x) /\
  (forall x, parse_evidence_state (evidence_state_to_string x) = Some x).
Proof. split_and!; by intros []. Qed.
