(* ===== verification/State.v ===== *)
(** * Registry data (include/ocreg/decision.hpp, include/ocreg/registry.hpp,
    include/ocreg/outcome.hpp)

    Policies and bounds, requests and outcomes, requirements, decisions and
    explanations, counters, and the value that persistence stores. *)

From Stdlib Require Import ZArith Lia Ascii String Sorted Permutation.
From stdpp Require Import base tactics list strings.
From S2P Require Import Prelude Checked Reason Text Units Name SemVer Hash Catalog Evidence.

#[local] Open Scope string_scope.
#[local] Open Scope Z_scope.

(** ** Outcomes *)

Record Status := mkStatus { st_code : ReasonCode; st_detail : string; st_failed : bool }.

Definition status_success (code : ReasonCode) : Status := mkStatus code "" false.
Definition status_failure (code : ReasonCode) (detail : string) : Status := mkStatus code detail true.

Record Outcome (T : Type) := mkOutcome { oc_value : option T; oc_status : Status }.
Arguments mkOutcome {T} _ _.
Arguments oc_value {T} _.
Arguments oc_status {T} _.

(** [Outcome(value)], [Outcome(status)], [Outcome::success]. *)
Definition outcome_value {T} (v : T) : Outcome T := mkOutcome (Some v) (mkStatus Ok_ "" false).
Definition outcome_failure {T} (code : ReasonCode) (detail : string) : Outcome T :=
  mkOutcome None (status_failure code detail).
Definition outcome_success {T} (v : T) (code : ReasonCode) : Outcome T :=
  mkOutcome (Some v) (status_success code).
Definition outcome_ok {T} (o : Outcome T) : bool := negb (st_failed (oc_status o)).
Definition outcome_reason {T} (o : Outcome T) : ReasonCode := st_code (oc_status o).

(** ** Enumerations *)

Inductive DecisionKind :=
| DkCompatible | DkIncompatible | DkUnknown | DkConflicted.

Definition decision_kind_num (x : DecisionKind) : Z :=
  match x with DkCompatible => 1 | DkIncompatible => 2 | DkUnknown => 3 | DkConflicted => 4 end.

#[export] Instance decision_kind_eq_dec : EqDecision DecisionKind.
Proof. solve_decision. Defined.

#[export] Instance decision_kind_cmp : Cmp DecisionKind := cmp_on decision_kind_num.
#[export] Instance decision_kind_cmp_laws : CmpLaws DecisionKind.
Proof. apply cmp_on_laws. by intros [] []. Qed.

Definition decision_kind_to_string (x : DecisionKind) : string :=
  match x with
  | DkCompatible => "compatible"
  | DkIncompatible => "incompatible"
  | DkUnknown => "unknown"
  | DkConflicted => "conflicted"
  end.

Definition parse_decision_kind (text : string) : option DecisionKind :=
  find (fun c => String.eqb (decision_kind_to_string c) text)
    [DkCompatible; DkIncompatible; DkUnknown; DkConflicted].

Inductive BootPolicy :=
| ConservativeFence | CarryForwardWithinFreshness.

Definition boot_policy_num (x : BootPolicy) : Z :=
  match x with ConservativeFence => 1 | CarryForwardWithinFreshness => 2 end.

#[export] Instance boot_policy_eq_dec : EqDecision BootPolicy.
Proof. solve_decision. Defined.

#[export] Instance boot_policy_cmp : Cmp BootPolicy := cmp_on boot_policy_num.
#[export] Instance boot_policy_cmp_laws : CmpLaws BootPolicy.
Proof. apply cmp_on_laws. by intros [] []. Qed.

Definition boot_policy_to_string (x : BootPolicy) : string :=
  match x with
  | ConservativeFence => "conservative_fence"
  | CarryForwardWithinFreshness => "carry_forward_within_freshness"
  end.

Definition parse_boot_policy (text : string) : option BootPolicy :=
  find (fun c => String.eqb (boot_policy_to_string c) text)
    [ConservativeFence; CarryForwardWithinFreshness].

Inductive ClockMode :=
| Manual | SystemMonotonic.

Definition clock_mode_num (x : ClockMode) : Z :=
  match x with Manual => 1 | SystemMonotonic => 2 end.

#[export] Instance clock_mode_eq_dec : EqDecision ClockMode.
Proof. solve_decision. Defined.

#[export] Instance clock_mode_cmp : Cmp ClockMode := cmp_on clock_mode_num.
#[export] Instance clock_mode_cmp_laws : CmpLaws ClockMode.
Proof. apply cmp_on_laws. by intros [] []. Qed.

Definition clock_mode_to_string (x : ClockMode) : string :=
  match x with
  | Manual => "manual"
  | SystemMonotonic => "system_monotonic"
  end.

Definition parse_clock_mode (text : string) : option ClockMode :=
  find (fun c => String.eqb (clock_mode_to_string c) text)
    [Manual; SystemMonotonic].

Inductive RecoveryClass :=
| CleanOpen | TornTailTruncated | TrailingCorruptDropped | RebuiltFromSnapshot | JournalReplayed | Refused.

Definition recovery_class_num (x : RecoveryClass) : Z :=
  match x with CleanOpen => 1 | TornTailTruncated => 2 | TrailingCorruptDropped => 3 | RebuiltFromSnapshot => 4 | JournalReplayed => 5 | Refused => 6 end.

#[export] Instance recovery_class_eq_dec : EqDecision RecoveryClass.
Proof. solve_decision. Defined.

#[export] Instance recovery_class_cmp : Cmp RecoveryClass := cmp_on recovery_class_num.
#[export] Instance recovery_class_cmp_laws : CmpLaws RecoveryClass.
Proof. apply cmp_on_laws. by intros [] []. Qed.

Definition recovery_class_to_string (x : RecoveryClass) : string :=
  match x with
  | CleanOpen => "clean_open"
  | TornTailTruncated => "torn_tail_truncated"
  | TrailingCorruptDropped => "trailing_corrupt_dropped"
  | RebuiltFromSnapshot => "rebuilt_from_snapshot"
  | JournalReplayed => "journal_replayed"
  | Refused => "refused"
  end.

Definition parse_recovery_class (text : string) : option RecoveryClass :=
  find (fun c => String.eqb (recovery_class_to_string c) text)
    [CleanOpen; TornTailTruncated; TrailingCorruptDropped; RebuiltFromSnapshot; JournalReplayed; Refused].

(** ** Policy *)

Record RegistryLimits := mkLimits {
  max_devices : Z;
  max_incarnations_per_device : Z;
  max_streams : Z;
  max_records : Z;
  max_records_per_stream : Z;
  max_tombstones : Z;
  max_conflict_groups : Z;
  max_resolutions : Z;
  max_eviction_ledger : Z;
  max_sources : Z;
  max_decisions : Z;
  max_features_per_record : Z;
  max_limits_per_record : Z;
  max_limits_per_requirement : Z;
  max_required_features : Z }.

#[export] Instance mkLimits_eq_dec : EqDecision RegistryLimits.
Proof. solve_decision. Defined.

Definition default_limits : RegistryLimits :=
  mkLimits 4096 64 65536 262144 64 65536 16384 16384 65536 1024 8192
           kMaxFeaturesPerRecord kMaxLimitsPerRecord kMaxLimitsPerRecord kMaxFeaturesPerRecord.

Record SourcePolicy := mkSourcePolicy {
  sp_id : SourceId;
  sp_kind : SourceKind;
  sp_authority : AuthorityRank;
  sp_trust : SourceTrustState;
  sp_max_age : Tick;
  sp_durable_across_boot : bool }.

#[export] Instance mkSourcePolicy_eq_dec : EqDecision SourcePolicy.
Proof. solve_decision. Defined.

Definition set_sp_authority (v : AuthorityRank) (x : SourcePolicy) : SourcePolicy :=
  mkSourcePolicy (sp_id x) (sp_kind x) v (sp_trust x) (sp_max_age x) (sp_durable_across_boot x).
Definition set_sp_trust (v : SourceTrustState) (x : SourcePolicy) : SourcePolicy :=
  mkSourcePolicy (sp_id x) (sp_kind x) (sp_authority x) v (sp_max_age x) (sp_durable_across_boot x).

Record RegistryPolicy := mkPolicy {
  rp_sources : list SourcePolicy;
  rp_require_configured_source : bool;
  rp_refuse_untrusted_sources : bool;
  rp_boot_policy : BootPolicy;
  rp_clock_mode : ClockMode;
  rp_retention_horizon : Tick;
  rp_max_future_skew : Tick;
  rp_default_max_age : Tick;
  rp_limits : RegistryLimits;
  rp_rule_generation : Z;
  rp_policy_name : string }.

#[export] Instance mkPolicy_eq_dec : EqDecision RegistryPolicy.
Proof. solve_decision. Defined.

Definition set_rp_sources (v : list SourcePolicy) (x : RegistryPolicy) : RegistryPolicy :=
  mkPolicy v (rp_require_configured_source x) (rp_refuse_untrusted_sources x) (rp_boot_policy x) (rp_clock_mode x) (rp_retention_horizon x) (rp_max_future_skew x) (rp_default_max_age x) (rp_limits x) (rp_rule_generation x) (rp_policy_name x).
Definition set_rp_limits (v : RegistryLimits) (x : RegistryPolicy) : RegistryPolicy :=
  mkPolicy (rp_sources x) (rp_require_configured_source x) (rp_refuse_untrusted_sources x) (rp_boot_policy x) (rp_clock_mode x) (rp_retention_horizon x) (rp_max_future_skew x) (rp_default_max_age x) v (rp_rule_generation x) (rp_policy_name x).
Definition set_rp_rule_generation (v : Z) (x : RegistryPolicy) : RegistryPolicy :=
  mkPolicy (rp_sources x) (rp_require_configured_source x) (rp_refuse_untrusted_sources x) (rp_boot_policy x) (rp_clock_mode x) (rp_retention_horizon x) (rp_max_future_skew x) (rp_default_max_age x) (rp_limits x) v (rp_policy_name x).

Definition default_policy : RegistryPolicy :=
  mkPolicy [] true true ConservativeFence Manual 0 0 0 default_limits 1 "".

(** [RegistryPolicy::find_source]: the first entry with the identifier. *)
Definition find_source (policy : RegistryPolicy) (id : SourceId) : option SourcePolicy :=
  find (fun s => String.eqb (sp_id s) id) (rp_sources policy).

(** [std::sort] of the sources, by identifier. *)
Definition sort_sources (policy : RegistryPolicy) : RegistryPolicy :=
  set_rp_sources (sort_by sp_id (rp_sources policy)) policy.

(** The lambda [add] of [make_lab_policy]. *)
Definition lab_add (id : string) (kind : SourceKind) (authority : AuthorityRank) (max_age : Tick)
    (durable : bool) (sources : list SourcePolicy) : list SourcePolicy :=
  match name_parse id with
  | None => sources
  | Some parsed => (sources ++ [mkSourcePolicy parsed kind authority Trusted max_age durable])%list
  end.

Definition make_lab_policy : RegistryPolicy :=
  let sources := lab_add "fixture-sim" SkSynthetic ArSynthetic 1000000000 false [] in
  let sources := lab_add "topology-relay" SkAdjacentRuntime ArAdjacentRuntime 2000000000 false sources in
  let sources := lab_add "driver-selfreport" SkDeviceSelfReport ArDeviceSelfReport 1000000000 false sources in
  let sources := lab_add "bundle-import" SkImportedBundle ArImported 60000000000 false sources in
  let sources := lab_add "operator-declared" SkOperatorDeclaration ArOperator 0 true sources in
  sort_sources (mkPolicy sources true true ConservativeFence Manual 0 0 1000000000 default_limits 1
                         "ocreg-lab-v1").

(** ** Requirements and decisions *)

Record LimitRequirement := mkLimitRequirement {
  lr_code : LimitCode;
  lr_unit : Unit;
  lr_minimum : Z }.

#[export] Instance mkLimitRequirement_eq_dec : EqDecision LimitRequirement.
Proof. solve_decision. Defined.

Record CapabilityRequirement := mkRequirement {
  rq_device : DeviceIncarnationRef;
  rq_capability : CapabilityKind;
  rq_version : VersionRequirement;
  rq_required_features : FeatureSet;
  rq_required_limits : list LimitRequirement;
  rq_minimum_firmware_version : option SemVer;
  rq_minimum_firmware_generation : option Z;
  rq_minimum_runtime_version : option SemVer;
  rq_minimum_runtime_generation : option Z;
  rq_max_evidence_age : Tick }.

#[export] Instance mkRequirement_eq_dec : EqDecision CapabilityRequirement.
Proof. solve_decision. Defined.

Record EvidenceStateFact := mkStateFact {
  sf_id : EvidenceId;
  sf_lifecycle : EvidenceLifecycle;
  sf_state : EvidenceState;
  sf_reason : ReasonCode;
  sf_observed_at : Tick;
  sf_age : Tick;
  sf_authority : AuthorityRank;
  sf_generation : Z;
  sf_source_incarnation : SourceIncarnation;
  sf_capability_version : SemVer;
  sf_features : FeatureSet;
  sf_limits : LimitSet;
  sf_firmware_version : option SemVer;
  sf_runtime_version : option SemVer }.

#[export] Instance mkStateFact_eq_dec : EqDecision EvidenceStateFact.
Proof. solve_decision. Defined.

Record CompatibilityDecision := mkDecision {
  cd_id : DecisionId;
  cd_kind : DecisionKind;
  cd_device : DeviceIncarnationRef;
  cd_capability : CapabilityKind;
  cd_requirement : CapabilityRequirement;
  cd_reasons : list ReasonCode;
  cd_evidence : list EvidenceId;
  cd_evidence_facts : list EvidenceStateFact;
  cd_selected : option EvidenceId;
  cd_conflict : option ConflictId;
  cd_selected_authority : AuthorityRank;
  cd_rule_generation : Z;
  cd_registry_epoch : Z;
  cd_policy_revision : Z;
  cd_evaluated_at : Tick }.

#[export] Instance mkDecision_eq_dec : EqDecision CompatibilityDecision.
Proof. solve_decision. Defined.

Record RegistryStats := mkStats {
  rs_devices : Z;
  rs_incarnations : Z;
  rs_streams : Z;
  rs_records_total : Z;
  rs_records_active : Z;
  rs_records_superseded : Z;
  rs_records_retired : Z;
  rs_records_rejected : Z;
  rs_records_fenced : Z;
  rs_records_stale : Z;
  rs_records_outranked : Z;
  rs_records_evicted : Z;
  rs_conflicts_open : Z;
  rs_conflicts_resolved : Z;
  rs_tombstones : Z;
  rs_resolutions : Z;
  rs_eviction_ledger_dropped : Z;
  rs_conflicts_dropped : Z;
  rs_resolutions_dropped : Z;
  rs_tombstones_dropped : Z;
  rs_decisions_emitted : Z;
  rs_decisions_evicted : Z;
  rs_admissions_accepted : Z;
  rs_admissions_idempotent : Z;
  rs_admissions_rejected : Z;
  rs_retirements_accepted : Z;
  rs_retirements_rejected : Z;
  rs_registry_epoch : Z;
  rs_rule_generation : Z;
  rs_policy_revision : Z;
  rs_boot_epoch : Z;
  rs_logical_tick : Z }.

(** ** Requests and results *)

Record AdmissionRequest := mkAdmission {
  aq_device : DeviceIncarnationRef;
  aq_kind : CapabilityKind;
  aq_source : SourceIncarnation;
  aq_capability_version : SemVer;
  aq_features : FeatureSet;
  aq_limits : LimitSet;
  aq_firmware_version : option SemVer;
  aq_firmware_generation : Z;
  aq_runtime_version : option SemVer;
  aq_runtime_generation : Z;
  aq_observed_at : Tick;
  aq_valid_until : option Tick;
  aq_generation : Z }.

#[export] Instance mkAdmission_eq_dec : EqDecision AdmissionRequest.
Proof. solve_decision. Defined.

Record AdmissionOutcome := mkAdmissionOutcome {
  ao_id : EvidenceId;
  ao_state : EvidenceState;
  ao_reason : ReasonCode;
  ao_idempotent : bool;
  ao_superseded : list EvidenceId;
  ao_evicted : list EvidenceId;
  ao_conflict : option ConflictId;
  ao_stream_generation : Z;
  ao_conflicts_opened : Z }.

Record RetirementRequest := mkRetireRequest {
  rt_device : DeviceIncarnationRef;
  rt_kind : CapabilityKind;
  rt_source : SourceId;
  rt_generation : Z;
  rt_retired_at : Tick;
  rt_reason : ReasonCode }.

#[export] Instance mkRetireRequest_eq_dec : EqDecision RetirementRequest.
Proof. solve_decision. Defined.

Record RetirementOutcome := mkRetirementOutcome {
  ro_key : EvidenceKey;
  ro_generation : Z;
  ro_reason : ReasonCode;
  ro_idempotent : bool;
  ro_retired : list EvidenceId;
  ro_evicted : list EvidenceId }.

Record CapabilityQuery := mkQuery {
  cq_device : DeviceIncarnationRef;
  cq_kind : CapabilityKind;
  cq_max_evidence_age : Tick;
  cq_include_history : bool }.

#[export] Instance mkQuery_eq_dec : EqDecision CapabilityQuery.
Proof. solve_decision. Defined.

Record QueryResult := mkQueryResult {
  qr_kind : DecisionKind;
  qr_device : DeviceIncarnationRef;
  qr_kind_requested : CapabilityKind;
  qr_reasons : list ReasonCode;
  qr_facts : list EvidenceStateFact;
  qr_selected : option EvidenceId;
  qr_conflict : option ConflictId;
  qr_rule_generation : Z;
  qr_registry_epoch : Z;
  qr_policy_revision : Z;
  qr_evaluated_at : Tick }.

Record Explanation := mkExplanation {
  ex_decision : CompatibilityDecision;
  ex_involved_sources : list SourcePolicy;
  ex_conflict : option ConflictGroup;
  ex_resolution : option ConflictResolution;
  ex_decision_available : bool;
  ex_reason : ReasonCode }.

(** ** Persisted state *)

Record DeviceIncarnationEntry := mkIncarnationEntry {
  ie_device : DeviceIdentity;
  ie_current : Z;
  ie_history : list Z }.

#[export] Instance mkIncarnationEntry_eq_dec : EqDecision DeviceIncarnationEntry.
Proof. solve_decision. Defined.

Record RegistryCounters := mkCounters {
  c_admissions_accepted : Z;
  c_admissions_idempotent : Z;
  c_admissions_rejected : Z;
  c_retirements_accepted : Z;
  c_retirements_rejected : Z;
  c_decisions_emitted : Z;
  c_decisions_evicted : Z;
  c_conflicts_resolved : Z;
  c_evictions_total : Z;
  c_eviction_ledger_dropped : Z;
  c_conflicts_dropped : Z;
  c_resolutions_dropped : Z;
  c_tombstones_dropped : Z }.

#[export] Instance mkCounters_eq_dec : EqDecision RegistryCounters.
Proof. solve_decision. Defined.

(** [++counters.field], modulo 2^64. *)
Definition inc_c_admissions_accepted (x : RegistryCounters) : RegistryCounters :=
  mkCounters (u64 (c_admissions_accepted x + 1)) (c_admissions_idempotent x) (c_admissions_rejected x) (c_retirements_accepted x) (c_retirements_rejected x) (c_decisions_emitted x) (c_decisions_evicted x) (c_conflicts_resolved x) (c_evictions_total x) (c_eviction_ledger_dropped x) (c_conflicts_dropped x) (c_resolutions_dropped x) (c_tombstones_dropped x).
Definition inc_c_admissions_idempotent (x : RegistryCounters) : RegistryCounters :=
  mkCounters (c_admissions_accepted x) (u64 (c_admissions_idempotent x + 1)) (c_admissions_rejected x) (c_retirements_accepted x) (c_retirements_rejected x) (c_decisions_emitted x) (c_decisions_evicted x) (c_conflicts_resolved x) (c_evictions_total x) (c_eviction_ledger_dropped x) (c_conflicts_dropped x) (c_resolutions_dropped x) (c_tombstones_dropped x).
Definition inc_c_admissions_rejected (x : RegistryCounters) : RegistryCounters :=
  mkCounters (c_admissions_accepted x) (c_admissions_idempotent x) (u64 (c_admissions_rejected x + 1)) (c_retirements_accepted x) (c_retirements_rejected x) (c_decisions_emitted x) (c_decisions_evicted x) (c_conflicts_resolved x) (c_evictions_total x) (c_eviction_ledger_dropped x) (c_conflicts_dropped x) (c_resolutions_dropped x) (c_tombstones_dropped x).
Definition inc_c_retirements_accepted (x : RegistryCounters) : RegistryCounters :=
  mkCounters (c_admissions_accepted x) (c_admissions_idempotent x) (c_admissions_rejected x) (u64 (c_retirements_accepted x + 1)) (c_retirements_rejected x) (c_decisions_emitted x) (c_decisions_evicted x) (c_conflicts_resolved x) (c_evictions_total x) (c_eviction_ledger_dropped x) (c_conflicts_dropped x) (c_resolutions_dropped x) (c_tombstones_dropped x).
Definition inc_c_retirements_rejected (x : RegistryCounters) : RegistryCounters :=
  mkCounters (c_admissions_accepted x) (c_admissions_idempotent x) (c_admissions_rejected x) (c_retirements_accepted x) (u64 (c_retirements_rejected x + 1)) (c_decisions_emitted x) (c_decisions_evicted x) (c_conflicts_resolved x) (c_evictions_total x) (c_eviction_ledger_dropped x) (c_conflicts_dropped x) (c_resolutions_dropped x) (c_tombstones_dropped x).
Definition inc_c_decisions_emitted (x : RegistryCounters) : RegistryCounters :=
  mkCounters (c_admissions_accepted x) (c_admissions_idempotent x) (c_admissions_rejected x) (c_retirements_accepted x) (c_retirements_rejected x) (u64 (c_decisions_emitted x + 1)) (c_decisions_evicted x) (c_conflicts_resolved x) (c_evictions_total x) (c_eviction_ledger_dropped x) (c_conflicts_dropped x) (c_resolutions_dropped x) (c_tombstones_dropped x).
Definition inc_c_decisions_evicted (x : RegistryCounters) : RegistryCounters :=
  mkCounters (c_admissions_accepted x) (c_admissions_idempotent x) (c_admissions_rejected x) (c_retirements_accepted x) (c_retirements_rejected x) (c_decisions_emitted x) (u64 (c_decisions_evicted x + 1)) (c_conflicts_resolved x) (c_evictions_total x) (c_eviction_ledger_dropped x) (c_conflicts_dropped x) (c_resolutions_dropped x) (c_tombstones_dropped x).
Definition inc_c_conflicts_resolved (x : RegistryCounters) : RegistryCounters :=
  mkCounters (c_admissions_accepted x) (c_admissions_idempotent x) (c_admissions_rejected x) (c_retirements_accepted x) (c_retirements_rejected x) (c_decisions_emitted x) (c_decisions_evicted x) (u64 (c_conflicts_resolved x + 1)) (c_evictions_total x) (c_eviction_ledger_dropped x) (c_conflicts_dropped x) (c_resolutions_dropped x) (c_tombstones_dropped x).
Definition inc_c_evictions_total (x : RegistryCounters) : RegistryCounters :=
  mkCounters (c_admissions_accepted x) (c_admissions_idempotent x) (c_admissions_rejected x) (c_retirements_accepted x) (c_retirements_rejected x) (c_decisions_emitted x) (c_decisions_evicted x) (c_conflicts_resolved x) (u64 (c_evictions_total x + 1)) (c_eviction_ledger_dropped x) (c_conflicts_dropped x) (c_resolutions_dropped x) (c_tombstones_dropped x).
Definition inc_c_eviction_ledger_dropped (x : RegistryCounters) : RegistryCounters :=
  mkCounters (c_admissions_accepted x) (c_admissions_idempotent x) (c_admissions_rejected x) (c_retirements_accepted x) (c_retirements_rejected x) (c_decisions_emitted x) (c_decisions_evicted x) (c_conflicts_resolved x) (c_evictions_total x) (u64 (c_eviction_ledger_dropped x + 1)) (c_conflicts_dropped x) (c_resolutions_dropped x) (c_tombstones_dropped x).
Definition inc_c_conflicts_dropped (x : RegistryCounters) : RegistryCounters :=
  mkCounters (c_admissions_accepted x) (c_admissions_idempotent x) (c_admissions_rejected x) (c_retirements_accepted x) (c_retirements_rejected x) (c_decisions_emitted x) (c_decisions_evicted x) (c_conflicts_resolved x) (c_evictions_total x) (c_eviction_ledger_dropped x) (u64 (c_conflicts_dropped x + 1)) (c_resolutions_dropped x) (c_tombstones_dropped x).
Definition inc_c_resolutions_dropped (x : RegistryCounters) : RegistryCounters :=
  mkCounters (c_admissions_accepted x) (c_admissions_idempotent x) (c_admissions_rejected x) (c_retirements_accepted x) (c_retirements_rejected x) (c_decisions_emitted x) (c_decisions_evicted x) (c_conflicts_resolved x) (c_evictions_total x) (c_eviction_ledger_dropped x) (c_conflicts_dropped x) (u64 (c_resolutions_dropped x + 1)) (c_tombstones_dropped x).
Definition inc_c_tombstones_dropped (x : RegistryCounters) : RegistryCounters :=
  mkCounters (c_admissions_accepted x) (c_admissions_idempotent x) (c_admissions_rejected x) (c_retirements_accepted x) (c_retirements_rejected x) (c_decisions_emitted x) (c_decisions_evicted x) (c_conflicts_resolved x) (c_evictions_total x) (c_eviction_ledger_dropped x) (c_conflicts_dropped x) (c_resolutions_dropped x) (u64 (c_tombstones_dropped x + 1)).

Definition zero_counters : RegistryCounters := mkCounters 0 0 0 0 0 0 0 0 0 0 0 0 0.

Record RegistryState := mkState {
  s_policy : RegistryPolicy;
  s_epoch : Z;
  s_rule_generation : Z;
  s_policy_revision : Z;
  s_boot_epoch : Z;
  s_store_generation : Z;
  s_logical_tick : Tick;
  s_next_incarnation : Z;
  s_incarnations : list DeviceIncarnationEntry;
  s_records : list StoredEvidence;
  s_tombstones : list RetirementRecord;
  s_conflicts : list ConflictGroup;
  s_resolutions : list ConflictResolution;
  s_evictions : list EvictionEntry;
  s_counters : RegistryCounters }.

#[export] Instance mkState_eq_dec : EqDecision RegistryState.
Proof. solve_decision. Defined.

Record RecoverySummary := mkRecoverySummary {
  sm_classification : RecoveryClass;
  sm_reason : ReasonCode;
  sm_records_adopted : Z;
  sm_records_fenced : Z;
  sm_records_carried_forward : Z;
  sm_tombstones_adopted : Z;
  sm_conflicts_adopted : Z;
  sm_resolutions_adopted : Z;
  sm_evictions_adopted : Z;
  sm_journal_records_replayed : Z;
  sm_journal_records_dropped : Z;
  sm_bytes_discarded : Z;
  sm_snapshot_generation : Z;
  sm_previous_boot_epoch : Z;
  sm_boot_epoch : Z;
  sm_notes : list ReasonCode }.
