(* ===== verification/Codec.v ===== *)
(** * The canonical binary codec (include/ocreg/codec.hpp, src/codec.cpp)

    A [Writer] is the list of bytes it has appended.  A [Reader] is a function
    from the remaining bytes to a failure reason or a value and the bytes after
    it: after the first failure every read returns without effect and the first
    reason is kept, which is the error monad.

    [Codec enc dec wf] is what a pair of functions promises: [dec] reads back
    what [enc] wrote, and whatever [dec] accepts is well formed.
    [CanonicalCodec enc dec wf] adds that [dec] accepts nothing but the
    encodings of well-formed values.  The pairs of the source have instances
    built from the instances of their parts. *)

From Stdlib Require Import ZArith Lia ZifyBool Ascii String Sorted Permutation.
From stdpp Require Import base tactics list strings.
From S2P Require Import Prelude Checked Reason Text Units Name SemVer Hash Catalog Evidence.
From S2P Require Import State.

#[local] Open Scope string_scope.
#[local] Open Scope Z_scope.

(** ** The reader monad *)

Definition Reader (A : Type) : Type := list Z -> ReasonCode + (A * list Z).

Definition r_ret {A} (x : A) : Reader A := fun b => inr (x, b).
Definition r_fail {A} (reason : ReasonCode) : Reader A := fun _ => inl reason.
Definition r_bind {A B} (d : Reader A) (k : A -> Reader B) : Reader B := fun b =>
  match d b with
  | inl reason => inl reason
  | inr (x, rest) => k x rest
  end.
(** [if (bad) { r.fail(reason); return false; }] *)
Definition r_guard (ok : bool) (reason : ReasonCode) : Reader unit :=
  if ok then r_ret tt else r_fail reason.

Declare Scope reader_scope.
Delimit Scope reader_scope with reader.
Notation "x <- d ;; k" := (r_bind d (fun x => k))
  (at level 100, d at next level, right associativity) : reader_scope.
Notation "'check' c 'else' e ;; k" := (r_bind (r_guard c e) (fun _ => k))
  (at level 100, c at next level, e at next level, right associativity) : reader_scope.
#[local] Open Scope reader_scope.
#[local] Open Scope list_scope.

(** ** Primitives *)

Definition byte_at (v shift : Z) : Z := Z.land (Z.shiftr v shift) 255.

Definition w_u8 (v : Z) : list Z := [v].
Definition w_u16 (v : Z) : list Z := [byte_at v 8; Z.land v 255].
Definition w_u32 (v : Z) : list Z := map (byte_at v) [24; 16; 8; 0].
Definition w_u64 (v : Z) : list Z := map (byte_at v) [56; 48; 40; 32; 24; 16; 8; 0].
Definition w_i64 (v : Z) : list Z := w_u64 (u64 v).
Definition w_str (s : string) : list Z :=
  w_u32 (u32 (Z.of_nat (String.length s))) ++ bytes_of_string s.
Definition w_name (n : string) : list Z :=
  w_u8 (u8 (Z.of_nat (String.length n))) ++ bytes_of_string n.
Definition w_strong (v : Z) : list Z := w_u64 v.
Definition w_digest (d : Digest256) : list Z := d.
Definition w_reason (r : ReasonCode) : list Z := w_u16 (reason_num r).
Definition w_boolean (b : bool) : list Z := w_u8 (if b then 1 else 0).
Definition w_optional {A} (e : A -> list Z) (o : option A) : list Z :=
  match o with Some x => w_u8 1 ++ e x | None => w_u8 0 end.
(** [w.u32(v.size()); for (const auto& x : v) encode(w, x);] *)
Definition w_vec {A} (e : A -> list Z) (l : list A) : list Z :=
  w_u32 (u32 (Z.of_nat (length l))) ++ concat (map e l).

(** [require(count)] and the [count] bytes. *)
Definition r_take (count : Z) : Reader (list Z) := fun b =>
  if count >? Z.of_nat (length b) then inl RejectedTruncatedInput
  else inr (take (Z.to_nat count) b, drop (Z.to_nat count) b).

Definition r_u8 : Reader Z := l <- r_take 1 ;; r_ret (nth 0 l 0).
Definition r_u16 : Reader Z :=
  l <- r_take 2 ;; r_ret (u16 (Z.lor (u16 (Z.shiftl (nth 0 l 0) 8)) (nth 1 l 0))).
Definition r_u32 : Reader Z :=
  l <- r_take 4 ;; r_ret (fold_left (fun v b => Z.lor (u32 (Z.shiftl v 8)) b) l 0).
Definition r_u64 : Reader Z :=
  l <- r_take 8 ;; r_ret (fold_left (fun v b => Z.lor (u64 (Z.shiftl v 8)) b) l 0).
(** [static_cast<std::int64_t>] of an unsigned 64-bit value. *)
Definition signed64 (v : Z) : Z := if v >? i64_max then v - 2 ^ 64 else v.
Definition r_i64 : Reader Z := v <- r_u64 ;; r_ret (signed64 v).
Definition r_boolean : Reader bool :=
  raw <- r_u8 ;; check raw <=? 1 else RejectedMalformedDocument ;; r_ret (raw =? 1).
Definition r_bytes : Reader string :=
  n <- r_u32 ;; l <- r_take n ;; r_ret (string_of_bytes l).
Definition r_name : Reader string :=
  n <- r_u8 ;;
  check negb ((n =? 0) || (n >? Z.of_nat kMaxNameLength)) else RejectedMalformedName ;;
  l <- r_take n ;;
  match name_parse (string_of_bytes l) with
  | Some parsed => r_ret parsed
  | None => r_fail RejectedMalformedName
  end.
(** [Reader::strong]; the narrowing to the representation cannot fail, as every
    strong type is 64 bits wide. *)
Definition r_strong : Reader Z :=
  raw <- r_u64 ;;
  match checked_narrow uint64_t uint64_t raw with
  | Some v => r_ret v
  | None => r_fail RejectedMalformedDocument
  end.
Definition r_digest : Reader Digest256 := r_take (Z.of_nat kDigestBytes).
Definition r_reason : Reader ReasonCode :=
  raw <- r_u16 ;;
  match reason_from raw with Some c => r_ret c | None => r_fail RejectedMalformedDocument end.
Definition r_optional {A} (d : Reader A) : Reader (option A) :=
  flag <- r_u8 ;;
  if flag =? 0 then r_ret None
  else if negb (flag =? 1) then r_fail RejectedMalformedDocument
  else v <- d ;; r_ret (Some v).
(** [for (i = 0; i < count; ++i) if (!read_one(target[i])) return false;] *)
Fixpoint r_loop {A} (d : Reader A) (n : nat) : Reader (list A) :=
  match n with
  | O => r_ret []
  | S n' => x <- d ;; l <- r_loop d n' ;; r_ret (x :: l)
  end.
(** A counted collection with a bound on the count. *)
Definition r_vec {A} (d : Reader A) (bound : Z) (reason : ReasonCode) : Reader (list A) :=
  count <- r_u32 ;; check count <=? bound else reason ;; r_loop d (Z.to_nat count).

Definition read_enum {A} (convert : Z -> option A) (failure : ReasonCode) : Reader A :=
  raw <- r_u16 ;; match convert raw with Some x => r_ret x | None => r_fail failure end.

(** ** The interface *)

Definition bytes (b : list Z) : Prop := Forall (in_u 8) b.

Lemma bytes_check b : forallb (fun y => (0 <=? y) && (y <? 256)) b = true -> bytes b.
Proof.
  intros H. apply Forall_forall. intros y Hy. rewrite forallb_forall in H.
  apply list_elem_of_In, H, andb_prop in Hy as [H1 H2]. unfold in_u. change (2 ^ 8) with 256. lia.
Qed.

Class Codec {A} (enc : A -> list Z) (dec : Reader A) (wf : A -> Prop) : Prop := {
  codec_dec_enc : forall x rest, wf x -> dec (enc x ++ rest) = inr (x, rest);
  codec_dec_wf : forall b x rest, bytes b -> dec b = inr (x, rest) -> wf x /\ bytes rest }.
#[global] Hint Mode Codec ! - ! - : typeclass_instances.

Class CanonicalCodec {A} (enc : A -> list Z) (dec : Reader A) (wf : A -> Prop) : Prop := {
  canonical_dec_enc : forall x rest, wf x -> dec (enc x ++ rest) = inr (x, rest);
  canonical_enc_dec : forall b x rest,
    bytes b -> dec b = inr (x, rest) -> wf x /\ b = enc x ++ rest }.
#[global] Hint Mode CanonicalCodec ! - ! - : typeclass_instances.

#[export] Instance canonical_codec {A} (enc : A -> list Z) dec wf :
  CanonicalCodec enc dec wf -> Codec enc dec wf.
Proof.
  intros [H1 H2]. split; [done|]. intros b x rest Hb H. destruct (H2 b x rest Hb H) as [Hx ->].
  by apply Forall_app in Hb as [_ Hb].
Qed.

Section codec_bind.
Context {A B : Type} {enc : A -> list Z} {dec : Reader A} {wf : A -> Prop}.

Lemma codec_bind `{!Codec enc dec wf} x (k : A -> Reader B) rest :
  wf x -> r_bind dec k (enc x ++ rest) = k x rest.
Proof. intros Hx. unfold r_bind. by rewrite codec_dec_enc. Qed.

Lemma codec_bind_inv `{!CanonicalCodec enc dec wf} (k : A -> Reader B) b r :
  bytes b -> r_bind dec k b = inr r ->
  exists x b', wf x /\ b = enc x ++ b' /\ bytes b' /\ k x b' = inr r.
Proof.
  intros Hb. unfold r_bind. destruct (dec b) as [|[x b']] eqn:E; [done|]. intros Hk.
  destruct (canonical_enc_dec b x b' Hb E) as [Hx ->]. apply Forall_app in Hb as [_ Hb]. eauto 6.
Qed.

Lemma codec_bind_wf `{!Codec enc dec wf} (k : A -> Reader B) b r :
  bytes b -> r_bind dec k b = inr r -> exists x b', wf x /\ bytes b' /\ k x b' = inr r.
Proof.
  intros Hb. unfold r_bind. destruct (dec b) as [|[x b']] eqn:E; [done|]. intros Hk.
  destruct (codec_dec_wf b x b' Hb E) as [Hx Hr]. eauto.
Qed.
End codec_bind.

Lemma guard_bind {B} c e (k : unit -> Reader B) b : c = true -> r_bind (r_guard c e) k b = k tt b.
Proof. by intros ->. Qed.

Lemma guard_bind_inv {B} c e (k : unit -> Reader B) b r :
  r_bind (r_guard c e) k b = inr r -> c = true /\ k tt b = inr r.
Proof. by destruct c. Qed.

(** ** Big-endian integers *)

Fixpoint be_bytes (n : nat) (v : Z) : list Z :=
  match n with O => [] | S n' => be_bytes n' (v / 256) ++ [v mod 256] end.
Definition be_val (l : list Z) : Z := fold_left (fun a b => a * 256 + b) l 0.

Lemma be_val_snoc l b : be_val (l ++ [b]) = be_val l * 256 + b.
Proof. unfold be_val. by rewrite fold_left_app. Qed.

Lemma be_bytes_length n v : length (be_bytes n v) = n.
Proof. revert v. induction n as [|n IH]; intros v; simpl; [done|]. rewrite length_app, IH. simpl. lia. Qed.

Lemma be_val_bound l : bytes l -> 0 <= be_val l < 256 ^ Z.of_nat (length l).
Proof.
  induction l as [|b l IH] using rev_ind; [done|]. intros [Hl Hb]%Forall_app.
  rewrite Forall_singleton in Hb. specialize (IH Hl). unfold in_u in Hb.
  rewrite be_val_snoc, length_app, Nat2Z.inj_add, Z.pow_add_r by lia.
  change (256 ^ Z.of_nat (length [b])) with 256. lia.
Qed.

Lemma be_val_bytes n v : 0 <= v < 256 ^ Z.of_nat n -> be_val (be_bytes n v) = v.
Proof.
  revert v. induction n as [|n IH]; intros v Hv; [simpl in *; unfold be_val; simpl; lia|].
  rewrite Nat2Z.inj_succ, Z.pow_succ_r in Hv by lia. cbn [be_bytes]. rewrite be_val_snoc, IH.
  - pose proof (Z.div_mod v 256 ltac:(lia)). lia.
  - split; [apply Z.div_pos; lia|apply Z.div_lt_upper_bound; lia].
Qed.

Lemma be_bytes_val l : bytes l -> be_bytes (length l) (be_val l) = l.
Proof.
  induction l as [|b l IH] using rev_ind; [done|]. intros [Hl Hb]%Forall_app.
  rewrite Forall_singleton in Hb. unfold in_u in Hb.
  rewrite length_app. cbn [length]. rewrite Nat.add_comm. cbn [be_bytes Nat.add].
  rewrite be_val_snoc, Z.add_comm, Z.div_add, Z.div_small, Z.add_0_l, Z.mod_add, Z.mod_small by lia.
  by rewrite IH.
Qed.

Lemma byte_at_div v s : 0 <= s -> byte_at v s = v / 2 ^ s mod 256.
Proof.
  intros Hs. unfold byte_at. change 255 with (Z.ones 8). by rewrite Z.land_ones, Z.shiftr_div_pow2 by lia.
Qed.

Lemma w_u16_be v : w_u16 v = be_bytes 2 v.
Proof.
  unfold w_u16. rewrite byte_at_div by lia. change 255 with (Z.ones 8). by rewrite Z.land_ones by lia.
Qed.

Lemma w_u32_be v : w_u32 v = be_bytes 4 v.
Proof.
  unfold w_u32. cbn [map be_bytes app]. rewrite !byte_at_div by lia. rewrite !Z.div_div by lia.
  change (2 ^ 0) with 1. by rewrite Z.div_1_r.
Qed.

Lemma w_u64_be v : w_u64 v = be_bytes 8 v.
Proof.
  unfold w_u64. cbn [map be_bytes app]. rewrite !byte_at_div by lia. rewrite !Z.div_div by lia.
  change (2 ^ 0) with 1. by rewrite Z.div_1_r.
Qed.

(** [(v << 8) | b] within the width. *)
Lemma lor_shift8 w v b :
  0 <= v -> in_u 8 b -> v * 256 + 255 < 2 ^ w -> 8 <= w ->
  Z.lor (wrap w (Z.shiftl v 8)) b = v * 256 + b.
Proof.
  intros Hv Hb Hw H8. unfold in_u in Hb. rewrite Z.shiftl_mul_pow2 by lia.
  change (2 ^ 8) with 256. rewrite wrap_small by (unfold in_u; lia).
  assert (Z.land (v * 256) b = 0) as H0.
  { apply Z.bits_inj'. intros n Hn. rewrite Z.land_spec, Z.bits_0.
    destruct (decide (n < 8)) as [H|H].
    - change 256 with (2 ^ 8). by rewrite Z.mul_pow2_bits_low by lia.
    - rewrite (Z.bits_above_log2 b n), andb_false_r; [done|lia|].
      destruct (decide (b = 0)) as [->|]; [simpl; lia|].
      assert (Z.log2 b < 8) by (apply Z.log2_lt_pow2; lia). lia. }
  rewrite <- Z.lxor_lor, <- Z.add_nocarry_lxor by done. done.
Qed.

Lemma be_fold w l acc :
  bytes l -> 0 <= acc -> 8 <= w -> (acc + 1) * 256 ^ Z.of_nat (length l) <= 2 ^ w ->
  fold_left (fun v b => Z.lor (wrap w (Z.shiftl v 8)) b) l acc =
  fold_left (fun a b => a * 256 + b) l acc.
Proof.
  intros Hl. revert acc. induction Hl as [|b l Hb Hl IH]; intros acc Ha Hw Hbound; [done|].
  cbn [fold_left length] in *. rewrite Nat2Z.inj_succ, Z.pow_succ_r in Hbound by lia.
  assert (1 <= 256 ^ Z.of_nat (length l)) by lia.
  rewrite lor_shift8 by (first [done | lia | nia]). unfold in_u in Hb. apply IH; [lia|done|nia].
Qed.

Lemma r_take_app (l rest : list Z) : r_take (Z.of_nat (length l)) (l ++ rest) = inr (l, rest).
Proof.
  unfold r_take. rewrite length_app. destruct (_ >? _) eqn:E; zb; [lia|].
  by rewrite Nat2Z.id, take_app_length, drop_app_length.
Qed.

Lemma r_take_inv n b l rest :
  0 <= n -> r_take n b = inr (l, rest) -> b = l ++ rest /\ Z.of_nat (length l) = n.
Proof.
  intros Hn. unfold r_take. destruct (_ >? _) eqn:E; zb; [done|]. intros [= <- <-].
  rewrite take_drop, length_take. split; [done|lia].
Qed.

(** ** Instances: primitives *)

#[export] Instance u8_codec : CanonicalCodec w_u8 r_u8 (in_u 8).
Proof.
  split.
  - intros x rest Hx. unfold r_u8, r_bind. change (w_u8 x) with [x].
    change 1 with (Z.of_nat (length [x])). by rewrite r_take_app.
  - intros b x rest Hb. unfold r_u8, r_bind. destruct (r_take 1 b) as [|[l r]] eqn:E; [done|].
    intros [= <- <-]. apply r_take_inv in E as [-> El]; [|lia].
    destruct l as [|v [|]]; simpl in El; try lia. simpl. apply Forall_app in Hb as [Hb _].
    rewrite Forall_singleton in Hb. done.
Qed.

(** The fold of a reader on [n] bytes is their big-endian value. *)
Lemma uint_codec (n : nat) (w : Z) (enc : Z -> list Z) (dec : Reader Z) (f : list Z -> Z) :
  w = 8 * Z.of_nat n -> (forall v, enc v = be_bytes n v) ->
  dec = (l <- r_take (Z.of_nat n) ;; r_ret (f l)) ->
  (forall l, bytes l -> length l = n -> f l = be_val l) ->
  CanonicalCodec enc dec (in_u w).
Proof.
  intros -> Henc -> Hf.
  assert (2 ^ (8 * Z.of_nat n) = 256 ^ Z.of_nat n) as Hp by (rewrite Z.pow_mul_r by lia; done).
  assert (forall v, bytes (be_bytes n v)) as Hby.
  { clear. induction n as [|n IH]; intros v; simpl; [constructor|].
    apply Forall_app. split; [apply IH|]. constructor; [|constructor].
    unfold in_u. apply Z.mod_pos_bound. lia. }
  split.
  - intros x rest Hx. rewrite Henc. unfold r_bind.
    rewrite <- (be_bytes_length n x) at 1. rewrite r_take_app. unfold r_ret.
    rewrite Hf by (auto; apply be_bytes_length). unfold in_u in Hx. rewrite Hp in Hx.
    by rewrite be_val_bytes.
  - intros b x rest Hb. unfold r_bind. destruct (r_take _ b) as [|[l r]] eqn:E; [done|].
    intros [= <- <-]. apply r_take_inv in E as [-> El]; [|lia]. apply Forall_app in Hb as [Hb _].
    assert (length l = n) as Hl by lia. rewrite Hf, Henc by done. split.
    + unfold in_u. rewrite Hp, <- Hl. by apply be_val_bound.
    + rewrite <- Hl at 1. by rewrite be_bytes_val.
Qed.

#[export] Instance u16_codec : CanonicalCodec w_u16 r_u16 (in_u 16).
Proof.
  eapply (uint_codec 2 16); [done|apply w_u16_be|done|].
  intros l Hl Hn. destruct l as [|a [|b [|]]]; try done. apply Forall_cons in Hl as [Ha Hl].
  apply Forall_cons in Hl as [Hb _]. cbn [nth]. unfold u16, in_u in *.
  rewrite lor_shift8 by (unfold in_u; lia). rewrite wrap_small by (unfold in_u; lia).
  unfold be_val. simpl. lia.
Qed.

#[export] Instance u32_codec : CanonicalCodec w_u32 r_u32 (in_u 32).
Proof.
  eapply (uint_codec 4 32); [done|apply w_u32_be|done|].
  intros l Hl Hn. apply (be_fold 32); [done|lia|lia|]. by rewrite Hn.
Qed.

#[export] Instance u64_codec : CanonicalCodec w_u64 r_u64 (in_u 64).
Proof.
  eapply (uint_codec 8 64); [done|apply w_u64_be|done|].
  intros l Hl Hn. apply (be_fold 64); [done|lia|lia|]. by rewrite Hn.
Qed.

(** The steps of a codec proof: [codec_fwd] consumes the encodings in front of
    the input, [codec_inv H] the binds of a successful decode. *)
Ltac codec_norm := rewrite <- ?app_assoc.
Ltac codec_fwd :=
  repeat (codec_norm; first
    [ rewrite codec_bind by (first [done | eauto 2 | lia])
    | rewrite guard_bind by (first [done | eauto 2 | lia]) ]).
Ltac codec_inv H :=
  repeat first
    [ apply codec_bind_inv in H as (? & ? & ? & -> & ? & H); [|done]
    | apply guard_bind_inv in H as [? H] ].
Ltac codec_wf H :=
  repeat first
    [ apply codec_bind_wf in H as (? & ? & ? & ? & H); [|done]
    | apply guard_bind_inv in H as [? H] ].

#[export] Instance i64_codec : CanonicalCodec w_i64 r_i64 in_i64.
Proof.
  split.
  - intros x rest Hx. unfold w_i64, r_i64. unfold in_i64, i64_min, i64_max in Hx.
    rewrite codec_bind by (apply (wrap_bound 64); lia). unfold r_ret, signed64, i64_max. do 2 f_equal.
    unfold u64, wrap. destruct (decide (0 <= x)) as [H|H].
    + rewrite Z.mod_small by lia. destruct (_ >? _) eqn:E; zb; lia.
    + replace x with (x + 2 ^ 64 + (-1) * 2 ^ 64) by lia. rewrite Z.mod_add, Z.mod_small by lia.
      destruct (_ >? _) eqn:E; zb; lia.
  - intros b x rest Hb H. unfold r_i64 in H.
    apply codec_bind_inv in H as (v & b' & Hv & -> & _ & H); [|done]. injection H as <- <-.
    unfold w_i64, in_u, in_i64, signed64, i64_min, i64_max in *. split.
    + destruct (_ >? _) eqn:E; zb; lia.
    + f_equal. f_equal. destruct (_ >? _) eqn:E; zb; [|by rewrite u64_id].
      replace (v - 2 ^ 64) with (v + (-1) * 2 ^ 64) by lia. unfold u64, wrap.
      by rewrite Z.mod_add, Z.mod_small by lia.
Qed.

#[export] Instance strong_codec : CanonicalCodec w_strong r_strong (in_u 64).
Proof.
  assert (forall v, in_u 64 v -> checked_narrow uint64_t uint64_t v = Some v) as Hn.
  { intros v Hv. unfold in_u in Hv. unfold uint64_t. rewrite checked_narrow_exact by lia.
    destruct (v <? 2 ^ 64) eqn:E; zb; [done|lia]. }
  split.
  - intros x rest Hx. unfold w_strong, r_strong. rewrite codec_bind by done. by rewrite Hn.
  - intros b x rest Hb H. unfold r_strong in H.
    apply codec_bind_inv in H as (v & b' & Hv & -> & _ & H); [|done]. rewrite Hn in H by done.
    by injection H as <- <-.
Qed.

(** ** Instances: texts, digests, enumerations and collections *)

#[export] Instance boolean_codec : CanonicalCodec w_boolean r_boolean (fun _ => True).
Proof.
  split.
  - intros x rest _. unfold w_boolean, r_boolean.
    rewrite codec_bind by (unfold in_u; destruct x; lia).
    rewrite guard_bind by (by destruct x). by destruct x.
  - intros b x rest Hb H. unfold r_boolean in H. codec_inv H. injection H as <- <-.
    split; [done|]. unfold w_boolean. f_equal. f_equal.
    match goal with H : in_u 8 ?v |- _ => rename v into raw; unfold in_u in H end. zb.
    destruct (raw =? 1) eqn:E; zb; lia.
Qed.

Lemma take_codec (n : nat) : CanonicalCodec (fun l : list Z => l) (r_take (Z.of_nat n)) (fun l => length l = n /\ bytes l).
Proof.
  split.
  - intros l rest [Hl _]. rewrite <- Hl. apply r_take_app.
  - intros b l rest Hb H. apply r_take_inv in H as [-> Hl]; [|lia].
    apply Forall_app in Hb as [Hb _]. split; [|done]. split; [lia|done].
Qed.

#[export] Instance digest_codec : CanonicalCodec w_digest r_digest (fun d => length d = kDigestBytes /\ bytes d).
Proof. apply take_codec. Qed.

#[export] Instance bytes_codec :
  CanonicalCodec w_str r_bytes (fun s => Z.of_nat (String.length s) < 2 ^ 32).
Proof.
  split.
  - intros s rest Hs. unfold w_str, r_bytes. codec_norm.
    rewrite codec_bind by (apply (wrap_bound 32); lia).
    unfold u32. rewrite wrap_small by (unfold in_u; lia). unfold r_bind.
    rewrite <- bytes_of_string_length, r_take_app. unfold r_ret.
    by rewrite string_of_bytes_of_string.
  - intros b s rest Hb H. unfold r_bytes in H.
    apply codec_bind_inv in H as (n & b' & Hn & -> & Hb' & H); [|done].
    unfold r_bind in H. destruct (r_take n b') as [|[l r]] eqn:E; [done|].
    injection H as <- <-. unfold in_u in Hn. apply r_take_inv in E as [-> El]; [|lia].
    rewrite string_of_bytes_length, El. split; [lia|]. unfold w_str.
    rewrite string_of_bytes_length, El. unfold u32. rewrite wrap_small by (unfold in_u; lia).
    codec_norm. f_equal. f_equal. apply Forall_app in Hb' as [Hb' _].
    symmetry. by apply bytes_of_string_of_bytes.
Qed.

(** A name that [Name::parse] accepts. *)
Definition name_ok (n : string) : Prop := name_parse n = Some n.

Lemma name_ok_length n : name_ok n -> (1 <= String.length n <= 48)%nat.
Proof.
  unfold name_ok, name_parse, kMaxNameLength. destruct n as [|c n]; [done|]. cbn [str_empty orb].
  destruct (_ <? _)%nat eqn:E; [done|]. apply Nat.ltb_ge in E. intros _. simpl in *. lia.
Qed.

#[export] Instance name_codec : CanonicalCodec w_name r_name name_ok.
Proof.
  split.
  - intros n rest Hn. pose proof (name_ok_length n Hn) as Hl. unfold w_name, r_name. codec_norm.
    rewrite codec_bind by (apply (wrap_bound 8); lia).
    unfold u8. rewrite wrap_small by (unfold in_u; lia). rewrite guard_bind by (unfold kMaxNameLength; lia).
    unfold r_bind. rewrite <- bytes_of_string_length, r_take_app, string_of_bytes_of_string.
    by rewrite Hn.
  - intros b x rest Hb H. unfold r_name in H.
    apply codec_bind_inv in H as (n & b' & Hn & -> & Hb' & H); [|done].
    apply guard_bind_inv in H as [Hg H]. unfold r_bind in H.
    destruct (r_take n b') as [|[l r]] eqn:E; [done|]. unfold in_u in Hn.
    apply r_take_inv in E as [-> El]; [|lia]. apply Forall_app in Hb' as [Hb' _].
    destruct (name_parse (string_of_bytes l)) as [p|] eqn:Ep; [|done]. injection H as <- <-.
    pose proof (name_parse_id _ _ Ep) as ->. split; [done|]. unfold w_name.
    rewrite string_of_bytes_length, El. unfold u8. rewrite wrap_small by (unfold in_u; lia).
    codec_norm. f_equal. f_equal. symmetry. by apply bytes_of_string_of_bytes.
Qed.

(** An enumeration read through its converter. *)
Lemma enum_codec {A} (num : A -> Z) (convert : Z -> option A) (failure : ReasonCode) :
  (forall x, in_u 16 (num x) /\ convert (num x) = Some x) ->
  (forall raw x, convert raw = Some x -> raw = num x) ->
  CanonicalCodec (fun x => w_u16 (num x)) (read_enum convert failure) (fun _ => True).
Proof.
  intros H1 H2. split.
  - intros x rest _. destruct (H1 x) as [Hr Hc]. unfold read_enum. rewrite codec_bind by done. by rewrite Hc.
  - intros b x rest Hb H. unfold read_enum in H.
    apply codec_bind_inv in H as (raw & b' & Hraw & -> & _ & H); [|done].
    destruct (convert raw) as [y|] eqn:E; [|done]. injection H as <- <-.
    by rewrite (H2 raw y E).
Qed.

#[export] Instance reason_codec : CanonicalCodec w_reason r_reason (fun _ => True).
Proof.
  apply (enum_codec reason_num reason_from RejectedMalformedDocument).
  - intros x. split; [destruct x; unfold in_u; simpl; lia|apply reason_from_num].
  - intros raw x. unfold reason_from. intros H.
    destruct (table_find _ _) as [e|] eqn:E; [|done]. injection H as <-.
    apply table_find_some in E as [E _]. zb. done.
Qed.

(** Combinators, for both interfaces. *)
Section combinators.
Context {A : Type} (e : A -> list Z) (d : Reader A) (wf : A -> Prop).

#[export] Instance optional_codec :
  Codec e d wf -> Codec (w_optional e) (r_optional d) (fun o => forall x, o = Some x -> wf x).
Proof.
  intros Hc. split.
  - intros o rest Ho. unfold r_optional. destruct o as [x|]; cbn [w_optional].
    + codec_norm. rewrite codec_bind by (unfold in_u; lia). cbn [Z.eqb Pos.eqb negb].
      by rewrite codec_bind by auto.
    + by rewrite codec_bind by (unfold in_u; lia).
  - intros b o rest Hb H. unfold r_optional in H.
    apply codec_bind_wf in H as (flag & b' & Hf & Hb' & H); [|done].
    destruct (flag =? 0); [by injection H as <- <-|].
    destruct (negb (flag =? 1)); [done|].
    apply codec_bind_wf in H as (x & b2 & Hx & Hb2 & H); [|done]. injection H as <- <-.
    split; [by intros y [= <-]|done].
Qed.

#[export] Instance optional_canonical :
  CanonicalCodec e d wf ->
  CanonicalCodec (w_optional e) (r_optional d) (fun o => forall x, o = Some x -> wf x).
Proof.
  intros Hc. split; [apply codec_dec_enc|].
  intros b o rest Hb H. unfold r_optional in H.
  apply codec_bind_inv in H as (flag & b' & Hf & -> & Hb' & H); [|done].
  destruct (flag =? 0) eqn:E0; zb; [subst; by injection H as <- <-|].
  destruct (flag =? 1) eqn:E1; cbn [negb] in H; [|done]. zb. subst.
  apply codec_bind_inv in H as (x & b2 & Hx & -> & _ & H); [|done]. injection H as <- <-.
  split; [by intros y [= <-]|]. cbn [w_optional]. by codec_norm.
Qed.

Lemma loop_codec (n : nat) :
  Codec e d wf ->
  Codec (fun l => concat (map e l)) (r_loop d n) (fun l => length l = n /\ Forall wf l).
Proof.
  intros Hc. split.
  - induction n as [|n IH]; intros l rest [Hl Hw].
    + destruct l; [done|discriminate].
    + destruct l as [|x l]; [discriminate|]. apply Forall_cons in Hw as [Hx Hw].
      cbn [map concat r_loop]. codec_norm. rewrite codec_bind by done. unfold r_bind.
      rewrite IH; [done|]. split; [simpl in Hl; lia|done].
  - induction n as [|n IH]; intros b l rest Hb H; cbn [r_loop] in H; [by injection H as <- <-|].
    apply codec_bind_wf in H as (x & b1 & Hx & Hb1 & H); [|done].
    unfold r_bind in H. destruct (r_loop d n b1) as [|[l' r']] eqn:E; [done|].
    injection H as <- <-. destruct (IH b1 l' r' Hb1 E) as [[Hl Hw] Hr].
    split; [split; [simpl; lia|by constructor]|done].
Qed.

Lemma loop_canonical (n : nat) :
  CanonicalCodec e d wf ->
  CanonicalCodec (fun l => concat (map e l)) (r_loop d n) (fun l => length l = n /\ Forall wf l).
Proof.
  intros Hc. split; [apply (codec_dec_enc (Codec := loop_codec n _))|].
  induction n as [|n IH]; intros b l rest Hb H; cbn [r_loop] in H.
  - injection H as <- <-. done.
  - apply codec_bind_inv in H as (x & b1 & Hx & -> & Hb1 & H); [|done].
    unfold r_bind in H. destruct (r_loop d n b1) as [|[l' r']] eqn:E; [done|].
    injection H as <- <-. destruct (IH b1 l' r' Hb1 E) as [[Hl Hw] ->].
    split; [split; [simpl; lia|by constructor]|]. cbn [map concat]. by codec_norm.
Qed.

(** A counted collection, whatever its element loop. *)
Lemma counted_codec (loop : nat -> Reader (list A)) (wfl : nat -> list A -> Prop) bound reason :
  (forall n l, wfl n l -> length l = n) ->
  (forall n, Codec (fun l => concat (map e l)) (loop n) (wfl n)) ->
  Codec (w_vec e) (r_bind r_u32 (fun count => r_bind (r_guard (count <=? bound) reason)
                     (fun _ => loop (Z.to_nat count))))
        (fun l => wfl (length l) l /\ Z.of_nat (length l) <= bound /\ Z.of_nat (length l) < 2 ^ 32).
Proof.
  intros Hlen Hc. split.
  - intros l rest (Hw & Hb & Hl). unfold w_vec. codec_norm.
    rewrite codec_bind by (apply (wrap_bound 32); lia).
    unfold u32. rewrite wrap_small by (unfold in_u; lia). rewrite guard_bind by lia.
    rewrite Nat2Z.id. by apply (codec_dec_enc (Codec := Hc (length l))).
  - intros b l rest Hb H.
    apply codec_bind_wf in H as (n & b' & Hn & Hb' & H); [|done].
    apply guard_bind_inv in H as [Hg H]. unfold in_u in Hn.
    apply (codec_dec_wf (Codec := Hc (Z.to_nat n))) in H as [Hw Hr]; [|done].
    pose proof (Hlen _ _ Hw) as Hl. rewrite Hl. split; [split_and!; [done|lia|lia]|done].
Qed.

Lemma counted_canonical (loop : nat -> Reader (list A)) (wfl : nat -> list A -> Prop) bound reason :
  (forall n l, wfl n l -> length l = n) ->
  (forall n, CanonicalCodec (fun l => concat (map e l)) (loop n) (wfl n)) ->
  CanonicalCodec (w_vec e) (r_bind r_u32 (fun count => r_bind (r_guard (count <=? bound) reason)
                     (fun _ => loop (Z.to_nat count))))
        (fun l => wfl (length l) l /\ Z.of_nat (length l) <= bound /\ Z.of_nat (length l) < 2 ^ 32).
Proof.
  intros Hlen Hc. split.
  { apply (codec_dec_enc (Codec := counted_codec loop wfl bound reason Hlen _)). }
  intros b l rest Hb H.
  apply codec_bind_inv in H as (n & b' & Hn & -> & Hb' & H); [|done].
  apply guard_bind_inv in H as [Hg H]. unfold in_u in Hn.
  apply (canonical_enc_dec (CanonicalCodec := Hc (Z.to_nat n))) in H as [Hw ->]; [|done].
  pose proof (Hlen _ _ Hw) as Hl. rewrite Hl. split; [split_and!; [done|lia|lia]|].
  unfold w_vec. rewrite Hl, Z2Nat.id by lia. unfold u32. rewrite wrap_small by (unfold in_u; lia).
  by codec_norm.
Qed.

Definition vec_wf (bound : Z) (l : list A) : Prop :=
  Forall wf l /\ Z.of_nat (length l) <= bound /\ Z.of_nat (length l) < 2 ^ 32.

#[export] Instance vec_codec bound reason :
  Codec e d wf -> Codec (w_vec e) (r_vec d bound reason) (vec_wf bound).
Proof.
  intros Hc. pose proof (counted_codec (r_loop d) (fun n l => length l = n /\ Forall wf l) bound reason
    ltac:(by intros n l [H _]) (fun n => loop_codec n Hc)) as [H1 H2].
  split; [intros x rest (? & ? & ?); by apply H1|].
  intros b x rest Hb H. destruct (H2 b x rest Hb H) as [([_ ?] & ? & ?) ?]. done.
Qed.

#[export] Instance vec_canonical bound reason :
  CanonicalCodec e d wf -> CanonicalCodec (w_vec e) (r_vec d bound reason) (vec_wf bound).
Proof.
  intros Hc. split; [apply codec_dec_enc|].
  pose proof (counted_canonical (r_loop d) (fun n l => length l = n /\ Forall wf l) bound reason
    ltac:(by intros n l [H _]) (fun n => loop_canonical n Hc)) as [_ H2].
  intros b x rest Hb H. destruct (H2 b x rest Hb H) as [([_ ?] & ? & ?) ->]. done.
Qed.
End combinators.
