(* ===== verification/CodecTypes.v ===== *)
(** * Codecs of the data model (src/codec.cpp)

    One encoder and one decoder per type of the source, and for each pair the
    [Codec] instance with the well-formedness the decoder enforces. *)

From Stdlib Require Import ZArith Lia ZifyBool Ascii String Sorted Permutation.
From stdpp Require Import base tactics list strings.
From S2P Require Import Prelude Checked Reason Text Units Name SemVer Hash Catalog Evidence.
From S2P Require Import State Codec.

#[local] Open Scope string_scope.
#[local] Open Scope Z_scope.
#[local] Open Scope list_scope.
#[local] Open Scope reader_scope.

Definition kMaxCollectionEntries : Z := 1048576.
Definition kApiGeneration : Z := 1.
Definition kStoreFormatVersion : Z := 1.

(** ** Enumerations *)

Definition source_kind_from (raw : Z) : option SourceKind :=
  match raw with
  | 1 => Some SkSynthetic | 2 => Some SkAdjacentRuntime | 3 => Some SkDeviceSelfReport
  | 4 => Some SkOperatorDeclaration | 5 => Some SkImportedBundle | _ => None
  end.
(** [static_cast<AuthorityRank>(raw)] once [raw] is at most [Operator]. *)
Definition authority_from (raw : Z) : option AuthorityRank :=
  if raw >? authority_rank_num ArOperator then None
  else match raw with
       | 0 => Some ArNone | 1 => Some ArSynthetic | 2 => Some ArImported
       | 3 => Some ArAdjacentRuntime | 4 => Some ArDeviceSelfReport | 5 => Some ArOperator
       | _ => None
       end.
Definition trust_from (raw : Z) : option SourceTrustState :=
  match raw with 1 => Some Trusted | 2 => Some Untrusted | 3 => Some Revoked | _ => None end.
Definition lifecycle_from (raw : Z) : option EvidenceLifecycle :=
  match raw with 1 => Some LcAdmitted | 2 => Some LcRejected | 3 => Some LcRetired | _ => None end.
Definition evidence_state_from (raw : Z) : option EvidenceState :=
  match raw with
  | 1 => Some StActive | 2 => Some StSuperseded | 3 => Some StRetired | 4 => Some StRejected
  | 5 => Some StFenced | 6 => Some StStale | 7 => Some StOutranked | 8 => Some StEvicted
  | _ => None
  end.
Definition decision_kind_from (raw : Z) : option DecisionKind :=
  match raw with
  | 1 => Some DkCompatible | 2 => Some DkIncompatible | 3 => Some DkUnknown
  | 4 => Some DkConflicted | _ => None
  end.
Definition boot_policy_from (raw : Z) : option BootPolicy :=
  match raw with
  | 1 => Some ConservativeFence | 2 => Some CarryForwardWithinFreshness | _ => None
  end.
Definition clock_mode_from (raw : Z) : option ClockMode :=
  match raw with 1 => Some Manual | 2 => Some SystemMonotonic | _ => None end.

Definition enc_source_kind (x : SourceKind) : list Z := w_u16 (source_kind_num x).
Definition enc_authority (x : AuthorityRank) : list Z := w_u16 (authority_rank_num x).
Definition enc_trust (x : SourceTrustState) : list Z := w_u16 (source_trust_state_num x).
Definition enc_lifecycle (x : EvidenceLifecycle) : list Z := w_u16 (evidence_lifecycle_num x).
Definition enc_evidence_state (x : EvidenceState) : list Z := w_u16 (evidence_state_num x).
Definition enc_decision_kind (x : DecisionKind) : list Z := w_u16 (decision_kind_num x).
Definition enc_boot_policy (x : BootPolicy) : list Z := w_u16 (boot_policy_num x).
Definition enc_clock_mode (x : ClockMode) : list Z := w_u16 (clock_mode_num x).
Definition enc_kind (x : CapabilityKind) : list Z := w_u16 (kind_num x).

Definition dec_source_kind := read_enum source_kind_from RejectedMalformedDocument.
Definition dec_authority := read_enum authority_from RejectedMalformedDocument.
Definition dec_trust := read_enum trust_from RejectedMalformedDocument.
Definition dec_lifecycle := read_enum lifecycle_from RejectedMalformedDocument.
Definition dec_evidence_state := read_enum evidence_state_from RejectedMalformedDocument.
Definition dec_boot_policy := read_enum boot_policy_from RejectedMalformedDocument.
Definition dec_clock_mode := read_enum clock_mode_from RejectedMalformedDocument.
Definition dec_kind := read_enum capability_kind_from_code RejectedUnknownCapabilityKind.

(** ** Values *)

Definition enc_semver (v : SemVer) : list Z :=
  w_u32 (sv_major v) ++ w_u32 (sv_minor v) ++ w_u32 (sv_patch v) ++
  w_str (sv_prerelease v) ++ w_str (sv_build v).

Definition dec_semver : Reader SemVer :=
  major <- r_u32 ;; minor <- r_u32 ;; patch <- r_u32 ;;
  prerelease <- r_bytes ;; build <- r_bytes ;;
  check negb ((kMaxSemVerQualifierLength <? String.length prerelease)%nat ||
              (kMaxSemVerQualifierLength <? String.length build)%nat)
    else RejectedOversizedInput ;;
  let text := (semver_str (mkSemVer major minor patch "" "") ++
               (if str_empty prerelease then "" else "-" ++ prerelease) ++
               (if str_empty build then "" else "+" ++ build))%string in
  match semver_parse text with
  | Some canonical => r_ret canonical
  | None => r_fail RejectedMalformedVersion
  end.

Definition enc_unit (u : Unit) : list Z :=
  w_u16 (unit_code_num (unit_code u)) ++ w_u8 (unit_scale_num (unit_scale u)) ++
  w_u8 (unit_exponent u).

(** A number outside the enumeration is not in the table, so it is ill formed. *)
Definition unit_code_from (raw : Z) : option UnitCode :=
  uci_code <$> find (fun i => unit_code_num (uci_code i) =? raw) kUnitCodes.
Definition unit_scale_from (raw : Z) : UnitScale :=
  match raw with 0 => Unity | 1 => Decimal | _ => Binary end.

Definition dec_unit : Reader Unit :=
  code <- r_u16 ;; scale <- r_u8 ;; exponent <- r_u8 ;;
  check scale <=? unit_scale_num Binary else RejectedLimitUnitScaleInvalid ;;
  match unit_code_from code with
  | None => r_fail RejectedLimitUnitInvalid
  | Some c =>
      let parsed := mkUnit c (unit_scale_from scale) exponent in
      check unit_is_well_formed parsed else RejectedLimitUnitInvalid ;; r_ret parsed
  end.

Definition enc_feature (c : FeatureCode) : list Z := w_u32 c.
Definition dec_feature : Reader FeatureCode :=
  raw <- r_u32 ;;
  match feature_from_code raw with Some c => r_ret c | None => r_fail RejectedUnknownFeatureCode end.
Definition enc_limit_code (c : LimitCode) : list Z := w_u32 c.
Definition dec_limit_code : Reader LimitCode :=
  raw <- r_u32 ;;
  match limit_from_code raw with Some c => r_ret c | None => r_fail RejectedUnknownLimitCode end.

(** The loops that require each element's key to exceed the previous one's. *)
Fixpoint r_ordered_loop {A} (d : Reader A) (key : A -> Z) (prev : option Z) (n : nat)
  : Reader (list A) :=
  match n with
  | O => r_ret []
  | S n' =>
      x <- d ;;
      check match prev with None => true | Some p => p <? key x end else RejectedDuplicateKey ;;
      l <- r_ordered_loop d key (Some (key x)) n' ;; r_ret (x :: l)
  end.
Definition r_ordered_vec {A} (d : Reader A) (key : A -> Z) (bound : Z) (reason : ReasonCode)
  : Reader (list A) :=
  count <- r_u32 ;; check count <=? bound else reason ;;
  r_ordered_loop d key None (Z.to_nat count).

Definition enc_features (s : FeatureSet) : list Z := w_vec enc_feature s.
Definition dec_features : Reader FeatureSet :=
  codes <- r_ordered_vec dec_feature (fun c => c) kMaxFeaturesPerRecord RejectedFeatureBudgetExceeded ;;
  r_ret (feature_set_from_validated codes).

Definition enc_limit_value (v : LimitValue) : list Z :=
  enc_limit_code (lv_code v) ++ enc_unit (lv_unit v) ++ w_i64 (lv_value v).
Definition dec_limit_value : Reader LimitValue :=
  code <- dec_limit_code ;; u <- dec_unit ;; value <- r_i64 ;;
  check negb (value <? 0) else RejectedNegativeLimit ;;
  match limit_info code with
  | None => r_fail RejectedUnknownLimitCode
  | Some info =>
      check bool_decide (unit_code u = li_unit info) else RejectedLimitUnitInvalid ;;
      check unit_valid_for_limit code u else RejectedLimitScaleNotPermitted ;;
      r_ret (mkLimitValue code u value)
  end.

Definition enc_limits (s : LimitSet) : list Z := w_vec enc_limit_value s.
Definition dec_limits : Reader LimitSet :=
  values <- r_ordered_vec dec_limit_value lv_code kMaxLimitsPerRecord RejectedLimitBudgetExceeded ;;
  r_ret (limit_set_from_validated values).

(** ** Identities *)

Definition enc_device_identity (d : DeviceIdentity) : list Z :=
  w_name (di_provider d) ++ w_name (di_model d) ++ w_u32 (di_unit_index d) ++
  w_optional w_name (di_serial d).
Definition dec_device_identity : Reader DeviceIdentity :=
  provider <- r_name ;; model <- r_name ;; unit_index <- r_u32 ;;
  check unit_index <=? kMaxDeviceUnitIndex else RejectedMalformedDocument ;;
  serial <- r_optional r_name ;;
  r_ret (mkDeviceIdentity provider model unit_index serial).

Definition enc_device_ref (d : DeviceIncarnationRef) : list Z :=
  enc_device_identity (dr_device d) ++ w_strong (dr_incarnation d).
Definition dec_device_ref : Reader DeviceIncarnationRef :=
  device <- dec_device_identity ;; incarnation <- r_strong ;;
  check negb (is_unset incarnation) else RejectedZeroIncarnation ;;
  r_ret (mkDeviceRef device incarnation).

Definition enc_source_incarnation (s : SourceIncarnation) : list Z :=
  w_name (si_source s) ++ w_strong (si_counter s).
Definition dec_source_incarnation : Reader SourceIncarnation :=
  source <- r_name ;; counter <- r_strong ;; r_ret (mkSourceIncarnation source counter).

Definition enc_evidence_key (k : EvidenceKey) : list Z :=
  enc_device_ref (ek_device k) ++ enc_kind (ek_kind k) ++ w_name (ek_source k).
Definition dec_evidence_key : Reader EvidenceKey :=
  device <- dec_device_ref ;; kind <- dec_kind ;; source <- r_name ;;
  r_ret (mkEvidenceKey device kind source).

(** ** Evidence *)

Definition enc_evidence (e : CapabilityEvidence) : list Z :=
  enc_evidence_key (ce_key e) ++ enc_source_incarnation (ce_source_incarnation e) ++
  enc_semver (ce_capability_version e) ++ enc_features (ce_features e) ++
  enc_limits (ce_limits e) ++ w_optional enc_semver (ce_firmware_version e) ++
  w_strong (ce_firmware_generation e) ++ w_optional enc_semver (ce_runtime_version e) ++
  w_strong (ce_runtime_generation e) ++ w_strong (ce_observed_at e) ++
  w_optional w_strong (ce_valid_until e) ++ w_strong (ce_generation e) ++
  enc_authority (ce_authority e) ++ w_strong (ce_epoch_at_ingest e) ++
  w_strong (ce_boot_at_ingest e) ++ w_strong (ce_policy_revision e).

(** [CapabilityEvidence::compute_digest] and [refresh_id] (src/evidence.cpp,
    include/ocreg/evidence.hpp). *)
Definition compute_digest (e : CapabilityEvidence) : Digest256 := digest_of (enc_evidence e).
Definition refresh_id (e : CapabilityEvidence) : CapabilityEvidence :=
  with_id_cache e (compute_digest e).

Definition valid_window (observed_at : Tick) (valid_until : option Tick) : bool :=
  match valid_until with Some t => negb (t <? observed_at) | None => true end.

Definition dec_evidence : Reader CapabilityEvidence :=
  key <- dec_evidence_key ;; source_incarnation <- dec_source_incarnation ;;
  capability_version <- dec_semver ;; features <- dec_features ;; limits <- dec_limits ;;
  firmware_version <- r_optional dec_semver ;; firmware_generation <- r_strong ;;
  runtime_version <- r_optional dec_semver ;; runtime_generation <- r_strong ;;
  observed_at <- r_strong ;; valid_until <- r_optional r_strong ;; generation <- r_strong ;;
  authority <- dec_authority ;; epoch <- r_strong ;; boot <- r_strong ;; revision <- r_strong ;;
  check negb (is_unset generation) else RejectedGenerationRegression ;;
  check valid_window observed_at valid_until else RejectedValidityWindowInverted ;;
  check forallb (fun c => feature_allowed_for c (ek_kind key)) features else RejectedFeatureNotInKind ;;
  check forallb (fun v => limit_allowed_for (lv_code v) (ek_kind key)) limits else RejectedLimitNotInKind ;;
  r_ret (refresh_id (mkEvidence key source_incarnation capability_version features limits
    firmware_version firmware_generation runtime_version runtime_generation observed_at valid_until
    generation authority epoch boot revision digest_zero)).

Definition enc_stored (s : StoredEvidence) : list Z :=
  enc_evidence (se_evidence s) ++ enc_lifecycle (se_lifecycle s) ++
  w_reason (se_admission_reason s) ++ w_strong (se_admitted_at s) ++
  w_optional w_strong (se_retired_at s) ++ w_reason (se_retirement_reason s).
Definition dec_stored : Reader StoredEvidence :=
  evidence <- dec_evidence ;; lifecycle <- dec_lifecycle ;; admission_reason <- r_reason ;;
  admitted_at <- r_strong ;; retired_at <- r_optional r_strong ;; retirement_reason <- r_reason ;;
  check negb (bool_decide (lifecycle = LcRetired) && match retired_at with None => true | _ => false end)
    else RejectedMalformedDocument ;;
  r_ret (mkStored evidence lifecycle admission_reason admitted_at retired_at retirement_reason).

Definition enc_retirement (r : RetirementRecord) : list Z :=
  enc_evidence_key (rr_key r) ++ w_strong (rr_generation r) ++ w_strong (rr_retired_at r) ++
  w_reason (rr_reason r) ++ w_strong (rr_epoch r) ++ w_strong (rr_policy_revision r) ++
  enc_authority (rr_authority r).
Definition dec_retirement : Reader RetirementRecord :=
  key <- dec_evidence_key ;; generation <- r_strong ;; retired_at <- r_strong ;;
  reason <- r_reason ;; epoch <- r_strong ;; revision <- r_strong ;; authority <- dec_authority ;;
  check negb (is_unset generation) else RejectedGenerationRegression ;;
  r_ret (mkRetirement key generation retired_at reason epoch revision authority).

Definition enc_conflict (g : ConflictGroup) : list Z :=
  w_digest (cg_id g) ++ enc_device_ref (cg_device g) ++ enc_kind (cg_kind g) ++
  enc_authority (cg_authority g) ++ w_vec w_digest (cg_members g) ++
  w_vec w_strong (cg_generations g) ++ w_strong (cg_observed_first g) ++
  w_strong (cg_observed_last g).
Definition dec_conflict : Reader ConflictGroup :=
  id <- r_digest ;; device <- dec_device_ref ;; kind <- dec_kind ;; authority <- dec_authority ;;
  members <- r_vec r_digest kMaxCollectionEntries RejectedOversizedInput ;;
  generation_count <- r_u32 ;;
  check negb ((generation_count >? kMaxCollectionEntries) ||
              negb (generation_count =? Z.of_nat (length members)))
    else RejectedMalformedDocument ;;
  generations <- r_loop r_strong (Z.to_nat generation_count) ;;
  observed_first <- r_strong ;; observed_last <- r_strong ;;
  r_ret (mkConflictGroup id device kind authority members generations observed_first observed_last).

Definition enc_resolution (r : ConflictResolution) : list Z :=
  w_digest (cr_id r) ++ w_digest (cr_conflict r) ++ w_digest (cr_chosen r) ++
  w_vec w_digest (cr_rejected_members r) ++ w_name (cr_resolver r) ++
  w_strong (cr_resolved_at r) ++ w_strong (cr_epoch r).
Definition dec_resolution : Reader ConflictResolution :=
  id <- r_digest ;; conflict <- r_digest ;; chosen <- r_digest ;;
  rejected <- r_vec r_digest kMaxCollectionEntries RejectedOversizedInput ;;
  resolver <- r_name ;; resolved_at <- r_strong ;; epoch <- r_strong ;;
  r_ret (mkResolution id conflict chosen rejected resolver resolved_at epoch).

Definition enc_eviction (e : EvictionEntry) : list Z :=
  w_digest (ev_id e) ++ enc_evidence_key (ev_key e) ++ w_strong (ev_generation e) ++
  enc_evidence_state (ev_state_at_eviction e) ++ w_reason (ev_reason e) ++
  w_strong (ev_evicted_at e).
Definition dec_eviction : Reader EvictionEntry :=
  id <- r_digest ;; key <- dec_evidence_key ;; generation <- r_strong ;;
  state <- dec_evidence_state ;; reason <- r_reason ;; evicted_at <- r_strong ;;
  r_ret (mkEviction id key generation state reason evicted_at).

(** ** Requirements and requests *)

Definition enc_limit_requirement (v : LimitRequirement) : list Z :=
  enc_limit_code (lr_code v) ++ enc_unit (lr_unit v) ++ w_i64 (lr_minimum v).
Definition dec_limit_requirement : Reader LimitRequirement :=
  code <- dec_limit_code ;; u <- dec_unit ;; minimum <- r_i64 ;;
  check negb (minimum <? 0) else RejectedNegativeLimit ;;
  match limit_info code with
  | None => r_fail RejectedUnknownLimitCode
  | Some info =>
      check bool_decide (unit_code u = li_unit info) else RejectedLimitUnitInvalid ;;
      check unit_valid_for_limit code u else RejectedLimitScaleNotPermitted ;;
      r_ret (mkLimitRequirement code u minimum)
  end.

Definition enc_requirement (r : CapabilityRequirement) : list Z :=
  enc_device_ref (rq_device r) ++ enc_kind (rq_capability r) ++
  enc_semver (vr_minimum (rq_version r)) ++
  w_optional enc_semver (vr_maximum_exclusive (rq_version r)) ++
  enc_features (rq_required_features r) ++ w_vec enc_limit_requirement (rq_required_limits r) ++
  w_optional enc_semver (rq_minimum_firmware_version r) ++
  w_optional w_strong (rq_minimum_firmware_generation r) ++
  w_optional enc_semver (rq_minimum_runtime_version r) ++
  w_optional w_strong (rq_minimum_runtime_generation r) ++ w_strong (rq_max_evidence_age r).
Definition dec_requirement : Reader CapabilityRequirement :=
  device <- dec_device_ref ;; capability <- dec_kind ;; minimum <- dec_semver ;;
  maximum <- r_optional dec_semver ;; features <- dec_features ;;
  limits <- r_ordered_vec dec_limit_requirement lr_code kMaxLimitsPerRecord
              RejectedLimitBudgetExceeded ;;
  firmware_version <- r_optional dec_semver ;; firmware_generation <- r_optional r_strong ;;
  runtime_version <- r_optional dec_semver ;; runtime_generation <- r_optional r_strong ;;
  max_age <- r_strong ;;
  check forallb (fun c => feature_allowed_for c capability) features else RejectedFeatureNotInKind ;;
  check forallb (fun v => limit_allowed_for (lr_code v) capability) limits else RejectedLimitNotInKind ;;
  r_ret (mkRequirement device capability (mkVersionRequirement minimum maximum) features limits
    firmware_version firmware_generation runtime_version runtime_generation max_age).

Definition enc_admission (q : AdmissionRequest) : list Z :=
  enc_device_ref (aq_device q) ++ enc_kind (aq_kind q) ++ enc_source_incarnation (aq_source q) ++
  enc_semver (aq_capability_version q) ++ enc_features (aq_features q) ++
  enc_limits (aq_limits q) ++ w_optional enc_semver (aq_firmware_version q) ++
  w_strong (aq_firmware_generation q) ++ w_optional enc_semver (aq_runtime_version q) ++
  w_strong (aq_runtime_generation q) ++ w_strong (aq_observed_at q) ++
  w_optional w_strong (aq_valid_until q) ++ w_strong (aq_generation q).
Definition dec_admission : Reader AdmissionRequest :=
  device <- dec_device_ref ;; kind <- dec_kind ;; source <- dec_source_incarnation ;;
  version <- dec_semver ;; features <- dec_features ;; limits <- dec_limits ;;
  firmware_version <- r_optional dec_semver ;; firmware_generation <- r_strong ;;
  runtime_version <- r_optional dec_semver ;; runtime_generation <- r_strong ;;
  observed_at <- r_strong ;; valid_until <- r_optional r_strong ;; generation <- r_strong ;;
  check negb (is_unset generation) else RejectedGenerationRegression ;;
  check valid_window observed_at valid_until else RejectedValidityWindowInverted ;;
  r_ret (mkAdmission device kind source version features limits firmware_version
    firmware_generation runtime_version runtime_generation observed_at valid_until generation).

Definition enc_retire_request (q : RetirementRequest) : list Z :=
  enc_device_ref (rt_device q) ++ enc_kind (rt_kind q) ++ w_name (rt_source q) ++
  w_strong (rt_generation q) ++ w_strong (rt_retired_at q) ++ w_reason (rt_reason q).
Definition dec_retire_request : Reader RetirementRequest :=
  device <- dec_device_ref ;; kind <- dec_kind ;; source <- r_name ;; generation <- r_strong ;;
  retired_at <- r_strong ;; reason <- r_reason ;;
  check negb (is_unset generation) else RejectedGenerationRegression ;;
  r_ret (mkRetireRequest device kind source generation retired_at reason).

(** ** Policy, counters and statistics *)

Definition enc_source_policy (s : SourcePolicy) : list Z :=
  w_name (sp_id s) ++ enc_source_kind (sp_kind s) ++ enc_authority (sp_authority s) ++
  enc_trust (sp_trust s) ++ w_strong (sp_max_age s) ++ w_boolean (sp_durable_across_boot s).
Definition dec_source_policy : Reader SourcePolicy :=
  id <- r_name ;; kind <- dec_source_kind ;; authority <- dec_authority ;; trust <- dec_trust ;;
  max_age <- r_strong ;; durable <- r_boolean ;;
  r_ret (mkSourcePolicy id kind authority trust max_age durable).

(** The lambda [read_bound]: narrowing to [std::size_t], 64 bits wide. *)
Definition read_bound : Reader Z :=
  raw <- r_u64 ;;
  match checked_narrow uint64_t uint64_t raw with
  | Some v => r_ret v
  | None => r_fail RejectedOversizedInput
  end.

Definition enc_registry_limits (l : RegistryLimits) : list Z :=
  w_u64 (max_devices l) ++ w_u64 (max_incarnations_per_device l) ++ w_u64 (max_streams l) ++
  w_u64 (max_records l) ++ w_u64 (max_records_per_stream l) ++ w_u64 (max_tombstones l) ++
  w_u64 (max_conflict_groups l) ++ w_u64 (max_resolutions l) ++ w_u64 (max_eviction_ledger l) ++
  w_u64 (max_sources l) ++ w_u64 (max_decisions l) ++ w_u64 (max_features_per_record l) ++
  w_u64 (max_limits_per_record l) ++ w_u64 (max_limits_per_requirement l) ++
  w_u64 (max_required_features l).
Definition dec_registry_limits : Reader RegistryLimits :=
  x0 <- read_bound ;; x1 <- read_bound ;; x2 <- read_bound ;; x3 <- read_bound ;;
  x4 <- read_bound ;; x5 <- read_bound ;; x6 <- read_bound ;; x7 <- read_bound ;;
  x8 <- read_bound ;; x9 <- read_bound ;; x10 <- read_bound ;; x11 <- read_bound ;;
  x12 <- read_bound ;; x13 <- read_bound ;; x14 <- read_bound ;;
  r_ret (mkLimits x0 x1 x2 x3 x4 x5 x6 x7 x8 x9 x10 x11 x12 x13 x14).

Definition enc_policy (p : RegistryPolicy) : list Z :=
  w_vec enc_source_policy (rp_sources p) ++ w_boolean (rp_require_configured_source p) ++
  w_boolean (rp_refuse_untrusted_sources p) ++ enc_boot_policy (rp_boot_policy p) ++
  enc_clock_mode (rp_clock_mode p) ++ w_strong (rp_retention_horizon p) ++
  w_strong (rp_max_future_skew p) ++ w_strong (rp_default_max_age p) ++
  enc_registry_limits (rp_limits p) ++ w_strong (rp_rule_generation p) ++ w_str (rp_policy_name p).
Definition dec_policy : Reader RegistryPolicy :=
  sources <- r_vec dec_source_policy kMaxCollectionEntries RejectedOversizedInput ;;
  require_configured <- r_boolean ;; refuse_untrusted <- r_boolean ;;
  boot_policy <- dec_boot_policy ;; clock_mode <- dec_clock_mode ;;
  retention <- r_strong ;; skew <- r_strong ;; default_age <- r_strong ;;
  limits <- dec_registry_limits ;; rule_generation <- r_strong ;; policy_name <- r_bytes ;;
  check (String.length policy_name <=? 128)%nat else RejectedOversizedInput ;;
  r_ret (mkPolicy sources require_configured refuse_untrusted boot_policy clock_mode retention
           skew default_age limits rule_generation policy_name).

Definition enc_counters (c : RegistryCounters) : list Z :=
  w_u64 (c_admissions_accepted c) ++ w_u64 (c_admissions_idempotent c) ++
  w_u64 (c_admissions_rejected c) ++ w_u64 (c_retirements_accepted c) ++
  w_u64 (c_retirements_rejected c) ++ w_u64 (c_decisions_emitted c) ++
  w_u64 (c_decisions_evicted c) ++ w_u64 (c_conflicts_resolved c) ++
  w_u64 (c_evictions_total c) ++ w_u64 (c_eviction_ledger_dropped c) ++
  w_u64 (c_conflicts_dropped c) ++ w_u64 (c_resolutions_dropped c) ++
  w_u64 (c_tombstones_dropped c).
Definition dec_counters : Reader RegistryCounters :=
  x0 <- r_u64 ;; x1 <- r_u64 ;; x2 <- r_u64 ;; x3 <- r_u64 ;; x4 <- r_u64 ;; x5 <- r_u64 ;;
  x6 <- r_u64 ;; x7 <- r_u64 ;; x8 <- r_u64 ;; x9 <- r_u64 ;; x10 <- r_u64 ;; x11 <- r_u64 ;;
  x12 <- r_u64 ;;
  r_ret (mkCounters x0 x1 x2 x3 x4 x5 x6 x7 x8 x9 x10 x11 x12).

Definition enc_incarnation_entry (e : DeviceIncarnationEntry) : list Z :=
  enc_device_identity (ie_device e) ++ w_strong (ie_current e) ++ w_vec w_strong (ie_history e).
Definition dec_incarnation_entry : Reader DeviceIncarnationEntry :=
  device <- dec_device_identity ;; current <- r_strong ;;
  history <- r_vec r_strong kMaxCollectionEntries RejectedOversizedInput ;;
  r_ret (mkIncarnationEntry device current history).

Definition enc_stats (s : RegistryStats) : list Z :=
  w_u64 (rs_devices s) ++ w_u64 (rs_incarnations s) ++ w_u64 (rs_streams s) ++
  w_u64 (rs_records_total s) ++ w_u64 (rs_records_active s) ++ w_u64 (rs_records_superseded s) ++
  w_u64 (rs_records_retired s) ++ w_u64 (rs_records_rejected s) ++ w_u64 (rs_records_fenced s) ++
  w_u64 (rs_records_stale s) ++ w_u64 (rs_records_outranked s) ++ w_u64 (rs_records_evicted s) ++
  w_u64 (rs_conflicts_open s) ++ w_u64 (rs_conflicts_resolved s) ++ w_u64 (rs_tombstones s) ++
  w_u64 (rs_resolutions s) ++ w_u64 (rs_eviction_ledger_dropped s) ++
  w_u64 (rs_conflicts_dropped s) ++ w_u64 (rs_resolutions_dropped s) ++
  w_u64 (rs_tombstones_dropped s) ++ w_u64 (rs_decisions_emitted s) ++
  w_u64 (rs_decisions_evicted s) ++ w_u64 (rs_admissions_accepted s) ++
  w_u64 (rs_admissions_idempotent s) ++ w_u64 (rs_admissions_rejected s) ++
  w_u64 (rs_retirements_accepted s) ++ w_u64 (rs_retirements_rejected s) ++
  w_strong (rs_registry_epoch s) ++ w_strong (rs_rule_generation s) ++
  w_strong (rs_policy_revision s) ++ w_strong (rs_boot_epoch s) ++ w_strong (rs_logical_tick s).
Definition dec_stats : Reader RegistryStats :=
  x0 <- r_u64 ;; x1 <- r_u64 ;; x2 <- r_u64 ;; x3 <- r_u64 ;; x4 <- r_u64 ;; x5 <- r_u64 ;;
  x6 <- r_u64 ;; x7 <- r_u64 ;; x8 <- r_u64 ;; x9 <- r_u64 ;; x10 <- r_u64 ;; x11 <- r_u64 ;;
  x12 <- r_u64 ;; x13 <- r_u64 ;; x14 <- r_u64 ;; x15 <- r_u64 ;; x16 <- r_u64 ;; x17 <- r_u64 ;;
  x18 <- r_u64 ;; x19 <- r_u64 ;; x20 <- r_u64 ;; x21 <- r_u64 ;; x22 <- r_u64 ;; x23 <- r_u64 ;;
  x24 <- r_u64 ;; x25 <- r_u64 ;; x26 <- r_u64 ;; x27 <- r_strong ;; x28 <- r_strong ;;
  x29 <- r_strong ;; x30 <- r_strong ;; x31 <- r_strong ;;
  r_ret (mkStats x0 x1 x2 x3 x4 x5 x6 x7 x8 x9 x10 x11 x12 x13 x14 x15 x16 x17 x18 x19 x20 x21 x22
                 x23 x24 x25 x26 x27 x28 x29 x30 x31).

(** ** The registry state *)

Definition enc_state (s : RegistryState) : list Z :=
  w_u32 kStoreFormatVersion ++ enc_policy (s_policy s) ++ w_strong (s_epoch s) ++
  w_strong (s_rule_generation s) ++ w_strong (s_policy_revision s) ++ w_strong (s_boot_epoch s) ++
  w_strong (s_store_generation s) ++ w_strong (s_logical_tick s) ++ w_u64 (s_next_incarnation s) ++
  w_vec enc_incarnation_entry (s_incarnations s) ++ w_vec enc_stored (s_records s) ++
  w_vec enc_retirement (s_tombstones s) ++ w_vec enc_conflict (s_conflicts s) ++
  w_vec enc_resolution (s_resolutions s) ++ w_vec enc_eviction (s_evictions s) ++
  enc_counters (s_counters s).

(** The lambda [read_collection]. *)
Definition read_collection {A} (d : Reader A) : Reader (list A) :=
  r_vec d kMaxCollectionEntries RejectedOversizedInput.

Definition dec_state : Reader RegistryState :=
  format <- r_u32 ;; check format =? kStoreFormatVersion else StoreVersionIncompatible ;;
  policy <- dec_policy ;; epoch <- r_strong ;; rule_generation <- r_strong ;;
  policy_revision <- r_strong ;; boot_epoch <- r_strong ;; store_generation <- r_strong ;;
  logical_tick <- r_strong ;; next_incarnation <- r_u64 ;;
  check negb (next_incarnation =? 0) else RejectedZeroIncarnation ;;
  incarnations <- read_collection dec_incarnation_entry ;;
  records <- read_collection dec_stored ;; tombstones <- read_collection dec_retirement ;;
  conflicts <- read_collection dec_conflict ;; resolutions <- read_collection dec_resolution ;;
  evictions <- read_collection dec_eviction ;; counters <- dec_counters ;;
  check Z.of_nat (length records) <=? max_records (rp_limits policy) else StoreSemanticMismatch ;;
  check Z.of_nat (length tombstones) <=? max_tombstones (rp_limits policy) else StoreSemanticMismatch ;;
  check strictly_increasing sp_id (rp_sources policy) else StoreSemanticMismatch ;;
  r_ret (mkState policy epoch rule_generation policy_revision boot_epoch store_generation
    logical_tick next_incarnation incarnations records tombstones conflicts resolutions evictions
    counters).

Definition state_digest (s : RegistryState) : Digest256 := digest_of (enc_state s).

(** [requirement_digest] (src/registry.cpp). *)
Definition requirement_digest (r : CapabilityRequirement) : Digest256 :=
  digest_of (w_u16 kApiGeneration ++ enc_requirement r).
