(* ===== verification/CodecThms.v ===== *)
(** * Every codec pair meets the codec interface

    For each type: what a decoded value satisfies, and the [Codec] instance that
    encoding and decoding are mutually inverse between well-formed values and
    the byte sequences the decoder accepts. *)

From Stdlib Require Import ZArith Lia ZifyBool Ascii String Sorted Permutation.
From stdpp Require Import base tactics list strings.
From S2P Require Import Prelude Checked Reason Text Units Name SemVer Hash Catalog Evidence.
From S2P Require Import State Codec CodecTypes.

#[local] Open Scope string_scope.
#[local] Open Scope Z_scope.
#[local] Open Scope list_scope.

Definition any {A} (_ : A) : Prop := True.
Definition opt_wf {A} (wf : A -> Prop) (o : option A) : Prop := forall x, o = Some x -> wf x.
Definition digest_wf (d : Digest256) : Prop := length d = kDigestBytes /\ bytes d.

(** ** Enumerations *)

Ltac enum_instance num from failure :=
  apply (enum_codec num from failure);
  [ intros []; (split; [unfold in_u; simpl; lia | reflexivity])
  | intros raw x; unfold from; intros H; repeat case_match; simplify_eq; zb; try done ].

#[export] Instance source_kind_codec : CanonicalCodec enc_source_kind dec_source_kind any.
Proof. enum_instance source_kind_num source_kind_from RejectedMalformedDocument. Qed.
#[export] Instance authority_codec : CanonicalCodec enc_authority dec_authority any.
Proof. enum_instance authority_rank_num authority_from RejectedMalformedDocument. Qed.
#[export] Instance trust_codec : CanonicalCodec enc_trust dec_trust any.
Proof. enum_instance source_trust_state_num trust_from RejectedMalformedDocument. Qed.
#[export] Instance lifecycle_codec : CanonicalCodec enc_lifecycle dec_lifecycle any.
Proof. enum_instance evidence_lifecycle_num lifecycle_from RejectedMalformedDocument. Qed.
#[export] Instance evidence_state_codec : CanonicalCodec enc_evidence_state dec_evidence_state any.
Proof. enum_instance evidence_state_num evidence_state_from RejectedMalformedDocument. Qed.
#[export] Instance boot_policy_codec : CanonicalCodec enc_boot_policy dec_boot_policy any.
Proof. enum_instance boot_policy_num boot_policy_from RejectedMalformedDocument. Qed.
#[export] Instance clock_mode_codec : CanonicalCodec enc_clock_mode dec_clock_mode any.
Proof. enum_instance clock_mode_num clock_mode_from RejectedMalformedDocument. Qed.
#[export] Instance kind_codec : CanonicalCodec enc_kind dec_kind any.
Proof.
  apply (enum_codec kind_num capability_kind_from_code RejectedUnknownCapabilityKind).
  - intros []; (split; [unfold in_u; simpl; lia | reflexivity]).
  - intros raw x H. apply find_some_spec in H as [H _]. lia.
Qed.

(** ** Values *)

Lemma qualifier_bound s b : s = "" \/ parse_identifiers s b = true -> (String.length s <= 32)%nat.
Proof. intros [->|H]; [simpl; lia|by eapply identifiers_bound]. Qed.

#[export] Instance semver_codec : Codec enc_semver dec_semver semver_valid.
Proof.
  split.
  - intros v rest Hv. pose proof Hv as [(Ha & Hb & Hc) Hp Hq].
    pose proof (qualifier_bound _ _ Hp) as Lp. pose proof (qualifier_bound _ _ Hq) as Lq.
    unfold enc_semver, dec_semver. codec_norm. do 3 (rewrite codec_bind by done; codec_norm).
    do 2 (rewrite codec_bind by lia; codec_norm).
    rewrite guard_bind by (unfold kMaxSemVerQualifierLength; lia).
    assert (semver_parse (semver_str v) = Some v) as Hr by by apply semver_parse_spec.
    rewrite semver_str_core in Hr. rewrite (semver_str_core (mkSemVer _ _ _ _ _)).
    cbn [sv_major sv_minor sv_patch sv_prerelease sv_build str_empty].
    change ("" ++ "")%string with "". by rewrite str_app_nil, Hr.
  - intros b v rest Hb H. unfold dec_semver in H. codec_wf H.
    destruct (semver_parse _) as [c|] eqn:E; [|done]. injection H as -> ->.
    apply semver_parse_spec in E as [Hv _]. done.
Qed.

Definition unit_wf (u : Unit) : Prop := unit_is_well_formed u = true /\ in_u 8 (unit_exponent u).

#[export] Instance unit_codec : CanonicalCodec enc_unit dec_unit unit_wf.
Proof.
  split.
  - intros [c s e] rest [Hw He]. unfold enc_unit, dec_unit. cbn [unit_code unit_scale unit_exponent] in *.
    codec_norm. rewrite codec_bind by (destruct c; unfold in_u; simpl; lia). codec_norm.
    rewrite codec_bind by (destruct s; unfold in_u; simpl; lia). rewrite codec_bind by done.
    rewrite guard_bind by (by destruct s).
    assert (unit_code_from (unit_code_num c) = Some c) as -> by by destruct c.
    assert (unit_scale_from (unit_scale_num s) = s) as -> by by destruct s.
    by rewrite guard_bind.
  - intros b u rest Hb H. unfold dec_unit in H.
    apply codec_bind_inv in H as (c & b1 & Hc & -> & Hb1 & H); [|done].
    apply codec_bind_inv in H as (s & b2 & Hs & -> & Hb2 & H); [|done].
    apply codec_bind_inv in H as (e & b3 & He & -> & Hb3 & H); [|done].
    apply guard_bind_inv in H as [Hg H]. unfold unit_code_from in H.
    destruct (find _ kUnitCodes) as [i|] eqn:E; [|done]. cbn [fmap option_fmap option_map] in H.
    apply guard_bind_inv in H as [Hw H]. injection H as <- <-.
    apply find_some_spec in E as [E _]. apply Z.eqb_eq in E as <-. split; [done|].
    unfold enc_unit. cbn [unit_code unit_scale unit_exponent]. codec_norm. f_equal. f_equal.
    f_equal. unfold in_u in Hs. simpl in Hg.
    assert (s = 0 \/ s = 1 \/ s = 2) as [->|[->| ->]] by lia; done.
Qed.

Lemma catalog_code_codec (from : Z -> option Z) (reason : ReasonCode) :
  (forall raw c, from raw = Some c -> c = raw) ->
  CanonicalCodec w_u32 (r_bind r_u32 (fun raw => match from raw with Some c => r_ret c | None => r_fail reason end))
        (fun c => in_u 32 c /\ from c = Some c).
Proof.
  intros Hf. split.
  - intros c rest [Hc Hs]. rewrite codec_bind by done. by rewrite Hs.
  - intros b c rest Hb H. apply codec_bind_inv in H as (raw & b1 & Hr & -> & _ & H); [|done].
    destruct (from raw) as [x|] eqn:E; [|done]. injection H as <- <-.
    pose proof (Hf _ _ E) as ->. done.
Qed.

Definition feature_wf (c : FeatureCode) : Prop := in_u 32 c /\ feature_from_code c = Some c.
Definition limit_code_wf (c : LimitCode) : Prop := in_u 32 c /\ limit_from_code c = Some c.

#[export] Instance feature_codec : CanonicalCodec enc_feature dec_feature feature_wf.
Proof.
  apply catalog_code_codec. intros raw c. unfold feature_from_code.
  destruct (find _ _) as [i|] eqn:E; [|done]. intros [= <-]. apply find_some_spec in E as [E _]. lia.
Qed.

#[export] Instance limit_code_codec : CanonicalCodec enc_limit_code dec_limit_code limit_code_wf.
Proof.
  apply catalog_code_codec. intros raw c. unfold limit_from_code.
  destruct (find _ _) as [i|] eqn:E; [|done]. intros [= <-]. apply find_some_spec in E as [E _]. lia.
Qed.

Lemma limit_info_from_code c : limit_code_wf c -> exists i, limit_info c = Some i.
Proof.
  intros [_ H]. unfold limit_from_code, limit_info in *. destruct (find _ _) as [i|]; [eauto|done].
Qed.

(** ** Ordered collections *)

Definition above (prev : option Z) (x : Z) : bool :=
  match prev with None => true | Some p => p <? x end.

Fixpoint ordered_from {A} (key : A -> Z) (prev : option Z) (l : list A) : bool :=
  match l with [] => true | x :: l' => above prev (key x) && ordered_from key (Some (key x)) l' end.

Lemma ordered_from_increasing {A} (key : A -> Z) (l : list A) :
  ordered_from key None l = strictly_increasing key l.
Proof.
  destruct l as [|x l]; [done|]. cbn [ordered_from above andb].
  revert x. induction l as [|y l IH]; intros x; [done|].
  cbn [ordered_from above]. rewrite (IH y). cbn [strictly_increasing]. f_equal.
Qed.

Lemma ordered_loop_canonical {A} (e : A -> list Z) (d : Reader A) (wf : A -> Prop) (key : A -> Z) prev n :
  CanonicalCodec e d wf ->
  CanonicalCodec (fun l => concat (map e l)) (r_ordered_loop d key prev n)
        (fun l => length l = n /\ Forall wf l /\ ordered_from key prev l = true).
Proof.
  intros Hc. split; revert prev.
  - induction n as [|n IH]; intros prev l rest (Hl & Hw & Ho); [by destruct l|].
    destruct l as [|x l]; [discriminate|]. apply Forall_cons in Hw as [Hx Hw].
    cbn [ordered_from] in Ho. apply andb_prop in Ho as [Ho1 Ho2].
    cbn [map concat r_ordered_loop]. codec_norm. rewrite codec_bind by done.
    rewrite guard_bind by done. unfold r_bind. rewrite IH; [done|]. simpl in Hl. split_and!; [lia|done..].
  - induction n as [|n IH]; intros prev b l rest Hb H; cbn [r_ordered_loop] in H; [by injection H as <- <-|].
    apply codec_bind_inv in H as (x & b1 & Hx & -> & Hb1 & H); [|done].
    apply guard_bind_inv in H as [Hg H]. unfold r_bind in H.
    destruct (r_ordered_loop d key _ n b1) as [|[l' r']] eqn:E; [done|].
    injection H as <- <-. destruct (IH _ b1 l' r' Hb1 E) as [(Hl & Hw & Ho) ->].
    split; [split_and!|].
    + simpl. lia.
    + by constructor.
    + cbn [ordered_from]. by rewrite Ho, andb_true_r.
    + cbn [map concat]. by codec_norm.
Qed.

Definition ordered_wf {A} (wf : A -> Prop) (key : A -> Z) (bound : Z) (l : list A) : Prop :=
  Forall wf l /\ strictly_increasing key l = true /\ Z.of_nat (length l) <= bound /\
  Z.of_nat (length l) < 2 ^ 32.

#[export] Instance ordered_vec_canonical {A} (e : A -> list Z) (d : Reader A) (wf : A -> Prop) key bound reason :
  CanonicalCodec e d wf ->
  CanonicalCodec (w_vec e) (r_ordered_vec d key bound reason) (ordered_wf wf key bound).
Proof.
  intros Hc. pose proof (counted_canonical e (r_ordered_loop d key None)
    (fun n l => length l = n /\ Forall wf l /\ ordered_from key None l = true) bound reason
    ltac:(by intros n l [H _]) (fun n => ordered_loop_canonical e d wf key None n Hc)) as [H1 H2].
  unfold ordered_wf. split.
  - intros x rest (? & ? & ? & ?). apply H1. by rewrite ordered_from_increasing.
  - intros b x rest Hb H. destruct (H2 b x rest Hb H) as [((_ & ? & Ho) & ? & ?) ->].
    by rewrite ordered_from_increasing in Ho.
Qed.

Definition features_wf : FeatureSet -> Prop := ordered_wf feature_wf (fun c => c) kMaxFeaturesPerRecord.

(** Rebuilding a set from strictly increasing codes changes nothing. *)
Lemma unique_sort_id {A} (key : A -> Z) l :
  strictly_increasing key l = true -> unique_by key (sort_by key l) = l.
Proof.
  intros H. apply strictly_increasing_sorted in H.
  rewrite sort_by_id by by apply strict_sorted_le. by apply unique_by_id.
Qed.

#[export] Instance features_codec : CanonicalCodec enc_features dec_features features_wf.
Proof.
  split.
  - intros s rest Hs. unfold enc_features, dec_features. rewrite codec_bind by done.
    unfold r_ret, feature_set_from_validated. by rewrite unique_sort_id by apply Hs.
  - intros b s rest Hb H. unfold dec_features in H.
    apply codec_bind_inv in H as (x & b1 & Hx & -> & _ & H); [|done]. injection H as <- <-.
    unfold feature_set_from_validated. by rewrite unique_sort_id by apply Hx.
Qed.

Definition limit_value_wf (v : LimitValue) : Prop :=
  limit_code_wf (lv_code v) /\ unit_wf (lv_unit v) /\ 0 <= lv_value v <= i64_max /\
  unit_valid_for_limit (lv_code v) (lv_unit v) = true.

Lemma unit_valid_code c u i :
  limit_info c = Some i -> unit_valid_for_limit c u = true -> bool_decide (unit_code u = li_unit i) = true.
Proof. intros Hi. unfold unit_valid_for_limit. rewrite Hi. by destruct (bool_decide _). Qed.

#[export] Instance limit_value_codec : CanonicalCodec enc_limit_value dec_limit_value limit_value_wf.
Proof.
  split.
  - intros [c u v] rest (Hc & Hu & Hv & Hval). unfold enc_limit_value, dec_limit_value.
    cbn [lv_code lv_unit lv_value] in *. codec_norm. rewrite codec_bind by done. codec_norm.
    rewrite codec_bind by done. rewrite codec_bind by (unfold in_i64, i64_min, i64_max in *; lia).
    rewrite guard_bind by lia. destruct (limit_info_from_code c Hc) as [i Hi]. rewrite Hi.
    rewrite guard_bind by by eapply unit_valid_code. by rewrite guard_bind.
  - intros b v rest Hb H. unfold dec_limit_value in H.
    apply codec_bind_inv in H as (c & b1 & Hc & -> & Hb1 & H); [|done].
    apply codec_bind_inv in H as (u & b2 & Hu & -> & Hb2 & H); [|done].
    apply codec_bind_inv in H as (x & b3 & Hx & -> & Hb3 & H); [|done].
    apply guard_bind_inv in H as [Hg H]. destruct (limit_info c); [|done].
    apply guard_bind_inv in H as [Hg2 H]. apply guard_bind_inv in H as [Hg3 H]. injection H as <- <-.
    unfold in_i64 in Hx. split; [split_and!; [done|done|cbn; lia..|done]|].
    unfold enc_limit_value. by codec_norm.
Qed.

Definition limits_wf : LimitSet -> Prop := ordered_wf limit_value_wf lv_code kMaxLimitsPerRecord.

#[export] Instance limits_codec : CanonicalCodec enc_limits dec_limits limits_wf.
Proof.
  split.
  - intros s rest Hs. unfold enc_limits, dec_limits. rewrite codec_bind by done.
    unfold r_ret, limit_set_from_validated. by rewrite unique_sort_id by apply Hs.
  - intros b s rest Hb H. unfold dec_limits in H.
    apply codec_bind_inv in H as (x & b1 & Hx & -> & _ & H); [|done]. injection H as <- <-.
    unfold limit_set_from_validated. by rewrite unique_sort_id by apply Hx.
Qed.

(** ** Records

    The two halves of a record codec: consume the encodings of the fields, or
    take a successful decode apart. *)
Ltac record_fwd enc dec :=
  let x := fresh "x" in let rest := fresh "rest" in let Hx := fresh "Hx" in
  intros x rest Hx; hnf in Hx; destruct_and? Hx; unfold enc, dec;
  repeat (rewrite <- ?app_assoc; first
    [ rewrite codec_bind by (first [done | exact I | assumption | lia])
    | rewrite guard_bind by (first [done | assumption | lia]) ]);
  by destruct x.
Ltac wf_solve := hnf; repeat match goal with |- _ /\ _ => split end; first [assumption | exact I | done].
Ltac record_wf dec :=
  let H := fresh "H" in
  intros ? ? ? ? H; unfold dec in H; codec_wf H; injection H as <- <-; split; [|done]; wf_solve.
Ltac record_inv enc dec :=
  let H := fresh "H" in
  intros ? ? ? ? H; unfold dec in H; codec_inv H; injection H as <- <-;
  split; [wf_solve|unfold enc; rewrite <- ?app_assoc; reflexivity].

Definition device_identity_wf (d : DeviceIdentity) : Prop :=
  name_ok (di_provider d) /\ name_ok (di_model d) /\ in_u 32 (di_unit_index d) /\
  (di_unit_index d <=? kMaxDeviceUnitIndex) = true /\ opt_wf name_ok (di_serial d).
#[export] Instance device_identity_codec :
  CanonicalCodec enc_device_identity dec_device_identity device_identity_wf.
Proof. split; [record_fwd enc_device_identity dec_device_identity|record_inv enc_device_identity dec_device_identity]. Qed.

Definition device_ref_wf (d : DeviceIncarnationRef) : Prop :=
  device_identity_wf (dr_device d) /\ in_u 64 (dr_incarnation d) /\
  negb (is_unset (dr_incarnation d)) = true.
#[export] Instance device_ref_codec : CanonicalCodec enc_device_ref dec_device_ref device_ref_wf.
Proof. split; [record_fwd enc_device_ref dec_device_ref|record_inv enc_device_ref dec_device_ref]. Qed.

Definition source_incarnation_wf (s : SourceIncarnation) : Prop :=
  name_ok (si_source s) /\ in_u 64 (si_counter s).
#[export] Instance source_incarnation_codec :
  CanonicalCodec enc_source_incarnation dec_source_incarnation source_incarnation_wf.
Proof. split; [record_fwd enc_source_incarnation dec_source_incarnation|record_inv enc_source_incarnation dec_source_incarnation]. Qed.

Definition evidence_key_wf (k : EvidenceKey) : Prop :=
  device_ref_wf (ek_device k) /\ any (ek_kind k) /\ name_ok (ek_source k).
#[export] Instance evidence_key_codec :
  CanonicalCodec enc_evidence_key dec_evidence_key evidence_key_wf.
Proof. split; [record_fwd enc_evidence_key dec_evidence_key|record_inv enc_evidence_key dec_evidence_key]. Qed.

(** What decoding enforces of evidence; the cached identifier is the digest. *)
Definition evidence_wf (e : CapabilityEvidence) : Prop :=
  evidence_key_wf (ce_key e) /\ source_incarnation_wf (ce_source_incarnation e) /\
  semver_valid (ce_capability_version e) /\ features_wf (ce_features e) /\
  limits_wf (ce_limits e) /\ opt_wf semver_valid (ce_firmware_version e) /\
  in_u 64 (ce_firmware_generation e) /\ opt_wf semver_valid (ce_runtime_version e) /\
  in_u 64 (ce_runtime_generation e) /\ in_u 64 (ce_observed_at e) /\
  opt_wf (in_u 64) (ce_valid_until e) /\ in_u 64 (ce_generation e) /\ any (ce_authority e) /\
  in_u 64 (ce_epoch_at_ingest e) /\ in_u 64 (ce_boot_at_ingest e) /\
  in_u 64 (ce_policy_revision e) /\ negb (is_unset (ce_generation e)) = true /\
  valid_window (ce_observed_at e) (ce_valid_until e) = true /\
  forallb (fun c => feature_allowed_for c (ek_kind (ce_key e))) (ce_features e) = true /\
  forallb (fun v => limit_allowed_for (lv_code v) (ek_kind (ce_key e))) (ce_limits e) = true /\
  ce_id_cache e = compute_digest e.

(** Digests are never unfolded by unification. *)
#[local] Opaque digest_of.

#[export] Instance evidence_codec : Codec enc_evidence dec_evidence evidence_wf.
Proof.
  split.
  - intros x rest Hx. hnf in Hx. destruct_and? Hx. unfold enc_evidence, dec_evidence.
    repeat (rewrite <- ?app_assoc; first
      [ rewrite codec_bind by (first [done | exact I | assumption])
      | rewrite guard_bind by assumption ]).
    unfold r_ret. do 2 f_equal. destruct x; unfold refresh_id, with_id_cache; simpl in *. by f_equal.
  - intros ? ? ? ? H. unfold dec_evidence in H. codec_wf H. injection H as <- <-.
    split; [|done]. wf_solve.
Qed.

Definition stored_wf (s : StoredEvidence) : Prop :=
  evidence_wf (se_evidence s) /\ any (se_lifecycle s) /\ any (se_admission_reason s) /\
  in_u 64 (se_admitted_at s) /\ opt_wf (in_u 64) (se_retired_at s) /\ any (se_retirement_reason s) /\
  negb (bool_decide (se_lifecycle s = LcRetired) &&
        match se_retired_at s with None => true | _ => false end) = true.
#[export] Instance stored_codec : Codec enc_stored dec_stored stored_wf.
Proof. split; [record_fwd enc_stored dec_stored|record_wf dec_stored]. Qed.

Definition retirement_wf (r : RetirementRecord) : Prop :=
  evidence_key_wf (rr_key r) /\ in_u 64 (rr_generation r) /\ in_u 64 (rr_retired_at r) /\
  any (rr_reason r) /\ in_u 64 (rr_epoch r) /\ in_u 64 (rr_policy_revision r) /\
  any (rr_authority r) /\ negb (is_unset (rr_generation r)) = true.
#[export] Instance retirement_codec : CanonicalCodec enc_retirement dec_retirement retirement_wf.
Proof. split; [record_fwd enc_retirement dec_retirement|record_inv enc_retirement dec_retirement]. Qed.

Definition resolution_wf (r : ConflictResolution) : Prop :=
  digest_wf (cr_id r) /\ digest_wf (cr_conflict r) /\ digest_wf (cr_chosen r) /\
  vec_wf digest_wf kMaxCollectionEntries (cr_rejected_members r) /\ name_ok (cr_resolver r) /\
  in_u 64 (cr_resolved_at r) /\ in_u 64 (cr_epoch r).
#[export] Instance resolution_codec : CanonicalCodec enc_resolution dec_resolution resolution_wf.
Proof. split; [record_fwd enc_resolution dec_resolution|record_inv enc_resolution dec_resolution]. Qed.

Definition eviction_wf (e : EvictionEntry) : Prop :=
  digest_wf (ev_id e) /\ evidence_key_wf (ev_key e) /\ in_u 64 (ev_generation e) /\
  any (ev_state_at_eviction e) /\ any (ev_reason e) /\ in_u 64 (ev_evicted_at e).
#[export] Instance eviction_codec : CanonicalCodec enc_eviction dec_eviction eviction_wf.
Proof. split; [record_fwd enc_eviction dec_eviction|record_inv enc_eviction dec_eviction]. Qed.

Definition conflict_wf (g : ConflictGroup) : Prop :=
  digest_wf (cg_id g) /\ device_ref_wf (cg_device g) /\ any (cg_kind g) /\ any (cg_authority g) /\
  vec_wf digest_wf kMaxCollectionEntries (cg_members g) /\ Forall (in_u 64) (cg_generations g) /\
  length (cg_generations g) = length (cg_members g) /\
  in_u 64 (cg_observed_first g) /\ in_u 64 (cg_observed_last g).
#[export] Instance conflict_codec : CanonicalCodec enc_conflict dec_conflict conflict_wf.
Proof.
  split.
  - intros x rest Hx. hnf in Hx. destruct_and? Hx. unfold enc_conflict, dec_conflict.
    repeat (rewrite <- ?app_assoc; rewrite codec_bind by (first [exact I | assumption])).
    assert (vec_wf digest_wf kMaxCollectionEntries (cg_members x)) as (_ & Hb & Hl) by assumption.
    unfold w_vec. rewrite <- ?app_assoc.
    assert (u32 (Z.of_nat (length (cg_generations x))) = Z.of_nat (length (cg_members x))) as ->
      by (unfold u32; rewrite wrap_small by (unfold in_u; lia); lia).
    rewrite codec_bind by (unfold in_u; lia). rewrite guard_bind by lia. rewrite Nat2Z.id.
    pose proof (loop_codec w_strong r_strong (in_u 64) (length (cg_members x)) _) as Hloop.
    rewrite (@codec_bind _ _ _ _ _ Hloop) by done.
    do 2 (rewrite codec_bind by assumption). by destruct x.
  - intros b x rest Hb H. unfold dec_conflict in H. codec_inv H.
    match type of H with r_bind (r_loop r_strong ?n) _ _ = _ =>
      pose proof (loop_canonical w_strong r_strong (in_u 64) n _) as Hloop end.
    apply (@codec_bind_inv _ _ _ _ _ Hloop) in H as (gens & b' & (Hgl & Hgw) & -> & Hb' & H); [|done].
    codec_inv H. injection H as <- <-. unfold kMaxCollectionEntries, in_u in *. zb. subst.
    assert (length gens = length x4) as Hlen by lia.
    split; [hnf; split_and!; cbn; (assumption || exact I)|].
    unfold enc_conflict. cbn [cg_id cg_device cg_kind cg_authority cg_members cg_generations
      cg_observed_first cg_observed_last]. unfold w_vec at 3. rewrite <- ?app_assoc. repeat f_equal.
    unfold u32. rewrite wrap_small by (unfold in_u; lia). lia.
Qed.

(** ** Requirements and requests *)

Definition limit_requirement_wf (v : LimitRequirement) : Prop :=
  limit_code_wf (lr_code v) /\ unit_wf (lr_unit v) /\ 0 <= lr_minimum v <= i64_max /\
  unit_valid_for_limit (lr_code v) (lr_unit v) = true.
#[export] Instance limit_requirement_codec :
  CanonicalCodec enc_limit_requirement dec_limit_requirement limit_requirement_wf.
Proof.
  split.
  - intros [c u v] rest (Hc & Hu & Hv & Hval). unfold enc_limit_requirement, dec_limit_requirement.
    cbn [lr_code lr_unit lr_minimum] in *. codec_norm. rewrite codec_bind by done. codec_norm.
    rewrite codec_bind by done. rewrite codec_bind by (unfold in_i64, i64_min, i64_max in *; lia).
    rewrite guard_bind by lia. destruct (limit_info_from_code c Hc) as [i Hi]. rewrite Hi.
    rewrite guard_bind by by eapply unit_valid_code. by rewrite guard_bind.
  - intros b v rest Hb H. unfold dec_limit_requirement in H.
    apply codec_bind_inv in H as (c & b1 & Hc & -> & Hb1 & H); [|done].
    apply codec_bind_inv in H as (u & b2 & Hu & -> & Hb2 & H); [|done].
    apply codec_bind_inv in H as (x & b3 & Hx & -> & Hb3 & H); [|done].
    apply guard_bind_inv in H as [Hg H]. destruct (limit_info c); [|done].
    apply guard_bind_inv in H as [Hg2 H]. apply guard_bind_inv in H as [Hg3 H]. injection H as <- <-.
    unfold in_i64 in Hx. split; [split_and!; [done|done|cbn; lia..|done]|].
    unfold enc_limit_requirement. by codec_norm.
Qed.

Definition requirement_wf (r : CapabilityRequirement) : Prop :=
  device_ref_wf (rq_device r) /\ any (rq_capability r) /\ semver_valid (vr_minimum (rq_version r)) /\
  opt_wf semver_valid (vr_maximum_exclusive (rq_version r)) /\
  features_wf (rq_required_features r) /\
  ordered_wf limit_requirement_wf lr_code kMaxLimitsPerRecord (rq_required_limits r) /\
  opt_wf semver_valid (rq_minimum_firmware_version r) /\
  opt_wf (in_u 64) (rq_minimum_firmware_generation r) /\
  opt_wf semver_valid (rq_minimum_runtime_version r) /\
  opt_wf (in_u 64) (rq_minimum_runtime_generation r) /\ in_u 64 (rq_max_evidence_age r) /\
  forallb (fun c => feature_allowed_for c (rq_capability r)) (rq_required_features r) = true /\
  forallb (fun v => limit_allowed_for (lr_code v) (rq_capability r)) (rq_required_limits r) = true.
#[export] Instance requirement_codec : Codec enc_requirement dec_requirement requirement_wf.
Proof.
  split; [|record_wf dec_requirement].
  intros x rest Hx. hnf in Hx. destruct_and? Hx. unfold enc_requirement, dec_requirement.
  repeat (rewrite <- ?app_assoc; first
    [ rewrite codec_bind by (first [exact I | assumption]) | rewrite guard_bind by assumption ]).
  by destruct x as [? ? []].
Qed.

Definition admission_wf (q : AdmissionRequest) : Prop :=
  device_ref_wf (aq_device q) /\ any (aq_kind q) /\ source_incarnation_wf (aq_source q) /\
  semver_valid (aq_capability_version q) /\ features_wf (aq_features q) /\
  limits_wf (aq_limits q) /\ opt_wf semver_valid (aq_firmware_version q) /\
  in_u 64 (aq_firmware_generation q) /\ opt_wf semver_valid (aq_runtime_version q) /\
  in_u 64 (aq_runtime_generation q) /\ in_u 64 (aq_observed_at q) /\
  opt_wf (in_u 64) (aq_valid_until q) /\ in_u 64 (aq_generation q) /\
  negb (is_unset (aq_generation q)) = true /\
  valid_window (aq_observed_at q) (aq_valid_until q) = true.
#[export] Instance admission_codec : Codec enc_admission dec_admission admission_wf.
Proof. split; [record_fwd enc_admission dec_admission|record_wf dec_admission]. Qed.

Definition retire_request_wf (q : RetirementRequest) : Prop :=
  device_ref_wf (rt_device q) /\ any (rt_kind q) /\ name_ok (rt_source q) /\
  in_u 64 (rt_generation q) /\ in_u 64 (rt_retired_at q) /\ any (rt_reason q) /\
  negb (is_unset (rt_generation q)) = true.
#[export] Instance retire_request_codec :
  CanonicalCodec enc_retire_request dec_retire_request retire_request_wf.
Proof. split; [record_fwd enc_retire_request dec_retire_request|record_inv enc_retire_request dec_retire_request]. Qed.

(** ** Policy and state *)

Definition source_policy_wf (s : SourcePolicy) : Prop :=
  name_ok (sp_id s) /\ any (sp_kind s) /\ any (sp_authority s) /\ any (sp_trust s) /\
  in_u 64 (sp_max_age s) /\ any (sp_durable_across_boot s).
#[export] Instance source_policy_codec :
  CanonicalCodec enc_source_policy dec_source_policy source_policy_wf.
Proof. split; [record_fwd enc_source_policy dec_source_policy|record_inv enc_source_policy dec_source_policy]. Qed.

#[export] Instance bound_codec : CanonicalCodec w_u64 read_bound (in_u 64).
Proof.
  destruct strong_codec as [H1 H2]. unfold w_strong, r_strong, read_bound in *.
  assert (forall v, in_u 64 v -> checked_narrow uint64_t uint64_t v = Some v) as Hn.
  { intros v Hv. unfold in_u in Hv. unfold uint64_t. rewrite checked_narrow_exact by lia.
    destruct (v <? 2 ^ 64) eqn:E; zb; [done|lia]. }
  split.
  - intros x rest Hx. rewrite codec_bind by done. by rewrite Hn.
  - intros b x rest Hb H. apply codec_bind_inv in H as (v & b' & Hv & -> & _ & H); [|done].
    rewrite Hn in H by done. by injection H as <- <-.
Qed.

Definition registry_limits_wf (l : RegistryLimits) : Prop :=
  in_u 64 (max_devices l) /\ in_u 64 (max_incarnations_per_device l) /\ in_u 64 (max_streams l) /\
  in_u 64 (max_records l) /\ in_u 64 (max_records_per_stream l) /\ in_u 64 (max_tombstones l) /\
  in_u 64 (max_conflict_groups l) /\ in_u 64 (max_resolutions l) /\
  in_u 64 (max_eviction_ledger l) /\ in_u 64 (max_sources l) /\ in_u 64 (max_decisions l) /\
  in_u 64 (max_features_per_record l) /\ in_u 64 (max_limits_per_record l) /\
  in_u 64 (max_limits_per_requirement l) /\ in_u 64 (max_required_features l).
#[export] Instance registry_limits_codec :
  CanonicalCodec enc_registry_limits dec_registry_limits registry_limits_wf.
Proof. split; [record_fwd enc_registry_limits dec_registry_limits|record_inv enc_registry_limits dec_registry_limits]. Qed.

Definition policy_wf (p : RegistryPolicy) : Prop :=
  vec_wf source_policy_wf kMaxCollectionEntries (rp_sources p) /\
  any (rp_require_configured_source p) /\ any (rp_refuse_untrusted_sources p) /\
  any (rp_boot_policy p) /\ any (rp_clock_mode p) /\ in_u 64 (rp_retention_horizon p) /\
  in_u 64 (rp_max_future_skew p) /\ in_u 64 (rp_default_max_age p) /\
  registry_limits_wf (rp_limits p) /\ in_u 64 (rp_rule_generation p) /\
  Z.of_nat (String.length (rp_policy_name p)) < 2 ^ 32 /\
  (String.length (rp_policy_name p) <=? 128)%nat = true.
#[export] Instance policy_codec : CanonicalCodec enc_policy dec_policy policy_wf.
Proof. split; [record_fwd enc_policy dec_policy|record_inv enc_policy dec_policy]. Qed.

Definition counters_wf (c : RegistryCounters) : Prop :=
  in_u 64 (c_admissions_accepted c) /\ in_u 64 (c_admissions_idempotent c) /\
  in_u 64 (c_admissions_rejected c) /\ in_u 64 (c_retirements_accepted c) /\
  in_u 64 (c_retirements_rejected c) /\ in_u 64 (c_decisions_emitted c) /\
  in_u 64 (c_decisions_evicted c) /\ in_u 64 (c_conflicts_resolved c) /\
  in_u 64 (c_evictions_total c) /\ in_u 64 (c_eviction_ledger_dropped c) /\
  in_u 64 (c_conflicts_dropped c) /\ in_u 64 (c_resolutions_dropped c) /\
  in_u 64 (c_tombstones_dropped c).
#[export] Instance counters_codec : CanonicalCodec enc_counters dec_counters counters_wf.
Proof. split; [record_fwd enc_counters dec_counters|record_inv enc_counters dec_counters]. Qed.

Definition incarnation_entry_wf (e : DeviceIncarnationEntry) : Prop :=
  device_identity_wf (ie_device e) /\ in_u 64 (ie_current e) /\
  vec_wf (in_u 64) kMaxCollectionEntries (ie_history e).
#[export] Instance incarnation_entry_codec :
  CanonicalCodec enc_incarnation_entry dec_incarnation_entry incarnation_entry_wf.
Proof. split; [record_fwd enc_incarnation_entry dec_incarnation_entry|record_inv enc_incarnation_entry dec_incarnation_entry]. Qed.

Definition state_wf (s : RegistryState) : Prop :=
  policy_wf (s_policy s) /\ in_u 64 (s_epoch s) /\ in_u 64 (s_rule_generation s) /\
  in_u 64 (s_policy_revision s) /\ in_u 64 (s_boot_epoch s) /\ in_u 64 (s_store_generation s) /\
  in_u 64 (s_logical_tick s) /\ in_u 64 (s_next_incarnation s) /\
  negb (s_next_incarnation s =? 0) = true /\
  vec_wf incarnation_entry_wf kMaxCollectionEntries (s_incarnations s) /\
  vec_wf stored_wf kMaxCollectionEntries (s_records s) /\
  vec_wf retirement_wf kMaxCollectionEntries (s_tombstones s) /\
  vec_wf conflict_wf kMaxCollectionEntries (s_conflicts s) /\
  vec_wf resolution_wf kMaxCollectionEntries (s_resolutions s) /\
  vec_wf eviction_wf kMaxCollectionEntries (s_evictions s) /\ counters_wf (s_counters s) /\
  (Z.of_nat (length (s_records s)) <=? max_records (rp_limits (s_policy s))) = true /\
  (Z.of_nat (length (s_tombstones s)) <=? max_tombstones (rp_limits (s_policy s))) = true /\
  strictly_increasing sp_id (rp_sources (s_policy s)) = true.

Lemma state_codec_spec : Codec enc_state dec_state state_wf.
Proof.
  split.
  - intros x rest Hx. hnf in Hx. destruct_and? Hx. unfold enc_state, dec_state, read_collection.
    codec_norm. rewrite codec_bind by (unfold in_u, kStoreFormatVersion; lia). rewrite guard_bind by done.
    repeat (rewrite <- ?app_assoc; first
      [ rewrite codec_bind by assumption | rewrite guard_bind by assumption ]).
    by destruct x.
  - intros ? ? ? ? H. unfold dec_state, read_collection in H. codec_wf H. injection H as <- <-.
    split; [|done]. wf_solve.
Qed.


(** For every type without a version in it, decoding accepts nothing but the
    canonical encoding: the bytes read are the encoding of the value returned.
    Stated for the state's policy, identities, retirements, conflict groups,
    resolutions and eviction entries. *)
Theorem canonical_encoding b rest :
  bytes b ->
  (forall x, dec_policy b = inr (x, rest) -> b = enc_policy x ++ rest) /\
  (forall x, dec_evidence_key b = inr (x, rest) -> b = enc_evidence_key x ++ rest) /\
  (forall x, dec_features b = inr (x, rest) -> b = enc_features x ++ rest) /\
  (forall x, dec_limits b = inr (x, rest) -> b = enc_limits x ++ rest) /\
  (forall x, dec_retirement b = inr (x, rest) -> b = enc_retirement x ++ rest) /\
  (forall x, dec_conflict b = inr (x, rest) -> b = enc_conflict x ++ rest) /\
  (forall x, dec_resolution b = inr (x, rest) -> b = enc_resolution x ++ rest) /\
  (forall x, dec_eviction b = inr (x, rest) -> b = enc_eviction x ++ rest).
Proof. intros Hb. split_and!; intros x H; apply canonical_enc_dec in H as [_ ?]; done. Qed.

Lemma canonical_encoding_witness :
  let b := enc_features [1; 3] in
  bytes b /\ dec_features b = inr ([1; 3], []) /\ b = enc_features [1; 3] ++ [].
Proof.
  intros b. assert (bytes b) as Hb by by apply bytes_check.
  split; [done|]. split; [by vm_compute|].
  destruct (canonical_encoding b [] Hb) as (_ & _ & H & _). apply H. by vm_compute.
Defined.

(** Versions are the exception: the decoder rebuilds a text from the two
    qualifiers and parses it, so a pre-release field holding a plus sign is
    accepted and read as another version; two different byte sequences decode
    to one value. *)
Lemma semver_decode_not_canonical :
  let b := enc_semver (mkSemVer 1 0 0 "a+b" "") in
  let v := mkSemVer 1 0 0 "a" "b" in
  dec_semver b = inr (v, []) /\ dec_semver (enc_semver v) = inr (v, []) /\ b <> enc_semver v.
Proof. split_and!; [by vm_compute..|]. intros H. by vm_compute in H. Qed.
