(* ===== verification/Compat.v ===== *)
(** * Compatibility comparison (src/compat.cpp)

    One requirement against one record of evidence: the reasons collected, in
    canonical order, and the verdict they give. *)

From Stdlib Require Import ZArith Lia Ascii String Sorted Permutation.
From stdpp Require Import base tactics list strings.
From S2P Require Import Prelude Checked Reason Text Units Name SemVer Hash Catalog Evidence.
From S2P Require Import State.

#[local] Open Scope Z_scope.
#[local] Open Scope list_scope.

(** The reasons [compare_limit] pushes. *)
Definition compare_limit (required : LimitRequirement) (e : CapabilityEvidence) : list ReasonCode :=
  match limit_find (ce_limits e) (lr_code required) with
  | None => [UnknownLimitNotReported]
  | Some reported =>
      if negb (bool_decide (dimension_of (unit_code (lv_unit reported)) =
                            dimension_of (unit_code (lr_unit required))))
      then [UnknownUnitMismatch]
      else match compare_exact (lv_value reported) (lv_unit reported)
                               (lr_minimum required) (lr_unit required) with
           | None => [UnknownInexactUnitConversion]
           | Some Lt => [IncompatibleLimitBelowRequirement]
           | Some _ => []
           end
  end.

(** An optional minimum version against an optional reported version. *)
Definition compare_version (minimum reported : option SemVer) (absent too_low : ReasonCode)
  : list ReasonCode :=
  match minimum with
  | None => []
  | Some m => match reported with
              | None => [absent]
              | Some v => match precedence_compare v m with Lt => [too_low] | _ => [] end
              end
  end.

(** An optional minimum generation against a reported one, zero when unset. *)
Definition compare_generation (minimum : option Z) (reported : Z) (absent too_low : ReasonCode)
  : list ReasonCode :=
  match minimum with
  | None => []
  | Some m => if is_unset reported then [absent] else if reported <? m then [too_low] else []
  end.

Definition requirement_reasons (r : CapabilityRequirement) (e : CapabilityEvidence)
  : list ReasonCode :=
  (if negb (satisfied_by (rq_version r) (ce_capability_version e))
   then [IncompatibleVersionTooLow] else []) ++
  concat (map (fun code => if negb (feature_contains (ce_features e) code)
                           then [IncompatibleFeatureAbsent] else []) (rq_required_features r)) ++
  concat (map (fun limit => compare_limit limit e) (rq_required_limits r)) ++
  compare_version (rq_minimum_firmware_version r) (ce_firmware_version e)
    UnknownFirmwareGenerationAbsent IncompatibleFirmwareGenerationTooLow ++
  compare_generation (rq_minimum_firmware_generation r) (ce_firmware_generation e)
    UnknownFirmwareGenerationAbsent IncompatibleFirmwareGenerationTooLow ++
  compare_version (rq_minimum_runtime_version r) (ce_runtime_version e)
    UnknownRuntimeGenerationAbsent IncompatibleRuntimeGenerationTooLow ++
  compare_generation (rq_minimum_runtime_generation r) (ce_runtime_generation e)
    UnknownRuntimeGenerationAbsent IncompatibleRuntimeGenerationTooLow.

Definition has_category (c : ReasonCategory) (l : list ReasonCode) : bool :=
  existsb (fun reason => bool_decide (category_of reason = c)) l.

(** The verdict and the canonical reasons. *)
Definition compare_requirement (r : CapabilityRequirement) (e : CapabilityEvidence)
  : DecisionKind * list ReasonCode :=
  let reasons := canonical_reasons (requirement_reasons r e) in
  if has_category Incompatible_ reasons then (DkIncompatible, reasons)
  else if has_category Unknown_ reasons then (DkUnknown, reasons)
  else (DkCompatible, reasons).

(** ** What the requirement asks for *)

(** A reported limit of the same dimension that compares exactly and is at
    least the minimum; or one that compares below it. *)
Definition limit_met (l : LimitRequirement) (e : CapabilityEvidence) : Prop :=
  exists v, limit_find (ce_limits e) (lr_code l) = Some v /\
    dimension_of (unit_code (lv_unit v)) = dimension_of (unit_code (lr_unit l)) /\
    exists o, compare_exact (lv_value v) (lv_unit v) (lr_minimum l) (lr_unit l) = Some o /\ o <> Lt.
Definition limit_violated (l : LimitRequirement) (e : CapabilityEvidence) : Prop :=
  exists v, limit_find (ce_limits e) (lr_code l) = Some v /\
    dimension_of (unit_code (lv_unit v)) = dimension_of (unit_code (lr_unit l)) /\
    compare_exact (lv_value v) (lv_unit v) (lr_minimum l) (lr_unit l) = Some Lt.

Definition version_met (minimum reported : option SemVer) : Prop :=
  forall m, minimum = Some m -> exists v, reported = Some v /\ precedence_compare v m <> Lt.
Definition version_violated (minimum reported : option SemVer) : Prop :=
  exists m v, minimum = Some m /\ reported = Some v /\ precedence_compare v m = Lt.

Definition generation_met (minimum : option Z) (reported : Z) : Prop :=
  forall m, minimum = Some m -> reported <> 0 /\ m <= reported.
Definition generation_violated (minimum : option Z) (reported : Z) : Prop :=
  exists m, minimum = Some m /\ reported <> 0 /\ reported < m.

Definition requirement_met (r : CapabilityRequirement) (e : CapabilityEvidence) : Prop :=
  satisfied_by (rq_version r) (ce_capability_version e) = true /\
  (forall c, c ∈ rq_required_features r -> feature_contains (ce_features e) c = true) /\
  (forall l, l ∈ rq_required_limits r -> limit_met l e) /\
  version_met (rq_minimum_firmware_version r) (ce_firmware_version e) /\
  generation_met (rq_minimum_firmware_generation r) (ce_firmware_generation e) /\
  version_met (rq_minimum_runtime_version r) (ce_runtime_version e) /\
  generation_met (rq_minimum_runtime_generation r) (ce_runtime_generation e).

Definition requirement_violated (r : CapabilityRequirement) (e : CapabilityEvidence) : Prop :=
  satisfied_by (rq_version r) (ce_capability_version e) = false \/
  (exists c, c ∈ rq_required_features r /\ feature_contains (ce_features e) c = false) \/
  (exists l, l ∈ rq_required_limits r /\ limit_violated l e) \/
  version_violated (rq_minimum_firmware_version r) (ce_firmware_version e) \/
  generation_violated (rq_minimum_firmware_generation r) (ce_firmware_generation e) \/
  version_violated (rq_minimum_runtime_version r) (ce_runtime_version e) \/
  generation_violated (rq_minimum_runtime_generation r) (ce_runtime_generation e).

(** ** Facts *)

(** A list of reasons that is empty exactly when a demand is met, holds an
    incompatibility exactly when it is contradicted, and nothing else but
    unknowns. *)
Record judges (l : list ReasonCode) (met violated : Prop) : Prop := {
  judges_met : l = [] <-> met;
  judges_violated : (exists x, x ∈ l /\ category_of x = Incompatible_) <-> violated;
  judges_closed : forall x, x ∈ l -> category_of x = Incompatible_ \/ category_of x = Unknown_ }.

Lemma judges_nil (met violated : Prop) : met -> ~ violated -> judges [] met violated.
Proof.
  intros Hm Hv. split; [tauto| |intros x Hx; by apply elem_of_nil in Hx].
  split; [intros (x & Hx & _); by apply elem_of_nil in Hx|tauto].
Qed.

Lemma judges_one x (met violated : Prop) :
  ~ met -> (category_of x = Incompatible_ /\ violated) \/ (category_of x = Unknown_ /\ ~ violated) ->
  judges [x] met violated.
Proof.
  intros Hm Hv. split; [split; [done|tauto]| |].
  - split.
    + intros (y & ->%list_elem_of_singleton & Hy). destruct Hv as [[_ ?]|[E _]]; [done|congruence].
    + intros Hviol. destruct Hv as [[E _]|[_ ?]]; [|tauto]. exists x. split; [constructor|done].
  - intros y ->%list_elem_of_singleton. tauto.
Qed.

Lemma judges_app l1 l2 m1 m2 v1 v2 :
  judges l1 m1 v1 -> judges l2 m2 v2 -> judges (l1 ++ l2) (m1 /\ m2) (v1 \/ v2).
Proof.
  intros [A1 B1 C1] [A2 B2 C2]. split.
  - rewrite <- A1, <- A2. split; [apply app_eq_nil|by intros [-> ->]].
  - rewrite <- B1, <- B2. setoid_rewrite elem_of_app. naive_solver.
  - intros x [?|?]%elem_of_app; auto.
Qed.

Lemma judges_concat {A} (f : A -> list ReasonCode) (m v : A -> Prop) l :
  (forall a, a ∈ l -> judges (f a) (m a) (v a)) ->
  judges (concat (map f l)) (forall a, a ∈ l -> m a) (exists a, a ∈ l /\ v a).
Proof.
  induction l as [|a l IH]; intros H.
  - apply judges_nil; [intros a Ha; by apply elem_of_nil in Ha|intros (a & Ha & _); by apply elem_of_nil in Ha].
  - cbn [map concat]. destruct (judges_app (f a) (concat (map f l)) _ _ _ _
      (H a ltac:(constructor)) (IH (fun b Hb => H b ltac:(by right)))) as [A1 B1 C1].
    split; [| |done].
    + rewrite A1. setoid_rewrite elem_of_cons. naive_solver.
    + rewrite B1. setoid_rewrite elem_of_cons. naive_solver.
Qed.

Lemma compare_limit_judges l e : judges (compare_limit l e) (limit_met l e) (limit_violated l e).
Proof.
  unfold compare_limit, limit_met, limit_violated. destruct (limit_find _ _) as [v|].
  2:{ apply judges_one; [by intros (v & ? & _)|right; split; [done|by intros (v & ? & _)]]. }
  case_bool_decide as Hd; cbn [negb].
  2:{ apply judges_one; [by intros (v' & [= <-] & ? & _)|].
      right. split; [done|by intros (v' & [= <-] & ? & _)]. }
  destruct (compare_exact _ _ _ _) as [[]|] eqn:E.
  - apply judges_nil; [exists v; eauto|intros (v' & [= <-] & _ & E'); congruence].
  - apply judges_one; [intros (v' & [= <-] & _ & o & E' & Ho); congruence|]. left. eauto.
  - apply judges_nil; [exists v; eauto|intros (v' & [= <-] & _ & E'); congruence].
  - apply judges_one; [intros (v' & [= <-] & _ & o & E' & Ho); congruence|].
    right. split; [done|]. intros (v' & [= <-] & _ & E'); congruence.
Qed.

Lemma compare_version_judges m v absent low :
  category_of absent = Unknown_ -> category_of low = Incompatible_ ->
  judges (compare_version m v absent low) (version_met m v) (version_violated m v).
Proof.
  intros Ha Hl. unfold compare_version, version_met, version_violated.
  destruct m as [m|]; [|apply judges_nil; [done|by intros (m & v' & ? & _)]].
  destruct v as [v|].
  2:{ apply judges_one; [intros H; by destruct (H m eq_refl) as (v & ? & _)|].
      right. split; [done|by intros (m' & v & _ & ? & _)]. }
  destruct (precedence_compare v m) eqn:E.
  - apply judges_nil; [|intros (m' & v' & [= <-] & [= <-] & E'); congruence].
    intros m' [= <-]. exists v. by rewrite E.
  - apply judges_one; [|left; eauto 6].
    intros H. destruct (H m eq_refl) as (v' & [= <-] & Hn). congruence.
  - apply judges_nil; [|intros (m' & v' & [= <-] & [= <-] & E'); congruence].
    intros m' [= <-]. exists v. by rewrite E.
Qed.

Lemma compare_generation_judges m g absent low :
  category_of absent = Unknown_ -> category_of low = Incompatible_ ->
  judges (compare_generation m g absent low) (generation_met m g) (generation_violated m g).
Proof.
  intros Ha Hl. unfold compare_generation, generation_met, generation_violated, is_unset.
  destruct m as [m|]; [|apply judges_nil; [done|by intros (m & ? & _)]].
  destruct (g =? 0) eqn:E0; zb.
  { apply judges_one; [intros H; by destruct (H m eq_refl)|].
    right. split; [done|by intros (m' & _ & ? & _)]. }
  destruct (g <? m) eqn:E; zb.
  - apply judges_one; [intros H; destruct (H m eq_refl); lia|left; split; [done|eauto]].
  - apply judges_nil; [intros m' [= <-]; lia|intros (m' & [= <-] & _ & ?); lia].
Qed.

Lemma requirement_reasons_judges r e :
  judges (requirement_reasons r e) (requirement_met r e) (requirement_violated r e).
Proof.
  unfold requirement_reasons, requirement_met, requirement_violated.
  repeat apply judges_app.
  - destruct (satisfied_by _ _); cbn [negb]; [by apply judges_nil|apply judges_one; [done|left; split; done]].
  - apply judges_concat. intros c _.
    destruct (feature_contains _ c); cbn [negb]; [by apply judges_nil|apply judges_one; [done|left; split; done]].
  - apply judges_concat. intros l _. apply compare_limit_judges.
  - by apply compare_version_judges.
  - by apply compare_generation_judges.
  - by apply compare_version_judges.
  - by apply compare_generation_judges.
Qed.

Lemma has_category_spec c l :
  has_category c (canonical_reasons l) = true <-> exists x, x ∈ l /\ category_of x = c.
Proof.
  unfold has_category. rewrite existsb_exists. split.
  - intros (x & Hx & E%bool_decide_eq_true). exists x. split; [|done].
    by apply canonical_reasons_elem, list_elem_of_In.
  - intros (x & Hx & E). exists x. split; [|by apply bool_decide_eq_true].
    by apply list_elem_of_In, canonical_reasons_elem.
Qed.

Lemma compare_requirement_spec r e :
  (fst (compare_requirement r e) = DkCompatible <-> requirement_met r e) /\
  (fst (compare_requirement r e) = DkIncompatible <-> requirement_violated r e) /\
  fst (compare_requirement r e) <> DkConflicted.
Proof.
  destruct (requirement_reasons_judges r e) as [Hm Hv Hc]. unfold compare_requirement.
  pose proof (has_category_spec Incompatible_ (requirement_reasons r e)) as HI.
  pose proof (has_category_spec Unknown_ (requirement_reasons r e)) as HU.
  rewrite Hv in HI.
  assert (requirement_reasons r e = [] <->
          ~ (exists x, x ∈ requirement_reasons r e /\ category_of x = Incompatible_) /\
          ~ (exists x, x ∈ requirement_reasons r e /\ category_of x = Unknown_)) as Hnil.
  { split.
    - intros ->. split; intros (x & Hx & _); by apply elem_of_nil in Hx.
    - intros [H1 H2]. destruct (requirement_reasons r e) as [|x l]; [done|].
      destruct (Hc x ltac:(constructor)); exfalso; [apply H1|apply H2]; exists x; (split; [constructor|done]). }
  rewrite Hm, Hv in Hnil.
  destruct (has_category Incompatible_ _).
  { pose proof (proj1 HI eq_refl). split_and!; [split; [discriminate|tauto]|tauto|discriminate]. }
  assert (~ requirement_violated r e) as Hnv by (intros H; apply HI in H; discriminate).
  destruct (has_category Unknown_ _); cbn [fst].
  - pose proof (proj1 HU eq_refl).
    split_and!; [split; [discriminate|tauto]|split; [discriminate|tauto]|discriminate].
  - assert (requirement_met r e) by (apply Hnil; split; [done|intros H; apply HU in H; discriminate]).
    split_and!; [tauto|split; [discriminate|tauto]|discriminate].
Qed.

(** C29: the verdict on a requirement is exactly what the evidence supports:
    compatible if and only if every demand is met, incompatible if and only if
    some demand is positively contradicted, and otherwise unknown; missing or
    incomparable evidence never counts for or against. *)
Theorem compare_requirement_verdict r e :
  (fst (compare_requirement r e) = DkCompatible <-> requirement_met r e) /\
  (fst (compare_requirement r e) = DkIncompatible <-> requirement_violated r e) /\
  (fst (compare_requirement r e) = DkUnknown <-> ~ requirement_met r e /\ ~ requirement_violated r e).
Proof.
  destruct (compare_requirement_spec r e) as (H1 & H2 & H3). split; [done|]. split; [done|].
  rewrite <- H1, <- H2. destruct (fst (compare_requirement r e)); split; try done; by intros [].
Qed.
