(* ===== verification/Registry.v ===== *)
(** * The registry engine: state and derivation (src/registry.cpp)

    The members of [Registry::Impl] as one record, its containers, the
    derivation of the effective state of every record, conflict bookkeeping,
    eviction, and the bounded stores of decisions, resolutions and tombstones.
    The lock is not part of the state: every public operation holds it from
    start to end, so operations are atomic steps on this record.

    A [std::map] is a list of pairs in key order (OrdMap); a reference into a
    container that the code updates in place is a lookup followed by a write
    back. *)

From Stdlib Require Import ZArith Lia Ascii String Sorted Permutation.
From stdpp Require Import base tactics list strings.
From S2P Require Import Prelude OrdMap Checked Reason Text Units Name SemVer Hash Catalog.
From S2P Require Import Evidence State Codec CodecTypes Compat.

#[local] Open Scope Z_scope.
#[local] Open Scope list_scope.

(** ** State *)

(** One source's view of one capability of one device incarnation; the records
    are ordered by (generation, id). *)
Record Stream := mkStream { stream_records : list StoredEvidence; stream_max_generation : Z }.

Record GroupState := mkGroup {
  gs_streams : list (SourceId * Stream);
  gs_tombstones : list (SourceId * RetirementRecord) }.

Notation KindMap := (list (CapabilityKind * GroupState)) (only parsing).
Notation Groups := (list (DeviceIncarnationRef * list (CapabilityKind * GroupState))) (only parsing).

Definition empty_stream : Stream := mkStream [] 0.
Definition empty_group : GroupState := mkGroup [] [].

Record Impl := mkImpl {
  i_policy : RegistryPolicy;
  i_epoch : Z;
  i_rule_generation : Z;
  i_policy_revision : Z;
  i_boot_epoch : Z;
  i_store_generation : Z;
  i_logical_tick : Tick;
  i_next_incarnation : Z;
  i_incarnations : list (DeviceIdentity * DeviceIncarnationEntry);
  i_groups : Groups;
  i_total_records : Z;
  i_conflicts : list ConflictGroup;
  i_resolutions : list ConflictResolution;
  i_evictions : list EvictionEntry;
  i_counters : RegistryCounters;
  i_decisions : list (DecisionId * CompatibilityDecision);
  i_decision_order : list DecisionId }.

Definition set_i_policy (v : RegistryPolicy) (x : Impl) : Impl :=
  mkImpl v (i_epoch x) (i_rule_generation x) (i_policy_revision x) (i_boot_epoch x)
    (i_store_generation x) (i_logical_tick x) (i_next_incarnation x) (i_incarnations x) (i_groups
    x) (i_total_records x) (i_conflicts x) (i_resolutions x) (i_evictions x) (i_counters x)
    (i_decisions x) (i_decision_order x).
Definition set_i_epoch (v : Z) (x : Impl) : Impl :=
  mkImpl (i_policy x) v (i_rule_generation x) (i_policy_revision x) (i_boot_epoch x)
    (i_store_generation x) (i_logical_tick x) (i_next_incarnation x) (i_incarnations x) (i_groups
    x) (i_total_records x) (i_conflicts x) (i_resolutions x) (i_evictions x) (i_counters x)
    (i_decisions x) (i_decision_order x).
Definition set_i_rule_generation (v : Z) (x : Impl) : Impl :=
  mkImpl (i_policy x) (i_epoch x) v (i_policy_revision x) (i_boot_epoch x) (i_store_generation
    x) (i_logical_tick x) (i_next_incarnation x) (i_incarnations x) (i_groups x) (i_total_records
    x) (i_conflicts x) (i_resolutions x) (i_evictions x) (i_counters x) (i_decisions x)
    (i_decision_order x).
Definition set_i_policy_revision (v : Z) (x : Impl) : Impl :=
  mkImpl (i_policy x) (i_epoch x) (i_rule_generation x) v (i_boot_epoch x) (i_store_generation
    x) (i_logical_tick x) (i_next_incarnation x) (i_incarnations x) (i_groups x) (i_total_records
    x) (i_conflicts x) (i_resolutions x) (i_evictions x) (i_counters x) (i_decisions x)
    (i_decision_order x).
Definition set_i_boot_epoch (v : Z) (x : Impl) : Impl :=
  mkImpl (i_policy x) (i_epoch x) (i_rule_generation x) (i_policy_revision x) v
    (i_store_generation x) (i_logical_tick x) (i_next_incarnation x) (i_incarnations x) (i_groups
    x) (i_total_records x) (i_conflicts x) (i_resolutions x) (i_evictions x) (i_counters x)
    (i_decisions x) (i_decision_order x).
Definition set_i_store_generation (v : Z) (x : Impl) : Impl :=
  mkImpl (i_policy x) (i_epoch x) (i_rule_generation x) (i_policy_revision x) (i_boot_epoch x) v
    (i_logical_tick x) (i_next_incarnation x) (i_incarnations x) (i_groups x) (i_total_records x)
    (i_conflicts x) (i_resolutions x) (i_evictions x) (i_counters x) (i_decisions x)
    (i_decision_order x).
Definition set_i_logical_tick (v : Tick) (x : Impl) : Impl :=
  mkImpl (i_policy x) (i_epoch x) (i_rule_generation x) (i_policy_revision x) (i_boot_epoch x)
    (i_store_generation x) v (i_next_incarnation x) (i_incarnations x) (i_groups x)
    (i_total_records x) (i_conflicts x) (i_resolutions x) (i_evictions x) (i_counters x)
    (i_decisions x) (i_decision_order x).
Definition set_i_next_incarnation (v : Z) (x : Impl) : Impl :=
  mkImpl (i_policy x) (i_epoch x) (i_rule_generation x) (i_policy_revision x) (i_boot_epoch x)
    (i_store_generation x) (i_logical_tick x) v (i_incarnations x) (i_groups x) (i_total_records
    x) (i_conflicts x) (i_resolutions x) (i_evictions x) (i_counters x) (i_decisions x)
    (i_decision_order x).
Definition set_i_incarnations (v : list (DeviceIdentity * DeviceIncarnationEntry)) (x : Impl) : Impl :=
  mkImpl (i_policy x) (i_epoch x) (i_rule_generation x) (i_policy_revision x) (i_boot_epoch x)
    (i_store_generation x) (i_logical_tick x) (i_next_incarnation x) v (i_groups x)
    (i_total_records x) (i_conflicts x) (i_resolutions x) (i_evictions x) (i_counters x)
    (i_decisions x) (i_decision_order x).
Definition set_i_groups (v : Groups) (x : Impl) : Impl :=
  mkImpl (i_policy x) (i_epoch x) (i_rule_generation x) (i_policy_revision x) (i_boot_epoch x)
    (i_store_generation x) (i_logical_tick x) (i_next_incarnation x) (i_incarnations x) v
    (i_total_records x) (i_conflicts x) (i_resolutions x) (i_evictions x) (i_counters x)
    (i_decisions x) (i_decision_order x).
Definition set_i_total_records (v : Z) (x : Impl) : Impl :=
  mkImpl (i_policy x) (i_epoch x) (i_rule_generation x) (i_policy_revision x) (i_boot_epoch x)
    (i_store_generation x) (i_logical_tick x) (i_next_incarnation x) (i_incarnations x) (i_groups
    x) v (i_conflicts x) (i_resolutions x) (i_evictions x) (i_counters x) (i_decisions x)
    (i_decision_order x).
Definition set_i_conflicts (v : list ConflictGroup) (x : Impl) : Impl :=
  mkImpl (i_policy x) (i_epoch x) (i_rule_generation x) (i_policy_revision x) (i_boot_epoch x)
    (i_store_generation x) (i_logical_tick x) (i_next_incarnation x) (i_incarnations x) (i_groups
    x) (i_total_records x) v (i_resolutions x) (i_evictions x) (i_counters x) (i_decisions x)
    (i_decision_order x).
Definition set_i_resolutions (v : list ConflictResolution) (x : Impl) : Impl :=
  mkImpl (i_policy x) (i_epoch x) (i_rule_generation x) (i_policy_revision x) (i_boot_epoch x)
    (i_store_generation x) (i_logical_tick x) (i_next_incarnation x) (i_incarnations x) (i_groups
    x) (i_total_records x) (i_conflicts x) v (i_evictions x) (i_counters x) (i_decisions x)
    (i_decision_order x).
Definition set_i_evictions (v : list EvictionEntry) (x : Impl) : Impl :=
  mkImpl (i_policy x) (i_epoch x) (i_rule_generation x) (i_policy_revision x) (i_boot_epoch x)
    (i_store_generation x) (i_logical_tick x) (i_next_incarnation x) (i_incarnations x) (i_groups
    x) (i_total_records x) (i_conflicts x) (i_resolutions x) v (i_counters x) (i_decisions x)
    (i_decision_order x).
Definition set_i_counters (v : RegistryCounters) (x : Impl) : Impl :=
  mkImpl (i_policy x) (i_epoch x) (i_rule_generation x) (i_policy_revision x) (i_boot_epoch x)
    (i_store_generation x) (i_logical_tick x) (i_next_incarnation x) (i_incarnations x) (i_groups
    x) (i_total_records x) (i_conflicts x) (i_resolutions x) (i_evictions x) v (i_decisions x)
    (i_decision_order x).
Definition set_i_decisions (v : list (DecisionId * CompatibilityDecision)) (x : Impl) : Impl :=
  mkImpl (i_policy x) (i_epoch x) (i_rule_generation x) (i_policy_revision x) (i_boot_epoch x)
    (i_store_generation x) (i_logical_tick x) (i_next_incarnation x) (i_incarnations x) (i_groups
    x) (i_total_records x) (i_conflicts x) (i_resolutions x) (i_evictions x) (i_counters x) v
    (i_decision_order x).
Definition set_i_decision_order (v : list DecisionId) (x : Impl) : Impl :=
  mkImpl (i_policy x) (i_epoch x) (i_rule_generation x) (i_policy_revision x) (i_boot_epoch x)
    (i_store_generation x) (i_logical_tick x) (i_next_incarnation x) (i_incarnations x) (i_groups
    x) (i_total_records x) (i_conflicts x) (i_resolutions x) (i_evictions x) (i_counters x)
    (i_decisions x) v.

Definition count (f : RegistryCounters -> RegistryCounters) (x : Impl) : Impl :=
  set_i_counters (f (i_counters x)) x.

(** ** Containers *)

Definition find_device (x : Impl) (device : DeviceIdentity) : option DeviceIncarnationEntry :=
  om_find device (i_incarnations x).

Definition lookup_group (g : Groups) (device : DeviceIncarnationRef) (kind : CapabilityKind)
  : option GroupState :=
  match om_find device g with None => None | Some kinds => om_find kind kinds end.

Definition find_group (x : Impl) (key : EvidenceKey) : option GroupState :=
  lookup_group (i_groups x) (ek_device key) (ek_kind key).

Definition lookup_stream (g : Groups) (key : EvidenceKey) : option Stream :=
  match lookup_group g (ek_device key) (ek_kind key) with
  | None => None
  | Some group => om_find (ek_source key) (gs_streams group)
  end.

Definition find_stream (x : Impl) (key : EvidenceKey) : option Stream := lookup_stream (i_groups x) key.

Definition find_tombstone (x : Impl) (key : EvidenceKey) : option RetirementRecord :=
  match find_group x key with
  | None => None
  | Some group => om_find (ek_source key) (gs_tombstones group)
  end.

(** [world.groups[device][kind] = group], creating what is missing. *)
Definition put_group (g : Groups) (device : DeviceIncarnationRef) (kind : CapabilityKind)
    (group : GroupState) : Groups :=
  let kinds := match om_find device g with Some kinds => kinds | None => [] end in
  om_set device (om_set kind group kinds) g.

(** [ensure_group]: the group, default-constructed when missing. *)
Definition group_or_empty (g : Groups) (device : DeviceIncarnationRef) (kind : CapabilityKind)
  : GroupState :=
  match lookup_group g device kind with Some group => group | None => empty_group end.

(** [ensure_group(key).streams[key.source] = stream]. *)
Definition put_stream (g : Groups) (key : EvidenceKey) (stream : Stream) : Groups :=
  let group := group_or_empty g (ek_device key) (ek_kind key) in
  put_group g (ek_device key) (ek_kind key)
    (mkGroup (om_set (ek_source key) stream (gs_streams group)) (gs_tombstones group)).

Definition put_tombstone (g : Groups) (key : EvidenceKey) (t : RetirementRecord) : Groups :=
  let group := group_or_empty g (ek_device key) (ek_kind key) in
  put_group g (ek_device key) (ek_kind key)
    (mkGroup (gs_streams group) (om_set (ek_source key) t (gs_tombstones group))).

Definition find_conflict (x : Impl) (device : DeviceIncarnationRef) (kind : CapabilityKind)
  : option ConflictGroup :=
  find (fun g => bool_decide (cg_device g = device) && bool_decide (cg_kind g = kind)) (i_conflicts x).

Definition find_resolution (x : Impl) (id : ConflictId) : option ConflictResolution :=
  find (fun r => bool_decide (cr_conflict r = id)) (i_resolutions x).

(** ** Freshness *)

Definition effective_max_age (policy : RegistryPolicy) (source : option SourcePolicy)
    (override_age : Tick) : Tick :=
  if negb (override_age =? 0) then override_age
  else match source with
       | None => rp_default_max_age policy
       | Some s => if negb (sp_max_age s =? 0) then sp_max_age s
                   else if bool_decide (sp_kind s = SkOperatorDeclaration) then 0
                   else rp_default_max_age policy
       end.

Definition observed_age (now observed_at : Tick) : Tick :=
  if now <=? observed_at then 0
  else match checked_sub uint64_t now observed_at with Some delta => delta | None => 0 end.

(** ** Validation of the asserted sets *)

Definition feature_set_valid (set : FeatureSet) (kind : CapabilityKind) : ReasonCode :=
  if Z.of_nat (length set) >? kMaxFeaturesPerRecord then RejectedFeatureBudgetExceeded
  else if negb (feature_order_ok set) then RejectedDuplicateKey
  else (fix loop (codes : list FeatureCode) : ReasonCode :=
          match codes with
          | [] => Ok_
          | code :: rest =>
              match feature_info code with
              | None => RejectedUnknownFeatureCode
              | Some _ => if negb (feature_allowed_for code kind) then RejectedFeatureNotInKind
                          else loop rest
              end
          end) set.

Definition limit_set_valid (set : LimitSet) (kind : CapabilityKind) : ReasonCode :=
  if Z.of_nat (length set) >? kMaxLimitsPerRecord then RejectedLimitBudgetExceeded
  else if negb (limit_order_ok set) then RejectedDuplicateKey
  else (fix loop (values : list LimitValue) : ReasonCode :=
          match values with
          | [] => Ok_
          | entry :: rest =>
              match limit_check kind entry with Ok_ => loop rest | reason => reason end
          end) set.

(** ** Ordering and disagreement of records *)

(** [generation_less], as the key it compares. *)
Definition record_key (s : StoredEvidence) : Z * EvidenceId := (stored_generation s, stored_id s).

Definition records_differ (lhs rhs : CapabilityEvidence) : bool :=
  negb (bool_decide (ce_capability_version lhs = ce_capability_version rhs) &&
        bool_decide (ce_features lhs = ce_features rhs) &&
        bool_decide (ce_limits lhs = ce_limits rhs) &&
        bool_decide (ce_firmware_version lhs = ce_firmware_version rhs) &&
        (ce_firmware_generation lhs =? ce_firmware_generation rhs) &&
        bool_decide (ce_runtime_version lhs = ce_runtime_version rhs) &&
        (ce_runtime_generation lhs =? ce_runtime_generation rhs)).

Definition compute_conflict_id (device : DeviceIncarnationRef) (kind : CapabilityKind)
    (members : list EvidenceId) : ConflictId :=
  digest_of (w_u16 kApiGeneration ++ enc_device_ref device ++ w_u16 (kind_num kind) ++
             w_vec w_digest members).

(** ** Derivation *)

(** The effective state of one record and its reason. *)
Definition classify (x : Impl) (record : StoredEvidence) (stream : Stream)
    (source : option SourcePolicy) (device : DeviceIncarnationRef) (now max_age_override : Tick)
  : EvidenceState * ReasonCode :=
  let e := se_evidence record in
  match se_lifecycle record with
  | LcRejected => (StRejected, se_admission_reason record)
  | LcRetired => (StRetired, se_retirement_reason record)
  | LcAdmitted =>
  if negb (stream_max_generation stream =? 0) && (ce_generation e <? stream_max_generation stream)
  then (StSuperseded, RejectedSupersededGeneration)
  else if match find_device x (dr_device device) with
          | None => true
          | Some entry => negb (ie_current entry =? dr_incarnation device)
          end
  then (StFenced, UnknownIncarnationNotCurrent)
  else match source with
  | None => (StFenced, UnknownSourceNotConfigured)
  | Some s =>
  if bool_decide (sp_trust s = Revoked) then (StFenced, IncompatibleSourceRevoked)
  else if bool_decide (sp_trust s = Untrusted) && rp_refuse_untrusted_sources (i_policy x)
  then (StFenced, RejectedSourceUntrusted)
  else if ce_boot_at_ingest e >? i_boot_epoch x then (StFenced, StoreBootReplay)
  else if (ce_boot_at_ingest e <? i_boot_epoch x) && negb (sp_durable_across_boot s) &&
          bool_decide (rp_boot_policy (i_policy x) = ConservativeFence)
  then (StFenced, UnknownFencedEvidence)
  else
  let bound := effective_max_age (i_policy x) source max_age_override in
  if negb (bound =? 0) && (observed_age now (ce_observed_at e) >? bound)
  then (StStale, UnknownStaleEvidence)
  else if match ce_valid_until e with Some t => now >? t | None => false end
  then (StStale, UnknownStaleEvidence)
  else (StActive, AcceptedNew)
  end end.

Record DerivedFact := mkFact {
  df_record : StoredEvidence; df_state : EvidenceState; df_reason : ReasonCode; df_age : Tick }.

Record Derivation := mkDerivation {
  dv_facts : list DerivedFact;
  dv_live : list StoredEvidence;
  dv_live_ids : list EvidenceId;
  dv_live_authority : AuthorityRank;
  dv_disagrees : bool;
  dv_conflict : option ConflictId }.

Definition empty_derivation : Derivation := mkDerivation [] [] [] ArNone false None.

Definition is_state (s : EvidenceState) (f : DerivedFact) : bool := bool_decide (df_state f = s).
Definition df_authority (f : DerivedFact) : AuthorityRank := ce_authority (se_evidence (df_record f)).
Definition df_id (f : DerivedFact) : EvidenceId := stored_id (df_record f).

Definition stream_facts (x : Impl) (device : DeviceIncarnationRef) (now max_age_override : Tick)
    (entry : SourceId * Stream) : list DerivedFact :=
  let '(source_id, stream) := entry in
  let source := find_source (i_policy x) source_id in
  map (fun record =>
         let '(state, reason) := classify x record stream source device now max_age_override in
         mkFact record state reason (observed_age now (ce_observed_at (se_evidence record))))
      (stream_records stream).

(** The highest authority of an active fact, from [AuthorityRank::None]. *)
Definition highest_authority (facts : list DerivedFact) : AuthorityRank :=
  fold_left (fun highest f => if is_state StActive f && clt highest (df_authority f)
                              then df_authority f else highest) facts ArNone.

Definition demote (highest : AuthorityRank) (f : DerivedFact) : DerivedFact :=
  if is_state StActive f && clt (df_authority f) highest
  then mkFact (df_record f) StOutranked ConflictOutranked (df_age f) else f.

Definition live_disagrees (live : list StoredEvidence) : bool :=
  match live with
  | [] => false
  | first :: rest => existsb (fun r => records_differ (se_evidence first) (se_evidence r)) rest
  end.

Definition derive (x : Impl) (device : DeviceIncarnationRef) (kind : CapabilityKind)
    (now max_age_override : Tick) : Derivation :=
  match lookup_group (i_groups x) device kind with
  | None => empty_derivation
  | Some group =>
      let facts := concat (map (stream_facts x device now max_age_override) (gs_streams group)) in
      let highest := highest_authority facts in
      let facts := map (demote highest) facts in
      let live := sort_by stored_id (map df_record (List.filter (is_state StActive) facts)) in
      let live_ids := map stored_id live in
      let disagrees := live_disagrees live in
      mkDerivation (sort_by df_id facts) live live_ids highest disagrees
        (if disagrees then Some (compute_conflict_id device kind live_ids) else None)
  end.

(** ** Conflict bookkeeping *)

Definition minimum_tick (l : list Tick) (from : Tick) : Tick :=
  fold_left (fun m t => if t <? m then t else m) l from.
Definition maximum_tick (l : list Tick) (from : Tick) : Tick :=
  fold_left (fun m t => if t >? m then t else m) l from.

Definition observed_ticks (l : list StoredEvidence) : list Tick :=
  map (fun r => ce_observed_at (se_evidence r)) l.

(** The group built from a disagreeing derivation. *)
Definition conflict_of (device : DeviceIncarnationRef) (kind : CapabilityKind) (d : Derivation)
  : ConflictGroup :=
  let first := match observed_ticks (dv_live d) with t :: _ => t | [] => 0 end in
  mkConflictGroup (match dv_conflict d with Some id => id | None => digest_zero end) device kind
    (dv_live_authority d) (sort_by (fun id => id) (map stored_id (dv_live d)))
    (map stored_generation (dv_live d))
    (minimum_tick (observed_ticks (dv_live d)) first) (maximum_tick (observed_ticks (dv_live d)) first).

Definition conflict_matches (device : DeviceIncarnationRef) (kind : CapabilityKind)
    (g : ConflictGroup) : bool :=
  bool_decide (cg_device g = device) && bool_decide (cg_kind g = kind).

(** Erase or replace the first element that satisfies a test. *)
Fixpoint erase_first {A} (p : A -> bool) (l : list A) : list A :=
  match l with [] => [] | a :: l' => if p a then l' else a :: erase_first p l' end.
Fixpoint replace_first {A} (p : A -> bool) (v : A) (l : list A) : list A :=
  match l with [] => [] | a :: l' => if p a then v :: l' else a :: replace_first p v l' end.

Definition refresh_conflict (device : DeviceIncarnationRef) (kind : CapabilityKind) (now : Tick)
    (x : Impl) : Impl :=
  let d := derive x device kind now 0 in
  let matching := conflict_matches device kind in
  if negb (dv_disagrees d) then set_i_conflicts (erase_first matching (i_conflicts x)) x
  else
    let group := conflict_of device kind d in
    match find_conflict x device kind with
    | Some existing =>
        let replaced := replace_first matching group (i_conflicts x) in
        set_i_conflicts (if bool_decide (cg_id existing = cg_id group) then replaced
                         else sort_by cg_id replaced) x
    | None =>
        if Z.of_nat (length (i_conflicts x)) >=? max_conflict_groups (rp_limits (i_policy x))
        then count inc_c_conflicts_dropped x
        else set_i_conflicts (sort_by cg_id (i_conflicts x ++ [group])) x
    end.

(** The keys of [group_keys], with the kinds of each. *)
Definition group_pairs (g : Groups) : list (DeviceIncarnationRef * CapabilityKind) :=
  concat (map (fun '(device, kinds) => map (fun '(kind, _) => (device, kind)) kinds) g).

Definition refresh_all_conflicts (now : Tick) (x : Impl) : Impl :=
  fold_left (fun y '(device, kind) => refresh_conflict device kind now y)
            (group_pairs (i_groups x)) (set_i_conflicts [] x).

(** ** Eviction *)

Definition eviction_priority (x : Impl) (key : EvidenceKey) (stream : Stream)
    (record : StoredEvidence) (now : Tick) : Z :=
  let e := se_evidence record in
  match se_lifecycle record with
  | LcRejected => 0
  | LcRetired => 4
  | LcAdmitted =>
  if negb (stream_max_generation stream =? 0) && (ce_generation e <? stream_max_generation stream)
  then 1
  else if match find_device x (dr_device (ek_device key)) with
          | None => true
          | Some entry => negb (ie_current entry =? dr_incarnation (ek_device key))
          end then 2
  else match find_source (i_policy x) (ek_source key) with
  | None => 2
  | Some s =>
  if bool_decide (sp_trust s = Revoked) then 2
  else if bool_decide (sp_trust s = Untrusted) && rp_refuse_untrusted_sources (i_policy x) then 2
  else if ce_boot_at_ingest e >? i_boot_epoch x then 2
  else if (ce_boot_at_ingest e <? i_boot_epoch x) && negb (sp_durable_across_boot s) &&
          bool_decide (rp_boot_policy (i_policy x) = ConservativeFence) then 2
  else
  let bound := effective_max_age (i_policy x) (Some s) 0 in
  if negb (bound =? 0) && (observed_age now (ce_observed_at e) >? bound) then 3
  else if match ce_valid_until e with Some t => now >? t | None => false end then 3
  else 5
  end end.

Record EvictionCandidate := mkCandidate {
  ec_key : EvidenceKey; ec_id : EvidenceId; ec_priority : Z; ec_observed_at : Tick }.

(** Every record of the world with its key and stream, in map order. *)
Definition all_records (g : Groups) : list (EvidenceKey * Stream * StoredEvidence) :=
  concat (map (fun '(device, kinds) =>
    concat (map (fun '(kind, group) =>
      concat (map (fun '(source_id, stream) =>
        map (fun record => (mkEvidenceKey device kind source_id, stream, record))
            (stream_records stream)) (gs_streams group))) kinds)) g).

Definition evictable (x : Impl) (now : Tick) (key : EvidenceKey) (priority : Z)
    (record : StoredEvidence) : bool :=
  if priority =? 5 then
    match find (fun f => bool_decide (df_id f = stored_id record))
               (dv_facts (derive x (ek_device key) (ek_kind key) now 0)) with
    | Some fact => is_state StOutranked fact
    | None => false
    end
  else priority <=? 4.

Definition better (out : option EvictionCandidate) (priority : Z) (record : StoredEvidence) : bool :=
  match out with
  | None => true
  | Some c =>
      let observed_at := ce_observed_at (se_evidence record) in
      (priority <? ec_priority c) ||
      ((priority =? ec_priority c) && (observed_at <? ec_observed_at c)) ||
      ((priority =? ec_priority c) && (observed_at =? ec_observed_at c) &&
       clt (stored_id record) (ec_id c))
  end.

(** One record of the scan. *)
Definition pick_step (x : Impl) (restrict_key : option EvidenceKey) (forbidden : EvidenceId)
    (now : Tick) (out : option EvictionCandidate) (entry : EvidenceKey * Stream * StoredEvidence)
  : option EvictionCandidate :=
  let '(key, stream, record) := entry in
  if match restrict_key with Some k => negb (bool_decide (key = k)) | None => false end then out
  else if bool_decide (stored_id record = forbidden) then out
  else
    let priority := eviction_priority x key stream record now in
    if negb (evictable x now key priority record) then out
    else if better out priority record
    then Some (mkCandidate key (stored_id record) priority (ce_observed_at (se_evidence record)))
    else out.

Definition pick_eviction_candidate (x : Impl) (restrict_key : option EvidenceKey)
    (forbidden : EvidenceId) (now : Tick) : option EvictionCandidate :=
  fold_left (pick_step x restrict_key forbidden now) (all_records (i_groups x)) None.

Definition has_id (id : EvidenceId) (r : StoredEvidence) : bool := bool_decide (stored_id r = id).

(** The recomputation of [max_generation] from the remaining records. *)
Definition highest_generation (records : list StoredEvidence) : Z :=
  fold_left (fun highest r => if stored_generation r >? highest then stored_generation r else highest)
            records 0.

Definition eviction_state (stream : Stream) (r : StoredEvidence) : EvidenceState :=
  match se_lifecycle r with
  | LcRetired => StRetired
  | LcRejected => StRejected
  | LcAdmitted => if stored_generation r <? stream_max_generation stream then StSuperseded
                  else StOutranked
  end.

Definition eviction_reason (s : EvidenceState) : ReasonCode :=
  match s with
  | StRetired => EvictedRetired
  | StSuperseded => EvictedSuperseded
  | _ => EvictedBudgetPressure
  end.

(** The eviction ledger, a bounded queue. *)
Definition push_eviction (entry : EvictionEntry) (x : Impl) : Impl :=
  let x := count inc_c_evictions_total x in
  let x := if Z.of_nat (length (i_evictions x)) >=? max_eviction_ledger (rp_limits (i_policy x))
           then count inc_c_eviction_ledger_dropped (set_i_evictions (tail (i_evictions x)) x)
           else x in
  set_i_evictions (i_evictions x ++ [entry]) x.

(** Removes the record with the identifier from the stream of the key. *)
Definition drop_record (key : EvidenceKey) (id : EvidenceId) (stream : Stream) (x : Impl) : Impl :=
  let records := erase_first (has_id id) (stream_records stream) in
  let x := set_i_groups (put_stream (i_groups x) key (mkStream records (highest_generation records))) x in
  if i_total_records x >? 0 then set_i_total_records (i_total_records x - 1) x else x.

(** The state and the identifier evicted, or [None] when the record is gone. *)
Definition apply_eviction (c : EvictionCandidate) (now : Tick) (x : Impl)
  : option (Impl * EvidenceId) :=
  match find_stream x (ec_key c) with
  | None => None
  | Some stream =>
      match find (has_id (ec_id c)) (stream_records stream) with
      | None => None
      | Some record =>
          let state := eviction_state stream record in
          let entry := mkEviction (stored_id record) (ec_key c) (stored_generation record) state
                         (eviction_reason state) now in
          Some (drop_record (ec_key c) (ec_id c) stream (push_eviction entry x), stored_id record)
      end
  end.

(** Number of records held. *)
Definition world_records (g : Groups) : nat := length (all_records g).

(** [while (total_records > max_records)]. *)
Fixpoint enforce_global (fuel : nat) (keep_id : EvidenceId) (now : Tick) (x : Impl)
    (evicted : list EvidenceId) : bool * Impl * list EvidenceId :=
  if negb (i_total_records x >? max_records (rp_limits (i_policy x))) then (true, x, evicted)
  else match fuel with
       | O => (false, x, evicted)
       | S f =>
           match pick_eviction_candidate x None keep_id now with
           | None => (false, x, evicted)
           | Some c => match apply_eviction c now x with
                       | None => (false, x, evicted)
                       | Some (x', id) => enforce_global f keep_id now x' (evicted ++ [id])
                       end
           end
       end.

(** [while (true)] on the stream of the incoming record. *)
Fixpoint enforce_stream (fuel : nat) (keep_key : EvidenceKey) (keep_id : EvidenceId) (now : Tick)
    (x : Impl) (evicted : list EvidenceId) : bool * Impl * list EvidenceId :=
  match find_stream x keep_key with
  | None => (true, x, evicted)
  | Some stream =>
      if Z.of_nat (length (stream_records stream)) <=? max_records_per_stream (rp_limits (i_policy x))
      then (true, x, evicted)
      else match fuel with
           | O => (false, x, evicted)
           | S f =>
               match pick_eviction_candidate x (Some keep_key) keep_id now with
               | None => (false, x, evicted)
               | Some c => match apply_eviction c now x with
                           | None => (false, x, evicted)
                           | Some (x', id) =>
                               enforce_stream f keep_key keep_id now x' (evicted ++ [id])
                           end
               end
           end
  end.

(** One more iteration than there are records is enough: every iteration
    removes one. *)
Definition budget_fuel (x : Impl) : nat := S (world_records (i_groups x)).

Definition enforce_budget (keep_key : EvidenceKey) (keep_id : EvidenceId) (now : Tick) (x : Impl)
  : bool * Impl * list EvidenceId :=
  match enforce_global (budget_fuel x) keep_id now x [] with
  | (false, x', evicted) => (false, x', evicted)
  | (true, x', evicted) => enforce_stream (budget_fuel x') keep_key keep_id now x' evicted
  end.

(** ** Bounded stores *)

(** [while (decisions.size() >= max_decisions && !decision_order.empty())]. *)
Fixpoint trim_decisions (order : list DecisionId) (x : Impl) : Impl :=
  match order with
  | [] => set_i_decision_order [] x
  | oldest :: rest =>
      if Z.of_nat (length (i_decisions x)) >=? max_decisions (rp_limits (i_policy x)) then
        let erased := match om_find oldest (i_decisions x) with Some _ => true | None => false end in
        let x := set_i_decisions (om_erase oldest (i_decisions x)) x in
        trim_decisions rest (if erased then count inc_c_decisions_evicted x else x)
      else set_i_decision_order order x
  end.

Definition push_decision (d : CompatibilityDecision) (x : Impl) : Impl :=
  match om_find (cd_id d) (i_decisions x) with
  | Some _ => set_i_decisions (om_set (cd_id d) d (i_decisions x)) x
  | None =>
      let x := trim_decisions (i_decision_order x) x in
      set_i_decision_order (i_decision_order x ++ [cd_id d])
        (set_i_decisions (om_set (cd_id d) d (i_decisions x)) x)
  end.

Definition push_resolution (r : ConflictResolution) (x : Impl) : Impl :=
  let same := fun e => bool_decide (cr_id e = cr_id r) in
  if existsb same (i_resolutions x) then
    set_i_resolutions (replace_first same r (i_resolutions x)) x
  else
    let x := if Z.of_nat (length (i_resolutions x)) >=? max_resolutions (rp_limits (i_policy x))
             then count inc_c_resolutions_dropped (set_i_resolutions (tail (i_resolutions x)) x)
             else x in
    set_i_resolutions (sort_by cr_id (i_resolutions x ++ [r])) x.

(** Every tombstone, in map order, under the device, kind and source it is
    filed under. *)
Definition all_tombstones (g : Groups) : list (EvidenceKey * RetirementRecord) :=
  concat (map (fun '(device, kinds) =>
    concat (map (fun '(kind, group) =>
      map (fun '(source_id, t) => (mkEvidenceKey device kind source_id, t)) (gs_tombstones group))
      kinds)) g).

(** The first tombstone with the least [retired_at]. *)
Definition oldest_tombstone (l : list (EvidenceKey * RetirementRecord))
  : option (EvidenceKey * RetirementRecord) :=
  fold_left (fun out e => match out with
                          | None => Some e
                          | Some o => if rr_retired_at (snd e) <? rr_retired_at (snd o) then Some e else out
                          end) l None.

Definition erase_tombstone (g : Groups) (key : EvidenceKey) : Groups :=
  let group := group_or_empty g (ek_device key) (ek_kind key) in
  put_group g (ek_device key) (ek_kind key)
    (mkGroup (gs_streams group) (om_erase (ek_source key) (gs_tombstones group))).

(** The slot a missing tombstone is default-constructed into has generation 0
    and an empty source. *)
Definition push_tombstone (t : RetirementRecord) (x : Impl) : Impl :=
  let key := rr_key t in
  let keep := match find_tombstone x key with
              | Some slot => (rr_generation slot >=? rr_generation t) &&
                             negb (String.eqb (ek_source (rr_key slot)) EmptyString)
              | None => false
              end in
  if keep then x
  else
    let g := put_tombstone (i_groups x) key t in
    let x := set_i_groups g x in
    if Z.of_nat (length (all_tombstones g)) >? max_tombstones (rp_limits (i_policy x)) then
      match oldest_tombstone (all_tombstones g) with
      | Some (oldest, _) =>
          if negb (bool_decide (oldest = key))
          then count inc_c_tombstones_dropped (set_i_groups (erase_tombstone g oldest) x)
          else x
      | None => x
      end
    else x.

(** ** Enumeration, restoration and snapshot *)

Definition flatten_records (x : Impl) : list StoredEvidence := map snd (all_records (i_groups x)).

Definition flatten_tombstones (x : Impl) : list RetirementRecord :=
  sort_by (fun t => (rr_key t, rr_generation t)) (map snd (all_tombstones (i_groups x))).

Definition count_streams (x : Impl) : Z :=
  Z.of_nat (om_total (om_total (fun group => length (gs_streams group))) (i_groups x)).

(** One record of the loop of [adopt]: appended to its stream. *)
Definition adopt_record (g : Groups) (record : StoredEvidence) : Groups :=
  let key := ce_key (se_evidence record) in
  let stream := match lookup_stream g key with Some s => s | None => empty_stream end in
  put_stream g key (mkStream (stream_records stream ++ [record])
    (if stored_generation record >? stream_max_generation stream then stored_generation record
     else stream_max_generation stream)).

(** [std::sort(stream.records, generation_less)] in every stream. *)
Definition sort_streams (g : Groups) : Groups :=
  map (fun '(device, kinds) => (device, map (fun '(kind, group) => (kind,
    mkGroup (map (fun '(source_id, stream) => (source_id,
               mkStream (sort_by record_key (stream_records stream)) (stream_max_generation stream)))
               (gs_streams group)) (gs_tombstones group))) kinds)) g.

Definition adopt_tombstone (g : Groups) (t : RetirementRecord) : Groups :=
  put_tombstone g (rr_key t) t.

Definition adopt (s : RegistryState) : Impl :=
  mkImpl (sort_sources (s_policy s)) (s_epoch s) (s_rule_generation s) (s_policy_revision s)
    (s_boot_epoch s) (s_store_generation s) (s_logical_tick s)
    (if s_next_incarnation s =? 0 then 1 else s_next_incarnation s)
    (fold_left (fun m entry => om_set (ie_device entry) entry m) (s_incarnations s) [])
    (fold_left adopt_tombstone (s_tombstones s)
       (sort_streams (fold_left adopt_record (s_records s) [])))
    (Z.of_nat (length (s_records s))) (sort_by cg_id (s_conflicts s))
    (sort_by cr_id (s_resolutions s)) (s_evictions s) (s_counters s) [] [].

Definition to_state (x : Impl) : RegistryState :=
  mkState (i_policy x) (i_epoch x) (i_rule_generation x) (i_policy_revision x) (i_boot_epoch x)
    (i_store_generation x) (i_logical_tick x) (i_next_incarnation x)
    (map snd (i_incarnations x)) (flatten_records x) (flatten_tombstones x) (i_conflicts x)
    (i_resolutions x) (i_evictions x) (i_counters x).

Definition bump_policy_revision (x : Impl) : Impl :=
  set_i_epoch (u64 (i_epoch x + 1)) (set_i_policy_revision (u64 (i_policy_revision x + 1)) x).

(** ** Construction *)

Definition registry_create (policy : RegistryPolicy) : Impl :=
  mkImpl (sort_sources policy) 1 (rp_rule_generation policy) 1 1 0 0 1 [] [] 0 [] [] []
    zero_counters [] [].

Definition registry_restore (policy : RegistryPolicy) (restored : RegistryState) : Impl :=
  set_i_rule_generation (rp_rule_generation policy)
    (set_i_policy (sort_sources policy) (adopt restored)).
