(* ===== verification/RegistryOps.v ===== *)
(** * The registry engine: operations (src/registry.cpp)

    The public operations of [Registry], each a function from the state to its
    result and the next state.  A mutation takes the exclusive lock for its
    whole body and a query the shared one, so every operation is one atomic
    step. *)

From Stdlib Require Import ZArith Lia Ascii String Sorted Permutation.
From stdpp Require Import base tactics list strings.
From S2P Require Import Prelude OrdMap Checked Reason Text Units Name SemVer Hash Catalog.
From S2P Require Import Evidence State Codec CodecTypes Compat Registry.

#[local] Open Scope string_scope.
#[local] Open Scope Z_scope.
#[local] Open Scope list_scope.

(** ** Admission *)

Definition admit_reject (reason : ReasonCode) (detail : string) (x : Impl)
  : Outcome AdmissionOutcome * Impl :=
  (outcome_failure reason detail, count inc_c_admissions_rejected x).

(** The checks before the device table is touched: the reason and the detail
    of the first that fails. *)
Definition admit_guard (q : AdmissionRequest) (now : Tick) (x : Impl)
  : option (ReasonCode * string) :=
  let policy := i_policy x in
  if is_unset (aq_generation q)
  then Some (RejectedGenerationRegression, "stream generation must be non-zero")
  else if match aq_valid_until q with Some t => t <? aq_observed_at q | None => false end
  then Some (RejectedValidityWindowInverted, "valid_until precedes observed_at")
  else if (aq_observed_at q >? now) && (aq_observed_at q - now >? rp_max_future_skew policy)
  then Some (RejectedFutureObservation, "observation is ahead of the logical clock")
  else if negb (rp_retention_horizon policy =? 0) && negb (now =? 0) &&
          (observed_age now (aq_observed_at q) >? rp_retention_horizon policy)
  then Some (RejectedBeyondRetentionHorizon, "observation is outside the retention horizon")
  else
  match find_source policy (si_source (aq_source q)) with
  | None => if rp_require_configured_source policy
            then Some (RejectedUnknownSource, "source has no policy entry") else None
  | Some s =>
      if bool_decide (sp_trust s = Revoked) then Some (RejectedSourceRevoked, "source is revoked")
      else if bool_decide (sp_trust s = Untrusted) && rp_refuse_untrusted_sources policy
      then Some (RejectedSourceUntrusted, "source is untrusted")
      else None
  end.

(** The width and content checks of the asserted sets. *)
Definition admit_content (q : AdmissionRequest) (x : Impl) : option (ReasonCode * string) :=
  let limits := rp_limits (i_policy x) in
  if (Z.of_nat (length (aq_features q)) >? max_features_per_record limits) ||
     (Z.of_nat (length (aq_limits q)) >? max_limits_per_record limits)
  then Some (RejectedFeatureBudgetExceeded, "record exceeds the configured width bound")
  else match feature_set_valid (aq_features q) (aq_kind q) with
       | Ok_ => match limit_set_valid (aq_limits q) (aq_kind q) with
                | Ok_ => None
                | reason => Some (reason, "limit set rejected")
                end
       | reason => Some (reason, "feature set rejected")
       end.

(** [if (next_incarnation <= n) next_incarnation = n + 1]. *)
Definition raise_next_incarnation (n : Z) (x : Impl) : Impl :=
  if i_next_incarnation x <=? n then set_i_next_incarnation (u64 (n + 1)) x else x.

Definition set_device (entry : DeviceIncarnationEntry) (x : Impl) : Impl :=
  set_i_incarnations (om_set (ie_device entry) entry (i_incarnations x)) x.

(** [std::find(history, n) != end]. *)
Definition in_history (n : Z) (history : list Z) : bool := existsb (Z.eqb n) history.

(** [history.push_back(n)] and [std::sort]. *)
Definition push_history (n : Z) (history : list Z) : list Z := sort_by (fun v => v) (history ++ [n]).

(** The device of an admission is registered with its incarnation; a known
    device learns the incarnation without making it current. *)
Definition register_device (device : DeviceIncarnationRef) (x : Impl) : string + Impl :=
  let limits := rp_limits (i_policy x) in
  let inc := dr_incarnation device in
  match find_device x (dr_device device) with
  | None =>
      if Z.of_nat (length (i_incarnations x)) >=? max_devices limits
      then inl "device bound reached"
      else inr (raise_next_incarnation inc
                  (set_device (mkIncarnationEntry (dr_device device) inc [inc]) x))
  | Some entry =>
      if in_history inc (ie_history entry) then inr (raise_next_incarnation inc x)
      else if Z.of_nat (length (ie_history entry)) >=? max_incarnations_per_device limits
      then inl "incarnation bound reached"
      else inr (raise_next_incarnation inc
                  (set_i_incarnations
                     (om_set (dr_device device)
                        (mkIncarnationEntry (ie_device entry) (ie_current entry)
                           (push_history inc (ie_history entry))) (i_incarnations x)) x))
  end.

Definition admission_key (q : AdmissionRequest) : EvidenceKey :=
  mkEvidenceKey (aq_device q) (aq_kind q) (si_source (aq_source q)).

(** The record of the request under the current epochs and policy revision,
    with its identifier. *)
Definition admission_evidence (q : AdmissionRequest) (x : Impl) : CapabilityEvidence :=
  let authority := match find_source (i_policy x) (si_source (aq_source q)) with
                   | None => ArNone
                   | Some s => sp_authority s
                   end in
  refresh_id (mkEvidence (admission_key q) (aq_source q) (aq_capability_version q) (aq_features q)
    (aq_limits q) (aq_firmware_version q) (aq_firmware_generation q) (aq_runtime_version q)
    (aq_runtime_generation q) (aq_observed_at q) (aq_valid_until q) (aq_generation q) authority
    (i_epoch x) (i_boot_epoch x) (i_policy_revision x) digest_zero).

(** The state of the fact with the identifier: the last one of the loop. *)
Definition state_of (id : EvidenceId) (d : Derivation) : EvidenceState :=
  fold_left (fun s f => if bool_decide (df_id f = id) then df_state f else s) (dv_facts d) StRejected.

(** [ensure_group(key).streams[key.source]], created when missing. *)
Definition ensure_stream (key : EvidenceKey) (x : Impl) : Stream * Impl :=
  match find_stream x key with
  | Some stream => (stream, x)
  | None => (empty_stream, set_i_groups (put_stream (i_groups x) key empty_stream) x)
  end.

Definition set_stream (key : EvidenceKey) (stream : Stream) (x : Impl) : Impl :=
  set_i_groups (put_stream (i_groups x) key stream) x.

Definition admit_duplicate (key : EvidenceKey) (incoming : EvidenceId) (stream : Stream) (now : Tick)
    (x : Impl) : Outcome AdmissionOutcome * Impl :=
  let x := count inc_c_admissions_idempotent x in
  (outcome_value
     (mkAdmissionOutcome incoming (state_of incoming (derive x (ek_device key) (ek_kind key) now 0))
        AlreadyPresent true [] [] None (stream_max_generation stream) 0), x).

(** A generation that does not advance the stream: counted, and retained as
    rejected evidence when the bounds allow. *)
Definition admit_refused (key : EvidenceKey) (e : CapabilityEvidence) (stream : Stream)
    (reason : ReasonCode) (now : Tick) (x : Impl) : Outcome AdmissionOutcome * Impl :=
  let limits := rp_limits (i_policy x) in
  let x := count inc_c_admissions_rejected x in
  let rejected := mkStored e LcRejected reason now None Ok_ in
  let x :=
    if (Z.of_nat (length (stream_records stream)) <? max_records_per_stream limits) &&
       (i_total_records x <? max_records limits)
    then refresh_conflict (ek_device key) (ek_kind key) now
           (set_i_total_records (i_total_records x + 1)
              (set_stream key (mkStream (insert_by record_key rejected (stream_records stream))
                                 (stream_max_generation stream)) x))
    else x in
  (outcome_value
     (mkAdmissionOutcome (evidence_id e) StRejected reason false [] [] None
        (stream_max_generation stream) 0), x).

(** An empty group leaves its kind map, and an empty kind map the world. *)
Definition prune_group (g : Groups) (device : DeviceIncarnationRef) (kind : CapabilityKind) : Groups :=
  match om_find device g with
  | None => g
  | Some kinds =>
      match om_erase kind kinds with
      | [] => om_erase device g
      | kinds' => om_set device kinds' g
      end
  end.

(** The rollback of an admission whose budget cannot be met: the incoming
    record leaves its stream, and containers that are left empty go. *)
Definition admit_rollback (key : EvidenceKey) (incoming : EvidenceId) (x : Impl) : Impl :=
  match find_group x key with
  | None => x
  | Some group =>
      let stream := match om_find (ek_source key) (gs_streams group) with
                    | Some s => s | None => empty_stream end in
      let found := existsb (has_id incoming) (stream_records stream) in
      let records := erase_first (has_id incoming) (stream_records stream) in
      let x := if found && (i_total_records x >? 0)
               then set_i_total_records (i_total_records x - 1) x else x in
      let streams := om_set (ek_source key) (mkStream records (highest_generation records))
                       (gs_streams group) in
      let streams := match records with [] => om_erase (ek_source key) streams | _ => streams end in
      let g := put_group (i_groups x) (ek_device key) (ek_kind key)
                 (mkGroup streams (gs_tombstones group)) in
      let g := match streams, gs_tombstones group with
               | [], [] => prune_group g (ek_device key) (ek_kind key)
               | _, _ => g
               end in
      set_i_groups g x
  end.

(** A generation that advances the stream. *)
Definition admit_accept (key : EvidenceKey) (e : CapabilityEvidence) (stream : Stream) (now : Tick)
    (x : Impl) : Outcome AdmissionOutcome * Impl :=
  let incoming := evidence_id e in
  let previous_max := stream_max_generation stream in
  let reason := if previous_max =? 0 then AcceptedNew else AcceptedSuperseding in
  let stored := mkStored e LcAdmitted reason now None Ok_ in
  let records := insert_by record_key stored (stream_records stream) in
  let superseded :=
    if previous_max =? 0 then []
    else sort_by (fun id => id)
           (map stored_id (List.filter (fun r => stored_generation r <? ce_generation e) records)) in
  let x := set_i_total_records (i_total_records x + 1)
             (set_stream key (mkStream records (ce_generation e)) x) in
  match enforce_budget key incoming now x with
  | (false, x, _) =>
      admit_reject RejectedRecordBudgetExhausted
        "no evictable record exists to satisfy the record budget" (admit_rollback key incoming x)
  | (true, x, evicted) =>
      let x := refresh_conflict (ek_device key) (ek_kind key) now (count inc_c_admissions_accepted x) in
      let d := derive x (ek_device key) (ek_kind key) now 0 in
      (outcome_value
         (mkAdmissionOutcome incoming (state_of incoming d) reason false superseded evicted
            (if dv_disagrees d then dv_conflict d else None) (ce_generation e) 0), x)
  end.

Definition admit_record (key : EvidenceKey) (e : CapabilityEvidence) (now : Tick) (x : Impl)
  : Outcome AdmissionOutcome * Impl :=
  let '(stream, x) := ensure_stream key x in
  let highest := stream_max_generation stream in
  if existsb (has_id (evidence_id e)) (stream_records stream)
  then admit_duplicate key (evidence_id e) stream now x
  else if negb (highest =? 0) && (ce_generation e <? highest)
  then admit_refused key e stream RejectedSupersededGeneration now x
  else if negb (highest =? 0) && (ce_generation e =? highest)
  then admit_refused key e stream RejectedGenerationCollision now x
  else admit_accept key e stream now x.

Definition registry_admit (q : AdmissionRequest) (now : Tick) (x : Impl) : Outcome AdmissionOutcome * Impl :=
  match admit_guard q now x with
  | Some (reason, detail) => admit_reject reason detail x
  | None =>
  match admit_content q x with
  | Some (reason, detail) => admit_reject reason detail x
  | None =>
  match register_device (aq_device q) x with
  | inl detail => admit_reject RejectedDeviceBudgetExhausted detail x
  | inr x =>
  let key := admission_key q in
  if bool_decide (find_stream x key = None) &&
     (count_streams x >=? max_streams (rp_limits (i_policy x)))
  then admit_reject RejectedStreamBudgetExhausted "stream bound reached" x
  else if match find_tombstone x key with
          | Some t => rr_generation t >=? aq_generation q | None => false end
  then admit_reject RejectedRetiredStream "stream is retired at this generation or later" x
  else admit_record key (admission_evidence q x) now x
  end end end.

(** ** Retirement *)

Definition retire_reject (reason : ReasonCode) (detail : string) (x : Impl)
  : Outcome RetirementOutcome * Impl :=
  (outcome_failure reason detail, count inc_c_retirements_rejected x).

(** Whether the retirement touches the record. *)
Definition retires (generation : Z) (r : StoredEvidence) : bool :=
  (stored_generation r <=? generation) && bool_decide (se_lifecycle r = LcAdmitted).

Definition retire_record (generation : Z) (now : Tick) (reason : ReasonCode) (r : StoredEvidence)
  : StoredEvidence :=
  if retires generation r
  then mkStored (se_evidence r) LcRetired (se_admission_reason r) (se_admitted_at r) (Some now) reason
  else r.

Definition retirement_key (q : RetirementRequest) : EvidenceKey :=
  mkEvidenceKey (rt_device q) (rt_kind q) (rt_source q).

Definition retirement_reason (q : RetirementRequest) : ReasonCode :=
  match rt_reason q with Ok_ => UnknownCapabilityRetired | reason => reason end.

Definition retirement_record (q : RetirementRequest) (now : Tick) (x : Impl) : RetirementRecord :=
  mkRetirement (retirement_key q) (rt_generation q) now (retirement_reason q) (i_epoch x)
    (i_policy_revision x)
    (match find_source (i_policy x) (rt_source q) with None => ArNone | Some s => sp_authority s end).

(** The effect of an accepted retirement on its stream. *)
Definition retire_stream (q : RetirementRequest) (stream : Stream) (now : Tick) (x : Impl)
  : Outcome RetirementOutcome * Impl :=
  let key := retirement_key q in
  let record := retirement_record q now x in
  let retired := sort_by (fun id => id)
                   (map stored_id (List.filter (retires (rt_generation q)) (stream_records stream))) in
  let x := set_stream key
             (mkStream (map (retire_record (rt_generation q) now (rr_reason record))
                          (stream_records stream)) (stream_max_generation stream)) x in
  let x := count inc_c_retirements_accepted (push_tombstone record x) in
  (outcome_value (mkRetirementOutcome key (rt_generation q) (rr_reason record) false retired []),
   refresh_conflict (ek_device key) (ek_kind key) now x).

Definition retire (q : RetirementRequest) (now : Tick) (x : Impl) : Outcome RetirementOutcome * Impl :=
  let key := retirement_key q in
  if is_unset (rt_generation q)
  then retire_reject RejectedGenerationRegression "retirement generation must be non-zero" x
  else if bool_decide (find_source (i_policy x) (rt_source q) = None) &&
          rp_require_configured_source (i_policy x)
  then retire_reject RejectedUnknownSource "source has no policy entry" x
  else match find_device x (dr_device (rt_device q)) with
  | None => retire_reject RejectedDeviceIncarnationFenced "device is not registered" x
  | Some _ =>
  let tombstone := find_tombstone x key in
  if match tombstone with Some t => rr_generation t =? rt_generation q | None => false end
  then (outcome_value (mkRetirementOutcome key (rt_generation q) AlreadyPresent true [] []),
        count inc_c_retirements_accepted x)
  else if match tombstone with Some t => rr_generation t >? rt_generation q | None => false end
  then retire_reject RejectedSupersededGeneration "a later retirement already fences this stream" x
  else match find_stream x key with
  | None => retire_reject UnknownNoEvidence "stream holds no records" x
  | Some stream =>
      if negb (stream_max_generation stream =? 0) &&
         (rt_generation q <=? stream_max_generation stream)
      then retire_reject RejectedSupersededGeneration
             "retirement generation must exceed the newest admitted generation" x
      else retire_stream q stream now x
  end end.

(** ** Device incarnations *)

(** [next_incarnation++] after a zero was replaced by one. *)
Definition take_incarnation (x : Impl) : Z * Impl :=
  let n := if i_next_incarnation x =? 0 then 1 else i_next_incarnation x in
  (n, set_i_next_incarnation (u64 (n + 1)) x).

Definition begin_device_incarnation (device : DeviceIdentity) (now : Tick) (x : Impl)
  : Outcome Z * Impl :=
  let limits := rp_limits (i_policy x) in
  match find_device x device with
  | None =>
      if Z.of_nat (length (i_incarnations x)) >=? max_devices limits
      then (outcome_failure RejectedDeviceBudgetExhausted "device bound reached", x)
      else let '(n, x) := take_incarnation x in
           (outcome_value n, bump_policy_revision (set_device (mkIncarnationEntry device n [n]) x))
  | Some entry =>
      if Z.of_nat (length (ie_history entry)) >=? max_incarnations_per_device limits
      then (outcome_failure RejectedDeviceBudgetExhausted "incarnation bound reached", x)
      else let '(n, x) := take_incarnation x in
           (outcome_value n,
            refresh_all_conflicts now (bump_policy_revision
              (set_i_incarnations (om_set device
                 (mkIncarnationEntry (ie_device entry) n (push_history n (ie_history entry)))
                 (i_incarnations x)) x)))
  end.

Definition set_device_incarnation (device : DeviceIdentity) (incarnation : Z) (now : Tick) (x : Impl)
  : Outcome Z * Impl :=
  let limits := rp_limits (i_policy x) in
  if is_unset incarnation
  then (outcome_failure RejectedZeroIncarnation "incarnation must be non-zero", x)
  else match find_device x device with
  | None =>
      if Z.of_nat (length (i_incarnations x)) >=? max_devices limits
      then (outcome_failure RejectedDeviceBudgetExhausted "device bound reached", x)
      else (outcome_value incarnation,
            refresh_all_conflicts now (bump_policy_revision (raise_next_incarnation incarnation
              (set_device (mkIncarnationEntry device incarnation [incarnation]) x))))
  | Some entry =>
      let known := in_history incarnation (ie_history entry) in
      if negb known &&
         (Z.of_nat (length (ie_history entry)) >=? max_incarnations_per_device limits)
      then (outcome_failure RejectedDeviceBudgetExhausted "incarnation bound reached", x)
      else
        let history := if known then ie_history entry
                       else push_history incarnation (ie_history entry) in
        let put := fun current y =>
          set_i_incarnations (om_set device (mkIncarnationEntry (ie_device entry) current history)
                                (i_incarnations y)) y in
        let x := raise_next_incarnation incarnation (put (ie_current entry) x) in
        if ie_current entry =? incarnation then (outcome_value incarnation, x)
        else (outcome_value incarnation,
              refresh_all_conflicts now (bump_policy_revision (put incarnation x)))
  end.

Definition current_incarnation (device : DeviceIdentity) (x : Impl) : Outcome Z :=
  match find_device x device with
  | None => outcome_failure UnknownDeviceNotRegistered "device is not registered"
  | Some entry => outcome_value (ie_current entry)
  end.

(** ** Source policy *)

Definition find_last {A} (p : A -> bool) (l : list A) : option A :=
  fold_left (fun out a => if p a then Some a else out) l None.

Fixpoint update_last {A} (p : A -> bool) (f : A -> A) (l : list A) : list A :=
  match l with
  | [] => []
  | a :: l' => if p a && negb (existsb p l') then f a :: l' else a :: update_last p f l'
  end.

Definition is_source (source : SourceId) (s : SourcePolicy) : bool := String.eqb (sp_id s) source.

(** The shape shared by [revoke_source], [restore_source] and
    [set_source_authority]: the loop has no [break], so the last entry with the
    identifier is the target. *)
Definition change_source (source : SourceId) (already : SourcePolicy -> bool)
    (change : SourcePolicy -> SourcePolicy) (now : Tick) (x : Impl) : Outcome bool * Impl :=
  match find_last (is_source source) (rp_sources (i_policy x)) with
  | None => (outcome_failure UnknownSourceNotConfigured "source has no policy entry", x)
  | Some target =>
      if already target then (outcome_success true AlreadyPresent, x)
      else
        let sources := update_last (is_source source) change (rp_sources (i_policy x)) in
        let x := set_i_policy (set_rp_sources sources (i_policy x)) x in
        (outcome_success true AcceptedNew, refresh_all_conflicts now (bump_policy_revision x))
  end.

Definition revoke_source (source : SourceId) (now : Tick) (x : Impl) : Outcome bool * Impl :=
  change_source source (fun s => bool_decide (sp_trust s = Revoked)) (set_sp_trust Revoked) now x.

Definition restore_source (source : SourceId) (now : Tick) (x : Impl) : Outcome bool * Impl :=
  change_source source (fun s => bool_decide (sp_trust s = Trusted)) (set_sp_trust Trusted) now x.

Definition set_source_authority (source : SourceId) (authority : AuthorityRank) (now : Tick) (x : Impl)
  : Outcome bool * Impl :=
  change_source source (fun s => bool_decide (sp_authority s = authority))
    (set_sp_authority authority) now x.

Definition upsert_source_policy (policy : SourcePolicy) (now : Tick) (x : Impl)
  : Outcome SourcePolicy * Impl :=
  if String.eqb (sp_id policy) ""
  then (outcome_failure RejectedMalformedName "source id is empty", x)
  else
    let policy := if bool_decide (sp_kind policy = SkOperatorDeclaration) &&
                     clt (sp_authority policy) ArOperator
                  then set_sp_authority ArOperator policy else policy in
    let sources := rp_sources (i_policy x) in
    let install := fun sources =>
      refresh_all_conflicts now (bump_policy_revision
        (set_i_policy (set_rp_sources sources (i_policy x)) x)) in
    if existsb (is_source (sp_id policy)) sources
    then (outcome_value policy, install (replace_first (is_source (sp_id policy)) policy sources))
    else if Z.of_nat (length sources) >=? max_sources (rp_limits (i_policy x))
    then (outcome_failure RejectedAuthorityInsufficient "source bound reached", x)
    else (outcome_value policy, install (sort_by sp_id (sources ++ [policy]))).

(** ** Conflict resolution *)

Definition resolution_id (conflict : ConflictId) (chosen : EvidenceId) (others : list EvidenceId)
    (resolver : SourceId) (now : Tick) : ResolutionId :=
  digest_of (w_u16 kApiGeneration ++ w_digest conflict ++ w_digest chosen ++
             w_vec w_digest others ++ w_name resolver ++ w_strong now).

Definition resolve_conflict (conflict : ConflictId) (chosen : EvidenceId) (resolver : SourceId)
    (now : Tick) (x : Impl) : Outcome ConflictResolution * Impl :=
  match find_last (fun g => bool_decide (cg_id g = conflict)) (i_conflicts x) with
  | None => (outcome_failure ConflictUnresolved "conflict group is not known", x)
  | Some group =>
      let resolver_policy := find_source (i_policy x) resolver in
      if negb (existsb (fun m => bool_decide (m = chosen)) (cg_members group))
      then (outcome_failure ConflictUnresolved "chosen record is not a member", x)
      else if rp_require_configured_source (i_policy x) && bool_decide (resolver_policy = None)
      then (outcome_failure RejectedUnknownSource "resolver has no policy entry", x)
      else if match resolver_policy with
              | Some s => negb (bool_decide (sp_trust s = Trusted)) | None => false end
      then (outcome_failure RejectedSourceUntrusted "resolver is not trusted", x)
      else
        let others := List.filter (fun m => negb (bool_decide (m = chosen))) (cg_members group) in
        let r := mkResolution (resolution_id conflict chosen others resolver now) conflict chosen
                   others resolver now (i_epoch x) in
        (outcome_value r, count inc_c_conflicts_resolved (push_resolution r x))
  end.

(** ** Epochs, clock and bounds *)

Definition set_rule_generation (generation : Z) (x : Impl) : Outcome bool * Impl :=
  if is_unset generation
  then (outcome_failure RejectedRuleGenerationOutOfRange "generation must be non-zero", x)
  else if generation <? i_rule_generation x
  then (outcome_failure RejectedRuleGenerationOutOfRange "rule generation must not move backwards", x)
  else if generation =? i_rule_generation x then (outcome_success true AlreadyPresent, x)
  else (outcome_success true AcceptedNew,
        bump_policy_revision (set_i_policy (set_rp_rule_generation generation (i_policy x))
                                (set_i_rule_generation generation x))).

Definition advance_epoch (x : Impl) : Outcome bool * Impl :=
  (outcome_success true AcceptedNew, bump_policy_revision x).

Definition set_logical_tick (now : Tick) (x : Impl) : Outcome bool * Impl :=
  if now <? i_logical_tick x
  then (outcome_failure RejectedStaleObservation "logical clock must be monotonic", x)
  else (outcome_success true Ok_, set_i_logical_tick now x).

Definition set_limits (limits : RegistryLimits) (x : Impl) : Impl :=
  bump_policy_revision (set_i_policy (set_rp_limits limits (i_policy x)) x).

(** ** Queries *)

Definition state_fact (f : DerivedFact) : EvidenceStateFact :=
  let r := df_record f in
  let e := se_evidence r in
  mkStateFact (stored_id r) (se_lifecycle r) (df_state f) (df_reason f) (ce_observed_at e) (df_age f)
    (ce_authority e) (ce_generation e) (ce_source_incarnation e) (ce_capability_version e)
    (ce_features e) (ce_limits e) (ce_firmware_version e) (ce_runtime_version e).

Definition saw (s : EvidenceState) (facts : list DerivedFact) : bool := existsb (is_state s) facts.

Definition saw_evicted (x : Impl) (device : DeviceIncarnationRef) (kind : CapabilityKind) : bool :=
  existsb (fun e => bool_decide (ek_device (ev_key e) = device) && bool_decide (ek_kind (ev_key e) = kind))
          (i_evictions x).

Definition historical (f : DerivedFact) : bool := is_state StSuperseded f || is_state StRejected f.

(** [if (reasons.empty() && c) reasons.push_back(r)]. *)
Definition when_empty (c : bool) (r : ReasonCode) (l : list ReasonCode) : list ReasonCode :=
  match l with [] => if c then [r] else [] | _ => l end.

Definition when (c : bool) (r : ReasonCode) : list ReasonCode := if c then [r] else [].

(** The reasons of a query without live evidence, after those in [l]. *)
Definition query_unknown_reasons (x : Impl) (q : CapabilityQuery) (facts : list DerivedFact)
    (l : list ReasonCode) : list ReasonCode :=
  let l := l ++ when (saw StRetired facts) UnknownCapabilityRetired ++
           when (saw StSuperseded facts || saw StStale facts) UnknownStaleEvidence ++
           when (saw StFenced facts) UnknownFencedEvidence ++
           when (saw StOutranked facts) UnknownConflictingEvidence in
  let l := when_empty (saw StRejected facts) RejectedSupersededGeneration l in
  let l := when_empty (saw_evicted x (cq_device q) (cq_kind q)) UnknownEvidenceEvicted l in
  when_empty true UnknownNoEvidence l.

Definition query (q : CapabilityQuery) (now : Tick) (x : Impl) : Outcome QueryResult :=
  match find_device x (dr_device (cq_device q)) with
  | None => outcome_failure UnknownDeviceNotRegistered "device incarnation is not registered"
  | Some entry =>
      let d := derive x (cq_device q) (cq_kind q) now (cq_max_evidence_age q) in
      let facts := map state_fact
                     (List.filter (fun f => cq_include_history q || negb (historical f)) (dv_facts d)) in
      let stale := when (negb (ie_current entry =? dr_incarnation (cq_device q)))
                     UnknownIncarnationNotCurrent in
      let '(kind, selected, conflict, reasons) :=
        if dv_disagrees d
        then (DkConflicted, None, dv_conflict d, stale ++ [ConflictEqualAuthority])
        else match dv_live d with
             | first :: _ => (DkCompatible, Some (stored_id first), None, stale ++ [AcceptedNew])
             | [] => (DkUnknown, None, None, query_unknown_reasons x q (dv_facts d) stale)
             end in
      outcome_value (mkQueryResult kind (cq_device q) (cq_kind q) (canonical_reasons reasons) facts
        selected conflict (i_rule_generation x) (i_epoch x) (i_policy_revision x) now)
  end.

(** ** Evaluation *)

(** [CompatibilityDecision::compute_digest]. *)
Definition decision_digest (d : CompatibilityDecision) : Digest256 :=
  digest_of (w_u16 kApiGeneration ++ enc_requirement (cd_requirement d) ++
    enc_decision_kind (cd_kind d) ++ w_strong (cd_rule_generation d) ++
    w_strong (cd_registry_epoch d) ++ w_strong (cd_policy_revision d) ++
    w_strong (cd_evaluated_at d) ++ w_vec w_reason (cd_reasons d) ++ w_vec w_digest (cd_evidence d) ++
    w_optional w_digest (cd_selected d) ++ w_optional w_digest (cd_conflict d) ++
    enc_authority (cd_selected_authority d)).

Definition with_decision_id (d : CompatibilityDecision) : CompatibilityDecision :=
  mkDecision (decision_digest d) (cd_kind d) (cd_device d) (cd_capability d) (cd_requirement d)
    (cd_reasons d) (cd_evidence d) (cd_evidence_facts d) (cd_selected d) (cd_conflict d)
    (cd_selected_authority d) (cd_rule_generation d) (cd_registry_epoch d) (cd_policy_revision d)
    (cd_evaluated_at d).

(** What the branches of [evaluate] decide. *)
Record Verdict := mkVerdict {
  vd_kind : DecisionKind; vd_reasons : list ReasonCode; vd_selected : option StoredEvidence;
  vd_conflict : option ConflictId }.

Definition evaluate_unknown_reasons (x : Impl) (r : CapabilityRequirement)
    (facts : list DerivedFact) (l : list ReasonCode) : list ReasonCode :=
  let l := l ++ when (saw StRetired facts) UnknownCapabilityRetired ++
           when (saw StSuperseded facts || saw StOutranked facts || saw StRejected facts)
             UnknownStaleEvidence ++
           when (saw StStale facts) UnknownStaleEvidence ++
           when (saw StFenced facts) UnknownFencedEvidence in
  let l := when_empty (saw_evicted x (rq_device r) (rq_capability r)) UnknownEvidenceEvicted l in
  when_empty true UnknownNoEvidence l.

(** The comparison with the selected record, after the reasons in [l]. *)
Definition judge (r : CapabilityRequirement) (selected : StoredEvidence) (conflict : option ConflictId)
    (l : list ReasonCode) : Verdict :=
  let '(kind, reasons) := compare_requirement r (se_evidence selected) in
  mkVerdict kind (l ++ reasons) (Some selected) conflict.

Definition verdict (x : Impl) (r : CapabilityRequirement) (entry : DeviceIncarnationEntry)
    (d : Derivation) : Verdict :=
  let stale := when (negb (ie_current entry =? dr_incarnation (rq_device r)))
                 UnknownIncarnationNotCurrent in
  if dv_disagrees d then
    match match dv_conflict d with Some id => find_resolution x id | None => None end with
    | Some resolution =>
        match find_last (has_id (cr_chosen resolution)) (dv_live d) with
        | None => mkVerdict DkConflicted
                    (stale ++ [ConflictResolvedByResolution; ConflictEqualAuthority]) None
                    (dv_conflict d)
        | Some selected => judge r selected (dv_conflict d) (stale ++ [ConflictResolvedByResolution])
        end
    | None => mkVerdict DkConflicted (stale ++ [ConflictEqualAuthority]) None (dv_conflict d)
    end
  else match dv_live d with
       | selected :: _ => judge r selected None stale
       | [] => mkVerdict DkUnknown (evaluate_unknown_reasons x r (dv_facts d) stale) None None
       end.

(** The decision as [finish] leaves it. *)
Definition decide_requirement (r : CapabilityRequirement) (now : Tick) (x : Impl) : CompatibilityDecision :=
  let '(v, facts) :=
    match find_device x (dr_device (rq_device r)) with
    | None => (mkVerdict DkUnknown [UnknownDeviceNotRegistered] None None, [])
    | Some entry =>
        let d := derive x (rq_device r) (rq_capability r) now (rq_max_evidence_age r) in
        (verdict x r entry d, map state_fact (dv_facts d))
    end in
  with_decision_id
    (mkDecision digest_zero (vd_kind v) (rq_device r) (rq_capability r) r
      (canonical_reasons (vd_reasons v)) (sort_by (fun id => id) (map sf_id facts)) facts
      (option_map stored_id (vd_selected v)) (vd_conflict v)
      (match vd_selected v with Some s => ce_authority (se_evidence s) | None => ArNone end)
      (i_rule_generation x) (i_epoch x) (i_policy_revision x) now).

Definition evaluate (r : CapabilityRequirement) (now : Tick) (x : Impl) : CompatibilityDecision * Impl :=
  let d := decide_requirement r now x in
  (d, count inc_c_decisions_emitted (push_decision d x)).

(** ** Explanation and reporting *)

Definition explain (id : DecisionId) (x : Impl) : Outcome Explanation :=
  match om_find id (i_decisions x) with
  | None => outcome_failure UnknownNoEvidence "decision is not retained in the bounded explanation store"
  | Some d =>
      let sources := unique_by (fun s => s) (sort_by (fun s => s)
                       (map (fun f => si_source (sf_source_incarnation f)) (cd_evidence_facts d))) in
      let involved := omap (find_source (i_policy x)) sources in
      outcome_value (mkExplanation d involved
        (match cd_conflict d with
         | Some c => find_last (fun g => bool_decide (cg_id g = c)) (i_conflicts x) | None => None end)
        (match cd_conflict d with Some c => find_resolution x c | None => None end)
        true Ok_)
  end.

Definition conflict_for (device : DeviceIncarnationRef) (kind : CapabilityKind) (now : Tick) (x : Impl)
  : Outcome ConflictGroup :=
  let d := derive x device kind now 0 in
  match (if dv_disagrees d then dv_conflict d else None) with
  | None => outcome_failure ConflictUnresolved "no equal-authority disagreement is present"
  | Some id =>
      outcome_value (match find (fun g => bool_decide (cg_id g = id)) (i_conflicts x) with
                     | Some g => g
                     | None => conflict_of device kind d
                     end)
  end.

Definition all_facts (x : Impl) (now : Tick) : list DerivedFact :=
  concat (map (fun '(device, kind) => dv_facts (derive x device kind now 0)) (group_pairs (i_groups x))).

Definition count_state (s : EvidenceState) (facts : list DerivedFact) : Z :=
  Z.of_nat (length (List.filter (is_state s) facts)).

Definition stats (now : Tick) (x : Impl) : RegistryStats :=
  let facts := all_facts x now in
  let c := i_counters x in
  mkStats (Z.of_nat (length (i_incarnations x)))
    (Z.of_nat (om_total (fun e => length (ie_history e)) (i_incarnations x)))
    (count_streams x) (i_total_records x)
    (count_state StActive facts) (count_state StSuperseded facts) (count_state StRetired facts)
    (count_state StRejected facts) (count_state StFenced facts) (count_state StStale facts)
    (count_state StOutranked facts) (u64 (c_evictions_total c + count_state StEvicted facts))
    (Z.of_nat (length (i_conflicts x))) (c_conflicts_resolved c)
    (Z.of_nat (length (flatten_tombstones x))) (Z.of_nat (length (i_resolutions x)))
    (c_eviction_ledger_dropped c) (c_conflicts_dropped c) (c_resolutions_dropped c)
    (c_tombstones_dropped c) (c_decisions_emitted c) (c_decisions_evicted c)
    (c_admissions_accepted c) (c_admissions_idempotent c) (c_admissions_rejected c)
    (c_retirements_accepted c) (c_retirements_rejected c) (i_epoch x) (i_rule_generation x)
    (i_policy_revision x) (i_boot_epoch x) (i_logical_tick x).

(** ** Persistence support *)

Definition snapshot_state (x : Impl) : Outcome RegistryState := outcome_value (to_state x).

Definition highest_observed (records : list StoredEvidence) : Tick :=
  maximum_tick (observed_ticks records) 0.

(** The state after [adopt_state], before the summary is counted. *)
Definition adopt_restored (s : RegistryState) (now : Tick) (x : Impl) : Impl :=
  let y := adopt s in
  let y := match rp_sources (s_policy s) with [] => set_i_policy (i_policy x) y | _ => y end in
  let y := set_i_rule_generation (rp_rule_generation (i_policy y)) y in
  let y := bump_policy_revision (set_i_boot_epoch (u64 (s_boot_epoch s + 1)) y) in
  let resume := maximum_tick [now; highest_observed (s_records s)] (i_logical_tick y) in
  refresh_all_conflicts resume (set_i_logical_tick resume y).

Definition adopt_state (s : RegistryState) (now : Tick) (x : Impl) : Outcome RecoverySummary * Impl :=
  let y := adopt_restored s now x in
  let facts := all_facts y (i_logical_tick y) in
  let fenced := count_state StFenced facts in
  let carried := count_state StActive facts + count_state StOutranked facts in
  let '(class, reason) := if fenced >? 0 then (RebuiltFromSnapshot, RecoveryRebuiltFromSnapshot)
                          else (CleanOpen, RecoveryCleanOpen) in
  (outcome_value (mkRecoverySummary class reason (i_total_records y) fenced carried
     (Z.of_nat (length (flatten_tombstones y))) (Z.of_nat (length (i_conflicts y)))
     (Z.of_nat (length (i_resolutions y))) (Z.of_nat (length (i_evictions y))) 0 0 0
     (s_store_generation s) (s_boot_epoch s) (i_boot_epoch y) (canonical_reasons [reason])), y).
