(* ===== verification/RegistryInv.v ===== *)
(** * The registry engine: invariant (src/registry.cpp)

    What every reachable registry state satisfies: the nested maps are in key
    order, every record and every tombstone is filed under its own key, the
    records of a stream are ordered and have distinct identifiers that are the
    digests of their content, the cached generation of a stream is the highest
    one it holds, the record counter is the number of records held, the device
    table maps each device to its own entry with the current incarnation in its
    history, and the explanation store and its queue hold the same decisions.
    The operations preserve it, and so does every sequence of them. *)

From Stdlib Require Import ZArith Lia ZifyBool Ascii String Sorted Permutation.
From stdpp Require Import base tactics list strings.
From S2P Require Import Prelude OrdMap Checked Reason Text Units Name SemVer Hash Catalog.
From S2P Require Import Evidence State Codec CodecTypes CodecThms Compat Registry RegistryOps.

#[local] Open Scope Z_scope.
#[local] Open Scope list_scope.

(** The digest of a record does not depend on its cached identifier. *)
Lemma compute_digest_cache e d : compute_digest (with_id_cache e d) = compute_digest e.
Proof. reflexivity. Qed.

(** Digests are never unfolded by unification. *)
#[local] Opaque digest_of compute_digest.

(** ** Well-formed containers *)

Definition record_ok (key : EvidenceKey) (r : StoredEvidence) : Prop :=
  ce_key (se_evidence r) = key /\ 0 < stored_generation r /\
  stored_id r = compute_digest (se_evidence r).

Definition records_ok (key : EvidenceKey) (l : list StoredEvidence) : Prop :=
  Forall (record_ok key) l /\ StronglySorted (key_le record_key) l /\ NoDup (map stored_id l).

Definition stream_ok (key : EvidenceKey) (s : Stream) : Prop :=
  records_ok key (stream_records s) /\
  stream_max_generation s = highest_generation (stream_records s).

(** The nested maps are in key order, and every stream satisfies [P]. *)
Definition group_of (P : EvidenceKey -> Stream -> Prop) (device : DeviceIncarnationRef)
    (kind : CapabilityKind) (g : GroupState) : Prop :=
  om_sorted (gs_streams g) /\
  om_all (fun source s => P (mkEvidenceKey device kind source) s) (gs_streams g) /\
  om_sorted (gs_tombstones g) /\
  om_all (fun source t => rr_key t = mkEvidenceKey device kind source) (gs_tombstones g).

Definition groups_of (P : EvidenceKey -> Stream -> Prop) (g : Groups) : Prop :=
  om_sorted g /\
  om_all (fun device kinds => om_sorted kinds /\ om_all (group_of P device) kinds) g.

Notation group_ok := (group_of stream_ok).
Notation groups_ok := (groups_of stream_ok).

(** ** Generations of a record list *)

Lemma highest_generation_from l h :
  fold_left (fun highest r => if stored_generation r >? highest then stored_generation r else highest)
            l h = Z.max h (highest_generation l) \/ h < 0.
Proof.
  destruct (Z.lt_ge_cases h 0) as [|Hh]; [by right|left]. unfold highest_generation.
  revert h Hh. induction l as [|r l IH]; intros h Hh; simpl; [lia|].
  rewrite (IH (if stored_generation r >? h then _ else _)) by (case_match; lia).
  rewrite (IH (if stored_generation r >? 0 then _ else _)) by (case_match; lia).
  case_match; case_match; lia.
Qed.

Lemma highest_generation_cons r l :
  highest_generation (r :: l) = Z.max (Z.max 0 (stored_generation r)) (highest_generation l).
Proof.
  unfold highest_generation at 1. simpl.
  destruct (highest_generation_from l (if stored_generation r >? 0 then stored_generation r else 0))
    as [->|Hn]; case_match; lia.
Qed.

Lemma highest_generation_nonneg l : 0 <= highest_generation l.
Proof. destruct l; [done|]. rewrite highest_generation_cons. lia. Qed.

Lemma highest_generation_le l r : r ∈ l -> stored_generation r <= highest_generation l.
Proof.
  induction 1 as [r l|r r' l Hin IH]; rewrite highest_generation_cons; lia.
Qed.

Lemma highest_generation_attained l :
  highest_generation l = 0 \/ exists r, r ∈ l /\ stored_generation r = highest_generation l.
Proof.
  induction l as [|r l IH]; [by left|]. rewrite highest_generation_cons.
  pose proof (highest_generation_nonneg l).
  destruct (Z.le_gt_cases (stored_generation r) (highest_generation l)).
  - destruct IH as [E|(r' & Hin & E)]; [left; lia|right; exists r'; split; [by right|lia]].
  - right. exists r. split; [by left|lia].
Qed.

Lemma highest_generation_perm l l' : Permutation l l' -> highest_generation l = highest_generation l'.
Proof.
  induction 1; [done| | |lia]; rewrite ?highest_generation_cons; lia.
Qed.

(** ** Lookup after an update *)

Lemma lookup_group_put g d k gr d' k' :
  lookup_group (put_group g d k gr) d' k' =
  if ceq d' d && ceq k' k then Some gr else lookup_group g d' k'.
Proof.
  unfold lookup_group, put_group. rewrite om_find_set. destruct (ceq d' d) eqn:Ed; [|done]. simpl.
  apply ceq_true in Ed as ->. rewrite om_find_set. destruct (ceq k' k); [done|].
  by destruct (om_find d g).
Qed.

Lemma lookup_group_put_eq g d k gr : lookup_group (put_group g d k gr) d k = Some gr.
Proof. by rewrite lookup_group_put, !ceq_refl. Qed.

Lemma lookup_stream_put g key s key' :
  lookup_stream (put_stream g key s) key' =
  if decide (key' = key) then Some s else lookup_stream g key'.
Proof.
  unfold lookup_stream at 1, put_stream. rewrite lookup_group_put.
  destruct (ceq (ek_device key') (ek_device key) && ceq (ek_kind key') (ek_kind key)) eqn:E.
  - apply andb_true_iff in E as [Ed%ceq_true Ek%ceq_true]. simpl. rewrite om_find_set.
    unfold group_or_empty, lookup_stream. rewrite Ed, Ek.
    destruct (ceq (ek_source key') (ek_source key)) eqn:Es.
    + apply ceq_true in Es. destruct key, key'; simpl in *. subst. by rewrite decide_True.
    + apply ceq_false in Es. rewrite decide_False by congruence.
      by destruct (lookup_group g (ek_device key) (ek_kind key)).
  - rewrite decide_False; [done|]. intros ->. by rewrite !ceq_refl in E.
Qed.

Definition lookup_tombstone (g : Groups) (key : EvidenceKey) : option RetirementRecord :=
  match lookup_group g (ek_device key) (ek_kind key) with
  | None => None
  | Some group => om_find (ek_source key) (gs_tombstones group)
  end.

Lemma find_tombstone_lookup x key : find_tombstone x key = lookup_tombstone (i_groups x) key.
Proof. done. Qed.

Lemma lookup_tombstone_put_stream g key s key' :
  lookup_tombstone (put_stream g key s) key' = lookup_tombstone g key'.
Proof.
  unfold lookup_tombstone, put_stream. rewrite lookup_group_put.
  destruct (ceq (ek_device key') (ek_device key) && ceq (ek_kind key') (ek_kind key)) eqn:E; [|done].
  apply andb_true_iff in E as [Ed%ceq_true Ek%ceq_true]. rewrite Ed, Ek. simpl.
  unfold group_or_empty. by destruct (lookup_group g (ek_device key) (ek_kind key)).
Qed.

Lemma lookup_tombstone_put g key t key' :
  lookup_tombstone (put_tombstone g key t) key' =
  if decide (key' = key) then Some t else lookup_tombstone g key'.
Proof.
  unfold lookup_tombstone at 1, put_tombstone. rewrite lookup_group_put.
  destruct (ceq (ek_device key') (ek_device key) && ceq (ek_kind key') (ek_kind key)) eqn:E.
  - apply andb_true_iff in E as [Ed%ceq_true Ek%ceq_true]. simpl. rewrite om_find_set.
    unfold group_or_empty, lookup_tombstone. rewrite Ed, Ek.
    destruct (ceq (ek_source key') (ek_source key)) eqn:Es.
    + apply ceq_true in Es. destruct key, key'; simpl in *. subst. by rewrite decide_True.
    + apply ceq_false in Es. rewrite decide_False by congruence.
      by destruct (lookup_group g (ek_device key) (ek_kind key)).
  - rewrite decide_False; [done|]. intros ->. by rewrite !ceq_refl in E.
Qed.

Lemma lookup_stream_put_tombstone g key t key' :
  lookup_stream (put_tombstone g key t) key' = lookup_stream g key'.
Proof.
  unfold lookup_stream, put_tombstone. rewrite lookup_group_put.
  destruct (ceq (ek_device key') (ek_device key) && ceq (ek_kind key') (ek_kind key)) eqn:E; [|done].
  apply andb_true_iff in E as [Ed%ceq_true Ek%ceq_true]. rewrite Ed, Ek. simpl.
  unfold group_or_empty. by destruct (lookup_group g (ek_device key) (ek_kind key)).
Qed.

(** ** Updates keep the containers well formed *)

Section containers.
  Context {P : EvidenceKey -> Stream -> Prop}.


Lemma lookup_group_ok g d k gr : groups_of P g -> lookup_group g d k = Some gr -> group_of P d k gr.
Proof.
  unfold lookup_group. intros [_ Hall] Hl. destruct (om_find d g) as [kinds|] eqn:Ed; [|done].
  destruct (om_all_find _ _ _ _ Hall Ed) as [_ Hk]. exact (om_all_find _ _ _ _ Hk Hl).
Qed.

Lemma empty_group_ok d k : group_of P d k empty_group.
Proof. repeat split; constructor. Qed.

Lemma group_or_empty_ok g d k : groups_of P g -> group_of P d k (group_or_empty g d k).
Proof.
  intros Hg. unfold group_or_empty. destruct (lookup_group g d k) eqn:E.
  - by eapply lookup_group_ok.
  - apply empty_group_ok.
Qed.

Lemma put_group_ok g d k gr : groups_of P g -> group_of P d k gr -> groups_of P (put_group g d k gr).
Proof.
  intros [Hs Hall] Hgr. split; [by apply om_set_sorted|]. apply om_set_all; [done|].
  destruct (om_find d g) as [kinds|] eqn:Ed.
  - destruct (om_all_find _ _ _ _ Hall Ed) as [Hks Hka].
    split; [by apply om_set_sorted|by apply om_set_all].
  - split; [apply om_set_sorted; constructor|apply om_set_all; [constructor|done]].
Qed.

Lemma put_stream_ok g key s : groups_of P g -> P key s -> groups_of P (put_stream g key s).
Proof.
  intros Hg Hs. apply put_group_ok; [done|].
  destruct (group_or_empty_ok g (ek_device key) (ek_kind key) Hg) as (H1 & H2 & H3 & H4).
  split_and!; simpl; [by apply om_set_sorted| |done..]. apply om_set_all; [done|]. by destruct key.
Qed.

Lemma put_tombstone_ok g t : groups_of P g -> groups_of P (put_tombstone g (rr_key t) t).
Proof.
  intros Hg. apply put_group_ok; [done|].
  destruct (group_or_empty_ok g (ek_device (rr_key t)) (ek_kind (rr_key t)) Hg) as (H1 & H2 & H3 & H4).
  split_and!; simpl; [done..|by apply om_set_sorted|]. apply om_set_all; [done|]. by destruct (rr_key t).
Qed.

Lemma erase_tombstone_ok g key : groups_of P g -> groups_of P (erase_tombstone g key).
Proof.
  intros Hg. apply put_group_ok; [done|].
  destruct (group_or_empty_ok g (ek_device key) (ek_kind key) Hg) as (H1 & H2 & H3 & H4).
  split_and!; simpl; [done..|by apply om_erase_sorted|by apply om_erase_all].
Qed.

Lemma lookup_stream_ok g key s : groups_of P g -> lookup_stream g key = Some s -> P key s.
Proof.
  unfold lookup_stream. intros Hg Hl.
  destruct (lookup_group g (ek_device key) (ek_kind key)) as [gr|] eqn:E; [|done].
  destruct (lookup_group_ok _ _ _ _ Hg E) as (_ & Hall & _).
  pose proof (om_all_find _ _ _ _ Hall Hl). by destruct key.
Qed.

Lemma lookup_tombstone_ok g key t : groups_of P g -> lookup_tombstone g key = Some t -> rr_key t = key.
Proof.
  unfold lookup_tombstone. intros Hg Hl.
  destruct (lookup_group g (ek_device key) (ek_kind key)) as [gr|] eqn:E; [|done].
  destruct (lookup_group_ok _ _ _ _ Hg E) as (_ & _ & _ & Hall).
  pose proof (om_all_find _ _ _ _ Hall Hl). by destruct key.
Qed.

Lemma erase_group_ok g d kinds : groups_of P g -> om_sorted kinds -> om_all (group_of P d) kinds ->
  groups_of P (om_set d kinds g).
Proof. intros [Hs Hall] H1 H2. split; [by apply om_set_sorted|by apply om_set_all]. Qed.

(** ** Record counts *)

Definition stream_len (s : Stream) : nat := length (stream_records s).
Definition group_len (g : GroupState) : nat := om_total stream_len (gs_streams g).
Definition kinds_len (m : list (CapabilityKind * GroupState)) : nat := om_total group_len m.

Lemma length_concat_total {K V A} (f : K * V -> list A) (size : V -> nat) (m : list (K * V)) :
  (forall e, e ∈ m -> length (f e) = size (snd e)) -> length (concat (map f m)) = om_total size m.
Proof.
  induction m as [|e m IH]; intros Hf; simpl; [done|].
  rewrite length_app, Hf by constructor. f_equal. apply IH. intros e' He'. apply Hf. by right.
Qed.

Lemma world_records_total g : world_records g = om_total kinds_len g.
Proof.
  unfold world_records, all_records. apply length_concat_total. intros [d kinds] _. simpl.
  apply length_concat_total. intros [k gr] _. simpl.
  apply length_concat_total. intros [src s] _. simpl. by rewrite length_map.
Qed.

Lemma put_group_len g d k gr : groups_of P g ->
  (world_records (put_group g d k gr) + group_len (group_or_empty g d k) =
   world_records g + group_len gr)%nat.
Proof.
  intros [Hs Hall]. rewrite !world_records_total. unfold put_group, group_or_empty, lookup_group.
  assert (group_len empty_group = 0%nat) as E0 by done.
  pose proof (om_total_set kinds_len d
    (om_set k gr (match om_find d g with Some kinds => kinds | None => [] end)) g Hs) as H1.
  destruct (om_find d g) as [kinds|] eqn:Ed; simpl in *.
  - destruct (om_all_find _ _ _ _ Hall Ed) as [Hks _].
    pose proof (om_total_set group_len k gr kinds Hks) as H2. unfold kinds_len in *.
    destruct (om_find k kinds); simpl in *; lia.
  - unfold kinds_len in *. simpl in *. lia.
Qed.

Definition opt_stream_len (o : option Stream) : nat :=
  match o with Some s => stream_len s | None => 0%nat end.

Lemma put_stream_len g key s : groups_of P g ->
  (world_records (put_stream g key s) + opt_stream_len (lookup_stream g key) =
   world_records g + stream_len s)%nat.
Proof.
  intros Hg. unfold put_stream, lookup_stream.
  pose proof (group_or_empty_ok g (ek_device key) (ek_kind key) Hg) as (Hs & _).
  pose proof (put_group_len g (ek_device key) (ek_kind key)
    (mkGroup (om_set (ek_source key) s (gs_streams (group_or_empty g (ek_device key) (ek_kind key))))
       (gs_tombstones (group_or_empty g (ek_device key) (ek_kind key)))) Hg) as H1.
  pose proof (om_total_set stream_len (ek_source key) s _ Hs) as H2.
  unfold group_len in H1. simpl in H1. unfold group_or_empty in *.
  destruct (lookup_group g (ek_device key) (ek_kind key)) as [gr|]; simpl in *;
    [destruct (om_find (ek_source key) (gs_streams gr)); simpl in *|]; lia.
Qed.

Lemma put_tombstone_len g key t : groups_of P g -> world_records (put_tombstone g key t) = world_records g.
Proof.
  intros Hg. pose proof (put_group_len g (ek_device key) (ek_kind key)
    (mkGroup (gs_streams (group_or_empty g (ek_device key) (ek_kind key)))
      (om_set (ek_source key) t (gs_tombstones (group_or_empty g (ek_device key) (ek_kind key))))) Hg)
    as H1. unfold put_tombstone, group_len in *. simpl in H1. lia.
Qed.

Lemma erase_tombstone_len g key : groups_of P g -> world_records (erase_tombstone g key) = world_records g.
Proof.
  intros Hg. pose proof (put_group_len g (ek_device key) (ek_kind key)
    (mkGroup (gs_streams (group_or_empty g (ek_device key) (ek_kind key)))
      (om_erase (ek_source key) (gs_tombstones (group_or_empty g (ek_device key) (ek_kind key))))) Hg)
    as H1. unfold erase_tombstone, group_len in *. simpl in H1. lia.
Qed.

(** Every record in the enumeration is in the stream it is listed with. *)
Lemma elem_all_records g key s r : groups_of P g ->
  (key, s, r) ∈ all_records g <-> lookup_stream g key = Some s /\ r ∈ stream_records s.
Proof.
  intros [Hs Hall]. unfold all_records, lookup_stream, lookup_group. split.
  - intros Hin. apply list_elem_of_In, in_concat in Hin as (l1 & [[d kinds] [<- Hd]]%in_map_iff & Hin).
    apply in_concat in Hin as (l2 & [[k gr] [<- Hk]]%in_map_iff & Hin).
    apply in_concat in Hin as (l3 & [[src s'] [<- Hsrc]]%in_map_iff & Hin).
    apply in_map_iff in Hin as (r' & [= <- <- <-] & Hr). simpl.
    apply list_elem_of_In in Hd, Hk, Hsrc, Hr.
    pose proof (om_elem_find _ _ _ Hs Hd) as Ed. rewrite Ed.
    destruct (om_all_find _ _ _ _ Hall Ed) as [Hks Hka].
    pose proof (om_elem_find _ _ _ Hks Hk) as Ek. rewrite Ek.
    destruct (om_all_find _ _ _ _ Hka Ek) as [Hss _].
    by rewrite (om_elem_find _ _ _ Hss Hsrc).
  - intros [Hl Hr]. destruct (om_find (ek_device key) g) as [kinds|] eqn:Ed; [|done].
    destruct (om_find (ek_kind key) kinds) as [gr|] eqn:Ek; [|done].
    apply list_elem_of_In, in_concat. eexists. split.
    { apply in_map_iff. exists (ek_device key, kinds). split; [done|].
      apply list_elem_of_In. by apply om_find_elem. }
    apply in_concat. eexists. split.
    { apply in_map_iff. exists (ek_kind key, gr). split; [done|].
      apply list_elem_of_In. by apply om_find_elem. }
    apply in_concat. eexists. split.
    { apply in_map_iff. exists (ek_source key, s). split; [done|].
      apply list_elem_of_In. by apply om_find_elem. }
    apply in_map_iff. exists r. split; [by destruct key|by apply list_elem_of_In].
Qed.

End containers.

(** ** Record lists *)

Lemma erase_first_perm {A} (p : A -> bool) l a :
  find p l = Some a -> Permutation l (a :: erase_first p l).
Proof.
  induction l as [|b l IH]; simpl; [done|]. destruct (p b); [by intros [= ->]|].
  intros Hf. rewrite (IH Hf) at 1. apply perm_swap.
Qed.

Lemma erase_first_none {A} (p : A -> bool) l : find p l = None -> erase_first p l = l.
Proof.
  induction l as [|b l IH]; simpl; [done|]. destruct (p b); [done|]. intros Hf. by rewrite IH.
Qed.

Lemma erase_first_sublist {A} (p : A -> bool) l : sublist (erase_first p l) l.
Proof.
  induction l as [|b l IH]; simpl; [constructor|].
  destruct (p b); [by constructor|by constructor].
Qed.

Lemma sublist_Forall {A} (P : A -> Prop) l l' : sublist l l' -> Forall P l' -> Forall P l.
Proof.
  intros Hsub Hall. apply Forall_forall. intros a Ha. rewrite Forall_forall in Hall. apply Hall.
  eapply elem_of_submseteq; [exact Ha|]. by apply sublist_submseteq.
Qed.

Lemma sublist_sorted {A} (R : A -> A -> Prop) l l' :
  sublist l l' -> StronglySorted R l' -> StronglySorted R l.
Proof.
  induction 1 as [|a l l' Hsub IH|a l l' Hsub IH]; intros Hs; [done| |].
  - inversion Hs as [|? ? Hs' Hall]; subst. constructor; [by apply IH|].
    by eapply sublist_Forall.
  - inversion Hs; subst. by apply IH.
Qed.

Lemma records_ok_sublist key l l' : sublist l l' -> records_ok key l' -> records_ok key l.
Proof.
  intros Hsub (Hall & Hs & Hnd). split_and!.
  - by eapply sublist_Forall.
  - by eapply sublist_sorted.
  - eapply sublist_NoDup; [exact Hnd|].
    clear -Hsub. induction Hsub; simpl; by constructor.
Qed.

Lemma records_ok_insert key r l :
  records_ok key l -> record_ok key r -> stored_id r ∉ map stored_id l ->
  records_ok key (insert_by record_key r l).
Proof.
  intros (Hall & Hs & Hnd) Hr Hid. pose proof (insert_by_perm record_key r l) as Hp. split_and!.
  - rewrite Hp. by constructor.
  - by apply insert_by_sorted.
  - rewrite Hp. simpl. by constructor.
Qed.

Lemma records_ok_map key f l :
  (forall r, se_evidence (f r) = se_evidence r) -> records_ok key l -> records_ok key (map f l).
Proof.
  intros Hf (Hall & Hs & Hnd). split_and!.
  - apply Forall_map. eapply Forall_impl; [exact Hall|]. intros r (H1 & H2 & H3).
    unfold record_ok, stored_generation, stored_id in *. by rewrite Hf.
  - clear -Hs Hf. induction Hs as [|r l Hs IH Hl]; simpl; [constructor|].
    constructor; [done|]. apply Forall_map. eapply Forall_impl; [exact Hl|]. intros r'.
    unfold key_le, record_key, stored_generation, stored_id. by rewrite !Hf.
  - rewrite map_map. erewrite map_ext; [exact Hnd|]. intros r. unfold stored_id. by rewrite Hf.
Qed.

Lemma highest_generation_map f l :
  (forall r, se_evidence (f r) = se_evidence r) -> highest_generation (map f l) = highest_generation l.
Proof.
  intros Hf. induction l as [|r l IH]; [done|]. simpl. rewrite !highest_generation_cons, IH.
  unfold stored_generation. by rewrite Hf.
Qed.

Lemma highest_generation_insert r l :
  highest_generation (insert_by record_key r l) =
  Z.max (Z.max 0 (stored_generation r)) (highest_generation l).
Proof. rewrite (highest_generation_perm _ _ (insert_by_perm _ _ _)). apply highest_generation_cons. Qed.

Lemma has_id_find id l r : find (has_id id) l = Some r -> r ∈ l /\ stored_id r = id.
Proof.
  intros Hf. apply List.find_some in Hf as [Hin Hid]. apply list_elem_of_In in Hin.
  unfold has_id in Hid. by apply bool_decide_eq_true in Hid.
Qed.

Lemma has_id_absent id l : existsb (has_id id) l = false -> id ∉ map stored_id l.
Proof.
  induction l as [|r l IH]; simpl; [intros _ Hin; by apply elem_of_nil in Hin|].
  intros [Hr Hl]%orb_false_iff. unfold has_id in Hr. apply bool_decide_eq_false in Hr.
  intros [E|Hin]%elem_of_cons; [by subst|by apply IH].
Qed.

(** ** The invariant *)

Definition devices_ok (m : list (DeviceIdentity * DeviceIncarnationEntry)) : Prop :=
  om_sorted m /\ om_all (fun d e => ie_device e = d /\ ie_current e ∈ ie_history e) m.

Definition store_ok (ds : list (DecisionId * CompatibilityDecision)) (order : list DecisionId) : Prop :=
  om_sorted ds /\ om_all (fun id d => cd_id d = id) ds /\ NoDup order /\
  (forall id, id ∈ order <-> om_find id ds <> None).

Record Inv (x : Impl) : Prop := mkInv {
  inv_groups : groups_ok (i_groups x);
  inv_total : i_total_records x = Z.of_nat (world_records (i_groups x));
  inv_devices : devices_ok (i_incarnations x);
  inv_store : store_ok (i_decisions x) (i_decision_order x) }.

(** The part of the state the invariant speaks of. *)
Definition core (x : Impl) :=
  (i_groups x, i_total_records x, i_incarnations x, (i_decisions x, i_decision_order x)).

Lemma Inv_core x y : core y = core x -> Inv x -> Inv y.
Proof.
  unfold core. intros E [H1 H2 H3 H4]. injection E as E1 E2 E3 E4 E5.
  split; by rewrite ?E1, ?E2, ?E3, ?E4, ?E5.
Qed.

Lemma refresh_conflict_core d k now x : core (refresh_conflict d k now x) = core x.
Proof. unfold refresh_conflict. by repeat case_match. Qed.

Lemma refresh_conflict_policy d k now x : i_policy (refresh_conflict d k now x) = i_policy x.
Proof. unfold refresh_conflict. by repeat case_match. Qed.

Lemma refresh_conflict_boot d k now x : i_boot_epoch (refresh_conflict d k now x) = i_boot_epoch x.
Proof. unfold refresh_conflict. by repeat case_match. Qed.

Lemma refresh_all_core now x :
  core (refresh_all_conflicts now x) = core x /\
  i_policy (refresh_all_conflicts now x) = i_policy x /\
  i_boot_epoch (refresh_all_conflicts now x) = i_boot_epoch x.
Proof.
  unfold refresh_all_conflicts.
  generalize (group_pairs (i_groups x)) as l. intros l.
  change (core x) with (core (set_i_conflicts [] x)).
  change (i_policy x) with (i_policy (set_i_conflicts [] x)).
  change (i_boot_epoch x) with (i_boot_epoch (set_i_conflicts [] x)).
  generalize (set_i_conflicts [] x) as y.
  induction l as [|[d k] l IH]; intros y; simpl; [done|].
  destruct (IH (refresh_conflict d k now y)) as (-> & -> & ->).
  by rewrite refresh_conflict_core, refresh_conflict_policy, refresh_conflict_boot.
Qed.

(** ** Eviction *)

(** The state after an eviction, and what it leaves alone. *)
Lemma apply_eviction_inv c now x x' id :
  Inv x -> apply_eviction c now x = Some (x', id) ->
  exists s r, find_stream x (ec_key c) = Some s /\ r ∈ stream_records s /\
    stored_id r = ec_id c /\ id = ec_id c /\
    i_groups x' = put_stream (i_groups x) (ec_key c)
      (mkStream (erase_first (has_id (ec_id c)) (stream_records s))
         (highest_generation (erase_first (has_id (ec_id c)) (stream_records s)))) /\
    i_policy x' = i_policy x /\ i_incarnations x' = i_incarnations x /\
    i_boot_epoch x' = i_boot_epoch x /\
    S (world_records (i_groups x')) = world_records (i_groups x) /\ Inv x'.
Proof.
  intros [Hg Ht Hd Hst] Ha. unfold apply_eviction in Ha.
  destruct (find_stream x (ec_key c)) as [s|] eqn:Es; [|done].
  destruct (find (has_id (ec_id c)) (stream_records s)) as [r|] eqn:Er; [|done].
  injection Ha as <- <-. destruct (has_id_find _ _ _ Er) as [Hin Hid].
  pose proof (lookup_stream_ok _ _ _ Hg Es) as [Hr Hm].
  pose proof (put_stream_len (i_groups x) (ec_key c)
    (mkStream (erase_first (has_id (ec_id c)) (stream_records s))
         (highest_generation (erase_first (has_id (ec_id c)) (stream_records s)))) Hg) as Hlen.
  unfold find_stream in Es. rewrite Es in Hlen. unfold opt_stream_len, stream_len in Hlen. simpl in Hlen.
  pose proof (Permutation_length (erase_first_perm _ _ _ Er)) as Hone. simpl in Hone.
  exists s, r.
  set (entry := mkEviction _ _ _ _ _ _).
  assert (core (push_eviction entry x) = core x) as Hc by (unfold push_eviction; by case_match).
  assert (i_policy (push_eviction entry x) = i_policy x) as Hp by (unfold push_eviction; by case_match).
  assert (i_boot_epoch (push_eviction entry x) = i_boot_epoch x) as Hb
    by (unfold push_eviction; by case_match).
  generalize dependent (push_eviction entry x). intros y Hc Hp Hb.
  unfold core in Hc. injection Hc as Hcg Hct Hci Hcd Hco.
  assert (i_groups (drop_record (ec_key c) (ec_id c) s y) = put_stream (i_groups x) (ec_key c)
      (mkStream (erase_first (has_id (ec_id c)) (stream_records s))
         (highest_generation (erase_first (has_id (ec_id c)) (stream_records s))))) as Eg.
  { unfold drop_record. simpl. rewrite Hcg. by case_match. }
  assert (i_total_records (drop_record (ec_key c) (ec_id c) s y) = i_total_records x - 1) as Et.
  { unfold drop_record. simpl. rewrite Hct. destruct (i_total_records x >? 0) eqn:E; simpl; [done|].
    simpl. lia. }
  split_and!; [done|done|done|done|done| | | | |].
  - unfold drop_record. by case_match.
  - unfold drop_record. by case_match.
  - unfold drop_record. by case_match.
  - rewrite Eg. lia.
  - split.
    + rewrite Eg. apply put_stream_ok; [done|]. split; [|done]. simpl.
      by eapply records_ok_sublist; [apply erase_first_sublist|].
    + rewrite Et, Eg. lia.
    + unfold drop_record. case_match; simpl; by rewrite Hci.
    + unfold drop_record. case_match; simpl; by rewrite Hcd, Hco.
Qed.

(** A picked candidate is a record of the world that passes the tests of the
    scan. *)
Lemma pick_fold_some x restrict forbidden now l out c :
  fold_left (pick_step x restrict forbidden now) l out = Some c ->
  out = Some c \/
  exists key s r, (key, s, r) ∈ l /\ ec_key c = key /\ ec_id c = stored_id r /\
    ec_priority c = eviction_priority x key s r now /\ ec_observed_at c = ce_observed_at (se_evidence r) /\
    stored_id r <> forbidden /\ evictable x now key (eviction_priority x key s r now) r = true /\
    (forall k, restrict = Some k -> key = k).
Proof.
  revert out. induction l as [|[[key s] r] l IH]; intros out Hf; simpl in Hf; [by left|].
  apply IH in Hf as [Hf|(key' & s' & r' & Hin & Hrest)].
  2: { right. exists key', s', r'. split; [by right|done]. }
  destruct (match restrict with Some k => negb (bool_decide (key = k)) | None => false end) eqn:E1;
    [by left|].
  destruct (bool_decide (stored_id r = forbidden)) eqn:E2; [by left|].
  destruct (evictable x now key (eviction_priority x key s r now) r) eqn:E3; simpl in Hf; [|by left].
  destruct (better out (eviction_priority x key s r now) r) eqn:E4; simpl in Hf; [|by left].
  right. injection Hf as <-. exists key, s, r. apply bool_decide_eq_false in E2.
  split_and!; try done; [by left|].
  intros k ->. apply negb_false_iff in E1. by apply bool_decide_eq_true in E1.
Qed.

Lemma pick_eviction_spec x restrict forbidden now c :
  groups_ok (i_groups x) -> pick_eviction_candidate x restrict forbidden now = Some c ->
  exists s r, find_stream x (ec_key c) = Some s /\ r ∈ stream_records s /\
    ec_id c = stored_id r /\ ec_priority c = eviction_priority x (ec_key c) s r now /\
    ec_observed_at c = ce_observed_at (se_evidence r) /\ stored_id r <> forbidden /\
    evictable x now (ec_key c) (ec_priority c) r = true /\
    (forall k, restrict = Some k -> ec_key c = k).
Proof.
  intros Hg Hp. apply pick_fold_some in Hp as [Hp|(key & s & r & Hin & E1 & E2 & E3 & E4 & H1 & H2 & H3)];
    [done|].
  subst key. apply (elem_all_records _ _ _ _ Hg) in Hin as [Hs Hr].
  exists s, r. rewrite E3 at 2. by split_and!.
Qed.

(** The candidate exists in its stream, so the eviction applies. *)
Lemma pick_then_apply x restrict forbidden now c :
  groups_ok (i_groups x) -> pick_eviction_candidate x restrict forbidden now = Some c ->
  exists x', apply_eviction c now x = Some (x', ec_id c).
Proof.
  intros Hg Hp. destruct (pick_eviction_spec _ _ _ _ _ Hg Hp) as (s & r & Hs & Hr & Hid & _).
  unfold apply_eviction. rewrite Hs.
  destruct (find (has_id (ec_id c)) (stream_records s)) as [r'|] eqn:Ef.
  - destruct (has_id_find _ _ _ Ef) as [_ E]. rewrite E. by eexists.
  - apply list_elem_of_In in Hr. pose proof (List.find_none _ _ Ef _ Hr) as Hn.
    unfold has_id in Hn. apply bool_decide_eq_false in Hn. by rewrite Hid in Hn.
Qed.

Lemma pick_none_empty x restrict forbidden now :
  world_records (i_groups x) = 0%nat -> pick_eviction_candidate x restrict forbidden now = None.
Proof.
  unfold world_records, pick_eviction_candidate. by destruct (all_records (i_groups x)).
Qed.

(** The evictions of a loop, one after another. *)
Inductive evictions (restrict : option EvidenceKey) (keep : EvidenceId) (now : Tick)
  : Impl -> list EvidenceId -> Impl -> Prop :=
| ev_refl x : evictions restrict keep now x [] x
| ev_step x c y ids z :
    pick_eviction_candidate x restrict keep now = Some c ->
    apply_eviction c now x = Some (y, ec_id c) ->
    evictions restrict keep now y ids z ->
    evictions restrict keep now x (ec_id c :: ids) z.

(** What the evictions leave unchanged. *)
Definition same_rules (x y : Impl) : Prop :=
  i_policy y = i_policy x /\ i_incarnations y = i_incarnations x /\ i_boot_epoch y = i_boot_epoch x.

Lemma evictions_inv restrict keep now x ids z :
  evictions restrict keep now x ids z -> Inv x ->
  Inv z /\ same_rules x z /\
  (world_records (i_groups z) + length ids = world_records (i_groups x))%nat.
Proof.
  induction 1 as [x|x c y ids z Hp Ha Hev IH]; intros Hx; [by rewrite Nat.add_0_r|].
  destruct (apply_eviction_inv _ _ _ _ _ Hx Ha) as (s & r & _ & _ & _ & _ & _ & E1 & E2 & E3 & E4 & Hy).
  destruct (IH Hy) as (Hz & (F1 & F2 & F3) & F4). unfold same_rules. simpl.
  split; [done|]. split; [by rewrite F1, F2, F3|lia].
Qed.

(** The global loop: a run of evictions that ends when the bound is met, or
    when nothing can be evicted. Fuel never ends it. *)
Lemma enforce_global_spec fuel keep now x acc :
  Inv x -> (world_records (i_groups x) <= fuel)%nat ->
  exists ok z ids, enforce_global fuel keep now x acc = (ok, z, acc ++ ids) /\
    evictions None keep now x ids z /\
    (if ok then i_total_records z <= max_records (rp_limits (i_policy z))
     else i_total_records z > max_records (rp_limits (i_policy z)) /\
          pick_eviction_candidate z None keep now = None).
Proof.
  revert x acc. induction fuel as [|fuel IH]; intros x acc Hx Hf; simpl;
    destruct (i_total_records x >? max_records (rp_limits (i_policy x))) eqn:E; simpl.
  - exists false, x, []. rewrite app_nil_r. split; [done|]. split; [constructor|].
    split; [lia|]. apply pick_none_empty. lia.
  - exists true, x, []. rewrite app_nil_r. split; [done|]. split; [constructor|lia].
  - destruct (pick_eviction_candidate x None keep now) as [c|] eqn:Ep.
    + destruct (pick_then_apply _ _ _ _ _ (inv_groups _ Hx) Ep) as [y Ha]. rewrite Ha.
      destruct (apply_eviction_inv _ _ _ _ _ Hx Ha) as (s & r & _ & _ & _ & _ & _ & _ & _ & _ & E4 & Hy).
      destruct (IH y (acc ++ [ec_id c]) Hy) as (ok & z & ids & Hr & Hev & Hok); [lia|].
      exists ok, z, (ec_id c :: ids). rewrite Hr, <- app_assoc. split; [done|]. split; [|done].
      by econstructor.
    + exists false, x, []. rewrite app_nil_r. split; [done|]. split; [constructor|]. split; [lia|done].
  - exists true, x, []. rewrite app_nil_r. split; [done|]. split; [constructor|lia].
Qed.

Definition stream_within (key : EvidenceKey) (x : Impl) : Prop :=
  match find_stream x key with
  | None => True
  | Some s => Z.of_nat (length (stream_records s)) <= max_records_per_stream (rp_limits (i_policy x))
  end.

Lemma enforce_stream_spec fuel key keep now x acc :
  Inv x -> (world_records (i_groups x) <= fuel)%nat ->
  exists ok z ids, enforce_stream fuel key keep now x acc = (ok, z, acc ++ ids) /\
    evictions (Some key) keep now x ids z /\
    (if ok then stream_within key z
     else ~ stream_within key z /\ pick_eviction_candidate z (Some key) keep now = None).
Proof.
  revert x acc. induction fuel as [|fuel IH]; intros x acc Hx Hf; simpl;
    (destruct (find_stream x key) as [s|] eqn:Es;
     [destruct (Z.of_nat (length (stream_records s)) <=? max_records_per_stream (rp_limits (i_policy x))) eqn:E;
      simpl|]).
  all: try (exists true, x, []; rewrite app_nil_r; split; [done|]; split; [constructor|];
            unfold stream_within; rewrite Es; done || lia).
  - exists false, x, []. rewrite app_nil_r. split; [done|]. split; [constructor|].
    split; [unfold stream_within; rewrite Es; lia|]. apply pick_none_empty. lia.
  - destruct (pick_eviction_candidate x (Some key) keep now) as [c|] eqn:Ep.
    + destruct (pick_then_apply _ _ _ _ _ (inv_groups _ Hx) Ep) as [y Ha]. rewrite Ha.
      destruct (apply_eviction_inv _ _ _ _ _ Hx Ha) as (s' & r & _ & _ & _ & _ & _ & _ & _ & _ & E4 & Hy).
      destruct (IH y (acc ++ [ec_id c]) Hy) as (ok & z & ids & Hr & Hev & Hok); [lia|].
      exists ok, z, (ec_id c :: ids). rewrite Hr, <- app_assoc. split; [done|]. split; [|done].
      by econstructor.
    + exists false, x, []. rewrite app_nil_r. split; [done|]. split; [constructor|].
      split; [unfold stream_within; rewrite Es; lia|done].
Qed.

Lemma enforce_budget_run key keep now x :
  Inv x ->
  exists ok y z ids1 ids2, enforce_budget key keep now x = (ok, z, ids1 ++ ids2) /\
    evictions None keep now x ids1 y /\ evictions (Some key) keep now y ids2 z /\
    (ok = true -> i_total_records z <= max_records (rp_limits (i_policy z)) /\ stream_within key z) /\
    (ok = false ->
       (ids2 = [] /\ z = y /\ i_total_records z > max_records (rp_limits (i_policy z)) /\
        pick_eviction_candidate z None keep now = None) \/
       (~ stream_within key z /\ pick_eviction_candidate z (Some key) keep now = None)).
Proof.
  intros Hx. unfold enforce_budget, budget_fuel.
  destruct (enforce_global_spec (S (world_records (i_groups x))) keep now x [] Hx)
    as (ok & y & ids1 & -> & H1 & Hok); [lia|]. cbn [app].
  destruct ok.
  - destruct (evictions_inv _ _ _ _ _ _ H1 Hx) as (Hy & (Hp & _) & _).
    destruct (enforce_stream_spec (S (world_records (i_groups y))) key keep now y ids1 Hy)
      as (ok & z & ids2 & -> & H2 & Hok2); [lia|].
    destruct (evictions_inv _ _ _ _ _ _ H2 Hy) as (Hz & (Hp2 & _) & Hlen).
    exists ok, y, z, ids1, ids2. split_and!; [done..| |].
    + intros ->. split; [|done]. rewrite Hp2. rewrite (inv_total _ Hz). rewrite (inv_total _ Hy) in Hok.
      lia.
    + intros ->. by right.
  - exists false, y, y, ids1, []. rewrite app_nil_r.
    split_and!; [done..|constructor|done|]. intros _. left. by destruct Hok.
Qed.

(** ** Admission preserves the invariant *)

Lemma push_history_elem n m h : n ∈ push_history m h <-> n = m \/ n ∈ h.
Proof.
  unfold push_history. rewrite sort_by_elem, elem_of_app, list_elem_of_singleton. tauto.
Qed.

Lemma set_device_ok d e m :
  devices_ok m -> ie_device e = d -> ie_current e ∈ ie_history e -> devices_ok (om_set d e m).
Proof. intros [H1 H2] Hd Hc. split; [by apply om_set_sorted|by apply om_set_all]. Qed.

Lemma devices_find m d e : devices_ok m -> om_find d m = Some e ->
  ie_device e = d /\ ie_current e ∈ ie_history e.
Proof. intros [_ Hall] Hf. exact (om_all_find _ _ _ _ Hall Hf). Qed.

Lemma Inv_devices x m : devices_ok m -> Inv x -> Inv (set_i_incarnations m x).
Proof. intros Hm []. by split. Qed.

Lemma raise_next_core n x : core (raise_next_incarnation n x) = core x.
Proof. unfold raise_next_incarnation. by case_match. Qed.

Lemma register_device_inv d x y :
  register_device d x = inr y -> Inv x ->
  Inv y /\ i_groups y = i_groups x /\ i_policy y = i_policy x.
Proof.
  unfold register_device, find_device. cbv zeta. intros Hr Hx. pose proof (inv_devices _ Hx) as Hd.
  assert (forall n z, i_policy (raise_next_incarnation n z) = i_policy z) as Hp
    by (clear; intros; unfold raise_next_incarnation; by case_match).
  assert (forall n z, i_groups (raise_next_incarnation n z) = i_groups z) as Hgr
    by (clear; intros; unfold raise_next_incarnation; by case_match).
  destruct (om_find (dr_device d) (i_incarnations x)) as [e|] eqn:Ee.
  - destruct (devices_find _ _ _ Hd Ee) as [E1 E2].
    destruct (in_history _ _); [|destruct (_ >=? _); [done|]]; injection Hr as <-; rewrite Hp, Hgr;
      (split; [|done]); (eapply Inv_core; [apply raise_next_core|]); [done|].
    apply Inv_devices; [|done]. apply set_device_ok; [done..|]. apply push_history_elem. by right.
  - destruct (_ >=? _); [done|]. injection Hr as <-. rewrite Hp, Hgr. split; [|done].
    eapply Inv_core; [apply raise_next_core|]. apply Inv_devices; [|done].
    apply set_device_ok; [done..|]. by left.
Qed.

Lemma empty_stream_ok key : stream_ok key empty_stream.
Proof. repeat split; constructor. Qed.

Lemma ensure_stream_inv key x s y :
  ensure_stream key x = (s, y) -> Inv x ->
  Inv y /\ find_stream y key = Some s /\ stream_ok key s /\ i_policy y = i_policy x.
Proof.
  unfold ensure_stream. intros He Hx. pose proof (inv_groups _ Hx) as Hg.
  destruct (find_stream x key) as [s'|] eqn:Es; injection He as <- <-.
  - split_and!; [done..| |done]. by eapply lookup_stream_ok.
  - unfold find_stream in *. simpl. rewrite lookup_stream_put, decide_True by done.
    split_and!; [|done|apply empty_stream_ok|done].
    pose proof (put_stream_len _ key empty_stream Hg) as Hl. rewrite Es in Hl.
    unfold opt_stream_len, stream_len in Hl. simpl in Hl.
    destruct Hx as [H1 H2 H3 H4]. split; simpl; [|lia|done|done].
    apply put_stream_ok; [done|apply empty_stream_ok].
Qed.

(** Replacing a stream by one with [n] more records. *)
Lemma set_stream_inv key s s' n x :
  Inv x -> find_stream x key = Some s -> stream_ok key s' ->
  stream_len s' = (stream_len s + n)%nat ->
  Inv (set_i_total_records (i_total_records x + Z.of_nat n) (set_stream key s' x)).
Proof.
  intros [H1 H2 H3 H4] Hs Hok Hn. unfold find_stream in Hs.
  pose proof (put_stream_len _ key s' H1) as Hl. rewrite Hs in Hl. unfold opt_stream_len in Hl.
  split; simpl; [by apply put_stream_ok|lia|done|done].
Qed.

Lemma admit_refused_inv key e s reason now x :
  Inv x -> find_stream x key = Some s -> record_ok key (mkStored e LcRejected reason now None Ok_) ->
  evidence_id e ∉ map stored_id (stream_records s) ->
  ce_generation e <= stream_max_generation s ->
  Inv (snd (admit_refused key e s reason now x)).
Proof.
  intros Hx Hs Hr Hid Hgen. unfold admit_refused. cbn [snd].
  pose proof (lookup_stream_ok _ _ _ (inv_groups _ Hx) Hs) as [Hrs Hm].
  case_match; [|by apply (Inv_core x)]. eapply Inv_core; [apply refresh_conflict_core|].
  apply (set_stream_inv _ s _ 1 (count inc_c_admissions_rejected x)); [by apply (Inv_core x)|done| |].
  - split; simpl; [by apply records_ok_insert|].
    rewrite highest_generation_insert. unfold stored_generation. simpl.
    pose proof (highest_generation_nonneg (stream_records s)). lia.
  - unfold stream_len. simpl.
    rewrite (Permutation_length (insert_by_perm _ _ _)). simpl. lia.
Qed.

Lemma prune_group_ok g d k : groups_ok g -> groups_ok (prune_group g d k).
Proof.
  intros [Hs Hall]. unfold prune_group. destruct (om_find d g) as [kinds|] eqn:Ed; [|done].
  destruct (om_all_find _ _ _ _ Hall Ed) as [Hks Hka].
  pose proof (om_erase_sorted k kinds Hks) as Hs'. pose proof (om_erase_all _ k kinds Hka) as Ha'.
  destruct (om_erase k kinds) as [|e kinds'] eqn:Ek.
  - split; [by apply om_erase_sorted|by apply om_erase_all].
  - by apply erase_group_ok.
Qed.

Lemma prune_group_len g d k gr : groups_ok g -> lookup_group g d k = Some gr -> gs_streams gr = [] ->
  world_records (prune_group g d k) = world_records g.
Proof.
  intros [Hs Hall] Hl He. unfold lookup_group in Hl. rewrite !world_records_total. unfold prune_group.
  destruct (om_find d g) as [kinds|] eqn:Ed; [|done].
  pose proof (om_total_erase group_len k kinds) as H1. rewrite Hl in H1. simpl in H1.
  assert (group_len gr = 0%nat) as E0 by (unfold group_len; by rewrite He).
  destruct (om_erase k kinds) as [|e kinds'] eqn:Ek.
  - pose proof (om_total_erase kinds_len d g) as H2. rewrite Ed in H2. simpl in *. unfold kinds_len in *. lia.
  - pose proof (om_total_set kinds_len d (e :: kinds') g Hs) as H2. rewrite Ed in H2.
    unfold kinds_len in *. simpl in *. lia.
Qed.

Lemma existsb_find {A} (p : A -> bool) l :
  existsb p l = match find p l with Some _ => true | None => false end.
Proof. induction l as [|a l IH]; simpl; [done|]. by destruct (p a). Qed.

(** The group of the rollback before it is pruned. *)
Lemma rollback_group_ok d k src group s incoming :
  group_ok d k group ->
  s = match om_find src (gs_streams group) with Some s => s | None => empty_stream end ->
  let records := erase_first (has_id incoming) (stream_records s) in
  let streams := om_set src (mkStream records (highest_generation records)) (gs_streams group) in
  let streams' := match records with [] => om_erase src streams | _ => streams end in
  group_ok d k (mkGroup streams' (gs_tombstones group)) /\
  (om_total stream_len streams' +
   (if existsb (has_id incoming) (stream_records s) then 1 else 0) = group_len group)%nat.
Proof.
  intros (H1 & H2 & H3 & H4) Es records streams streams'.
  assert (stream_ok (mkEvidenceKey d k src) s) as [Hr Hm].
  { subst s. destruct (om_find src (gs_streams group)) eqn:E; [|apply empty_stream_ok].
    exact (om_all_find _ _ _ _ H2 E). }
  assert (om_sorted streams) as Hss by by apply om_set_sorted.
  assert (om_all (fun source s => stream_ok (mkEvidenceKey d k source) s) streams) as Hsa.
  { apply om_set_all; [done|]. split; [|done]. simpl.
    by eapply records_ok_sublist; [apply erase_first_sublist|]. }
  assert (opt_total stream_len (om_find src (gs_streams group)) = stream_len s) as Eo.
  { subst s. by destruct (om_find src (gs_streams group)). }
  pose proof (om_total_set stream_len src (mkStream records (highest_generation records)) _ H1) as Hlen.
  fold streams in Hlen. rewrite Eo in Hlen.
  assert (length records + (if existsb (has_id incoming) (stream_records s) then 1 else 0) =
          length (stream_records s))%nat as Hl.
  { unfold records. rewrite existsb_find. destruct (find (has_id incoming) (stream_records s)) eqn:Ef.
    - rewrite (Permutation_length (erase_first_perm _ _ _ Ef)). simpl. lia.
    - rewrite erase_first_none by done. lia. }
  unfold group_len, stream_len in *. simpl in Hlen. split.
  - split_and!; simpl; [..|done|done]; unfold streams'; destruct records; auto;
      [by apply om_erase_sorted|by apply om_erase_all].
  - unfold streams'. destruct records as [|r records'] eqn:Er; [|simpl in *; lia].
    pose proof (om_total_erase (fun s => length (stream_records s)) src streams) as He.
    unfold streams in He at 2. rewrite om_find_set_eq in He. simpl in *. lia.
Qed.

Lemma admit_rollback_inv key incoming x : Inv x -> Inv (admit_rollback key incoming x).
Proof.
  intros Hx. unfold admit_rollback. destruct (find_group x key) as [group|] eqn:Eg; [|done].
  unfold find_group in Eg. destruct Hx as [H1 H2 H3 H4].
  pose proof (lookup_group_ok _ _ _ _ H1 Eg) as Hok.
  set (s := match om_find (ek_source key) (gs_streams group) with Some s => s | None => empty_stream end).
  destruct (rollback_group_ok _ _ _ _ s incoming Hok eq_refl) as [Hok' Hlen].
  cbv zeta in *. fold s.
  set (streams' := match erase_first (has_id incoming) (stream_records s) with
                   | [] => om_erase _ _ | _ => _ end) in *.
  assert (exists t, i_total_records x = t + (if existsb (has_id incoming) (stream_records s) then 1 else 0) /\
    forall g, core (set_i_groups g (if existsb (has_id incoming) (stream_records s) && (i_total_records x >? 0)
      then set_i_total_records (i_total_records x - 1) x else x)) =
    (g, t, i_incarnations x, (i_decisions x, i_decision_order x))) as (t & Ht & Hc).
  { pose proof (put_group_len _ (ek_device key) (ek_kind key) (mkGroup streams' (gs_tombstones group)) H1) as Hw.
    unfold group_or_empty in Hw. rewrite Eg in Hw. unfold group_len in Hw at 2. simpl in Hw.
    destruct (existsb _ _); simpl.
    - exists (i_total_records x - 1). split; [lia|]. intros g.
      destruct (i_total_records x >? 0) eqn:E; [done|]. lia.
    - exists (i_total_records x). split; [lia|]. done. }
  assert (groups_ok (put_group (i_groups x) (ek_device key) (ek_kind key)
            (mkGroup streams' (gs_tombstones group)))) as Hp by by apply put_group_ok.
  pose proof (put_group_len _ (ek_device key) (ek_kind key) (mkGroup streams' (gs_tombstones group)) H1) as Hw.
  unfold group_or_empty in Hw. rewrite Eg in Hw. unfold group_len in Hw at 2. simpl in Hw.
  assert (i_groups (if existsb (has_id incoming) (stream_records s) && (i_total_records x >? 0)
      then set_i_total_records (i_total_records x - 1) x else x) = i_groups x) as -> by by case_match.
  assert (forall g, groups_ok g -> world_records g = world_records (put_group (i_groups x) (ek_device key)
      (ek_kind key) (mkGroup streams' (gs_tombstones group))) ->
    Inv (set_i_groups g (if existsb (has_id incoming) (stream_records s) && (i_total_records x >? 0)
      then set_i_total_records (i_total_records x - 1) x else x))) as Hfin.
  { intros g Hgok Hgw. apply (Inv_core (set_i_total_records t (set_i_groups g x))); [exact (Hc g)|].
    split; simpl; [done| |done|done]. rewrite Hgw. destruct (existsb _ _); lia. }
  destruct streams' as [|? ?] eqn:Est; [destruct (gs_tombstones group) eqn:Etb|]; apply Hfin; try done.
  - by apply prune_group_ok.
  - apply (prune_group_len _ _ _ (mkGroup [] [])); [done|apply lookup_group_put_eq|done].
Qed.

(** The stream of an accepted record. *)
Lemma accepted_stream_ok key e s reason now :
  stream_ok key s -> record_ok key (mkStored e LcAdmitted reason now None Ok_) ->
  evidence_id e ∉ map stored_id (stream_records s) -> stream_max_generation s < ce_generation e ->
  stream_ok key (mkStream (insert_by record_key (mkStored e LcAdmitted reason now None Ok_)
                             (stream_records s)) (ce_generation e)).
Proof.
  intros [Hrs Hm] Hr Hid Hgen. split; simpl; [by apply records_ok_insert|].
  rewrite highest_generation_insert. unfold stored_generation. simpl.
  pose proof (highest_generation_nonneg (stream_records s)). lia.
Qed.

Lemma insert_by_len r l : length (insert_by record_key r l) = S (length l).
Proof. by rewrite (Permutation_length (insert_by_perm _ _ _)). Qed.

Lemma admit_accept_inv key e s now x :
  Inv x -> find_stream x key = Some s ->
  (forall reason, record_ok key (mkStored e LcAdmitted reason now None Ok_)) ->
  evidence_id e ∉ map stored_id (stream_records s) -> stream_max_generation s < ce_generation e ->
  Inv (snd (admit_accept key e s now x)).
Proof.
  intros Hx Hs Hr Hid Hgen. unfold admit_accept. cbv zeta.
  pose proof (lookup_stream_ok _ _ _ (inv_groups _ Hx) Hs) as Hso.
  set (reason := if stream_max_generation s =? 0 then _ else _).
  set (stored := mkStored e LcAdmitted reason now None Ok_).
  set (y := set_i_total_records _ _).
  assert (Inv y) as Hy.
  { apply (set_stream_inv key s _ 1 x); [done..| |].
    - by apply accepted_stream_ok.
    - unfold stream_len. simpl. rewrite insert_by_len. lia. }
  destruct (enforce_budget_run key (evidence_id e) now y Hy) as (ok & y1 & z & ids1 & ids2 & -> & H1 & H2 & _).
  destruct (evictions_inv _ _ _ _ _ _ H1 Hy) as (Hy1 & _).
  destruct (evictions_inv _ _ _ _ _ _ H2 Hy1) as (Hz & _).
  destruct ok; simpl.
  - eapply Inv_core; [apply refresh_conflict_core|]. by apply (Inv_core z).
  - apply (Inv_core (admit_rollback key (evidence_id e) z)); [done|]. by apply admit_rollback_inv.
Qed.

Lemma admission_record_ok q x lc reason now :
  0 < aq_generation q ->
  record_ok (admission_key q) (mkStored (admission_evidence q x) lc reason now None Ok_).
Proof.
  intros Hq. split_and!; [done|done|]. unfold stored_id, admission_evidence, refresh_id. simpl.
  by rewrite compute_digest_cache.
Qed.

Lemma admit_record_inv key e now x :
  Inv x -> (forall lc reason, record_ok key (mkStored e lc reason now None Ok_)) ->
  Inv (snd (admit_record key e now x)).
Proof.
  intros Hx Hr. unfold admit_record. destruct (ensure_stream key x) as [s y] eqn:Ee.
  destruct (ensure_stream_inv _ _ _ _ Ee Hx) as (Hy & Hs & Hso & _).
  destruct (existsb _ _) eqn:Ed; [by apply (Inv_core y)|]. apply has_id_absent in Ed.
  destruct Hso as [_ Hm]. pose proof (highest_generation_nonneg (stream_records s)).
  destruct (Hr LcAdmitted Ok_) as (_ & Hpos & _). unfold stored_generation in Hpos. simpl in Hpos.
  destruct (negb (stream_max_generation s =? 0) && (ce_generation e <? stream_max_generation s)) eqn:E1;
    [apply admit_refused_inv; auto; lia|].
  destruct (negb (stream_max_generation s =? 0) && (ce_generation e =? stream_max_generation s)) eqn:E2;
    [apply admit_refused_inv; auto; lia|].
  apply admit_accept_inv; auto. lia.
Qed.

Definition admission_ok (q : AdmissionRequest) : Prop := in_u 64 (aq_generation q).

Lemma admit_inv q now x : Inv x -> admission_ok q -> Inv (snd (registry_admit q now x)).
Proof.
  intros Hx Hq. unfold registry_admit.
  assert (forall reason detail y, Inv y -> Inv (snd (admit_reject reason detail y))) as Hrej
    by (intros reason detail y Hy; by apply (Inv_core y)).
  destruct (admit_guard q now x) as [[reason detail]|] eqn:Eg; [by apply Hrej|].
  destruct (admit_content q x) as [[reason detail]|]; [by apply Hrej|].
  destruct (register_device (aq_device q) x) as [detail|y] eqn:Er; [by apply Hrej|].
  destruct (register_device_inv _ _ _ Er Hx) as (Hy & _).
  cbv zeta. destruct (_ && _); [by apply Hrej|].
  case_if; [by apply Hrej|].
  apply admit_record_inv; [done|]. intros lc reason. apply admission_record_ok.
  unfold admit_guard, is_unset in Eg. destruct (aq_generation q =? 0) eqn:E0; [done|].
  unfold admission_ok, in_u in Hq. lia.
Qed.

(** ** The other operations *)

Lemma push_tombstone_inv t x : Inv x -> Inv (push_tombstone t x).
Proof.
  intros Hx. unfold push_tombstone. cbv zeta. case_if; [done|].
  assert (Inv (set_i_groups (put_tombstone (i_groups x) (rr_key t) t) x)) as Hy.
  { destruct Hx as [H1 H2 H3 H4]. split; simpl; [by apply put_tombstone_ok| |done|done].
    by rewrite (put_tombstone_len _ _ _ H1). }
  case_if; [|done]. destruct (oldest_tombstone _) as [[oldest o]|]; [|done]. case_if; [|done].
  apply (Inv_core (set_i_groups (erase_tombstone (put_tombstone (i_groups x) (rr_key t) t) oldest)
                     (set_i_groups (put_tombstone (i_groups x) (rr_key t) t) x))); [done|].
  destruct Hy as [H1' H2' H3' H4']. simpl in *.
  split; simpl; [by apply erase_tombstone_ok| |done|done]. by rewrite (erase_tombstone_len _ _ H1').
Qed.

Lemma retire_record_evidence n now reason r : se_evidence (retire_record n now reason r) = se_evidence r.
Proof. unfold retire_record. by case_match. Qed.

Lemma retire_stream_inv q s now x :
  Inv x -> find_stream x (retirement_key q) = Some s -> Inv (snd (retire_stream q s now x)).
Proof.
  intros Hx Hs. unfold retire_stream. cbv zeta. cbn [snd].
  pose proof (lookup_stream_ok _ _ _ (inv_groups _ Hx) Hs) as [Hrs Hm].
  eapply Inv_core; [apply refresh_conflict_core|].
  apply (Inv_core (push_tombstone (retirement_record q now x)
    (set_stream (retirement_key q) (mkStream (map (retire_record (rt_generation q) now
       (rr_reason (retirement_record q now x))) (stream_records s)) (stream_max_generation s)) x))); [done|].
  apply push_tombstone_inv.
  pose proof (set_stream_inv (retirement_key q) s (mkStream (map (retire_record (rt_generation q) now
       (rr_reason (retirement_record q now x))) (stream_records s)) (stream_max_generation s)) 0 x Hx Hs) as Hi.
  eapply Inv_core; [|apply Hi].
  - unfold core. simpl. by rewrite Z.add_0_r.
  - split; simpl; [|rewrite highest_generation_map; [done|]]; [apply records_ok_map; [|done]|];
      intros; apply retire_record_evidence.
  - unfold stream_len. simpl. by rewrite length_map, Nat.add_0_r.
Qed.

Lemma retire_inv q now x : Inv x -> Inv (snd (retire q now x)).
Proof.
  intros Hx. unfold retire. cbv zeta.
  assert (forall reason detail, Inv (snd (retire_reject reason detail x))) as Hrej
    by (intros reason detail; by apply (Inv_core x)).
  do 2 (case_if; [by apply Hrej|]). destruct (find_device _ _); [|by apply Hrej].
  case_if; [by apply (Inv_core x)|].
  case_if; [by apply Hrej|].
  destruct (find_stream x (retirement_key q)) eqn:Es; [|by apply Hrej].
  case_if; [by apply Hrej|]. by apply retire_stream_inv.
Qed.

(** ** The explanation store *)

Lemma store_ok_length ds order : store_ok ds order -> length order = length ds.
Proof.
  intros (Hs & _ & Hnd & Hiff). rewrite <- (length_map fst ds).
  apply Permutation_length, NoDup_Permutation; [done|by apply strict_sorted_nodup|].
  intros id. rewrite Hiff. split.
  - intros Hf. destruct (om_find id ds) as [d|] eqn:E; [|done].
    apply list_elem_of_fmap. exists (id, d). split; [done|by apply om_find_elem].
  - intros ([id' d] & -> & Hin)%list_elem_of_fmap. simpl. by rewrite (om_elem_find _ _ _ Hs Hin).
Qed.

Lemma store_ok_tail ds id rest :
  store_ok ds (id :: rest) -> store_ok (om_erase id ds) rest.
Proof.
  intros (Hs & Hall & Hnd & Hiff). apply NoDup_cons in Hnd as [Hid Hnd].
  split_and!; [by apply om_erase_sorted|by apply om_erase_all|done|].
  intros id'. destruct (decide (id' = id)) as [->|Hne].
  - rewrite om_find_erase_eq by done. by split.
  - rewrite om_find_erase_ne by done. rewrite <- Hiff, elem_of_cons. tauto.
Qed.

(** What trimming leaves alone. *)
Definition outside_store (x : Impl) :=
  (i_groups x, i_total_records x, i_incarnations x, i_policy x, i_boot_epoch x).

Lemma trim_decisions_spec order x :
  store_ok (i_decisions x) order ->
  let y := trim_decisions order x in
  store_ok (i_decisions y) (i_decision_order y) /\ outside_store y = outside_store x /\
  (Z.of_nat (length (i_decisions y)) < max_decisions (rp_limits (i_policy x)) \/ i_decisions y = []) /\
  (forall id d, om_find id (i_decisions y) = Some d -> om_find id (i_decisions x) = Some d).
Proof.
  revert x. induction order as [|id rest IH]; intros x Hst; simpl.
  - split_and!; [done|done| |done]. right.
    pose proof (store_ok_length _ _ Hst) as Hl. by destruct (i_decisions x).
  - destruct (Z.of_nat (length (i_decisions x)) >=? max_decisions (rp_limits (i_policy x))) eqn:E;
      [|split_and!; [done|done|left; simpl; lia|done]].
    set (y := if match om_find id (i_decisions x) with Some _ => true | None => false end
              then count _ _ else _).
    assert (i_decisions y = om_erase id (i_decisions x)) as Ed by (unfold y; by case_if).
    assert (outside_store y = outside_store x) as Eo by (unfold y; by case_if).
    assert (i_policy y = i_policy x) as Ep by (unfold y; by case_if).
    destruct (IH y) as (H1 & H2 & H3 & H4); [rewrite Ed; by apply store_ok_tail|].
    split_and!; [done|by rewrite H2|by rewrite <- Ep|].
    intros id' d Hf. specialize (H4 _ _ Hf). rewrite Ed in H4. destruct Hst as (Hs & _).
    destruct (decide (id' = id)) as [->|Hne]; [by rewrite om_find_erase_eq in H4|].
    by rewrite om_find_erase_ne in H4.
Qed.

Lemma store_ok_set ds order d :
  store_ok ds order -> om_find (cd_id d) ds = None ->
  store_ok (om_set (cd_id d) d ds) (order ++ [cd_id d]).
Proof.
  intros (Hs & Hall & Hnd & Hiff) Hf.
  split_and!; [by apply om_set_sorted|by apply om_set_all| |].
  - apply NoDup_app. split_and!; [done| |apply NoDup_singleton].
    intros id Hin ->%list_elem_of_singleton. by apply Hiff in Hin.
  - intros id. rewrite elem_of_app, list_elem_of_singleton, om_find_set, Hiff.
    destruct (ceq id (cd_id d)) eqn:E; [apply ceq_true in E; naive_solver|].
    apply ceq_false in E. naive_solver.
Qed.

Lemma push_decision_spec d x :
  store_ok (i_decisions x) (i_decision_order x) ->
  let y := push_decision d x in
  store_ok (i_decisions y) (i_decision_order y) /\ outside_store y = outside_store x /\
  om_find (cd_id d) (i_decisions y) = Some d /\
  (om_find (cd_id d) (i_decisions x) = None ->
   Z.of_nat (length (i_decisions y)) <= Z.max 1 (max_decisions (rp_limits (i_policy x)))) /\
  (om_find (cd_id d) (i_decisions x) <> None -> length (i_decisions y) = length (i_decisions x)).
Proof.
  intros Hst. unfold push_decision. destruct (om_find (cd_id d) (i_decisions x)) as [old|] eqn:Eo; simpl.
  - pose proof Hst as (Hs & Hall & Hnd & Hiff).
    pose proof (om_total_set (fun _ => 1%nat) (cd_id d) d (i_decisions x) Hs) as Ht.
    rewrite <- !om_length_total, Eo in Ht. simpl in Ht.
    split_and!; [|done|apply om_find_set_eq|done|intros _; lia].
    split_and!; [by apply om_set_sorted|by apply om_set_all|done|].
    intros id. rewrite Hiff, om_find_set. destruct (ceq id (cd_id d)) eqn:E; [|done].
    apply ceq_true in E as ->. by rewrite Eo.
  - destruct (trim_decisions_spec _ _ Hst) as (H1 & H2 & H3 & H4). cbv zeta in *.
    set (y := trim_decisions (i_decision_order x) x) in *.
    assert (om_find (cd_id d) (i_decisions y) = None) as En.
    { destruct (om_find (cd_id d) (i_decisions y)) eqn:E; [|done]. apply H4 in E. by rewrite Eo in E. }
    split_and!; [by apply store_ok_set|done|apply om_find_set_eq| |done].
    intros _. pose proof H1 as (Hs & _).
    pose proof (om_total_set (fun _ => 1%nat) (cd_id d) d (i_decisions y) Hs) as Ht.
    rewrite <- !om_length_total, En in Ht. simpl in Ht.
    destruct H3 as [H3|H3]; [lia|]. rewrite H3 in Ht |- *. simpl in *. lia.
Qed.

Lemma evaluate_inv r now x : Inv x -> Inv (snd (evaluate r now x)).
Proof.
  intros [H1 H2 H3 H4]. unfold evaluate. cbn [snd].
  destruct (push_decision_spec (decide_requirement r now x) x H4) as (S1 & S2 & _).
  apply (Inv_core (push_decision (decide_requirement r now x) x)); [done|].
  unfold outside_store in S2. injection S2 as E1 E2 E3 E4 E5. split; by rewrite ?E1, ?E2, ?E3.
Qed.

(** ** Policy, devices and clock *)

Lemma refresh_all_inv now x : Inv x -> Inv (refresh_all_conflicts now x).
Proof. apply Inv_core, refresh_all_core. Qed.

Lemma begin_device_incarnation_inv d now x : Inv x -> Inv (snd (begin_device_incarnation d now x)).
Proof.
  intros Hx. unfold begin_device_incarnation, take_incarnation, find_device. cbv zeta.
  pose proof (inv_devices _ Hx) as Hd.
  destruct (om_find d (i_incarnations x)) as [e|] eqn:Ee;
    (destruct (_ >=? _); [done|]); cbn [snd].
  - destruct (devices_find _ _ _ Hd Ee) as [E1 E2]. apply refresh_all_inv.
    match goal with |- Inv (bump_policy_revision (set_i_incarnations ?m _)) =>
      apply (Inv_core (set_i_incarnations m x)); [done|]; apply Inv_devices; [|done] end.
    apply set_device_ok; [done..|]. apply push_history_elem. by left.
  - match goal with |- Inv (bump_policy_revision (set_device ?e _)) =>
      apply (Inv_core (set_i_incarnations (om_set (ie_device e) e (i_incarnations x)) x));
      [done|]; apply Inv_devices; [|done] end.
    apply set_device_ok; [done..|]. by left.
Qed.

Lemma set_device_incarnation_inv d n now x : Inv x -> Inv (snd (set_device_incarnation d n now x)).
Proof.
  intros Hx. unfold set_device_incarnation, find_device. cbv zeta.
  pose proof (inv_devices _ Hx) as Hd. case_if; [done|].
  destruct (om_find d (i_incarnations x)) as [e|] eqn:Ee.
  - destruct (devices_find _ _ _ Hd Ee) as [E1 E2].
    destruct (negb _ && _); [done|].
    set (h := if in_history n (ie_history e) then _ else _).
    assert (forall m, m ∈ ie_history e -> m ∈ h) as Hh.
    { intros m Hm. unfold h. case_if; [done|]. apply push_history_elem. by right. }
    assert (n ∈ h) as Hn.
    { unfold h, in_history. case_if; [|apply push_history_elem; by left].
      match goal with Hb : existsb _ _ = true |- _ => apply existsb_exists in Hb as (m & Hm & Em) end.
      apply Z.eqb_eq in Em as ->. by apply list_elem_of_In. }
    set (y := raise_next_incarnation _ _).
    assert (Inv y) as Hy.
    { unfold y. eapply Inv_core; [apply raise_next_core|]. apply Inv_devices; [|done].
      apply set_device_ok; [done..|]. by apply Hh. }
    case_if; cbn [snd]; [done|]. apply refresh_all_inv.
    match goal with |- Inv (bump_policy_revision (set_i_incarnations ?m _)) =>
      apply (Inv_core (set_i_incarnations m y)); [done|]; apply Inv_devices; [|done] end.
    apply set_device_ok; [apply (inv_devices _ Hy)|done|done].
  - case_if; [done|]. cbn [snd]. apply refresh_all_inv.
    match goal with |- Inv (bump_policy_revision ?y) => apply (Inv_core y); [done|] end.
    eapply Inv_core; [apply raise_next_core|]. apply Inv_devices; [|done].
    apply set_device_ok; [done..|]. by left.
Qed.

Lemma change_source_inv source already change now x : Inv x ->
  Inv (snd (change_source source already change now x)).
Proof.
  intros Hx. unfold change_source. destruct (find_last _ _) as [t|]; [|done].
  case_if; [done|]. cbn [snd]. apply refresh_all_inv. by apply (Inv_core x).
Qed.

Lemma upsert_source_policy_inv p now x : Inv x -> Inv (snd (upsert_source_policy p now x)).
Proof.
  intros Hx. unfold upsert_source_policy. cbv zeta. case_if; [done|].
  destruct (existsb _ _); [|destruct (_ >=? _); [done|]]; cbn [snd]; apply refresh_all_inv;
    by apply (Inv_core x).
Qed.

Lemma resolve_conflict_inv c e r now x : Inv x -> Inv (snd (resolve_conflict c e r now x)).
Proof.
  intros Hx. unfold resolve_conflict. destruct (find_last _ _) as [g|]; [|done]. cbv zeta.
  do 3 (case_if; [done|]). cbn [snd]. apply (Inv_core x); [|done].
  unfold core, push_resolution. by repeat case_if.
Qed.

(** ** Restoration *)

Definition in_stream (key : EvidenceKey) (r : StoredEvidence) : bool :=
  bool_decide (ce_key (se_evidence r) = key).

Definition state_ok (s : RegistryState) : Prop :=
  Forall (fun r => record_ok (ce_key (se_evidence r)) r) (s_records s) /\
  (forall key, NoDup (map stored_id (List.filter (in_stream key) (s_records s)))) /\
  Forall (fun e => ie_current e ∈ ie_history e) (s_incarnations s).

(** The stream the loop of [adopt] builds for a key. *)
Definition adopted_stream (key : EvidenceKey) (l : list StoredEvidence) : option Stream :=
  match List.filter (in_stream key) l with
  | [] => None
  | rs => Some (mkStream rs (highest_generation rs))
  end.

Notation any_stream := (fun _ _ => True).

Lemma adopt_records_spec l :
  groups_of any_stream (fold_left adopt_record l []) /\
  (forall key, lookup_stream (fold_left adopt_record l []) key = adopted_stream key l) /\
  world_records (fold_left adopt_record l []) = length l.
Proof.
  induction l as [|r l IH] using rev_ind; [repeat split; constructor|].
  rewrite fold_left_app. simpl. set (g := fold_left adopt_record l []) in *.
  destruct IH as (Hg & Hl & Hw). unfold adopt_record. set (key := ce_key (se_evidence r)).
  assert (forall k, k <> key -> adopted_stream k (l ++ [r]) = adopted_stream k l) as Hne.
  { intros k Hk. unfold adopted_stream. rewrite List.filter_app. simpl. unfold in_stream at 2.
    rewrite bool_decide_eq_false_2 by (intros E; by apply Hk). by rewrite app_nil_r. }
  assert (adopted_stream key (l ++ [r]) =
    Some (mkStream (stream_records (default empty_stream (adopted_stream key l)) ++ [r])
      (if stored_generation r >? stream_max_generation (default empty_stream (adopted_stream key l))
       then stored_generation r else stream_max_generation (default empty_stream (adopted_stream key l)))))
    as Heq.
  { unfold adopted_stream. rewrite List.filter_app. simpl. unfold in_stream at 2.
    rewrite bool_decide_eq_true_2 by done.
    destruct (List.filter (in_stream key) l) as [|r' rs] eqn:E; [done|]. simpl app. cbv iota.
    change (r' :: rs ++ [r]) with ((r' :: rs) ++ [r]). unfold highest_generation at 1.
    by rewrite fold_left_app. }
  rewrite Hl. change (match adopted_stream key l with Some s => s | None => empty_stream end)
    with (default empty_stream (adopted_stream key l)).
  split_and!.
  - by apply put_stream_ok.
  - intros k. rewrite lookup_stream_put, Hl. destruct (decide (k = key)) as [->|Hk]; [done|].
    by rewrite Hne.
  - pose proof (put_stream_len g key (mkStream (stream_records (default empty_stream (adopted_stream key l)) ++ [r])
      (if stored_generation r >? stream_max_generation (default empty_stream (adopted_stream key l))
       then stored_generation r else stream_max_generation (default empty_stream (adopted_stream key l)))) Hg)
      as Hlen.
    rewrite Hl in Hlen. unfold opt_stream_len, stream_len in Hlen. simpl in Hlen.
    rewrite length_app in Hlen |- *. simpl in *. destruct (adopted_stream key l); simpl in *; lia.
Qed.

(** A map whose values are rewritten keeps its keys. *)
Definition om_map {K V W} (f : K -> V -> W) (m : list (K * V)) : list (K * W) :=
  map (fun e => (fst e, f (fst e) (snd e))) m.

Lemma om_map_find {K V W} `{CmpLaws K} (f : K -> V -> W) k m :
  om_find k (om_map f m) = option_map (f k) (om_find k m).
Proof.
  induction m as [|[k' v] m IH]; simpl; [done|]. destruct (ceq k k') eqn:E; [|done].
  by apply ceq_true in E as ->.
Qed.

Lemma om_map_sorted {K V W} `{CmpLaws K} (f : K -> V -> W) (m : list (K * V)) :
  om_sorted m -> om_sorted (om_map f m).
Proof.
  induction 1 as [|[k v] m Hs IH Hall]; [constructor|]. constructor; [done|].
  apply Forall_map. eapply Forall_impl; [exact Hall|]. done.
Qed.

Lemma om_map_all {K V W} (f : K -> V -> W) (P : K -> W -> Prop) m :
  om_all (fun k v => P k (f k v)) m -> om_all P (om_map f m).
Proof. intros Hall. apply Forall_map. exact Hall. Qed.

Definition sort_stream (s : Stream) : Stream :=
  mkStream (sort_by record_key (stream_records s)) (stream_max_generation s).

Definition sort_group (g : GroupState) : GroupState :=
  mkGroup (om_map (fun _ s => sort_stream s) (gs_streams g)) (gs_tombstones g).

Lemma sort_streams_map g :
  sort_streams g = om_map (fun _ kinds => om_map (fun _ gr => sort_group gr) kinds) g.
Proof.
  unfold sort_streams, om_map. apply map_ext. intros [d kinds]. simpl. f_equal.
  apply map_ext. intros [k gr]. simpl. unfold sort_group, om_map. f_equal. f_equal.
  apply map_ext. by intros [src s].
Qed.

Lemma lookup_stream_sort g key :
  lookup_stream (sort_streams g) key = option_map sort_stream (lookup_stream g key).
Proof.
  rewrite sort_streams_map. unfold lookup_stream, lookup_group. rewrite om_map_find.
  destruct (om_find (ek_device key) g) as [kinds|]; simpl; [|done]. rewrite om_map_find.
  destruct (om_find (ek_kind key) kinds) as [gr|]; simpl; [|done]. by rewrite om_map_find.
Qed.

Lemma sort_streams_of g : groups_of any_stream g -> groups_of any_stream (sort_streams g).
Proof.
  rewrite sort_streams_map. intros [Hs Hall]. split; [by apply om_map_sorted|].
  apply om_map_all. eapply om_all_impl; [exact Hall|]. intros d kinds [Hks Hka].
  split; [by apply om_map_sorted|]. apply om_map_all. eapply om_all_impl; [exact Hka|].
  intros k gr (H1 & H2 & H3 & H4). split_and!; simpl; [by apply om_map_sorted| |done|done].
  by apply om_map_all.
Qed.

Lemma om_map_total {K V W} (f : K -> V -> W) (size : W -> nat) (size' : V -> nat) m :
  (forall k v, size (f k v) = size' v) -> om_total size (om_map f m) = om_total size' m.
Proof. intros Hf. induction m as [|[k v] m IH]; simpl; [done|]. by rewrite Hf, IH. Qed.

Lemma sort_streams_len g : world_records (sort_streams g) = world_records g.
Proof.
  rewrite !world_records_total, sort_streams_map. apply om_map_total. intros _ kinds.
  apply om_map_total. intros _ gr. apply om_map_total. intros _ s.
  unfold stream_len. simpl. apply sort_by_length.
Qed.

(** From the lookups to every stream. *)
Lemma groups_of_lookup (P Q : EvidenceKey -> Stream -> Prop) g :
  groups_of P g -> (forall key s, lookup_stream g key = Some s -> Q key s) -> groups_of Q g.
Proof.
  intros [Hs Hall] HQ. split; [done|]. apply om_all_intro; [done|]. intros d kinds Ed.
  destruct (om_all_find _ _ _ _ Hall Ed) as [Hks Hka]. split; [done|].
  apply om_all_intro; [done|]. intros k gr Ek.
  destruct (om_all_find _ _ _ _ Hka Ek) as (H1 & H2 & H3 & H4). split_and!; [done| |done|done].
  apply om_all_intro; [done|]. intros src s Es. apply HQ.
  unfold lookup_stream, lookup_group. simpl. by rewrite Ed, Ek.
Qed.

Lemma filter_in_stream key l :
  Forall (fun r => record_ok (ce_key (se_evidence r)) r) l ->
  Forall (record_ok key) (List.filter (in_stream key) l).
Proof.
  intros Hall. apply Forall_forall. intros r Hr. apply list_elem_of_In, filter_In in Hr as [Hin Hk].
  unfold in_stream in Hk. apply bool_decide_eq_true in Hk. apply list_elem_of_In in Hin.
  rewrite Forall_forall in Hall. specialize (Hall r Hin). by rewrite Hk in Hall.
Qed.

Lemma adopted_streams_ok l :
  Forall (fun r => record_ok (ce_key (se_evidence r)) r) l ->
  (forall key, NoDup (map stored_id (List.filter (in_stream key) l))) ->
  groups_ok (sort_streams (fold_left adopt_record l [])).
Proof.
  intros Hall Hnd. destruct (adopt_records_spec l) as (Hg & Hl & _).
  eapply groups_of_lookup; [by apply sort_streams_of|]. intros key s.
  rewrite lookup_stream_sort, Hl. unfold adopted_stream.
  pose proof (filter_in_stream key l Hall) as Hf. specialize (Hnd key).
  destruct (List.filter (in_stream key) l) as [|r rs]; [done|]. intros [= <-].
  pose proof (sort_by_perm record_key (r :: rs)) as Hp. unfold sort_stream.
  split; cbn [stream_records stream_max_generation].
  - split_and!; [by rewrite Hp|apply sort_by_sorted|by rewrite Hp].
  - by rewrite (highest_generation_perm _ _ Hp).
Qed.

Lemma adopt_tombstones_ok l g :
  groups_ok g -> groups_ok (fold_left adopt_tombstone l g) /\
  world_records (fold_left adopt_tombstone l g) = world_records g.
Proof.
  revert g. induction l as [|t l IH]; intros g Hg; simpl; [done|].
  destruct (IH (adopt_tombstone g t)) as [H1 H2]; [by apply put_tombstone_ok|].
  split; [done|]. rewrite H2. exact (put_tombstone_len _ _ _ Hg).
Qed.

Lemma adopt_devices_ok l m :
  devices_ok m -> Forall (fun e => ie_current e ∈ ie_history e) l ->
  devices_ok (fold_left (fun m entry => om_set (ie_device entry) entry m) l m).
Proof.
  revert m. induction l as [|e l IH]; intros m Hm Hall; simpl; [done|].
  inversion Hall; subst. apply IH; [|done]. by apply set_device_ok.
Qed.

Lemma empty_store_ok : store_ok [] [].
Proof. split_and!; [constructor..|]. intros id. simpl. rewrite elem_of_nil. tauto. Qed.

Lemma adopt_inv s : state_ok s -> Inv (adopt s).
Proof.
  intros (H1 & H2 & H3). pose proof (adopted_streams_ok _ H1 H2) as Hg.
  destruct (adopt_tombstones_ok (s_tombstones s) _ Hg) as [Hg' Hw]. split; simpl.
  - done.
  - rewrite Hw, sort_streams_len. by destruct (adopt_records_spec (s_records s)) as (_ & _ & ->).
  - apply adopt_devices_ok; [|done]. split; constructor.
  - apply empty_store_ok.
Qed.

Lemma adopt_state_inv s now x : state_ok s -> Inv (snd (adopt_state s now x)).
Proof.
  intros Hs. unfold adopt_state. destruct (_ >? 0); cbn [snd]; unfold adopt_restored; apply refresh_all_inv;
    (apply (Inv_core (adopt s)); [|by apply adopt_inv]); by case_match.
Qed.

(** ** Reachability *)

(** One operation of the registry. *)
Inductive step : Impl -> Impl -> Prop :=
| step_admit q now x : admission_ok q -> step x (snd (registry_admit q now x))
| step_retire q now x : step x (snd (retire q now x))
| step_begin_device_incarnation d now x : step x (snd (begin_device_incarnation d now x))
| step_set_device_incarnation d n now x : step x (snd (set_device_incarnation d n now x))
| step_revoke_source s now x : step x (snd (revoke_source s now x))
| step_restore_source s now x : step x (snd (restore_source s now x))
| step_set_source_authority s a now x : step x (snd (set_source_authority s a now x))
| step_upsert_source_policy p now x : step x (snd (upsert_source_policy p now x))
| step_resolve_conflict c e r now x : step x (snd (resolve_conflict c e r now x))
| step_set_rule_generation n x : step x (snd (set_rule_generation n x))
| step_advance_epoch x : step x (snd (advance_epoch x))
| step_set_logical_tick now x : step x (snd (set_logical_tick now x))
| step_set_limits l x : step x (set_limits l x)
| step_evaluate r now x : step x (snd (evaluate r now x))
| step_adopt_state s now x : state_ok s -> step x (snd (adopt_state s now x)).

Inductive reachable : Impl -> Prop :=
| reach_create policy : reachable (registry_create policy)
| reach_restore policy s : state_ok s -> reachable (registry_restore policy s)
| reach_step x y : reachable x -> step x y -> reachable y.

Lemma create_inv policy : Inv (registry_create policy).
Proof. split; [split; constructor|done|split; constructor|apply empty_store_ok]. Qed.

Lemma step_inv x y : step x y -> Inv x -> Inv y.
Proof.
  destruct 1; intros Hx;
    auto using admit_inv, retire_inv, begin_device_incarnation_inv, set_device_incarnation_inv,
      upsert_source_policy_inv, resolve_conflict_inv, evaluate_inv, adopt_state_inv.
  1-3: by apply change_source_inv.
  - unfold set_rule_generation. do 3 (case_if; [done|]). by apply (Inv_core x).
  - by apply (Inv_core x).
  - unfold set_logical_tick. case_if; [done|]. by apply (Inv_core x).
  - by apply (Inv_core x).
Qed.

Lemma reachable_inv x : reachable x -> Inv x.
Proof.
  induction 1 as [policy|policy s Hs|x y Hx IH Hstep].
  - apply create_inv.
  - apply (Inv_core (adopt s)); [done|]. by apply adopt_inv.
  - by eapply step_inv.
Qed.
