(* ===== verification/Derivation.v ===== *)
(** * What a derivation and a decision mean (src/registry.cpp)

    The live records of a group are stated without the loops of [derive]: the
    records in force whose authority no other record in force exceeds.  The
    decision of [evaluate] is characterised in these terms. *)

From Stdlib Require Import ZArith Lia ZifyBool Ascii String Sorted Permutation.
From stdpp Require Import base tactics list strings.
From S2P Require Import Prelude OrdMap Checked Reason Text Units Name SemVer Hash Catalog.
From S2P Require Import Evidence State Codec CodecTypes CodecThms Compat Registry RegistryOps.
From S2P Require Import RegistryInv.

#[local] Open Scope Z_scope.
#[local] Open Scope list_scope.
#[local] Opaque digest_of compute_digest.

(** ** When a record is in force *)

(** The conditions a record has to meet to be active: admitted and neither
    rejected nor retired, of the newest generation of its stream, on the current
    incarnation of its device, from a configured source that is not revoked and
    not refused as untrusted, from this boot or one it may be carried over from,
    fresh, and inside its validity window. *)
Definition in_force (x : Impl) (key : EvidenceKey) (s : Stream) (r : StoredEvidence)
    (now max_age : Tick) : Prop :=
  let e := se_evidence r in
  se_lifecycle r = LcAdmitted /\
  (stream_max_generation s = 0 \/ stream_max_generation s <= ce_generation e) /\
  (exists entry, find_device x (dr_device (ek_device key)) = Some entry /\
     ie_current entry = dr_incarnation (ek_device key)) /\
  exists source, find_source (i_policy x) (ek_source key) = Some source /\
    sp_trust source <> Revoked /\
    (sp_trust source = Untrusted -> rp_refuse_untrusted_sources (i_policy x) = false) /\
    (ce_boot_at_ingest e = i_boot_epoch x \/
     ce_boot_at_ingest e < i_boot_epoch x /\
     (sp_durable_across_boot source = true \/ rp_boot_policy (i_policy x) = CarryForwardWithinFreshness)) /\
    (effective_max_age (i_policy x) (Some source) max_age = 0 \/
     observed_age now (ce_observed_at e) <= effective_max_age (i_policy x) (Some source) max_age) /\
    (forall t, ce_valid_until e = Some t -> now <= t).

Lemma classify_active x key s r now max_age :
  fst (classify x r s (find_source (i_policy x) (ek_source key)) (ek_device key) now max_age) = StActive <->
  in_force x key s r now max_age.
Proof.
  unfold classify, in_force. destruct (se_lifecycle r); [|by split; [|intros (? & _)]..].
  destruct (negb (stream_max_generation s =? 0) &&
            (ce_generation (se_evidence r) <? stream_max_generation s)) eqn:E1.
  { split; [done|]. intros (_ & [H|H] & _); lia. }
  destruct (find_device x (dr_device (ek_device key))) as [entry|] eqn:Ed.
  2: { split; [done|]. intros (_ & _ & (? & [=] & _) & _). }
  destruct (ie_current entry =? dr_incarnation (ek_device key)) eqn:E2; simpl.
  2: { split; [done|]. intros (_ & _ & (? & [= <-] & ?) & _). lia. }
  destruct (find_source (i_policy x) (ek_source key)) as [src|].
  2: { split; [done|]. intros (_ & _ & _ & (? & [=] & _)). }
  destruct (bool_decide (sp_trust src = Revoked)) eqn:E3.
  { apply bool_decide_eq_true in E3. split; [done|]. by intros (_ & _ & _ & (? & [= <-] & ? & _)). }
  apply bool_decide_eq_false in E3.
  destruct (bool_decide (sp_trust src = Untrusted) && rp_refuse_untrusted_sources (i_policy x)) eqn:E4.
  { apply andb_true_iff in E4 as [E4%bool_decide_eq_true E4']. split; [done|].
    intros (_ & _ & _ & (? & [= <-] & _ & H & _)). rewrite H in E4' by done. done. }
  destruct (ce_boot_at_ingest (se_evidence r) >? i_boot_epoch x) eqn:E5.
  { split; [done|]. intros (_ & _ & _ & (? & [= <-] & _ & _ & [H|[H _]] & _)); lia. }
  destruct ((ce_boot_at_ingest (se_evidence r) <? i_boot_epoch x) && negb (sp_durable_across_boot src) &&
            bool_decide (rp_boot_policy (i_policy x) = ConservativeFence)) eqn:E6.
  { apply andb_true_iff in E6 as [[E6 E6']%andb_true_iff E6''%bool_decide_eq_true]. split; [done|].
    intros (_ & _ & _ & (? & [= <-] & _ & _ & [H|[_ [H|H]]] & _)); [lia|by rewrite H in E6'|congruence]. }
  cbv zeta.
  destruct (negb (effective_max_age (i_policy x) (Some src) max_age =? 0) &&
            (observed_age now (ce_observed_at (se_evidence r)) >?
             effective_max_age (i_policy x) (Some src) max_age)) eqn:E7.
  { split; [done|]. intros (_ & _ & _ & (? & [= <-] & _ & _ & _ & [H|H] & _)); lia. }
  destruct (match ce_valid_until (se_evidence r) with Some t => now >? t | None => false end) eqn:E8.
  { split; [done|]. intros (_ & _ & _ & (? & [= <-] & _ & _ & _ & _ & H)).
    destruct (ce_valid_until (se_evidence r)); [|done]. specialize (H _ eq_refl). lia. }
  split; [intros _|done]. split_and!; [done|lia| |].
  - exists entry. split; [done|lia].
  - exists src. split_and!; [done|done| | |lia|].
    + intros Ht. rewrite bool_decide_eq_true_2 in E4 by done. exact E4.
    + destruct (Z.eq_dec (ce_boot_at_ingest (se_evidence r)) (i_boot_epoch x)) as [|Hne]; [by left|].
      right. split; [lia|]. destruct (sp_durable_across_boot src); [by left|right].
      destruct (rp_boot_policy (i_policy x)); [|done].
      rewrite bool_decide_eq_true_2 in E6 by done. lia.
    + intros t Ht. rewrite Ht in E8. lia.
Qed.

(** ** The live records *)

Notation group_key device kind source := (mkEvidenceKey device kind source).

(** A record of the group, in force, that no record in force outranks. *)
Definition authoritative (x : Impl) (device : DeviceIncarnationRef) (kind : CapabilityKind)
    (now max_age : Tick) (r : StoredEvidence) : Prop :=
  (exists source s, find_stream x (group_key device kind source) = Some s /\ r ∈ stream_records s /\
     in_force x (group_key device kind source) s r now max_age) /\
  (forall source' s' r', find_stream x (group_key device kind source') = Some s' ->
     r' ∈ stream_records s' -> in_force x (group_key device kind source') s' r' now max_age ->
     authority_rank_num (ce_authority (se_evidence r')) <= authority_rank_num (ce_authority (se_evidence r))).

(** The facts before demotion. *)
Definition raw_facts (x : Impl) (device : DeviceIncarnationRef) (group : GroupState)
    (now max_age : Tick) : list DerivedFact :=
  concat (map (stream_facts x device now max_age) (gs_streams group)).

Lemma raw_facts_elem x device kind group now max_age f :
  groups_ok (i_groups x) -> lookup_group (i_groups x) device kind = Some group ->
  f ∈ raw_facts x device group now max_age <->
  exists source s r, find_stream x (group_key device kind source) = Some s /\ r ∈ stream_records s /\
    f = (let '(st, reason) := classify x r s (find_source (i_policy x) source) device now max_age in
         mkFact r st reason (observed_age now (ce_observed_at (se_evidence r)))).
Proof.
  intros Hg Hl. destruct (lookup_group_ok _ _ _ _ Hg Hl) as (Hs & _). unfold raw_facts. split.
  - intros Hin. apply list_elem_of_In, in_concat in Hin as (l & [[source s] [<- Hin']]%in_map_iff & Hin).
    apply in_map_iff in Hin as (r & <- & Hr). apply list_elem_of_In in Hin', Hr.
    exists source, s, r. split_and!; [|done|done].
    unfold find_stream, lookup_stream. simpl. rewrite Hl. by apply om_elem_find.
  - intros (source & s & r & Hf & Hr & ->). unfold find_stream, lookup_stream in Hf. simpl in Hf.
    rewrite Hl in Hf. apply om_find_elem in Hf.
    apply list_elem_of_In, in_concat. eexists. split.
    + apply in_map_iff. exists (source, s). split; [done|]. by apply list_elem_of_In.
    + apply in_map_iff. exists r. split; [done|]. by apply list_elem_of_In.
Qed.

(** The raw fact of a record is active exactly when the record is in force. *)
Lemma raw_active_elem x device kind group now max_age f :
  groups_ok (i_groups x) -> lookup_group (i_groups x) device kind = Some group ->
  f ∈ raw_facts x device group now max_age -> df_state f = StActive ->
  exists source s, find_stream x (group_key device kind source) = Some s /\
    df_record f ∈ stream_records s /\ in_force x (group_key device kind source) s (df_record f) now max_age.
Proof.
  intros Hg Hl Hin Hst. apply (raw_facts_elem _ _ _ _ _ _ _ Hg Hl) in Hin as (source & s & r & Hf & Hr & ->).
  pose proof (classify_active x (group_key device kind source) s r now max_age) as Hc. simpl in Hc.
  destruct (classify _ _ _ _ _ _ _) as [st reason]. simpl in *. exists source, s.
  split_and!; [done|done|]. by apply Hc.
Qed.

Lemma clt_authority a b : clt a b = true <-> authority_rank_num a < authority_rank_num b.
Proof.
  unfold clt, cmp, authority_rank_cmp, cmp_on, cmp, Z_cmp.
  destruct (Z.compare_spec (authority_rank_num a) (authority_rank_num b)); split; intros; try done; lia.
Qed.

Lemma highest_authority_spec facts :
  (forall f, f ∈ facts -> df_state f = StActive ->
     authority_rank_num (df_authority f) <= authority_rank_num (highest_authority facts)) /\
  (highest_authority facts = ArNone \/
   exists f, f ∈ facts /\ df_state f = StActive /\ df_authority f = highest_authority facts).
Proof.
  unfold highest_authority. induction facts as [|f facts IH] using rev_ind.
  { split; [intros f Hf; by apply elem_of_nil in Hf|by left]. }
  rewrite fold_left_app. simpl. set (h := fold_left _ facts ArNone) in *. destruct IH as [H1 H2].
  destruct (is_state StActive f && clt h (df_authority f)) eqn:E.
  - apply andb_true_iff in E as [Ea%bool_decide_eq_true El%clt_authority]. split.
    + intros f' [Hin| ->%list_elem_of_singleton]%elem_of_app Hst; [|lia]. specialize (H1 f' Hin Hst). lia.
    + right. exists f. split_and!; [|done|done]. apply elem_of_app. right. by apply list_elem_of_singleton.
  - split.
    + intros f' [Hin| ->%list_elem_of_singleton]%elem_of_app Hst; [by apply H1|].
      apply andb_false_iff in E as [E|E]; [by apply bool_decide_eq_false in E|].
      destruct (Z.le_gt_cases (authority_rank_num (df_authority f)) (authority_rank_num h)); [done|].
      assert (clt h (df_authority f) = true) by (apply clt_authority; lia). congruence.
    + destruct H2 as [H2|(f' & Hin & H2)]; [by left|right; exists f'; split; [|done]].
      apply elem_of_app. by left.
Qed.

Lemma authority_nonneg a : 0 <= authority_rank_num a.
Proof. by destruct a. Qed.

Lemma authority_num_inj a b : authority_rank_num a = authority_rank_num b -> a = b.
Proof. by destruct a, b. Qed.

(** The active facts that remain are those of the highest authority. *)
Lemma demoted_active facts f :
  f ∈ map (demote (highest_authority facts)) facts -> df_state f = StActive ->
  f ∈ facts /\ df_authority f = highest_authority facts.
Proof.
  intros Hin Hst. apply list_elem_of_fmap in Hin as (f0 & -> & Hin). unfold demote in *.
  destruct (is_state StActive f0 && clt (df_authority f0) (highest_authority facts)) eqn:E; [done|].
  split; [done|]. apply andb_false_iff in E as [E|E]; [by apply bool_decide_eq_false in E|].
  destruct (highest_authority_spec facts) as [H1 _]. specialize (H1 f0 Hin Hst).
  apply authority_num_inj.
  destruct (Z.lt_ge_cases (authority_rank_num (df_authority f0)) (authority_rank_num (highest_authority facts)));
    [|lia]. assert (clt (df_authority f0) (highest_authority facts) = true) by by apply clt_authority.
  congruence.
Qed.

Lemma active_kept facts f :
  f ∈ facts -> df_state f = StActive ->
  (forall f', f' ∈ facts -> df_state f' = StActive ->
     authority_rank_num (df_authority f') <= authority_rank_num (df_authority f)) ->
  f ∈ map (demote (highest_authority facts)) facts.
Proof.
  intros Hin Hst Hmax. apply list_elem_of_fmap. exists f. split; [|done]. unfold demote.
  destruct (clt (df_authority f) (highest_authority facts)) eqn:E; [|by rewrite andb_false_r].
  apply clt_authority in E. destruct (highest_authority_spec facts) as [_ [H2|(f' & Hin' & Hst' & H2)]].
  - rewrite H2 in E. pose proof (authority_nonneg (df_authority f)). simpl in E. lia.
  - specialize (Hmax f' Hin' Hst'). rewrite H2 in Hmax. lia.
Qed.

Lemma derive_live x device kind now max_age r :
  groups_ok (i_groups x) ->
  r ∈ dv_live (derive x device kind now max_age) <-> authoritative x device kind now max_age r.
Proof.
  intros Hg. unfold derive, authoritative. destruct (lookup_group (i_groups x) device kind) as [group|] eqn:Hl.
  2: { simpl. split; [intros Hin; by apply elem_of_nil in Hin|].
       intros ((source & s & Hf & _) & _). unfold find_stream, lookup_stream in Hf. simpl in Hf.
       by rewrite Hl in Hf. }
  fold (raw_facts x device group now max_age). set (facts := raw_facts x device group now max_age).
  cbn [dv_live]. rewrite sort_by_elem. split.
  - intros (f & -> & Hf)%list_elem_of_fmap. apply list_elem_of_In, filter_In in Hf as [Hf Hst].
    apply list_elem_of_In in Hf. apply bool_decide_eq_true in Hst.
    destruct (demoted_active _ _ Hf Hst) as [Hin Hau].
    split; [exact (raw_active_elem _ _ _ _ _ _ _ Hg Hl Hin Hst)|].
    intros source' s' r' Hf' Hr' Hin'. destruct (highest_authority_spec facts) as [H1 _].
    unfold df_authority in Hau. rewrite Hau.
    pose proof (proj2 (classify_active x (group_key device kind source') s' r' now max_age) Hin') as Hc.
    simpl in Hc. destruct (classify x r' s' (find_source (i_policy x) source') device now max_age)
      as [st reason] eqn:Ec. simpl in Hc. subst st.
    apply (H1 (mkFact r' StActive reason (observed_age now (ce_observed_at (se_evidence r'))))); [|done].
    apply (raw_facts_elem _ _ _ _ _ _ _ Hg Hl). exists source', s', r'. by rewrite Ec.
  - intros ((source & s & Hf & Hr & Hin) & Hmax).
    pose proof (proj2 (classify_active x (group_key device kind source) s r now max_age) Hin) as Hc.
    simpl in Hc. destruct (classify x r s (find_source (i_policy x) source) device now max_age)
      as [st reason] eqn:Ec. simpl in Hc. subst st.
    apply list_elem_of_fmap.
    exists (mkFact r StActive reason (observed_age now (ce_observed_at (se_evidence r)))). split; [done|].
    apply list_elem_of_In, filter_In. split; [|by apply bool_decide_eq_true]. apply list_elem_of_In.
    apply active_kept; [|done|].
    + apply (raw_facts_elem _ _ _ _ _ _ _ Hg Hl). exists source, s, r. by rewrite Ec.
    + intros f' Hf' Hst'. destruct (raw_active_elem _ _ _ _ _ _ _ Hg Hl Hf' Hst') as (src' & s' & H1 & H2 & H3).
      exact (Hmax _ _ _ H1 H2 H3).
Qed.

(** ** Disagreement *)

(** What two records of equal authority are compared on. *)
Definition asserted (e : CapabilityEvidence) :=
  (ce_capability_version e, ce_features e, ce_limits e, (ce_firmware_version e, ce_firmware_generation e),
   (ce_runtime_version e, ce_runtime_generation e)).

Lemma records_differ_spec a b : records_differ a b = true <-> asserted a <> asserted b.
Proof.
  unfold records_differ, asserted. rewrite negb_true_iff, <- not_true_iff_false. apply not_iff_compat.
  rewrite !andb_true_iff, !bool_decide_eq_true, !Z.eqb_eq. split; [naive_solver congruence|].
  intros E. injection E. tauto.
Qed.

(** Two live records assert different things. *)
Definition contested (x : Impl) (device : DeviceIncarnationRef) (kind : CapabilityKind)
    (now max_age : Tick) : Prop :=
  exists r1 r2, authoritative x device kind now max_age r1 /\ authoritative x device kind now max_age r2 /\
    asserted (se_evidence r1) <> asserted (se_evidence r2).

Lemma live_disagrees_spec live :
  live_disagrees live = true <->
  exists r1 r2, r1 ∈ live /\ r2 ∈ live /\ asserted (se_evidence r1) <> asserted (se_evidence r2).
Proof.
  destruct live as [|first rest]; simpl.
  { split; [done|]. intros (r1 & r2 & Hr & _). by apply elem_of_nil in Hr. }
  rewrite existsb_exists. split.
  - intros (r & Hin & Hd). apply records_differ_spec in Hd. apply list_elem_of_In in Hin.
    exists first, r. split_and!; [by left|by right|done].
  - intros (r1 & r2 & H1 & H2 & Hne).
    assert (exists r, r ∈ rest /\ asserted (se_evidence first) <> asserted (se_evidence r)) as (r & Hin & Hd).
    { apply elem_of_cons in H1 as [->|H1]; [apply elem_of_cons in H2 as [->|H2]; [done|by exists r2]|].
      destruct (decide (asserted (se_evidence first) = asserted (se_evidence r1))) as [E|E];
        [|by exists r1].
      apply elem_of_cons in H2 as [->|H2]; [congruence|]. exists r2. split; [done|]. congruence. }
    exists r. split; [by apply list_elem_of_In|by apply records_differ_spec].
Qed.

Lemma derive_disagrees x device kind now max_age :
  groups_ok (i_groups x) ->
  dv_disagrees (derive x device kind now max_age) = true <-> contested x device kind now max_age.
Proof.
  intros Hg. unfold contested.
  pose proof (fun r => derive_live x device kind now max_age r Hg) as Hlive. setoid_rewrite <- Hlive.
  rewrite <- live_disagrees_spec. unfold derive.
  by destruct (lookup_group (i_groups x) device kind).
Qed.

Lemma derive_conflict x device kind now max_age :
  dv_conflict (derive x device kind now max_age) =
  if dv_disagrees (derive x device kind now max_age)
  then Some (compute_conflict_id device kind (map stored_id (dv_live (derive x device kind now max_age))))
  else None.
Proof. unfold derive. by destruct (lookup_group (i_groups x) device kind). Qed.

(** ** Decisions *)

(** A resolution of the conflict named in the decision chose the record. *)
Definition resolved_to (x : Impl) (conflict : option ConflictId) (r : StoredEvidence) : Prop :=
  exists id res, conflict = Some id /\ find_resolution x id = Some res /\ cr_chosen res = stored_id r.

Lemma find_last_spec {A} (p : A -> bool) l :
  match find_last p l with
  | Some a => a ∈ l /\ p a = true
  | None => forall a, a ∈ l -> p a = false
  end.
Proof.
  unfold find_last. induction l as [|b l IH] using rev_ind.
  { intros a Ha. by apply elem_of_nil in Ha. }
  rewrite fold_left_app. simpl. destruct (p b) eqn:E.
  - split; [|done]. apply elem_of_app. right. by apply list_elem_of_singleton.
  - destruct (fold_left _ l None) as [a|].
    + destruct IH as [H1 H2]. split; [|done]. apply elem_of_app. by left.
    + intros a [Ha| ->%list_elem_of_singleton]%elem_of_app; [by apply IH|done].
Qed.

(** The record a decision rests on. *)
Definition decided_by (x : Impl) (d : CompatibilityDecision) (r : StoredEvidence) : Prop :=
  let req := cd_requirement d in
  authoritative x (rq_device req) (rq_capability req) (cd_evaluated_at d) (rq_max_evidence_age req) r /\
  cd_selected d = Some (stored_id r) /\
  (contested x (rq_device req) (rq_capability req) (cd_evaluated_at d) (rq_max_evidence_age req) ->
   resolved_to x (cd_conflict d) r).

Lemma no_device_no_live x device kind now max_age r :
  find_device x (dr_device device) = None -> ~ authoritative x device kind now max_age r.
Proof. intros Hn ((source & s & _ & _ & Hf) & _). destruct Hf as (_ & _ & (e & He & _) & _). simpl in He. congruence. Qed.

Lemma judge_spec r s conflict l :
  vd_kind (judge r s conflict l) = fst (compare_requirement r (se_evidence s)) /\
  vd_selected (judge r s conflict l) = Some s /\ vd_conflict (judge r s conflict l) = conflict.
Proof. unfold judge. by destruct (compare_requirement r (se_evidence s)). Qed.

(** How the verdict of a registered device arises. *)
Lemma verdict_cases x r entry d :
  let v := verdict x r entry d in
  (exists s c l, v = judge r s c l /\ s ∈ dv_live d /\
     (dv_disagrees d = true -> c = dv_conflict d /\ resolved_to x (dv_conflict d) s)) \/
  (vd_kind v = DkConflicted /\ vd_selected v = None /\ dv_disagrees d = true /\ vd_conflict v = dv_conflict d /\
     forall s, s ∈ dv_live d -> ~ resolved_to x (dv_conflict d) s) \/
  (vd_kind v = DkUnknown /\ vd_selected v = None /\ dv_live d = []).
Proof.
  unfold verdict. cbv zeta. destruct (dv_disagrees d) eqn:Ed.
  - destruct (dv_conflict d) as [id|] eqn:Ec.
    2: { right. left. split_and!; try done. intros s Hs (id & res & [=] & _). }
    destruct (find_resolution x id) as [res|] eqn:Er.
    2: { right. left. split_and!; try done. intros s Hs (id' & res & [= <-] & H & _). congruence. }
    pose proof (find_last_spec (has_id (cr_chosen res)) (dv_live d)) as Hl.
    destruct (find_last _ _) as [s|].
    + destruct Hl as [Hin Hid]. apply bool_decide_eq_true in Hid. left. do 3 eexists. split; [done|].
      split; [done|]. intros _. split; [done|]. by exists id, res.
    + right. left. split_and!; try done. intros s Hs (id' & res' & [= <-] & H & Hid).
      rewrite Er in H. injection H as <-. specialize (Hl s Hs). apply bool_decide_eq_false in Hl. congruence.
  - destruct (dv_live d) as [|s live] eqn:El; [by right; right|].
    left. exists s. do 2 eexists. split; [done|]. split; [by left|done].
Qed.

Lemma decide_requirement_spec r now x :
  groups_ok (i_groups x) ->
  let d := decide_requirement r now x in
  match cd_kind d with
  | DkCompatible => exists s, decided_by x d s /\ requirement_met r (se_evidence s)
  | DkIncompatible => exists s, decided_by x d s /\ requirement_violated r (se_evidence s)
  | DkConflicted =>
      contested x (rq_device r) (rq_capability r) now (rq_max_evidence_age r) /\ cd_selected d = None /\
      forall s, authoritative x (rq_device r) (rq_capability r) now (rq_max_evidence_age r) s ->
                ~ resolved_to x (cd_conflict d) s
  | DkUnknown =>
      (cd_selected d = None /\
       forall s, ~ authoritative x (rq_device r) (rq_capability r) now (rq_max_evidence_age r) s) \/
      exists s, decided_by x d s /\ ~ requirement_met r (se_evidence s) /\
                ~ requirement_violated r (se_evidence s)
  end.
Proof.
  intros Hg. unfold decide_requirement. destruct (find_device x (dr_device (rq_device r))) as [entry|] eqn:Ed.
  2: { simpl. left. split; [done|]. intros s. by apply no_device_no_live. }
  set (dv := derive x (rq_device r) (rq_capability r) now (rq_max_evidence_age r)).
  destruct (verdict_cases x r entry dv) as [(s & c & l & Ev & Hin & Hres)|[(Ek & Es & Hd & Ec & Hres)|(Ek & Es & Hlive)]];
    cbv zeta in *.
  - rewrite Ev. destruct (judge_spec r s c l) as (Jk & Js & Jc).
    destruct (compare_requirement_spec r (se_evidence s)) as (C1 & C2 & C3).
    unfold with_decision_id. cbn [cd_kind cd_selected cd_conflict]. rewrite Jk.
    set (d := mkDecision _ _ _ _ _ _ _ _ _ _ _ _ _ _ _).
    assert (decided_by x d s) as Hdb.
    { unfold decided_by, d. cbn. rewrite Js, Jc. split; [by apply derive_live|]. split; [done|].
      intros Hc. apply derive_disagrees in Hc; [|done]. destruct (Hres Hc) as [-> Hr]. done. }
    clearbody d. destruct (fst (compare_requirement r (se_evidence s))) eqn:Ef.
    + exists s. split; [done|]. by apply C1.
    + exists s. split; [done|]. by apply C2.
    + right. exists s. split; [done|]. rewrite <- C1, <- C2. split; discriminate.
    + done.
  - unfold with_decision_id. cbn. rewrite Ek, Es, Ec. cbn.
    split; [by apply derive_disagrees|]. split; [done|]. intros s Hs. apply Hres. by apply derive_live.
  - unfold with_decision_id. cbn. rewrite Ek, Es. cbn. left. split; [done|]. intros s Hs.
    apply derive_live in Hs; [|done]. fold dv in Hs. rewrite Hlive in Hs. by apply elem_of_nil in Hs.
Qed.
