(* ===== verification/RegistryThms.v ===== *)
(** * The registry engine: guarantees (src/registry.cpp)

    Theorems about the operations of the registry in every state they can
    reach. *)

From Stdlib Require Import ZArith Lia ZifyBool Ascii String Sorted Permutation.
From stdpp Require Import base tactics list strings.
From S2P Require Import Prelude OrdMap Checked Reason Text Units Name SemVer Hash Catalog.
From S2P Require Import Evidence State Codec CodecTypes CodecThms Compat Registry RegistryOps.
From S2P Require Import RegistryInv Derivation.

#[local] Open Scope Z_scope.
#[local] Open Scope list_scope.
#[local] Opaque digest_of compute_digest.

(** ** Snapshots *)

(** The part of a flattened map that belongs to one key. *)
Lemma filter_concat_key {K V A} `{CmpLaws K} (p : A -> bool) (f : K * V -> list A) k (m : list (K * V)) :
  om_sorted m -> (forall e, e ∈ m -> fst e <> k -> List.filter p (f e) = []) ->
  List.filter p (concat (map f m)) =
  match om_find k m with Some v => List.filter p (f (k, v)) | None => [] end.
Proof.
  induction m as [|[k' v] m IH]; intros Hs Hne; [done|]. apply om_sorted_cons in Hs as [Hs Hall].
  simpl. rewrite List.filter_app, IH by (done || (intros; apply Hne; [by right|done])).
  destruct (ceq k k') eqn:E.
  - apply ceq_true in E as ->. rewrite (om_find_below k' m Hall). apply app_nil_r.
  - apply ceq_false in E. rewrite (Hne (k', v)); [done|by left|done].
Qed.

Lemma filter_all_false {A} (p : A -> bool) l : (forall a, a ∈ l -> p a = false) -> List.filter p l = [].
Proof.
  induction l as [|a l IH]; intros Hp; simpl; [done|]. rewrite Hp by by left. apply IH.
  intros b Hb. apply Hp. by right.
Qed.

Lemma filter_all_true {A} (p : A -> bool) l : (forall a, a ∈ l -> p a = true) -> List.filter p l = l.
Proof.
  induction l as [|a l IH]; intros Hp; simpl; [done|]. rewrite Hp by by left. f_equal. apply IH.
  intros b Hb. apply Hp. by right.
Qed.

Definition opt_records (o : option Stream) : list StoredEvidence :=
  match o with Some s => stream_records s | None => [] end.

(** The records of the world as nested concatenations. *)
Lemma flatten_concat g :
  map snd (all_records g) =
  concat (map (fun e => concat (map (fun e => concat (map (fun e => stream_records (snd e))
    (gs_streams (snd e)))) (snd e))) g).
Proof.
  unfold all_records. rewrite concat_map, map_map. f_equal. apply map_ext. intros [d kinds]. simpl.
  rewrite concat_map, map_map. f_equal. apply map_ext. intros [k gr]. simpl.
  rewrite concat_map, map_map. f_equal. apply map_ext. intros [so s]. simpl. rewrite map_map. apply map_id.
Qed.

(** Every record lies under its own key. *)
Lemma record_filed g d kinds k gr so s r :
  groups_ok g -> (d, kinds) ∈ g -> (k, gr) ∈ kinds -> (so, s) ∈ gs_streams gr -> r ∈ stream_records s ->
  ce_key (se_evidence r) = mkEvidenceKey d k so.
Proof.
  intros [Hs Hall] H1 H2 H3 H4.
  pose proof (om_elem_find _ _ _ Hs H1) as Ed. destruct (om_all_find _ _ _ _ Hall Ed) as [Hks Hka].
  pose proof (om_elem_find _ _ _ Hks H2) as Ek. destruct (om_all_find _ _ _ _ Hka Ek) as (Hss & Hsa & _).
  destruct (om_all_find _ _ _ _ Hsa (om_elem_find _ _ _ Hss H3)) as [(Hf & _) _].
  rewrite Forall_forall in Hf. by destruct (Hf r H4).
Qed.

Lemma elem_concat_map {A B} (f : A -> list B) l b :
  b ∈ concat (map f l) <-> exists a, a ∈ l /\ b ∈ f a.
Proof.
  induction l as [|a l IH]; simpl.
  - split; [intros Hb; by apply elem_of_nil in Hb|]. intros (a & Ha & _). by apply elem_of_nil in Ha.
  - rewrite elem_of_app, IH. split.
    + intros [Hb|(a' & Ha & Hb)]; [exists a; split; [by left|done]|exists a'; split; [by right|done]].
    + intros (a' & [->|Ha]%elem_of_cons & Hb); [by left|right; by exists a'].
Qed.

(** The records of a snapshot under one key are those of the stream. *)
Lemma flatten_records_at x key :
  groups_ok (i_groups x) ->
  List.filter (in_stream key) (flatten_records x) = opt_records (find_stream x key).
Proof.
  intros Hg. pose proof Hg as [Hs Hall].
  unfold flatten_records, find_stream, lookup_stream, lookup_group. rewrite flatten_concat.
  destruct key as [dev kind src]. simpl.
  assert (forall d kinds k gr so s r, (d, kinds) ∈ i_groups x -> (k, gr) ∈ kinds -> (so, s) ∈ gs_streams gr ->
    r ∈ stream_records s -> in_stream (mkEvidenceKey dev kind src) r = true ->
    (d, k, so) = (dev, kind, src)) as Hk.
  { intros d kinds k gr so s r H1 H2 H3 H4 H5. unfold in_stream in H5. apply bool_decide_eq_true in H5.
    rewrite (record_filed _ _ _ _ _ _ _ _ Hg H1 H2 H3 H4) in H5. by injection H5 as -> -> ->. }
  rewrite (filter_concat_key _ _ dev); [|done|].
  2: { intros [d kinds] Hd Hne. apply filter_all_false. intros r. simpl.
       intros ([k gr] & Hkk & ([so s] & Hso & Hr)%elem_concat_map)%elem_concat_map. simpl in *.
       apply not_true_is_false. intros Hb. specialize (Hk _ _ _ _ _ _ _ Hd Hkk Hso Hr Hb). congruence. }
  destruct (om_find dev (i_groups x)) as [kinds|] eqn:Ed; [|done]. simpl.
  destruct (om_all_find _ _ _ _ Hall Ed) as [Hks Hka]. apply om_find_elem in Ed.
  rewrite (filter_concat_key _ _ kind); [|done|].
  2: { intros [k gr] Hkk Hne. apply filter_all_false. intros r. simpl.
       intros ([so s] & Hso & Hr)%elem_concat_map. simpl in *.
       apply not_true_is_false. intros Hb. specialize (Hk _ _ _ _ _ _ _ Ed Hkk Hso Hr Hb). congruence. }
  destruct (om_find kind kinds) as [gr|] eqn:Ek; [|done]. simpl.
  destruct (om_all_find _ _ _ _ Hka Ek) as (Hss & _). apply om_find_elem in Ek.
  rewrite (filter_concat_key _ _ src); [|done|].
  2: { intros [so s] Hso Hne. apply filter_all_false. intros r Hr. simpl in *.
       apply not_true_is_false. intros Hb. specialize (Hk _ _ _ _ _ _ _ Ed Ek Hso Hr Hb). congruence. }
  destruct (om_find src (gs_streams gr)) as [s|] eqn:Es; [|done]. simpl. apply om_find_elem in Es.
  apply filter_all_true. intros r Hr. unfold in_stream. apply bool_decide_eq_true.
  exact (record_filed _ _ _ _ _ _ _ _ Hg Ed Ek Es Hr).
Qed.

Lemma flatten_records_elem x r :
  groups_ok (i_groups x) -> r ∈ flatten_records x <->
  exists key s, find_stream x key = Some s /\ r ∈ stream_records s.
Proof.
  intros Hg. unfold flatten_records. split.
  - intros ([[key s] r'] & -> & Hin)%list_elem_of_fmap. apply (elem_all_records _ _ _ _ Hg) in Hin.
    by exists key, s.
  - intros (key & s & Hl & Hr). apply list_elem_of_fmap. exists (key, s, r). split; [done|].
    by apply (elem_all_records _ _ _ _ Hg).
Qed.

Lemma to_state_ok x : Inv x -> state_ok (to_state x).
Proof.
  intros [Hg _ [Hd1 Hd2] _]. split_and!; simpl.
  - apply Forall_forall. intros r Hr. apply (flatten_records_elem _ _ Hg) in Hr as (key & s & Hl & Hr).
    apply (lookup_stream_ok _ _ _ Hg) in Hl as [(Hf & _) _]. rewrite Forall_forall in Hf.
    specialize (Hf r Hr). pose proof Hf as (<- & _). done.
  - intros key. rewrite flatten_records_at by done. destruct (find_stream x key) as [s|] eqn:E; simpl; [|constructor].
    by apply (lookup_stream_ok _ _ _ Hg) in E as [(_ & _ & Hnd) _].
  - apply Forall_map. unfold om_all in Hd2. eapply Forall_impl; [exact Hd2|]. intros [d e] [_ H]. done.
Qed.

(** ** A small registry for concrete runs *)

Module Sample.
#[local] Open Scope string_scope.

Definition device : DeviceIncarnationRef := mkDeviceRef (mkDeviceIdentity "acme" "nic" 0 None) 1.
Definition version : SemVer := mkSemVer 1 0 0 "" "".

(** An observation of the device by a source, at tick 10. *)
Definition request (source : string) (generation : Z) : AdmissionRequest :=
  mkAdmission device ChecksumOffload (mkSourceIncarnation source 1) version [] [] None 0 None 0 10 None
    generation.

Definition requirement : CapabilityRequirement :=
  mkRequirement device ChecksumOffload (mkVersionRequirement version None) [] [] None None None None 0.

Definition start : Impl := registry_create make_lab_policy.
Definition observed : Impl := snd (registry_admit (request "driver-selfreport" 1) 10 start).
Definition superseded : Impl := snd (registry_admit (request "driver-selfreport" 2) 11 observed).

Lemma request_ok source generation : in_u 64 generation -> admission_ok (request source generation).
Proof. done. Qed.

Lemma start_reachable : reachable start.
Proof. apply reach_create. Qed.

Lemma observed_reachable : reachable observed.
Proof. eapply reach_step; [apply start_reachable|]. apply step_admit. by unfold admission_ok, in_u. Qed.

Lemma superseded_reachable : reachable superseded.
Proof. eapply reach_step; [apply observed_reachable|]. apply step_admit. by unfold admission_ok, in_u. Qed.
End Sample.

(** ** Reachable states *)

(** C1: every state the registry can reach by any sequence of operations, in any
    order and with any arguments, is well formed: the nested maps are in key
    order, every record and tombstone is filed under its own key, the records of
    a stream are ordered, have distinct identifiers and carry the digest of
    their content as identifier, the newest generation cached for a stream is the
    highest it holds, the record counter is exact, each device's current
    incarnation is in its history, and the explanation store agrees with its
    queue.  And its snapshot meets the condition [state_ok] under which a registry
    can be rebuilt from it: records in order for their own key with distinct
    identifiers in each stream, current incarnations in their histories. *)
Theorem registry_invariant x : reachable x -> Inv x /\ state_ok (to_state x).
Proof. intros Hx%reachable_inv. split; [done|by apply to_state_ok]. Qed.

Lemma registry_invariant_witness :
  reachable Sample.superseded /\ Inv Sample.superseded /\ state_ok (to_state Sample.superseded).
Proof.
  split; [apply Sample.superseded_reachable|]. apply (registry_invariant Sample.superseded).
  apply Sample.superseded_reachable.
Defined.

(** ** Live records *)

(** C3: the live records of a device and capability are exactly the records in
    force (admitted, newest of their stream, on the current incarnation, from an
    acceptable source, from an acceptable boot, fresh and inside their validity
    window) that no other record in force outranks; and the derivation reports a
    disagreement exactly when two of them assert different versions, features,
    limits, firmware or runtime. *)
Theorem live_records_authoritative x device kind now max_age :
  reachable x ->
  (forall r, r ∈ dv_live (derive x device kind now max_age) <->
             authoritative x device kind now max_age r) /\
  (dv_disagrees (derive x device kind now max_age) = true <-> contested x device kind now max_age).
Proof.
  intros Hx%reachable_inv%inv_groups. split; [intros r; by apply derive_live|by apply derive_disagrees].
Qed.

Lemma live_records_authoritative_witness :
  length (dv_live (derive Sample.observed Sample.device ChecksumOffload 11 0)) = 1%nat /\
  ((forall r, r ∈ dv_live (derive Sample.observed Sample.device ChecksumOffload 11 0) <->
             authoritative Sample.observed Sample.device ChecksumOffload 11 0 r) /\
   (dv_disagrees (derive Sample.observed Sample.device ChecksumOffload 11 0) = true <->
    contested Sample.observed Sample.device ChecksumOffload 11 0)).
Proof.
  split; [vm_compute; reflexivity|].
  apply (live_records_authoritative Sample.observed Sample.device ChecksumOffload 11 0).
  apply Sample.observed_reachable.
Defined.

(** C2: a decision says what the evidence supports and no more.  Compatible:
    there is a live record that meets every demand of the requirement.
    Incompatible: there is a live record that contradicts one.  In both cases the
    decision names that record, and if live records disagree then an operator's
    resolution of that conflict chose it.  Conflicted: live records disagree and
    no resolution picks one of them.  Unknown: there is no live record, or the one
    the decision rests on neither meets nor contradicts the requirement. *)
Theorem evaluate_decision_sound r now x :
  reachable x ->
  let d := fst (evaluate r now x) in
  match cd_kind d with
  | DkCompatible => exists s, decided_by x d s /\ requirement_met r (se_evidence s)
  | DkIncompatible => exists s, decided_by x d s /\ requirement_violated r (se_evidence s)
  | DkConflicted =>
      contested x (rq_device r) (rq_capability r) now (rq_max_evidence_age r) /\ cd_selected d = None /\
      forall s, authoritative x (rq_device r) (rq_capability r) now (rq_max_evidence_age r) s ->
                ~ resolved_to x (cd_conflict d) s
  | DkUnknown =>
      (cd_selected d = None /\
       forall s, ~ authoritative x (rq_device r) (rq_capability r) now (rq_max_evidence_age r) s) \/
      exists s, decided_by x d s /\ ~ requirement_met r (se_evidence s) /\
                ~ requirement_violated r (se_evidence s)
  end.
Proof. intros Hx%reachable_inv%inv_groups. by apply decide_requirement_spec. Qed.

Lemma evaluate_decision_sound_witness :
  cd_kind (fst (evaluate Sample.requirement 11 Sample.observed)) = DkCompatible /\
  exists s, decided_by Sample.observed (fst (evaluate Sample.requirement 11 Sample.observed)) s /\
            requirement_met Sample.requirement (se_evidence s).
Proof.
  assert (cd_kind (fst (evaluate Sample.requirement 11 Sample.observed)) = DkCompatible) as E
    by (vm_compute; reflexivity).
  split; [exact E|].
  pose proof (evaluate_decision_sound Sample.requirement 11 Sample.observed Sample.observed_reachable) as H.
  cbv zeta in H. rewrite E in H. exact H.
Defined.

(** ** Eviction *)

(** A priority of 5 is exactly being in force without an age override. *)
Lemma eviction_priority_in_force x key s r now :
  in_force x key s r now 0 -> eviction_priority x key s r now = 5.
Proof.
  intros (Hl & Hgen & (entry & He & Hcur) & (src & Hsrc & Htr & Hun & Hboot & Hage & Hval)).
  unfold eviction_priority. rewrite Hl.
  destruct (negb (stream_max_generation s =? 0) &&
            (ce_generation (se_evidence r) <? stream_max_generation s)) eqn:E1; [lia|].
  rewrite He, Hcur, Z.eqb_refl. simpl. rewrite Hsrc.
  rewrite (bool_decide_eq_false_2 (sp_trust src = Revoked)) by done.
  destruct (bool_decide (sp_trust src = Untrusted) && rp_refuse_untrusted_sources (i_policy x)) eqn:E2.
  { apply andb_true_iff in E2 as [E2%bool_decide_eq_true E2']. by rewrite Hun in E2'. }
  destruct (ce_boot_at_ingest (se_evidence r) >? i_boot_epoch x) eqn:E3; [lia|].
  destruct ((ce_boot_at_ingest (se_evidence r) <? i_boot_epoch x) && negb (sp_durable_across_boot src) &&
            bool_decide (rp_boot_policy (i_policy x) = ConservativeFence)) eqn:E4.
  { apply andb_true_iff in E4 as [[E4 E4']%andb_true_iff E4''%bool_decide_eq_true].
    destruct Hboot as [H|[_ [H|H]]]; [lia|by rewrite H in E4'|congruence]. }
  cbv zeta.
  destruct (negb (effective_max_age (i_policy x) (Some src) 0 =? 0) && _) eqn:E5; [lia|].
  destruct (ce_valid_until (se_evidence r)) as [t|]; [|done].
  specialize (Hval t eq_refl). destruct (now >? t) eqn:E6; [lia|done].
Qed.

(** No two different records of the registry have the same identifier. *)
Definition collision_free (x : Impl) : Prop :=
  forall r1 r2, r1 ∈ flatten_records x -> r2 ∈ flatten_records x ->
    stored_id r1 = stored_id r2 -> se_evidence r1 = se_evidence r2.

Lemma nodup_same_id l r1 r2 :
  NoDup (map stored_id l) -> r1 ∈ l -> r2 ∈ l -> stored_id r1 = stored_id r2 -> r1 = r2.
Proof.
  induction l as [|r l IH]; intros Hnd H1 H2 E; [by apply elem_of_nil in H1|].
  simpl in Hnd. apply NoDup_cons in Hnd as [Hr Hnd].
  apply elem_of_cons in H1 as [->|H1]; apply elem_of_cons in H2 as [->|H2]; [done| | |by apply IH].
  - exfalso. apply Hr. rewrite E. by apply list_elem_of_fmap_2.
  - exfalso. apply Hr. rewrite <- E. by apply list_elem_of_fmap_2.
Qed.

(** Records with one identifier are one record of one stream. *)
Lemma same_id_same_place x key1 s1 r1 key2 s2 r2 :
  groups_ok (i_groups x) -> collision_free x ->
  find_stream x key1 = Some s1 -> r1 ∈ stream_records s1 ->
  find_stream x key2 = Some s2 -> r2 ∈ stream_records s2 ->
  stored_id r1 = stored_id r2 -> key1 = key2 /\ s1 = s2 /\ r1 = r2.
Proof.
  intros Hg Hcf Hs1 Hr1 Hs2 Hr2 Hid.
  assert (se_evidence r1 = se_evidence r2) as He.
  { apply Hcf; [..|done]; apply (flatten_records_elem _ _ Hg); [by exists key1, s1|by exists key2, s2]. }
  pose proof (lookup_stream_ok _ _ _ Hg Hs1) as [(Hf1 & _ & Hnd) _].
  pose proof (lookup_stream_ok _ _ _ Hg Hs2) as [(Hf2 & _) _].
  rewrite Forall_forall in Hf1, Hf2. destruct (Hf1 _ Hr1) as (K1 & _). destruct (Hf2 _ Hr2) as (K2 & _).
  assert (key1 = key2) as <- by congruence. rewrite Hs1 in Hs2. injection Hs2 as <-.
  split_and!; [done|done|]. by eapply nodup_same_id.
Qed.

(** The fact of a live record is active. *)
Lemma live_fact_active x key s r now f :
  groups_ok (i_groups x) -> collision_free x ->
  find_stream x key = Some s -> r ∈ stream_records s ->
  authoritative x (ek_device key) (ek_kind key) now 0 r ->
  f ∈ dv_facts (derive x (ek_device key) (ek_kind key) now 0) -> df_id f = stored_id r ->
  df_state f = StActive.
Proof.
  intros Hg Hcf Hs Hr [(source & s1 & Hs1 & Hr1 & Hin) Hmax] Hf Hid.
  unfold derive in Hf. destruct (lookup_group (i_groups x) (ek_device key) (ek_kind key)) as [group|] eqn:Hl;
    [|by apply elem_of_nil in Hf].
  cbn [dv_facts] in Hf. apply sort_by_elem in Hf. fold (raw_facts x (ek_device key) group now 0) in Hf.
  apply list_elem_of_fmap in Hf as (f0 & -> & Hf0).
  pose proof Hf0 as (src' & s' & r' & Hs' & Hr' & Ef)%(raw_facts_elem _ _ _ _ _ _ _ Hg Hl).
  assert (df_record f0 = r') as Erec by (rewrite Ef; by destruct (classify _ _ _ _ _ _ _)).
  assert (df_id (demote (highest_authority (raw_facts x (ek_device key) group now 0)) f0) = stored_id r') as Eid.
  { unfold demote, df_id. rewrite <- Erec. by destruct (_ && _). }
  rewrite Eid in Hid.
  destruct (same_id_same_place _ _ _ _ _ _ _ Hg Hcf Hs' Hr' Hs1 Hr1 Hid) as (Ekey & -> & ->).
  injection Ekey as ->.
  pose proof (proj2 (classify_active x (mkEvidenceKey (ek_device key) (ek_kind key) source) s1 r now 0) Hin) as Hc.
  simpl in Hc. destruct (classify x r s1 (find_source (i_policy x) source) (ek_device key) now 0) as [st reason].
  simpl in Hc. subst st. subst f0. unfold demote. simpl.
  destruct (clt (ce_authority (se_evidence r)) (highest_authority (raw_facts x (ek_device key) group now 0))) eqn:E.
  2: { unfold df_authority. simpl. by rewrite E. }
  exfalso. apply clt_authority in E.
  destruct (highest_authority_spec (raw_facts x (ek_device key) group now 0)) as [_ [Hh|(f' & Hf' & Hst' & Hh)]].
  - rewrite Hh in E. simpl in E. pose proof (authority_nonneg (ce_authority (se_evidence r))). lia.
  - destruct (raw_active_elem _ _ _ _ _ _ _ Hg Hl Hf' Hst') as (src2 & s2 & H1 & H2 & H3).
    specialize (Hmax _ _ _ H1 H2 H3). unfold df_authority in Hh. rewrite Hh in Hmax. lia.
Qed.

(** C26: making room never removes live evidence: in a reachable registry in which no
    two records share an identifier by a digest collision, the record the eviction
    scan picks, under the global or the per-stream bound, is not one of the live
    records of its group, and it is not the record on whose behalf room is
    made. *)
Theorem eviction_spares_live x restrict keep now c s r :
  reachable x -> collision_free x ->
  pick_eviction_candidate x restrict keep now = Some c ->
  find_stream x (ec_key c) = Some s -> r ∈ stream_records s -> stored_id r = ec_id c ->
  ~ authoritative x (ek_device (ec_key c)) (ek_kind (ec_key c)) now 0 r /\ ec_id c <> keep.
Proof.
  intros Hx%reachable_inv%inv_groups Hcf Hp Hs Hr Hid.
  destruct (pick_eviction_spec _ _ _ _ _ Hx Hp) as (s' & r' & Hs' & Hr' & Hid' & Hpr & _ & Hk & Hev & _).
  rewrite Hs in Hs'. injection Hs' as <-.
  destruct (same_id_same_place _ _ _ _ _ _ _ Hx Hcf Hs Hr Hs Hr' ltac:(congruence)) as (_ & _ & <-).
  split; [|by rewrite Hid'].
  intros Hau. pose proof Hau as [(source & s1 & Hs1 & Hr1 & Hin) _].
  destruct (same_id_same_place _ _ _ _ _ _ _ Hx Hcf Hs1 Hr1 Hs Hr eq_refl) as (Ek & -> & _).
  rewrite Ek in Hin. apply eviction_priority_in_force in Hin. rewrite Hpr, Hin in Hev.
  unfold evictable in Hev. simpl in Hev.
  destruct (find _ (dv_facts _)) as [f|] eqn:Ef; [|done].
  apply List.find_some in Ef as [Hf Hfid]. apply list_elem_of_In in Hf.
  apply bool_decide_eq_true in Hfid, Hev.
  rewrite (live_fact_active _ _ _ _ _ _ Hx Hcf Hs Hr Hau Hf Hfid) in Hev. done.
Qed.

(** The test for [collision_free]. *)
Definition collision_freeb (x : Impl) : bool :=
  forallb (fun r1 => forallb (fun r2 =>
    negb (bool_decide (stored_id r1 = stored_id r2)) || bool_decide (se_evidence r1 = se_evidence r2))
    (flatten_records x)) (flatten_records x).

Lemma collision_freeb_true x : collision_freeb x = true -> collision_free x.
Proof.
  intros Hb r1 r2 H1 H2 Hid. apply list_elem_of_In in H1, H2.
  pose proof (proj1 (forallb_forall _ _) Hb r1 H1) as Hb1. simpl in Hb1.
  pose proof (proj1 (forallb_forall _ _) Hb1 r2 H2) as Hb2. simpl in Hb2.
  rewrite bool_decide_eq_true_2 in Hb2 by done. by apply bool_decide_eq_true in Hb2.
Qed.

Lemma eviction_spares_live_witness :
  exists c s r, pick_eviction_candidate Sample.superseded None [] 12 = Some c /\
    find_stream Sample.superseded (ec_key c) = Some s /\ r ∈ stream_records s /\ stored_id r = ec_id c /\
    (~ authoritative Sample.superseded (ek_device (ec_key c)) (ek_kind (ec_key c)) 12 0 r /\ ec_id c <> []).
Proof.
  destruct (pick_eviction_candidate Sample.superseded None [] 12) as [c|] eqn:Ec; [|vm_compute in Ec; discriminate].
  destruct (pick_eviction_spec _ _ _ _ _ (inv_groups _ (reachable_inv _ Sample.superseded_reachable)) Ec)
    as (s & r & Hs & Hr & Hid & _).
  exists c, s, r. split; [reflexivity|]. split; [exact Hs|]. split; [exact Hr|].
  split; [symmetry; exact Hid|].
  refine (eviction_spares_live Sample.superseded None [] 12 c s r Sample.superseded_reachable _ Ec Hs Hr _).
  - apply collision_freeb_true. vm_compute. reflexivity.
  - symmetry. exact Hid.
Defined.

(** ** Budgets *)

(** More fuel than there are records changes nothing. *)
Lemma enforce_global_fuel n k keep now x acc :
  Inv x -> (world_records (i_groups x) <= n)%nat ->
  enforce_global (n + k) keep now x acc = enforce_global n keep now x acc.
Proof.
  revert x acc. induction n as [|n IH]; intros x acc Hx Hn.
  - simpl. assert (pick_eviction_candidate x None keep now = None) as Hp by (apply pick_none_empty; lia).
    destruct k; simpl; [done|]. rewrite Hp. by repeat case_if.
  - simpl. case_if; [done|]. destruct (pick_eviction_candidate x None keep now) as [c|]; [|done].
    destruct (apply_eviction c now x) as [[y id]|] eqn:Ea; [|done].
    destruct (apply_eviction_inv _ _ _ _ _ Hx Ea) as (? & ? & _ & _ & _ & _ & _ & _ & _ & _ & E & Hy).
    apply IH; [done|lia].
Qed.

Lemma enforce_stream_fuel n k key keep now x acc :
  Inv x -> (world_records (i_groups x) <= n)%nat ->
  enforce_stream (n + k) key keep now x acc = enforce_stream n key keep now x acc.
Proof.
  revert x acc. induction n as [|n IH]; intros x acc Hx Hn.
  - simpl. assert (pick_eviction_candidate x (Some key) keep now = None) as Hp by (apply pick_none_empty; lia).
    destruct k; simpl; [done|]. rewrite Hp. destruct (find_stream x key); [|done]. by repeat case_if.
  - simpl. destruct (find_stream x key); [|done]. case_if; [done|].
    destruct (pick_eviction_candidate x (Some key) keep now) as [c|]; [|done].
    destruct (apply_eviction c now x) as [[y id]|] eqn:Ea; [|done].
    destruct (apply_eviction_inv _ _ _ _ _ Hx Ea) as (? & ? & _ & _ & _ & _ & _ & _ & _ & _ & E & Hy).
    apply IH; [done|lia].
Qed.


