(* ===== verification/AdmissionThms.v ===== *)
(** * The registry engine: admission and retirement (src/registry.cpp)

    What an accepted admission leaves in the registry, that repeating it changes
    nothing, and that a retirement fences its stream. *)

From Stdlib Require Import ZArith Lia ZifyBool Ascii String Sorted Permutation.
From stdpp Require Import base tactics list strings.
From S2P Require Import Prelude OrdMap Checked Reason Text Units Name SemVer Hash Catalog Evidence State.
From S2P Require Import Codec CodecTypes CodecThms Compat Registry RegistryOps RegistryInv Derivation.
From S2P Require Import RegistryThms.

#[local] Open Scope Z_scope.
#[local] Open Scope list_scope.
#[local] Opaque digest_of compute_digest.

(** ** What the bookkeeping leaves alone *)

Definition frame (x : Impl) :=
  (i_policy x, i_incarnations x, i_boot_epoch x, (i_epoch x, i_policy_revision x, i_next_incarnation x)).

Lemma refresh_conflict_frame d k now x : frame (refresh_conflict d k now x) = frame x.
Proof. unfold refresh_conflict. by repeat case_match. Qed.

Lemma apply_eviction_frame c now x y id : apply_eviction c now x = Some (y, id) -> frame y = frame x.
Proof.
  unfold apply_eviction. destruct (find_stream x (ec_key c)) as [s|]; [|done].
  destruct (find _ _) as [r|]; [|done]. intros [= <- _].
  unfold drop_record, push_eviction. by repeat case_if.
Qed.

Lemma evictions_frame restrict keep now x ids z : evictions restrict keep now x ids z -> frame z = frame x.
Proof. induction 1 as [|x c y ids z _ Ha _ IH]; [done|]. rewrite IH. by eapply apply_eviction_frame. Qed.

(** ** The record that room is made for *)

Lemma erase_first_keeps {A} (p : A -> bool) l a : a ∈ l -> p a = false -> a ∈ erase_first p l.
Proof.
  induction 1 as [a l|a b l Hin IH]; intros Hp; simpl; [rewrite Hp; by left|].
  destruct (p b); [done|]. right. by apply IH.
Qed.

Lemma evictions_keep restrict keep now x ids z key s r :
  evictions restrict keep now x ids z -> Inv x ->
  find_stream x key = Some s -> r ∈ stream_records s -> stored_id r = keep ->
  exists s', find_stream z key = Some s' /\ r ∈ stream_records s' /\
    sublist (stream_records s') (stream_records s).
Proof.
  intros Hev. revert s. induction Hev as [x|x c y ids z Hp Ha Hev IH]; intros s Hx Hs Hr Hid; [by exists s|].
  destruct (apply_eviction_inv _ _ _ _ _ Hx Ha) as (s1 & r1 & Hs1 & _ & _ & _ & Eg & _ & _ & _ & _ & Hy).
  destruct (pick_eviction_spec _ _ _ _ _ (inv_groups _ Hx) Hp) as (s2 & r2 & _ & _ & E2 & _ & _ & Hk & _).
  unfold find_stream in *. rewrite Eg in IH.
  destruct (decide (key = ec_key c)) as [->|Hne].
  - rewrite lookup_stream_put, decide_True in IH by done. rewrite Hs in Hs1. injection Hs1 as <-.
    destruct (IH _ Hy eq_refl) as (s' & H1 & H2 & H3); [simpl; apply erase_first_keeps; [done|]|done|].
    { apply bool_decide_eq_false. congruence. }
    exists s'. split_and!; [done|done|]. etrans; [exact H3|]. apply erase_first_sublist.
  - rewrite lookup_stream_put, decide_False in IH by done. by apply IH.
Qed.

(** ** Accepted admissions *)

(** The stages of an admission that reached its stream. *)
Lemma admit_stages q now x o y a :
  Inv x -> admission_ok q -> registry_admit q now x = (o, y) -> oc_value o = Some a ->
  admit_guard q now x = None /\ admit_content q x = None /\ 0 < aq_generation q /\
  exists x1, register_device (aq_device q) x = inr x1 /\
    (forall t, find_tombstone x1 (admission_key q) = Some t -> rr_generation t < aq_generation q) /\
    admit_record (admission_key q) (admission_evidence q x1) now x1 = (o, y).
Proof.
  intros Hx Hq Ha Ho. unfold registry_admit in Ha.
  assert (forall reason detail z, admit_reject reason detail z = (o, y) -> False) as Hrej.
  { intros reason detail z E. unfold admit_reject in E. injection E as <- _. done. }
  destruct (admit_guard q now x) as [[]|] eqn:Eg; [by apply Hrej in Ha|].
  destruct (admit_content q x) as [[]|] eqn:Ec; [by apply Hrej in Ha|].
  destruct (register_device (aq_device q) x) as [|x1] eqn:Er; [by apply Hrej in Ha|].
  cbv zeta in Ha. destruct (_ && _); [by apply Hrej in Ha|].
  destruct (match find_tombstone x1 (admission_key q) with
            | Some t => rr_generation t >=? aq_generation q | None => false end) eqn:Et;
    [by apply Hrej in Ha|].
  split_and!; [done|done| |].
  - unfold admit_guard, is_unset in Eg. destruct (aq_generation q =? 0) eqn:E0; [done|].
    unfold admission_ok, in_u in Hq. lia.
  - exists x1. split_and!; [done| |done]. intros t Ht. rewrite Ht in Et. lia.
Qed.

Lemma register_device_frame d x x1 :
  register_device d x = inr x1 ->
  i_policy x1 = i_policy x /\ i_boot_epoch x1 = i_boot_epoch x /\ i_epoch x1 = i_epoch x /\
  i_policy_revision x1 = i_policy_revision x.
Proof.
  unfold register_device, raise_next_incarnation. cbv zeta.
  destruct (find_device x (dr_device d)); repeat case_if; intros E; try done; by injection E as <-.
Qed.

Lemma admission_evidence_frame q x y :
  i_policy y = i_policy x -> i_boot_epoch y = i_boot_epoch x -> i_epoch y = i_epoch x ->
  i_policy_revision y = i_policy_revision x -> admission_evidence q y = admission_evidence q x.
Proof. unfold admission_evidence. by intros -> -> -> ->. Qed.

(** A registered device stays registered, so registering it again changes
    nothing. *)
Lemma register_device_again d x x1 y :
  register_device d x = inr x1 -> frame y = frame x1 -> register_device d y = inr y.
Proof.
  intros Hr Hf. unfold frame in Hf. injection Hf as F1 F2 F3 F4 F5 F6.
  assert (exists e, find_device x1 (dr_device d) = Some e /\ in_history (dr_incarnation d) (ie_history e) = true)
    as (e & He & Hh).
  { unfold register_device, find_device in *. cbv zeta in Hr.
    assert (forall n z, i_incarnations (raise_next_incarnation n z) = i_incarnations z) as Hi
      by (clear; intros; unfold raise_next_incarnation; by case_if).
    destruct (om_find (dr_device d) (i_incarnations x)) as [e|] eqn:Ee.
    - destruct (in_history (dr_incarnation d) (ie_history e)) eqn:Eh.
      + injection Hr as <-. rewrite Hi. by exists e.
      + destruct (_ >=? _); [done|]. injection Hr as <-. rewrite Hi. simpl. rewrite om_find_set_eq.
        eexists. split; [done|]. simpl. apply existsb_exists. exists (dr_incarnation d).
        split; [|apply Z.eqb_refl]. apply list_elem_of_In, push_history_elem. by left.
    - destruct (_ >=? _); [done|]. injection Hr as <-. rewrite Hi. simpl. rewrite om_find_set_eq.
      eexists. split; [done|]. simpl. by rewrite Z.eqb_refl. }
  assert (i_next_incarnation x1 = u64 (dr_incarnation d + 1) \/ dr_incarnation d < i_next_incarnation x1) as Hn.
  { assert (exists z, x1 = raise_next_incarnation (dr_incarnation d) z) as [z ->].
    { unfold register_device in Hr. cbv zeta in Hr.
      destruct (find_device x (dr_device d)); repeat case_match; try done; injection Hr as <-; by eexists. }
    unfold raise_next_incarnation. destruct (i_next_incarnation z <=? dr_incarnation d) eqn:E; simpl; lia. }
  unfold register_device, find_device in *. cbv zeta. rewrite F2, He, Hh. f_equal.
  unfold raise_next_incarnation. rewrite F6. case_if; [|done].
  destruct Hn as [Hn|Hn]; [|lia]. rewrite <- Hn, <- F6. by destruct y.
Qed.

Lemma evictions_tombstone restrict keep now x ids z key :
  evictions restrict keep now x ids z -> Inv x -> find_tombstone z key = find_tombstone x key.
Proof.
  induction 1 as [|x c y ids z Hp Ha Hev IH]; intros Hx; [done|].
  destruct (apply_eviction_inv _ _ _ _ _ Hx Ha) as (? & ? & _ & _ & _ & _ & Eg & _ & _ & _ & _ & Hy).
  rewrite (IH Hy), !find_tombstone_lookup, Eg. apply lookup_tombstone_put_stream.
Qed.

Lemma core_groups x y : core y = core x -> i_groups y = i_groups x /\ i_total_records y = i_total_records x.
Proof. unfold core. intros E. by injection E. Qed.

(** A sublist that keeps a record of the highest generation keeps the height. *)
Lemma highest_generation_sublist l l' r :
  sublist l l' -> r ∈ l -> 0 < stored_generation r -> stored_generation r = highest_generation l' ->
  highest_generation l = stored_generation r.
Proof.
  intros Hsub Hr Hpos Hh. pose proof (highest_generation_le _ _ Hr) as Hle.
  destruct (highest_generation_attained l) as [E|(r' & Hr' & E)]; [lia|].
  assert (r' ∈ l') as Hin by (eapply elem_of_submseteq; [exact Hr'|]; by apply sublist_submseteq).
  apply highest_generation_le in Hin. lia.
Qed.

(** What an accepted record leaves behind. *)
Lemma admit_accept_result key e s now x o y a :
  Inv x -> find_stream x key = Some s ->
  (forall reason, record_ok key (mkStored e LcAdmitted reason now None Ok_)) ->
  evidence_id e ∉ map stored_id (stream_records s) -> stream_max_generation s < ce_generation e ->
  admit_accept key e s now x = (o, y) -> oc_value o = Some a ->
  (exists s' r, find_stream y key = Some s' /\ r ∈ stream_records s' /\ se_evidence r = e /\
     se_lifecycle r = LcAdmitted /\ stream_max_generation s' = ce_generation e) /\
  ao_id a = evidence_id e /\ frame y = frame x /\ find_tombstone y key = find_tombstone x key /\
  i_total_records y <= max_records (rp_limits (i_policy x)) /\ Inv y.
Proof.
  intros Hx Hs Hr Hid Hgen Ha Ho.
  pose proof (admit_accept_inv key e s now x Hx Hs Hr Hid Hgen) as Hy. rewrite Ha in Hy. simpl in Hy.
  unfold admit_accept in Ha. cbv zeta in Ha.
  pose proof (lookup_stream_ok _ _ _ (inv_groups _ Hx) Hs) as Hso.
  set (reason := if stream_max_generation s =? 0 then _ else _) in *.
  set (stored := mkStored e LcAdmitted reason now None Ok_) in *.
  set (s1 := mkStream (insert_by record_key stored (stream_records s)) (ce_generation e)) in *.
  set (x1 := set_i_total_records _ _) in *.
  assert (stream_ok key s1) as Hs1 by by apply accepted_stream_ok.
  assert (Inv x1) as Hx1.
  { apply (set_stream_inv key s _ 1 x); [done..|]. unfold stream_len. simpl. rewrite insert_by_len. lia. }
  assert (find_stream x1 key = Some s1) as Hf1.
  { unfold find_stream. simpl. by rewrite lookup_stream_put, decide_True. }
  assert (stored ∈ stream_records s1) as Hin.
  { simpl. rewrite (insert_by_perm record_key stored (stream_records s)). by left. }
  destruct (enforce_budget_run key (evidence_id e) now x1 Hx1) as (ok & y1 & z & ids1 & ids2 & Er & H1 & H2 & Hok & _).
  rewrite Er in Ha. destruct ok; [|injection Ha as <- _; done].
  injection Ha as <- <-. injection Ho as <-. destruct (Hok eq_refl) as [Htot _].
  destruct (evictions_inv _ _ _ _ _ _ H1 Hx1) as (Hy1 & _).
  destruct (evictions_keep _ _ _ _ _ _ key s1 stored H1 Hx1 Hf1 Hin eq_refl) as (s2 & Hf2 & Hin2 & Hsub2).
  destruct (evictions_keep _ _ _ _ _ _ key s2 stored H2 Hy1 Hf2 Hin2 eq_refl) as (s3 & Hf3 & Hin3 & Hsub3).
  pose proof (evictions_frame _ _ _ _ _ _ H1) as F1. pose proof (evictions_frame _ _ _ _ _ _ H2) as F2.
  pose proof (evictions_tombstone _ _ _ _ _ _ key H1 Hx1) as T1.
  pose proof (evictions_tombstone _ _ _ _ _ _ key H2 Hy1) as T2.
  destruct (evictions_inv _ _ _ _ _ _ H2 Hy1) as (Hz & _).
  set (fin := refresh_conflict _ _ _ _) in *.
  destruct (core_groups (count inc_c_admissions_accepted z) fin (refresh_conflict_core _ _ _ _)) as [G1 G2].
  assert (frame fin = frame x) as Hfr.
  { unfold fin. rewrite refresh_conflict_frame. change (frame (count inc_c_admissions_accepted z)) with (frame z).
    rewrite F2, F1. done. }
  split_and!; [| done | done | | | done].
  - exists s3, stored. unfold find_stream. rewrite G1. split_and!; [done|done|done|done|].
    destruct (lookup_stream_ok _ _ _ (inv_groups _ Hz) Hf3) as [_ Hm3]. rewrite Hm3.
    destruct Hs1 as [_ Hm1]. destruct (Hr Ok_) as (_ & Hpos & _).
    apply (highest_generation_sublist _ (stream_records s1) stored); [by etrans|done..].
  - rewrite !find_tombstone_lookup, G1. change (i_groups (count inc_c_admissions_accepted z)) with (i_groups z).
    rewrite <- !find_tombstone_lookup, T2, T1, !find_tombstone_lookup. apply lookup_tombstone_put_stream.
  - rewrite G2. change (i_total_records (count inc_c_admissions_accepted z)) with (i_total_records z).
    unfold frame in F1, F2. injection F1 as P1 _ _ _ _ _. injection F2 as P2 _ _ _ _ _.
    rewrite P2, P1 in Htot. exact Htot.
Qed.

Lemma admit_guard_policy q now x y : i_policy y = i_policy x -> admit_guard q now y = admit_guard q now x.
Proof. unfold admit_guard. by intros ->. Qed.

Lemma admit_content_policy q x y : i_policy y = i_policy x -> admit_content q y = admit_content q x.
Proof. unfold admit_content. by intros ->. Qed.

(** The branch an accepting outcome comes from. *)
Lemma admit_record_accepted key e now x o y a :
  Inv x -> (forall lc reason, record_ok key (mkStored e lc reason now None Ok_)) ->
  admit_record key e now x = (o, y) -> oc_value o = Some a ->
  ao_reason a = AcceptedNew \/ ao_reason a = AcceptedSuperseding ->
  (exists s r, find_stream y key = Some s /\ r ∈ stream_records s /\ se_evidence r = e /\
     se_lifecycle r = LcAdmitted /\ stream_max_generation s = ce_generation e) /\
  ao_id a = evidence_id e /\ frame y = frame x /\ find_tombstone y key = find_tombstone x key /\
  i_total_records y <= max_records (rp_limits (i_policy x)).
Proof.
  intros Hx Hr Ha Ho Hreason. unfold admit_record in Ha.
  destruct (ensure_stream key x) as [s x1] eqn:Ee.
  destruct (ensure_stream_inv _ _ _ _ Ee Hx) as (Hx1 & Hs & [_ Hm] & Hp).
  assert (frame x1 = frame x /\ find_tombstone x1 key = find_tombstone x key) as [Hf Ht].
  { unfold ensure_stream in Ee. destruct (find_stream x key); injection Ee as <- <-; [done|].
    split; [done|]. rewrite !find_tombstone_lookup. apply lookup_tombstone_put_stream. }
  destruct (existsb _ _) eqn:Ed.
  { unfold admit_duplicate in Ha. injection Ha as <- _. injection Ho as <-. simpl in Hreason. by destruct Hreason. }
  apply has_id_absent in Ed.
  pose proof (highest_generation_nonneg (stream_records s)) as Hnn.
  destruct (Hr LcAdmitted Ok_) as (_ & Hpos & _). unfold stored_generation in Hpos. simpl in Hpos.
  destruct (negb _ && (_ <? _)) eqn:E1.
  { unfold admit_refused in Ha. injection Ha as <- _. injection Ho as <-. simpl in Hreason. by destruct Hreason. }
  destruct (negb _ && (_ =? _)) eqn:E2.
  { unfold admit_refused in Ha. injection Ha as <- _. injection Ho as <-. simpl in Hreason. by destruct Hreason. }
  destruct (admit_accept_result key e s now x1 o y a) as (H1 & H2 & H3 & H4 & H5 & _); auto; [lia|].
  rewrite <- Hp. split_and!; [done|done|by rewrite H3|by rewrite H4|done].
Qed.

(** C18: an accepted admission is in the registry exactly once: the record with
    the asserted content is in its stream as admitted evidence under the reported
    identifier, its generation is now the newest of the stream, the record budget
    holds, and presenting the same request again is answered as already present
    and changes nothing but the counter of such answers. *)
Theorem admission_recorded_once q now x o y a :
  reachable x -> admission_ok q -> registry_admit q now x = (o, y) -> oc_value o = Some a ->
  ao_reason a = AcceptedNew \/ ao_reason a = AcceptedSuperseding ->
  (exists s r, find_stream y (admission_key q) = Some s /\ r ∈ stream_records s /\
     se_evidence r = admission_evidence q x /\ se_lifecycle r = LcAdmitted /\ stored_id r = ao_id a /\
     stream_max_generation s = aq_generation q) /\
  i_total_records y <= max_records (rp_limits (i_policy x)) /\
  exists a', registry_admit q now y = (outcome_value a', count inc_c_admissions_idempotent y) /\
    ao_reason a' = AlreadyPresent /\ ao_idempotent a' = true /\ ao_id a' = ao_id a.
Proof.
  intros Hx%reachable_inv Hq Ha Ho Hreason.
  destruct (admit_stages q now x o y a Hx Hq Ha Ho) as (Hg & Hc & Hpos & x1 & Hr & Htomb & Hrec).
  destruct (register_device_inv _ _ _ Hr Hx) as (Hx1 & _).
  destruct (register_device_frame _ _ _ Hr) as (P1 & P2 & P3 & P4).
  destruct (admit_record_accepted _ _ _ _ _ _ _ Hx1 (fun lc reason => admission_record_ok q x1 lc reason now Hpos)
    Hrec Ho Hreason) as ((s & r & Hs & Hin & Hev & Hlc & Hmax) & Hid & Hf & Ht & Htot).
  pose proof (admission_evidence_frame q x x1 P1 P2 P3 P4) as He1.
  pose proof Hf as Hf'. unfold frame in Hf'. injection Hf' as F1 _ F3 F4 F5 _.
  assert (admission_evidence q y = admission_evidence q x) as Hey
    by (apply admission_evidence_frame; congruence).
  assert (stored_id r = ao_id a) as Hrid by (unfold stored_id; by rewrite Hev, Hid).
  split; [exists s, r; split_and!; [done|done|by rewrite Hev, He1|done|done|done]|].
  split; [by rewrite <- P1|].
  unfold registry_admit.
  rewrite (admit_guard_policy q now x y), Hg by congruence.
  rewrite (admit_content_policy q x y), Hc by congruence.
  rewrite (register_device_again _ _ _ y Hr Hf). cbv zeta.
  rewrite (bool_decide_eq_false_2 (find_stream y (admission_key q) = None)) by congruence. simpl.
  rewrite Ht. destruct (match find_tombstone x1 (admission_key q) with
    | Some t => rr_generation t >=? aq_generation q | None => false end) eqn:Et.
  { destruct (find_tombstone x1 (admission_key q)) as [t|]; [|done]. specialize (Htomb t eq_refl). lia. }
  unfold admit_record, ensure_stream. rewrite Hs, Hey.
  assert (existsb (has_id (evidence_id (admission_evidence q x))) (stream_records s) = true) as ->.
  { apply existsb_exists. exists r. split; [by apply list_elem_of_In|]. apply bool_decide_eq_true.
    unfold stored_id. by rewrite Hev, He1. }
  eexists. split; [reflexivity|]. simpl. split_and!; [done|done|]. by rewrite Hid, He1.
Qed.

Lemma admission_recorded_once_witness :
  exists a, oc_value (fst (registry_admit (Sample.request "driver-selfreport"%string 2) 11 Sample.observed)) = Some a /\
    ao_reason a = AcceptedSuperseding /\
    i_total_records Sample.superseded <= max_records (rp_limits (i_policy Sample.observed)).
Proof.
  destruct (oc_value (fst (registry_admit (Sample.request "driver-selfreport"%string 2) 11 Sample.observed)))
    as [a|] eqn:E; [|vm_compute in E; discriminate].
  assert (ao_reason a = AcceptedSuperseding) as Er.
  { apply (f_equal (fun v => match v with Some a => ao_reason a | None => Ok_ end)) in E.
    vm_compute in E. symmetry. exact E. }
  exists a. split; [reflexivity|]. split; [exact Er|].
  destruct (admission_recorded_once (Sample.request "driver-selfreport"%string 2) 11 Sample.observed
    (fst (registry_admit (Sample.request "driver-selfreport"%string 2) 11 Sample.observed)) Sample.superseded a)
    as (_ & H & _); [apply Sample.observed_reachable|unfold admission_ok, in_u; simpl; lia|
                     apply surjective_pairing|exact E|right; exact Er|exact H].
Defined.

(** ** Retirement *)

Lemma erase_tombstone_lookup g key key' :
  key' <> key -> lookup_tombstone (erase_tombstone g key) key' = lookup_tombstone g key'.
Proof.
  intros Hne. unfold lookup_tombstone, erase_tombstone. rewrite lookup_group_put.
  destruct (ceq (ek_device key') (ek_device key) && ceq (ek_kind key') (ek_kind key)) eqn:E; [|done].
  apply andb_true_iff in E as [Ed%ceq_true Ek%ceq_true]. simpl.
  assert (ek_source key' <> ek_source key) by (destruct key, key'; simpl in *; congruence).
  rewrite om_find_erase_ne by done. rewrite Ed, Ek. unfold group_or_empty.
  by destruct (lookup_group g (ek_device key) (ek_kind key)).
Qed.

Lemma erase_tombstone_stream g key key' :
  lookup_stream (erase_tombstone g key) key' = lookup_stream g key'.
Proof.
  unfold lookup_stream, erase_tombstone. rewrite lookup_group_put.
  destruct (ceq (ek_device key') (ek_device key) && ceq (ek_kind key') (ek_kind key)) eqn:E; [|done].
  apply andb_true_iff in E as [Ed%ceq_true Ek%ceq_true]. rewrite Ed, Ek. simpl.
  unfold group_or_empty. by destruct (lookup_group g (ek_device key) (ek_kind key)).
Qed.

(** A tombstone that supersedes the one in place stays, whatever is dropped. *)
Lemma push_tombstone_lookup t x :
  (forall t', find_tombstone x (rr_key t) = Some t' -> rr_generation t' < rr_generation t) ->
  find_tombstone (push_tombstone t x) (rr_key t) = Some t /\
  (forall key, find_stream (push_tombstone t x) key = find_stream x key) /\
  i_policy (push_tombstone t x) = i_policy x.
Proof.
  intros Hlt. unfold push_tombstone. cbv zeta.
  destruct (match find_tombstone x (rr_key t) with Some slot => _ | None => false end) eqn:Ek.
  { destruct (find_tombstone x (rr_key t)) as [t'|]; [|done]. specialize (Hlt t' eq_refl).
    apply andb_true_iff in Ek as [Ek _]. lia. }
  set (y := set_i_groups (put_tombstone (i_groups x) (rr_key t) t) x).
  assert (find_tombstone y (rr_key t) = Some t) as Hy.
  { rewrite find_tombstone_lookup. simpl. by rewrite lookup_tombstone_put, decide_True. }
  assert (forall key, find_stream y key = find_stream x key) as Hs.
  { intros key. unfold find_stream. simpl. apply lookup_stream_put_tombstone. }
  case_if; [|done]. destruct (oldest_tombstone _) as [[oldest o]|]; [|done].
  case_if; [|done].
  match goal with Hb : negb (bool_decide (oldest = rr_key t)) = true |- _ =>
    apply negb_true_iff, bool_decide_eq_false in Hb as Hne end.
  split_and!; [| |done].
  - rewrite find_tombstone_lookup. simpl. by rewrite erase_tombstone_lookup by congruence.
  - intros key. unfold find_stream. simpl. rewrite erase_tombstone_stream. apply Hs.
Qed.

(** The stages of a retirement that was not a repetition. *)
Lemma retire_stages q now x o y a :
  retire q now x = (o, y) -> oc_value o = Some a -> ro_idempotent a = false ->
  exists s, find_stream x (retirement_key q) = Some s /\
    (stream_max_generation s = 0 \/ stream_max_generation s < rt_generation q) /\
    (forall t, find_tombstone x (retirement_key q) = Some t -> rr_generation t < rt_generation q) /\
    retire_stream q s now x = (o, y).
Proof.
  intros Hr Ho Hi. unfold retire in Hr. cbv zeta in Hr.
  assert (forall reason detail, retire_reject reason detail x = (o, y) -> False) as Hrej.
  { intros reason detail E. unfold retire_reject in E. injection E as <- _. done. }
  destruct (is_unset (rt_generation q)); [by apply Hrej in Hr|].
  destruct (bool_decide _ && _); [by apply Hrej in Hr|].
  destruct (find_device x _); [|by apply Hrej in Hr].
  destruct (find_tombstone x (retirement_key q)) as [t|] eqn:Et.
  - destruct (rr_generation t =? rt_generation q) eqn:E1.
    { injection Hr as <- _. injection Ho as <-. done. }
    destruct (rr_generation t >? rt_generation q) eqn:E2; [by apply Hrej in Hr|].
    destruct (find_stream x (retirement_key q)) as [s|]; [|by apply Hrej in Hr].
    destruct (negb _ && _) eqn:E3; [by apply Hrej in Hr|].
    exists s. split_and!; [done|lia| |done]. intros t' [= <-]. lia.
  - destruct (find_stream x (retirement_key q)) as [s|]; [|by apply Hrej in Hr].
    destruct (negb _ && _) eqn:E3; [by apply Hrej in Hr|].
    exists s. split_and!; [done|lia|done|done].
Qed.

(** After a retirement every record of the stream is out of force and the
    tombstone is in place. *)
Lemma retire_stream_result q s now x o y :
  Inv x -> find_stream x (retirement_key q) = Some s ->
  (stream_max_generation s = 0 \/ stream_max_generation s < rt_generation q) ->
  (forall t, find_tombstone x (retirement_key q) = Some t -> rr_generation t < rt_generation q) ->
  retire_stream q s now x = (o, y) ->
  (exists s', find_stream y (retirement_key q) = Some s' /\
     forall r, r ∈ stream_records s' -> se_lifecycle r <> LcAdmitted) /\
  exists t, find_tombstone y (retirement_key q) = Some t /\ rr_generation t = rt_generation q.
Proof.
  intros Hx Hs Hmax Ht Hr. unfold retire_stream in Hr. cbv zeta in Hr. injection Hr as _ <-.
  set (t := retirement_record q now x) in *.
  set (s' := mkStream (map _ _) _). set (x1 := set_stream (retirement_key q) s' x) in *.
  destruct (push_tombstone_lookup t x1) as (Hp1 & Hp2 & _).
  { intros t'. rewrite find_tombstone_lookup. simpl. rewrite lookup_tombstone_put_stream. apply Ht. }
  match goal with |- context [refresh_conflict ?d ?k now ?w] =>
    destruct (core_groups w _ (refresh_conflict_core d k now w)) as [G _];
    set (fin := refresh_conflict d k now w) in * end.
  split.
  - exists s'. unfold find_stream. rewrite G. split.
    + change (find_stream (push_tombstone t x1) (retirement_key q) = Some s'). rewrite Hp2.
      unfold find_stream. simpl. by rewrite lookup_stream_put, decide_True.
    + intros r Hin. simpl in Hin. apply list_elem_of_fmap in Hin as (r0 & -> & Hin).
      destruct (lookup_stream_ok _ _ _ (inv_groups _ Hx) Hs) as [(Hall & _) Hm].
      rewrite Forall_forall in Hall. destruct (Hall _ Hin) as (_ & Hpos & _).
      pose proof (highest_generation_le _ _ Hin) as Hle.
      unfold retire_record, retires. destruct (stored_generation r0 <=? rt_generation q) eqn:E; [|lia].
      simpl. destruct (bool_decide (se_lifecycle r0 = LcAdmitted)) eqn:El; [done|].
      by apply bool_decide_eq_false in El.
  - exists t. split; [|done]. rewrite find_tombstone_lookup, G. exact Hp1.
Qed.

(** A stream with a tombstone admits nothing up to its generation. *)
Lemma tombstone_refuses q now x t :
  find_tombstone x (admission_key q) = Some t -> aq_generation q <= rr_generation t ->
  outcome_ok (fst (registry_admit q now x)) = false.
Proof.
  intros Ht Hle. unfold registry_admit.
  destruct (admit_guard q now x) as [[]|]; [done|]. destruct (admit_content q x) as [[]|]; [done|].
  destruct (register_device (aq_device q) x) as [|x1] eqn:Er; [done|]. cbv zeta.
  destruct (_ && _); [done|].
  assert (find_tombstone x1 (admission_key q) = Some t) as ->.
  { rewrite <- Ht, !find_tombstone_lookup. f_equal. unfold register_device in Er. cbv zeta in Er.
    unfold raise_next_incarnation in Er.
    destruct (find_device x _); repeat case_match; try done; by injection Er as <-. }
  destruct (rr_generation t >=? aq_generation q) eqn:E; [done|lia].
Qed.


(** A retirement of the sample stream. *)
Definition sample_retirement : RetirementRequest :=
  mkRetireRequest Sample.device ChecksumOffload "driver-selfreport"%string 5 12 Ok_.

