(* ===== verification/RecoveryThms.v ===== *)
(** * The registry engine: snapshots and recovery (src/registry.cpp)

    The tables a snapshot copies verbatim are kept in order by every operation;
    restoring a snapshot reproduces it; adopting the state of an earlier boot
    fences what may not be carried over. *)

From Stdlib Require Import ZArith Lia ZifyBool Ascii String Sorted Permutation.
From stdpp Require Import base tactics list sorting strings.
From S2P Require Import Prelude OrdMap Checked Reason Text Units Name SemVer Hash Catalog Evidence State.
From S2P Require Import Codec CodecTypes CodecThms Compat Registry RegistryOps RegistryInv Derivation.
From S2P Require Import RegistryThms AdmissionThms.

#[local] Open Scope Z_scope.
#[local] Open Scope list_scope.
#[local] Opaque digest_of compute_digest.

(** ** Ordered tables *)

Record Ordered (x : Impl) : Prop := mkOrdered {
  ord_sources : StronglySorted (key_le sp_id) (rp_sources (i_policy x));
  ord_conflicts : StronglySorted (key_le cg_id) (i_conflicts x);
  ord_resolutions : StronglySorted (key_le cr_id) (i_resolutions x) }.

Definition tables (x : Impl) := (rp_sources (i_policy x), i_conflicts x, i_resolutions x).

Lemma Ordered_tables x y : tables y = tables x -> Ordered x -> Ordered y.
Proof. unfold tables. intros E [H1 H2 H3]. injection E as E1 E2 E3. split; by rewrite ?E1, ?E2, ?E3. Qed.

(** Whether a list is sorted depends on its keys only. *)
Lemma sorted_keys {A K} `{CmpLaws K} (key : A -> K) l l' :
  map key l' = map key l -> StronglySorted (key_le key) l -> StronglySorted (key_le key) l'.
Proof.
  revert l'. induction l as [|a l IH]; intros [|a' l'] E Hs; [constructor|done..|]. simpl in E.
  injection E as E1 E2. inversion Hs as [|? ? Hs' Hall]; subst. constructor; [by apply IH|].
  assert (Forall (fun k => cle (key a) k = true) (map key l)) as Hk by (apply Forall_map; exact Hall).
  rewrite <- E2 in Hk. apply Forall_map in Hk. eapply Forall_impl; [exact Hk|].
  intros b Hb. unfold key_le. by rewrite E1.
Qed.

Lemma replace_first_keys {A K} (key : A -> K) p v l a :
  find p l = Some a -> key v = key a -> map key (replace_first p v l) = map key l.
Proof.
  induction l as [|b l IH]; simpl; [done|]. destruct (p b).
  - intros [= ->] E. simpl. by rewrite E.
  - intros Hf E. simpl. by rewrite IH.
Qed.

Lemma update_last_keys {A K} (key : A -> K) p f l :
  (forall a, key (f a) = key a) -> map key (update_last p f l) = map key l.
Proof.
  intros Hf. induction l as [|b l IH]; simpl; [done|]. case_if; simpl; by rewrite ?Hf, ?IH.
Qed.

Lemma refresh_conflict_ordered d k now x : Ordered x -> Ordered (refresh_conflict d k now x).
Proof.
  intros [H1 H2 H3]. unfold refresh_conflict. cbv zeta. case_if.
  { split; simpl; [done| |done]. by eapply sublist_sorted; [apply erase_first_sublist|]. }
  destruct (find_conflict x d k) as [existing|] eqn:Ef.
  - split; simpl; [done| |done]. case_if; [|apply sort_by_sorted].
    eapply sorted_keys; [|exact H2]. eapply replace_first_keys; [exact Ef|]. symmetry.
    match goal with Hb : bool_decide _ = true |- _ => exact (proj1 (bool_decide_eq_true _) Hb) end.
  - case_if; [by split|]. split; simpl; [done|apply sort_by_sorted|done].
Qed.

Lemma refresh_all_ordered now x :
  StronglySorted (key_le sp_id) (rp_sources (i_policy x)) ->
  StronglySorted (key_le cr_id) (i_resolutions x) -> Ordered (refresh_all_conflicts now x).
Proof.
  intros H1 H3. unfold refresh_all_conflicts.
  assert (Ordered (set_i_conflicts [] x)) as Ho by (split; simpl; [done|constructor|done]).
  revert Ho. generalize (set_i_conflicts [] x). generalize (group_pairs (i_groups x)).
  induction l as [|[d k] l IH]; intros y Ho; simpl; [done|]. apply IH. by apply refresh_conflict_ordered.
Qed.

Lemma apply_eviction_tables c now x y id : apply_eviction c now x = Some (y, id) -> tables y = tables x.
Proof.
  unfold apply_eviction. destruct (find_stream x (ec_key c)) as [s|]; [|done].
  destruct (find _ _) as [r|]; [|done]. intros [= <- _].
  unfold drop_record, push_eviction. by repeat case_if.
Qed.

Lemma evictions_tables restrict keep now x ids z : evictions restrict keep now x ids z -> tables z = tables x.
Proof. induction 1 as [|x c y ids z _ Ha _ IH]; [done|]. rewrite IH. by eapply apply_eviction_tables. Qed.

Lemma admit_rollback_tables key id x : tables (admit_rollback key id x) = tables x.
Proof. unfold admit_rollback. destruct (find_group x key); [|done]. cbv zeta. by destruct (existsb _ _ && _). Qed.

Lemma admit_record_ordered key e now x :
  Inv x -> (forall lc reason, record_ok key (mkStored e lc reason now None Ok_)) ->
  Ordered x -> Ordered (snd (admit_record key e now x)).
Proof.
  intros Hx Hr Ho. unfold admit_record. destruct (ensure_stream key x) as [s x1] eqn:Ee.
  destruct (ensure_stream_inv _ _ _ _ Ee Hx) as (Hx1 & Hs & [_ Hm] & _).
  assert (Ordered x1) as Ho1.
  { apply (Ordered_tables x); [|done]. unfold ensure_stream in Ee.
    destruct (find_stream x key); by injection Ee as <- <-. }
  assert (forall reason, Ordered (snd (admit_refused key e s reason now x1))) as Href.
  { intros reason. unfold admit_refused. cbn [snd]. case_if; [|by apply (Ordered_tables x1)].
    apply refresh_conflict_ordered. by apply (Ordered_tables x1). }
  destruct (existsb _ _) eqn:Ed; [by apply (Ordered_tables x1)|]. apply has_id_absent in Ed.
  destruct (negb _ && (_ <? _)) eqn:E1; [apply Href|]. destruct (negb _ && (_ =? _)) eqn:E2; [apply Href|].
  unfold admit_accept. cbv zeta. set (x2 := set_i_total_records _ _).
  assert (Inv x2) as Hx2.
  { pose proof (highest_generation_nonneg (stream_records s)). destruct (Hr LcAdmitted Ok_) as (_ & Hpos & _).
    unfold stored_generation in Hpos. simpl in Hpos.
    apply (set_stream_inv key s _ 1 x1); [done..| |].
    - apply accepted_stream_ok; [by eapply lookup_stream_ok; [apply inv_groups|]|done|done|lia].
    - unfold stream_len. simpl. rewrite insert_by_len. lia. }
  destruct (enforce_budget_run key (evidence_id e) now x2 Hx2) as (ok & y1 & z & i1 & i2 & -> & H1 & H2 & _).
  assert (tables z = tables x1) as Ht.
  { by rewrite (evictions_tables _ _ _ _ _ _ H2), (evictions_tables _ _ _ _ _ _ H1). }
  destruct ok; cbn [snd].
  - apply refresh_conflict_ordered. by apply (Ordered_tables x1).
  - apply (Ordered_tables x1); [|done]. rewrite <- Ht. apply admit_rollback_tables.
Qed.

Lemma admit_ordered q now x : Inv x -> admission_ok q -> Ordered x -> Ordered (snd (registry_admit q now x)).
Proof.
  intros Hx Hq Ho. unfold registry_admit.
  assert (forall reason detail y, Ordered y -> Ordered (snd (admit_reject reason detail y))) as Hrej
    by (intros reason detail y Hy; by apply (Ordered_tables y)).
  destruct (admit_guard q now x) as [[reason detail]|] eqn:Eg; [by apply Hrej|].
  destruct (admit_content q x) as [[reason detail]|]; [by apply Hrej|].
  destruct (register_device (aq_device q) x) as [detail|y] eqn:Er; [by apply Hrej|].
  destruct (register_device_inv _ _ _ Er Hx) as (Hy & _).
  assert (Ordered y) as Hoy.
  { apply (Ordered_tables x); [|done]. unfold register_device, raise_next_incarnation in Er. cbv zeta in Er.
    destruct (find_device x _); repeat case_match; try done; by injection Er as <-. }
  cbv zeta. destruct (_ && _); [by apply Hrej|]. case_if; [by apply Hrej|].
  apply admit_record_ordered; [done| |done]. intros lc reason. apply admission_record_ok.
  unfold admit_guard, is_unset in Eg. destruct (aq_generation q =? 0) eqn:E0; [done|].
  unfold admission_ok, in_u in Hq. lia.
Qed.

Lemma retire_ordered q now x : Ordered x -> Ordered (snd (retire q now x)).
Proof.
  intros Ho. unfold retire. cbv zeta.
  assert (forall reason detail, Ordered (snd (retire_reject reason detail x))) as Hrej
    by (intros reason detail; by apply (Ordered_tables x)).
  do 2 (case_if; [by apply Hrej|]). destruct (find_device _ _); [|by apply Hrej].
  case_if; [by apply (Ordered_tables x)|]. case_if; [by apply Hrej|].
  destruct (find_stream x (retirement_key q)) eqn:Es; [|by apply Hrej].
  case_if; [by apply Hrej|]. unfold retire_stream. cbv zeta. cbn [snd]. apply refresh_conflict_ordered.
  apply (Ordered_tables x); [|done]. unfold push_tombstone. cbv zeta. case_if; [done|].
  case_if; [|done]. destruct (oldest_tombstone _) as [[? ?]|]; [|done]. by case_if.
Qed.

Lemma change_source_ordered source already change now x :
  (forall s, sp_id (change s) = sp_id s) -> Ordered x ->
  Ordered (snd (change_source source already change now x)).
Proof.
  intros Hc [H1 H2 H3]. unfold change_source. destruct (find_last _ _) as [t|]; [|by split].
  case_if; [by split|]. cbn [snd]. apply refresh_all_ordered; simpl; [|done].
  eapply sorted_keys; [|exact H1]. by apply update_last_keys.
Qed.

Lemma upsert_ordered p now x : Ordered x -> Ordered (snd (upsert_source_policy p now x)).
Proof.
  intros [H1 H2 H3]. unfold upsert_source_policy. cbv zeta. case_if; [by split|].
  set (p' := if bool_decide _ && _ then _ else p).
  destruct (existsb (is_source (sp_id p')) _) eqn:E; [|destruct (_ >=? _); [by split|]]; cbn [snd];
    apply refresh_all_ordered; simpl; try done; [|apply sort_by_sorted].
  rewrite existsb_find in E. destruct (find _ _) as [a|] eqn:Ef; [|done].
  eapply sorted_keys; [|exact H1]. eapply replace_first_keys; [exact Ef|].
  apply List.find_some in Ef as [_ Ef]. unfold is_source in Ef. by apply String.eqb_eq in Ef.
Qed.

Lemma resolve_ordered c e r now x : Ordered x -> Ordered (snd (resolve_conflict c e r now x)).
Proof.
  intros [H1 H2 H3]. unfold resolve_conflict. destruct (find_last _ _) as [g|]; [|by split]. cbv zeta.
  do 3 (case_if; [by split|]). cbn [snd]. unfold push_resolution. cbv zeta.
  destruct (existsb _ (i_resolutions x)) eqn:E.
  - split; simpl; [done|done|]. rewrite existsb_find in E. destruct (find _ _) as [a|] eqn:Ef; [|done].
    eapply sorted_keys; [|exact H3]. eapply replace_first_keys; [exact Ef|].
    apply List.find_some in Ef as [_ Ef]. symmetry. by apply bool_decide_eq_true in Ef.
  - case_if; (split; simpl; [done|done|apply sort_by_sorted]).
Qed.

Lemma push_decision_tables d x : tables (push_decision d x) = tables x.
Proof.
  unfold push_decision. destruct (om_find _ _); [done|].
  assert (forall l y, tables (trim_decisions l y) = tables y) as Ht.
  { induction l as [|id l IH]; intros y; [done|]. cbn [trim_decisions].
    destruct (_ >=? _); [|done]. rewrite IH. by case_if. }
  transitivity (tables (trim_decisions (i_decision_order x) x)); [done|apply Ht].
Qed.

Lemma adopt_ordered s : Ordered (adopt s).
Proof. split; simpl; apply sort_by_sorted. Qed.

Lemma set_device_incarnation_ordered d n now x :
  Ordered x -> Ordered (snd (set_device_incarnation d n now x)).
Proof.
  intros [H1 H2 H3]. unfold set_device_incarnation, raise_next_incarnation. cbv zeta. case_if; [by split|].
  destruct (find_device x d); [destruct (negb _ && _)|destruct (_ >=? _)]; try by split.
  all: repeat case_if; cbn [snd]; try (by split); by apply refresh_all_ordered.
Qed.

Lemma step_ordered x y : step x y -> Inv x -> Ordered x -> Ordered y.
Proof.
  destruct 1; intros Hx Ho; auto using admit_ordered, retire_ordered, upsert_ordered, resolve_ordered,
    set_device_incarnation_ordered.
  - destruct Ho as [H1 H2 H3]. unfold begin_device_incarnation, take_incarnation. cbv zeta.
    destruct (find_device x d); destruct (_ >=? _); cbn [snd]; try by split. by apply refresh_all_ordered.
  - by apply change_source_ordered.
  - by apply change_source_ordered.
  - by apply change_source_ordered.
  - unfold set_rule_generation. do 3 (case_if; [done|]). by apply (Ordered_tables x).
  - by apply (Ordered_tables x).
  - unfold set_logical_tick. case_if; [done|]. by apply (Ordered_tables x).
  - by apply (Ordered_tables x).
  - apply (Ordered_tables x); [|done]. unfold evaluate. cbn [snd]. apply push_decision_tables.
  - unfold adopt_state. destruct (_ >? 0); cbn [snd]; unfold adopt_restored;
      apply refresh_all_ordered; simpl; try apply sort_by_sorted;
      case_match; simpl; apply sort_by_sorted || apply (ord_sources _ Ho).
Qed.

Lemma reachable_ordered x : reachable x -> Ordered x.
Proof.
  induction 1 as [policy|policy s Hs|x y Hx IH Hstep].
  - split; simpl; [apply sort_by_sorted|constructor..].
  - split; simpl; apply sort_by_sorted.
  - eapply step_ordered; [done| |done]. by apply reachable_inv.
Qed.

(** ** A flattened world is sorted *)

Lemma concat_sorted {K V A} `{CmpLaws K} (R : A -> A -> Prop) (f : K * V -> list A) (m : list (K * V)) :
  om_sorted m -> (forall e, e ∈ m -> StronglySorted R (f e)) ->
  (forall e1 e2 a b, e1 ∈ m -> e2 ∈ m -> cmp (fst e1) (fst e2) = Lt -> a ∈ f e1 -> b ∈ f e2 -> R a b) ->
  StronglySorted R (concat (map f m)).
Proof.
  induction m as [|e m IH]; intros Hs Hf HR; simpl; [constructor|].
  destruct e as [k v]. apply om_sorted_cons in Hs as [Hs Hall].
  assert (StronglySorted R (concat (map f m))) as Ht.
  { apply IH; [done|intros; apply Hf; by right|]. intros e1 e2 a b H1 H2. apply HR; by right. }
  assert (forall a b, a ∈ f (k, v) -> b ∈ concat (map f m) -> R a b) as Hcross.
  { intros a b Ha (e & He & Hb)%elem_concat_map. rewrite Forall_forall in Hall.
    apply (HR (k, v) e); [by left|by right|by apply Hall|done|done]. }
  specialize (Hf (k, v) ltac:(by left)). induction Hf as [|a l Hl IHl Hfa]; simpl; [done|].
  constructor.
  - apply IHl. intros a' b Ha'. apply Hcross. by right.
  - apply Forall_app. split; [done|]. apply Forall_forall. intros b Hb. apply Hcross; [by left|done].
Qed.

Lemma cmp_pair_lt {A B} `{Cmp A, Cmp B} (a c : A) (b d : B) : cmp a c = Lt -> cmp (a, b) (c, d) = Lt.
Proof. intros E. by rewrite cmp_pair, E. Qed.

Lemma cmp_pair_eq {A B} `{CmpLaws A} `{Cmp B} (a : A) (b d : B) : cmp b d = Lt -> cmp (a, b) (a, d) = Lt.
Proof. intros E. rewrite cmp_pair. by rewrite (proj2 (cmp_eq_iff a a) eq_refl). Qed.

(** Keys that differ first in the device, the kind or the source. *)
Lemma key_cmp_device d1 d2 k1 k2 s1 s2 :
  cmp d1 d2 = Lt -> cmp (mkEvidenceKey d1 k1 s1) (mkEvidenceKey d2 k2 s2) = Lt.
Proof. intros E. exact (cmp_pair_lt d1 d2 (k1, s1) (k2, s2) E). Qed.

Lemma key_cmp_kind d k1 k2 s1 s2 :
  cmp k1 k2 = Lt -> cmp (mkEvidenceKey d k1 s1) (mkEvidenceKey d k2 s2) = Lt.
Proof. intros E. exact (cmp_pair_eq d (k1, s1) (k2, s2) (cmp_pair_lt k1 k2 s1 s2 E)). Qed.

Lemma key_cmp_source d k s1 s2 :
  cmp s1 s2 = Lt -> cmp (mkEvidenceKey d k s1) (mkEvidenceKey d k s2) = Lt.
Proof. intros E. exact (cmp_pair_eq d (k, s1) (k, s2) (cmp_pair_eq k s1 s2 E)). Qed.

Definition place (r : StoredEvidence) : EvidenceKey * (Z * EvidenceId) := (ce_key (se_evidence r), record_key r).

Lemma place_lt r1 r2 :
  cmp (ce_key (se_evidence r1)) (ce_key (se_evidence r2)) = Lt -> key_lt place r1 r2.
Proof. intros E. unfold key_lt, place. by apply cmp_pair_lt. Qed.

(** The records of a stream are strictly ordered. *)
Lemma stream_strict key l : records_ok key l -> StronglySorted (key_lt place) l.
Proof.
  intros (Hall & Hs & Hnd). induction Hs as [|r l Hs IH Hle]; [constructor|].
  inversion Hall as [|? ? Hr Hall']; subst. simpl in Hnd. apply NoDup_cons in Hnd as [Hid Hnd].
  constructor; [by apply IH|]. rewrite Forall_forall in Hle, Hall' |- *. intros r' Hr'.
  specialize (Hle r' Hr'). destruct Hr as (K1 & _). destruct (Hall' r' Hr') as (K2 & _).
  unfold key_lt, place. rewrite K1, K2. apply cmp_pair_eq.
  unfold key_le in Hle. apply cle_true in Hle. destruct (cmp (record_key r) (record_key r')) eqn:E; [|done|].
  - apply cmp_eq_iff in E. unfold record_key in E. injection E as _ E. exfalso. apply Hid. rewrite E.
    by apply list_elem_of_fmap_2.
  - by apply cmp_gt_lt in E.
Qed.

Lemma flatten_sorted g : groups_ok g -> StronglySorted (key_lt place) (map snd (all_records g)).
Proof.
  intros Hg. pose proof Hg as [Hs Hall]. rewrite flatten_concat.
  pose proof (fun d kinds k gr so s r => record_filed g d kinds k gr so s r Hg) as Hk.
  apply concat_sorted; [done| |].
  2: { intros [d1 ks1] [d2 ks2] a b H1 H2 E. simpl.
       intros ([k1 g1] & Hk1 & ([so1 s1] & Hso1 & Ha)%elem_concat_map)%elem_concat_map.
       intros ([k2 g2] & Hk2 & ([so2 s2] & Hso2 & Hb)%elem_concat_map)%elem_concat_map. simpl in *.
       apply place_lt. rewrite (Hk _ _ _ _ _ _ _ H1 Hk1 Hso1 Ha), (Hk _ _ _ _ _ _ _ H2 Hk2 Hso2 Hb).
       by apply key_cmp_device. }
  intros [d kinds] Hd. simpl. destruct (om_all_find _ _ _ _ Hall (om_elem_find _ _ _ Hs Hd)) as [Hks Hka].
  apply concat_sorted; [done| |].
  2: { intros [k1 g1] [k2 g2] a b H1 H2 E. simpl.
       intros ([so1 s1] & Hso1 & Ha)%elem_concat_map ([so2 s2] & Hso2 & Hb)%elem_concat_map. simpl in *.
       apply place_lt. rewrite (Hk _ _ _ _ _ _ _ Hd H1 Hso1 Ha), (Hk _ _ _ _ _ _ _ Hd H2 Hso2 Hb).
       by apply key_cmp_kind. }
  intros [k gr] Hkk. simpl. destruct (om_all_find _ _ _ _ Hka (om_elem_find _ _ _ Hks Hkk)) as (Hss & Hsa & _).
  apply concat_sorted; [done| |].
  2: { intros [so1 s1] [so2 s2] a b H1 H2 E Ha Hb. simpl in *. apply place_lt.
       rewrite (Hk _ _ _ _ _ _ _ Hd Hkk H1 Ha), (Hk _ _ _ _ _ _ _ Hd Hkk H2 Hb). by apply key_cmp_source. }
  intros [so s] Hso. simpl. destruct (om_all_find _ _ _ _ Hsa (om_elem_find _ _ _ Hss Hso)) as [Hr _].
  by eapply stream_strict.
Qed.

(** Two worlds with the same records under every key flatten to the same list. *)
Lemma flatten_ext x y :
  groups_ok (i_groups x) -> groups_ok (i_groups y) ->
  (forall key, opt_records (find_stream x key) = opt_records (find_stream y key)) ->
  flatten_records x = flatten_records y.
Proof.
  intros Hx Hy Heq. pose proof (flatten_sorted _ Hx) as Sx. pose proof (flatten_sorted _ Hy) as Sy.
  apply (sorted_perm_unique place); [by apply strict_sorted_le..| |by apply strict_sorted_nodup].
  apply NoDup_Permutation; [by apply (NoDup_fmap_1 place), strict_sorted_nodup..|].
  intros r. assert (forall z, groups_ok (i_groups z) ->
    r ∈ flatten_records z <-> exists key, r ∈ opt_records (find_stream z key)) as Hel.
  { intros z Hz. rewrite (flatten_records_elem _ _ Hz). split.
    - intros (key & s & Hs & Hr). exists key. by rewrite Hs.
    - intros (key & Hr). destruct (find_stream z key) as [s|] eqn:E; [by exists key, s|].
      by apply elem_of_nil in Hr. }
  rewrite !Hel by done. by setoid_rewrite Heq.
Qed.

Lemma elem_all_tombstones g key t : groups_ok g ->
  (key, t) ∈ all_tombstones g <-> lookup_tombstone g key = Some t.
Proof.
  intros [Hs Hall]. unfold all_tombstones, lookup_tombstone, lookup_group. rewrite elem_concat_map. split.
  - intros ([d kinds] & Hd & ([k gr] & Hk & ([so t'] & [= -> ->] & Hso)%list_elem_of_fmap)%elem_concat_map).
    simpl. pose proof (om_elem_find _ _ _ Hs Hd) as Ed. rewrite Ed.
    destruct (om_all_find _ _ _ _ Hall Ed) as [Hks Hka].
    pose proof (om_elem_find _ _ _ Hks Hk) as Ek. rewrite Ek.
    destruct (om_all_find _ _ _ _ Hka Ek) as (_ & _ & Hts & _). by apply om_elem_find.
  - destruct (om_find (ek_device key) g) as [kinds|] eqn:Ed; [|done].
    destruct (om_find (ek_kind key) kinds) as [gr|] eqn:Ek; [|done]. intros Et.
    exists (ek_device key, kinds). split; [by apply om_find_elem|]. apply elem_concat_map.
    exists (ek_kind key, gr). split; [by apply om_find_elem|]. apply list_elem_of_fmap.
    exists (ek_source key, t). split; [by destruct key|by apply om_find_elem].
Qed.

Lemma tombstone_keys_sorted g : groups_ok g -> StronglySorted (key_lt fst) (all_tombstones g).
Proof.
  intros [Hs Hall]. unfold all_tombstones. apply concat_sorted; [done| |].
  2: { intros [d1 ks1] [d2 ks2] a b H1 H2 E. simpl.
       intros ([k1 g1] & Hk1 & ([so1 t1] & -> & Hso1)%list_elem_of_fmap)%elem_concat_map.
       intros ([k2 g2] & Hk2 & ([so2 t2] & -> & Hso2)%list_elem_of_fmap)%elem_concat_map.
       by apply key_cmp_device. }
  intros [d kinds] Hd. simpl. destruct (om_all_find _ _ _ _ Hall (om_elem_find _ _ _ Hs Hd)) as [Hks Hka].
  apply concat_sorted; [done| |].
  2: { intros [k1 g1] [k2 g2] a b H1 H2 E. simpl.
       intros ([so1 t1] & -> & Hso1)%list_elem_of_fmap ([so2 t2] & -> & Hso2)%list_elem_of_fmap.
       by apply key_cmp_kind. }
  intros [k gr] Hkk. simpl. destruct (om_all_find _ _ _ _ Hka (om_elem_find _ _ _ Hks Hkk)) as (_ & _ & Hts & _).
  clear -Hts. induction Hts as [|[so t] m Hs IH Hm]; simpl; [constructor|]. constructor; [done|].
  apply Forall_map. eapply Forall_impl; [exact Hm|]. intros [so' t'] E. by apply key_cmp_source.
Qed.

(** The tombstones are a permutation with distinct keys, each its own. *)
Lemma flatten_tombstones_spec x :
  groups_ok (i_groups x) ->
  NoDup (map rr_key (flatten_tombstones x)) /\
  (forall t, t ∈ flatten_tombstones x <-> find_tombstone x (rr_key t) = Some t) /\
  StronglySorted (key_le (fun t => (rr_key t, rr_generation t))) (flatten_tombstones x).
Proof.
  intros Hg. unfold flatten_tombstones. split_and!; [| |apply sort_by_sorted].
  - rewrite (sort_by_perm (fun t => (rr_key t, rr_generation t)) (map snd (all_tombstones (i_groups x)))).
    rewrite map_map. erewrite map_ext_in; [apply strict_sorted_nodup, (tombstone_keys_sorted _ Hg)|].
    intros [key t] Hin. apply list_elem_of_In, (elem_all_tombstones _ _ _ Hg) in Hin.
    by apply (lookup_tombstone_ok _ _ _ Hg) in Hin.
  - intros t. rewrite sort_by_elem, find_tombstone_lookup, <- (elem_all_tombstones _ _ _ Hg). split.
    + intros ([key t'] & -> & Hin)%list_elem_of_fmap. simpl. pose proof Hin as Hin'.
      apply (elem_all_tombstones _ _ _ Hg), (lookup_tombstone_ok _ _ _ Hg) in Hin' as ->. done.
    + intros Hin. apply list_elem_of_fmap. by exists (rr_key t, t).
Qed.

Lemma flatten_tombstones_ext x y :
  groups_ok (i_groups x) -> groups_ok (i_groups y) ->
  (forall key, find_tombstone x key = find_tombstone y key) ->
  flatten_tombstones x = flatten_tombstones y.
Proof.
  intros Hx Hy Heq. destruct (flatten_tombstones_spec _ Hx) as (Nx & Ex & Sx).
  destruct (flatten_tombstones_spec _ Hy) as (Ny & Ey & Sy).
  apply (sorted_perm_unique (fun t => (rr_key t, rr_generation t))); [done|done| |].
  - apply NoDup_Permutation; [by apply (NoDup_fmap_1 rr_key)..|]. intros t. by rewrite Ex, Ey, Heq.
  - apply (NoDup_fmap_1 fst). by rewrite <- list_fmap_compose.
Qed.

(** ** Restoring a snapshot *)

Lemma adopt_tombstones_lookup l g key :
  NoDup (map rr_key l) ->
  lookup_tombstone (fold_left adopt_tombstone l g) key =
  match find (fun t => bool_decide (rr_key t = key)) l with
  | Some t => Some t | None => lookup_tombstone g key end.
Proof.
  revert g. induction l as [|t l IH]; intros g Hnd; simpl; [done|]. simpl in Hnd.
  apply NoDup_cons in Hnd as [Ht Hnd]. rewrite IH by done. unfold adopt_tombstone. rewrite lookup_tombstone_put.
  destruct (bool_decide (rr_key t = key)) eqn:E.
  - apply bool_decide_eq_true in E as <-. destruct (find _ l) as [t'|] eqn:Ef.
    + exfalso. apply Ht. apply List.find_some in Ef as [Hin Hb]. apply bool_decide_eq_true in Hb.
      rewrite <- Hb. apply list_elem_of_fmap_2. by apply list_elem_of_In.
    + by rewrite decide_True.
  - apply bool_decide_eq_false in E. by rewrite decide_False by congruence.
Qed.

Lemma adopt_tombstones_streams l g key :
  lookup_stream (fold_left adopt_tombstone l g) key = lookup_stream g key.
Proof.
  revert g. induction l as [|t l IH]; intros g; simpl; [done|]. rewrite IH.
  apply lookup_stream_put_tombstone.
Qed.

(** Replaying streams creates no tombstone. *)
Lemma adopted_no_tombstone l key :
  lookup_tombstone (sort_streams (fold_left adopt_record l [])) key = None.
Proof.
  assert (forall g, lookup_tombstone (sort_streams g) key = lookup_tombstone g key) as Hs.
  { intros g. rewrite sort_streams_map. unfold lookup_tombstone, lookup_group. rewrite om_map_find.
    destruct (om_find (ek_device key) g) as [kinds|]; simpl; [|done]. rewrite om_map_find.
    by destruct (om_find (ek_kind key) kinds). }
  rewrite Hs. induction l as [|r l IH] using rev_ind; [done|]. rewrite fold_left_app. simpl.
  unfold adopt_record. by rewrite lookup_tombstone_put_stream.
Qed.

(** Rebuilding a map from its entries in order. *)
Lemma om_rebuild {K V} `{CmpLaws K} (m : list (K * V)) :
  om_sorted m -> fold_left (fun n e => om_set (fst e) (snd e) n) m [] = m.
Proof.
  assert (forall k v (n : list (K * V)), Forall (fun e => cmp (fst e) k = Lt) n -> om_set k v n = n ++ [(k, v)]) as Hsnoc.
  { intros k v n. induction 1 as [|[k' v'] n Hk Hn IH]; simpl in *; [done|].
    rewrite (cmp_flip k' k), Hk. simpl. by rewrite IH. }
  induction m as [|[k v] m IH] using rev_ind; intros Hs; [done|].
  rewrite fold_left_app. simpl. unfold om_sorted in Hs. apply StronglySorted_app in Hs as (H2 & H1 & _).
  rewrite IH by done. apply Hsnoc. apply Forall_forall. intros e He. by apply (H2 e (k, v)); [|left].
Qed.

Lemma adopt_devices_rebuild m :
  devices_ok m -> fold_left (fun n entry => om_set (ie_device entry) entry n) (map snd m) [] = m.
Proof.
  intros [Hs Hall]. rewrite <- (om_rebuild m Hs) at 2. generalize (@nil (DeviceIdentity * DeviceIncarnationEntry)).
  clear Hs. induction Hall as [|[d e] m [Hd _] Hall IH]; intros n; simpl; [done|]. simpl in Hd. rewrite Hd. apply IH.
Qed.

(** The world a snapshot is restored to holds the same records and tombstones. *)
Lemma adopt_snapshot_world x :
  Inv x ->
  (forall key, opt_records (find_stream (adopt (to_state x)) key) = opt_records (find_stream x key)) /\
  (forall key, find_tombstone (adopt (to_state x)) key = find_tombstone x key).
Proof.
  intros Hx. pose proof (inv_groups _ Hx) as Hg.
  destruct (flatten_tombstones_spec _ Hg) as (Nt & Et & _). split; intros key.
  - unfold find_stream. simpl. rewrite adopt_tombstones_streams, lookup_stream_sort.
    destruct (adopt_records_spec (flatten_records x)) as (_ & Hl & _). rewrite Hl.
    unfold adopted_stream. rewrite flatten_records_at by done. fold (find_stream x key).
    destruct (find_stream x key) as [s|] eqn:E; [|done]. simpl.
    destruct (lookup_stream_ok _ _ _ Hg E) as [(_ & Hs & _) _].
    destruct (stream_records s) as [|r l] eqn:El; [done|]. rewrite <- El in Hs |- *. simpl.
    by apply sort_by_id.
  - rewrite !find_tombstone_lookup. simpl. rewrite adopt_tombstones_lookup, adopted_no_tombstone by done.
    rewrite <- find_tombstone_lookup. destruct (find _ _) as [t|] eqn:Ef.
    + apply List.find_some in Ef as [Hin Hb]. apply list_elem_of_In, Et in Hin.
      apply bool_decide_eq_true in Hb. by rewrite <- Hb.
    + destruct (find_tombstone x key) as [t|] eqn:E; [|done].
      pose proof (lookup_tombstone_ok _ _ _ Hg E) as Hk. rewrite <- Hk in E. apply Et, list_elem_of_In in E.
      pose proof (List.find_none _ _ Ef _ E) as Hn. by apply bool_decide_eq_false in Hn.
Qed.

(** C19: restoring a snapshot reproduces it: the state rebuilt from the snapshot
    of any reachable registry has the very same snapshot (policy, epochs, device
    table, records, tombstones, conflicts, resolutions, eviction ledger and
    counters), so also the same state digest.  The incarnation counter must not
    have wrapped to zero, which the loader replaces by one. *)
Theorem snapshot_restores x :
  reachable x -> i_next_incarnation x <> 0 ->
  to_state (adopt (to_state x)) = to_state x /\
  state_digest (to_state (adopt (to_state x))) = state_digest (to_state x).
Proof.
  intros Hr Hn. pose proof (reachable_inv _ Hr) as Hx. pose proof (reachable_ordered _ Hr) as [O1 O2 O3].
  pose proof (adopt_inv _ (to_state_ok _ Hx)) as Hy. destruct (adopt_snapshot_world _ Hx) as [Hw Ht].
  assert (to_state (adopt (to_state x)) = to_state x) as E; [|by rewrite E].
  unfold to_state at 1 3. f_equal.
  - simpl. unfold sort_sources. rewrite sort_by_id by done. by destruct (i_policy x).
  - simpl. destruct (i_next_incarnation x =? 0) eqn:En; [lia|done].
  - simpl. by rewrite (adopt_devices_rebuild _ (inv_devices _ Hx)).
  - by apply flatten_ext; [apply inv_groups|apply inv_groups|].
  - by apply flatten_tombstones_ext; [apply inv_groups|apply inv_groups|].
  - simpl. by apply sort_by_id.
  - simpl. by apply sort_by_id.
Qed.

Lemma snapshot_restores_witness :
  i_next_incarnation Sample.superseded = 2 /\
  (to_state (adopt (to_state Sample.superseded)) = to_state Sample.superseded /\
   state_digest (to_state (adopt (to_state Sample.superseded))) = state_digest (to_state Sample.superseded)).
Proof.
  assert (i_next_incarnation Sample.superseded = 2) as E by (vm_compute; reflexivity).
  split; [exact E|]. apply (snapshot_restores Sample.superseded); [apply Sample.superseded_reachable|].
  rewrite E. lia.
Defined.

(** ** Adopting the state of an earlier boot *)

Lemma maximum_tick_ge l from : from <= maximum_tick l from /\ forall t, t ∈ l -> t <= maximum_tick l from.
Proof.
  unfold maximum_tick. revert from. induction l as [|a l IH]; intros from; simpl.
  { split; [lia|]. intros t Ht. by apply elem_of_nil in Ht. }
  destruct (IH (if a >? from then a else from)) as [H1 H2].
  assert (from <= (if a >? from then a else from) /\ a <= (if a >? from then a else from)) as [H3 H4]
    by (destruct (a >? from) eqn:E; lia).
  split; [lia|]. intros t [->|Ht]%elem_of_cons; [lia|by apply H2].
Qed.

Lemma adopt_restored_world s now x :
  state_ok s ->
  let y := adopt_restored s now x in
  i_groups y = i_groups (adopt s) /\ i_boot_epoch y = u64 (s_boot_epoch s + 1) /\
  i_logical_tick y = maximum_tick [now; highest_observed (s_records s)] (s_logical_tick s).
Proof.
  intros Hs. unfold adopt_restored. cbv zeta.
  set (y0 := bump_policy_revision _). set (t := maximum_tick _ _).
  destruct (refresh_all_core t (set_i_logical_tick t y0)) as (Hc & _ & Hb).
  destruct (core_groups _ _ Hc) as [Hg _]. rewrite Hg, Hb.
  assert (forall l z, i_logical_tick (fold_left (fun y '(device, kind) => refresh_conflict device kind t y) l z) =
                    i_logical_tick z) as Ht.
  { induction l as [|[d k] l IH]; intros z; simpl; [done|]. rewrite IH. unfold refresh_conflict.
    by repeat case_match. }
  unfold refresh_all_conflicts. rewrite Ht. unfold t, y0. simpl.
  by destruct (rp_sources (s_policy s)).
Qed.

(** The records of a stream of the adopted state are those it was given with its
    key. *)
Lemma adopted_records s key :
  opt_records (find_stream (adopt s) key) ≡ₚ List.filter (in_stream key) (s_records s).
Proof.
  unfold find_stream. cbn [adopt i_groups]. rewrite adopt_tombstones_streams, lookup_stream_sort.
  destruct (adopt_records_spec (s_records s)) as (_ & -> & _). unfold adopted_stream.
  destruct (List.filter (in_stream key) (s_records s)); [done|]. apply sort_by_perm.
Qed.

Lemma elem_in_stream key r l : r ∈ List.filter (in_stream key) l <-> r ∈ l /\ ce_key (se_evidence r) = key.
Proof. rewrite !list_elem_of_In, filter_In. unfold in_stream. by rewrite bool_decide_eq_true. Qed.

Lemma adopted_record s key st r :
  lookup_stream (i_groups (adopt s)) key = Some st -> r ∈ stream_records st ->
  r ∈ s_records s /\ ce_key (se_evidence r) = key.
Proof.
  intros Hl Hr. apply elem_in_stream. rewrite <- adopted_records. unfold find_stream. by rewrite Hl.
Qed.

(** A list whose streams hold no record twice holds none twice. *)
Lemma streams_nodup l :
  (forall key, NoDup (map stored_id (List.filter (in_stream key) l))) -> NoDup l.
Proof.
  intros Hl. assert (forall key, NoDup (List.filter (in_stream key) l)) as H by (intros; by apply (NoDup_fmap_1 stored_id)).
  clear Hl. induction l as [|r l IH]; constructor.
  - intros Hr. specialize (H (ce_key (se_evidence r))). cbn in H. unfold in_stream at 1 in H.
    rewrite bool_decide_true in H by done. apply NoDup_cons in H as [H _]. apply H. by apply elem_in_stream.
  - apply IH. intros key. specialize (H key). cbn in H. destruct (in_stream key r); [by inversion H|done].
Qed.

(** Every record is kept, in its stream, and nothing else is there. *)
Lemma adopted_flatten s x :
  state_ok s -> groups_ok (i_groups x) -> i_groups x = i_groups (adopt s) -> flatten_records x ≡ₚ s_records s.
Proof.
  intros (_ & Hnd & _) Hok Hg. apply NoDup_Permutation; [|by apply streams_nodup|].
  - by apply (NoDup_fmap_1 place), strict_sorted_nodup, flatten_sorted.
  - intros r. rewrite (flatten_records_elem _ _ Hok). unfold find_stream. rewrite Hg. split.
    + intros (key & st & Hf & Hr). by apply (adopted_record s key st).
    + intros Hr. set (key := ce_key (se_evidence r)).
      assert (r ∈ opt_records (find_stream (adopt s) key)) as Hin by (rewrite adopted_records; by apply elem_in_stream).
      unfold find_stream in Hin. exists key. destruct (lookup_stream _ key) as [st|]; [by exists st|by apply elem_of_nil in Hin].
Qed.

(** A tombstone of the adopted state is the last one it was given for its key. *)
Lemma adopted_tombstones s key :
  find_tombstone (adopt s) key = find_last (fun t => bool_decide (rr_key t = key)) (s_tombstones s).
Proof.
  rewrite find_tombstone_lookup. cbn [adopt i_groups]. unfold find_last.
  rewrite <- (adopted_no_tombstone (s_records s) key). generalize (sort_streams (fold_left adopt_record (s_records s) [])).
  induction (s_tombstones s) as [|t l IH]; intros g; [done|]. cbn. rewrite IH. f_equal.
  unfold adopt_tombstone. rewrite lookup_tombstone_put. by case_decide; case_bool_decide.
Qed.

(** C20: adopting the persisted state of an earlier boot is conservative: the boot
    epoch advances by one, the logical clock resumes no earlier than the persisted
    clock, the given time and every recorded observation, the records are exactly
    the given ones, each in its stream, the tombstone of a stream is the last one
    given for it, and a record of the earlier boot is in force again only if its
    source is durable across boots or the policy carries evidence forward.  The
    state is one that can be adopted, with a boot epoch that can be advanced and no
    record of a later boot. *)
Theorem adopt_state_conservative s now x :
  state_ok s -> 0 <= s_boot_epoch s < u64_max ->
  (forall r, r ∈ s_records s -> ce_boot_at_ingest (se_evidence r) <= s_boot_epoch s) ->
  let y := snd (adopt_state s now x) in
  i_boot_epoch y = s_boot_epoch s + 1 /\
  (s_logical_tick s <= i_logical_tick y /\ now <= i_logical_tick y /\
   forall r, r ∈ s_records s -> ce_observed_at (se_evidence r) <= i_logical_tick y) /\
  (flatten_records y ≡ₚ s_records s /\ i_total_records y = Z.of_nat (length (s_records s))) /\
  (forall key, opt_records (find_stream y key) ≡ₚ List.filter (in_stream key) (s_records s) /\
     find_tombstone y key = find_last (fun t => bool_decide (rr_key t = key)) (s_tombstones s)) /\
  (forall key st r tick max_age, find_stream y key = Some st -> r ∈ stream_records st ->
     in_force y key st r tick max_age ->
     rp_boot_policy (i_policy y) = CarryForwardWithinFreshness \/
     exists source, find_source (i_policy y) (ek_source key) = Some source /\
                    sp_durable_across_boot source = true).
Proof.
  intros Hs Hb Hboot. cbv zeta.
  assert (snd (adopt_state s now x) = adopt_restored s now x) as ->
    by (unfold adopt_state; by destruct (_ >? 0)).
  pose proof (adopt_state_inv s now x Hs) as Hy.
  assert (snd (adopt_state s now x) = adopt_restored s now x) as E
    by (unfold adopt_state; by destruct (_ >? 0)). rewrite E in Hy. clear E.
  destruct (adopt_restored_world s now x Hs) as (Hg & Hbe & Ht).
  set (y := adopt_restored s now x) in *.
  assert (i_boot_epoch y = s_boot_epoch s + 1) as Eb.
  { rewrite Hbe. unfold u64. apply wrap_small. unfold in_u, u64_max in *. lia. }
  split; [done|]. split; [|split; [|split]].
  - rewrite Ht. destruct (maximum_tick_ge [now; highest_observed (s_records s)] (s_logical_tick s)) as [H1 H2].
    split_and!; [done|apply H2; by left|]. intros r Hr. etrans; [|apply H2; right; by left].
    apply maximum_tick_ge. unfold observed_ticks.
    by apply (list_elem_of_fmap_2 (fun r => ce_observed_at (se_evidence r))).
  - split; [by apply adopted_flatten; [|apply (inv_groups _ Hy)|]|].
    rewrite (inv_total _ Hy), Hg. by rewrite <- (inv_total _ (adopt_inv _ Hs)).
  - intros key. rewrite <- adopted_records, <- adopted_tombstones, !find_tombstone_lookup.
    unfold find_stream. by rewrite Hg.
  - intros key st r tick max_age Hf Hr (_ & _ & _ & (source & Hsrc & _ & _ & [Hboot'|[_ [Hd|Hc]]] & _)).
    + unfold find_stream in Hf. rewrite Hg in Hf. apply (adopted_record _ _ _ _ Hf) in Hr as [Hr _].
      specialize (Hboot r Hr). lia.
    + right. by exists source.
    + by left.
Qed.

Lemma adopt_state_conservative_witness :
  s_boot_epoch (to_state Sample.superseded) = 1 /\
  i_boot_epoch (snd (adopt_state (to_state Sample.superseded) 20 Sample.start)) = 2.
Proof.
  assert (s_boot_epoch (to_state Sample.superseded) = 1) as E by (vm_compute; reflexivity).
  split; [exact E|].
  destruct (adopt_state_conservative (to_state Sample.superseded) 20 Sample.start) as (H & _).
  - apply to_state_ok, reachable_inv, Sample.superseded_reachable.
  - rewrite E. unfold u64_max. lia.
  - intros r Hr. rewrite E.
    assert (forallb (fun r => ce_boot_at_ingest (se_evidence r) <=? 1) (s_records (to_state Sample.superseded)) = true)
      as Hall by (vm_compute; reflexivity).
    rewrite forallb_forall in Hall. apply list_elem_of_In in Hr. apply Z.leb_le. exact (Hall r Hr).
  - rewrite H, E. reflexivity.
Defined.
