(* ===== verification/Persist.v ===== *)
(** * Persistence (include/ocreg/persist.hpp, src/persist.cpp)

    The store's two files and the temporary one, the byte layouts of snapshot
    and journal, the journal scan, and the operations of [Store]: open, bind,
    append, write_snapshot, commit, compact, and [load_state].

    The file system is explicit state.  Every call the source makes into the
    operating system consumes one event of a script that says whether it
    succeeds, fails or is interrupted by a crash, and for a write how many of
    the bytes reached the file; a script that has run out means success.  File
    sizes are mathematical integers; the sequence counter keeps its width.

    The three paths of a store differ only in their suffix, so a file is named
    by its role and [path_of] gives its path. *)

From Stdlib Require Import ZArith Lia String.
From stdpp Require Import base tactics list strings.
From S2P Require Import Prelude OrdMap Reason Text Hash Catalog Evidence State Codec CodecTypes.

#[local] Open Scope string_scope.
#[local] Open Scope Z_scope.
#[local] Open Scope list_scope.

(** ** The file system *)

Inductive FileId := SnapshotFile | JournalFile | TempFile.

#[export] Instance file_id_eq_dec : EqDecision FileId.
Proof. solve_decision. Defined.

Definition journal_path (base : string) : string := base +:+ ".ocregjournal".
Definition temp_path (base : string) : string := base +:+ ".ocregtmp".
Definition path_of (base : string) (f : FileId) : string :=
  match f with SnapshotFile => base | JournalFile => journal_path base | TempFile => temp_path base end.

Record Disk := mkDisk {
  d_snapshot : option (list Z);
  d_journal : option (list Z);
  d_temp : option (list Z) }.

Definition file_of (d : Disk) (f : FileId) : option (list Z) :=
  match f with SnapshotFile => d_snapshot d | JournalFile => d_journal d | TempFile => d_temp d end.

Definition set_file (f : FileId) (c : option (list Z)) (d : Disk) : Disk :=
  match f with
  | SnapshotFile => mkDisk c (d_journal d) (d_temp d)
  | JournalFile => mkDisk (d_snapshot d) c (d_temp d)
  | TempFile => mkDisk (d_snapshot d) (d_journal d) c
  end.

(** What the operating system answers to one call.  The number is the count of
    bytes of a write that reach the file (of a rename: whether it took effect
    before the crash). *)
Inductive IoEvent := IoDone | IoError (n : nat) | IoCrash (n : nat).

Record World := mkWorld { w_disk : Disk; w_script : list IoEvent }.

(** A computation ends the process at a crash: no value, the disk as it is. *)
Definition Io (A : Type) : Type := World -> World * option A.

Definition io_ret {A} (x : A) : Io A := fun w => (w, Some x).
Definition io_bind {A B} (m : Io A) (k : A -> Io B) : Io B := fun w =>
  match m w with
  | (w', Some x) => k x w'
  | (w', None) => (w', None)
  end.

Declare Scope io_scope.
Delimit Scope io_scope with io.
Notation "x <- m ;; k" := (io_bind m (fun x => k))
  (at level 100, m at next level, right associativity) : io_scope.

(** One system call: the disk after success, after failure with [n], and after a
    crash with [n], and the answers of the first two. *)
Definition syscall {A} (ok : Disk -> Disk * A) (bad : nat -> Disk -> Disk * A)
    (crash : nat -> Disk -> Disk) : Io A := fun w =>
  let script := tl (w_script w) in
  match hd IoDone (w_script w) with
  | IoDone => let '(d, x) := ok (w_disk w) in (mkWorld d script, Some x)
  | IoError n => let '(d, x) := bad n (w_disk w) in (mkWorld d script, Some x)
  | IoCrash n => (mkWorld (crash n (w_disk w)) script, None)
  end.

Definition is_present (d : Disk) (f : FileId) : bool :=
  match file_of d f with Some _ => true | None => false end.

Definition untouched (_ : nat) (d : Disk) : Disk := d.

(** [std::filesystem::exists(path, error) && !error]. *)
Definition fs_exists (f : FileId) : Io bool :=
  syscall (fun d => (d, is_present d f)) (fun _ d => (d, false)) untouched.

(** [std::filesystem::file_size]; [None] is the error code. *)
Definition fs_file_size (f : FileId) : Io (option Z) :=
  syscall (fun d => (d, (fun c => Z.of_nat (length c)) <$> file_of d f)) (fun _ d => (d, None)) untouched.

(** [std::filesystem::remove]; [true] when no error code is set. *)
Definition fs_remove (f : FileId) : Io bool :=
  syscall (fun d => (set_file f None d, true)) (fun _ d => (d, false)) untouched.

(** [std::filesystem::resize_file]: cuts the file or pads it with zeros. *)
Definition resized (n : nat) (c : list Z) : list Z := take n c ++ replicate (n - length c) 0.
Definition fs_resize (f : FileId) (n : nat) : Io bool :=
  syscall (fun d => match file_of d f with
                    | Some c => (set_file f (Some (resized n c)) d, true)
                    | None => (d, false)
                    end) (fun _ d => (d, false)) untouched.

(** [std::filesystem::rename], which replaces the target as one step. *)
Definition renamed (a b : FileId) (d : Disk) : Disk * bool :=
  match file_of d a with
  | Some c => (set_file a None (set_file b (Some c) d), true)
  | None => (d, false)
  end.
Definition fs_rename (a b : FileId) : Io bool :=
  syscall (renamed a b) (fun _ d => (d, false))
          (fun n d => match n with O => d | S _ => fst (renamed a b d) end).

(** [open_file] in its three modes. *)
Definition open_read (f : FileId) : Io bool :=
  syscall (fun d => (d, is_present d f)) (fun _ d => (d, false)) untouched.
Definition open_write (f : FileId) : Io bool :=
  syscall (fun d => (set_file f (Some []) d, true)) (fun _ d => (d, false)) untouched.
Definition open_append (f : FileId) : Io bool :=
  syscall (fun d => (set_file f (Some (default [] (file_of d f))) d, true)) (fun _ d => (d, false)) untouched.

(** [std::fread] of the whole file; [None] is a short read. *)
Definition f_read (f : FileId) : Io (option (list Z)) :=
  syscall (fun d => (d, file_of d f)) (fun _ d => (d, None)) untouched.

Definition appended (f : FileId) (data : list Z) (d : Disk) : Disk :=
  set_file f (Some (default [] (file_of d f) ++ data)) d.

(** [write_all]: writing nothing makes no call; a failed write leaves a prefix. *)
Definition write_all (f : FileId) (data : list Z) : Io bool :=
  if (length data =? 0)%nat then io_ret true
  else syscall (fun d => (appended f data d, true)) (fun n d => (appended f (take n data) d, false))
               (fun n d => appended f (take n data) d).

(** [FileHandle::sync] and [FileHandle::close] of a handle that has written
    [data] at the end of the file: if the flush does not complete only the first
    [n] of those bytes are in the file.  [close] has no result. *)
Definition keep_written (f : FileId) (data : list Z) (n : nat) (d : Disk) : Disk :=
  match file_of d f with
  | Some c => set_file f (Some (take (length c - length data) c ++ take n data)) d
  | None => d
  end.
Definition handle_sync (f : FileId) (data : list Z) : Io bool :=
  syscall (fun d => (d, true)) (fun n d => (keep_written f data n d, false)) (keep_written f data).
Definition handle_close (f : FileId) (pending : list Z) : Io unit :=
  syscall (fun d => (d, tt)) (fun n d => (keep_written f pending n d, tt)) (keep_written f pending).

#[local] Open Scope io_scope.

(** [read_whole_file]: an empty file is not read at all. *)
Definition read_whole_file (base : string) (f : FileId) (max_bytes : Z) : Io (Outcome (list Z)) :=
  size <- fs_file_size f ;;
  match size with
  | None => io_ret (outcome_failure StoreReadFailed "file size unavailable")
  | Some size =>
      if size >? max_bytes then io_ret (outcome_failure StoreOversized "file exceeds the configured bound")
      else
        opened <- open_read f ;;
        if negb opened then io_ret (outcome_failure StoreReadFailed (path_of base f))
        else if size =? 0 then io_ret (outcome_value [])
        else
          data <- f_read f ;;
          match data with
          | None => io_ret (outcome_failure StoreReadFailed "short read")
          | Some data => io_ret (outcome_value data)
          end
  end.

(** [truncate_journal]. *)
Definition truncate_journal : Io bool :=
  present <- fs_exists JournalFile ;;
  if negb present then open_write JournalFile else fs_resize JournalFile 0.

(** ** Fixed-width fields *)

Definition put_u16 (v : Z) : list Z := [byte_at v 8; Z.land v 255].
Definition put_u32 (v : Z) : list Z := map (byte_at v) [24; 16; 8; 0].
Definition put_u64 (v : Z) : list Z := map (byte_at v) [56; 48; 40; 32; 24; 16; 8; 0].
Definition put_digest (d : Digest256) : list Z := d.

(** The field at a byte offset of the buffer. *)
Definition field (data : list Z) (offset len : nat) : list Z := take len (drop offset data).
Definition get_u16 (data : list Z) (offset : nat) : Z :=
  let b i := nth i (field data offset 2) 0 in Z.lor (u16 (Z.shiftl (b 0%nat) 8)) (b 1%nat).
Definition get_u32 (data : list Z) (offset : nat) : Z :=
  fold_left (fun v b => Z.lor (u32 (Z.shiftl v 8)) b) (field data offset 4) 0.
Definition get_u64 (data : list Z) (offset : nat) : Z :=
  fold_left (fun v b => Z.lor (u64 (Z.shiftl v 8)) b) (field data offset 8) 0.

(** [reason_table_fingerprint] (src/reason.cpp). *)
Definition reason_table_fingerprint : Z :=
  let hash := fold_left (fun h entry =>
      let h := sha_update_bytes (sha_update_u16 h (reason_num (te_code entry))) (te_text entry) in
      let h := sha_update_byte h (category_num (te_category entry)) in
      sha_update_byte h (if te_failure entry then 1 else 0)) reason_table sha_init in
  let bytes := snd (sha_finish hash) in
  let b i := nth i bytes 0 in
  Z.lor (Z.lor (Z.lor (Z.shiftl (b 0%nat) 24) (Z.shiftl (b 1%nat) 16)) (Z.shiftl (b 2%nat) 8)) (b 3%nat).

Definition kSnapshotMagic : Z := 0x4F435253.
Definition kSnapshotFooterMagic : Z := 0x4F435246.
Definition kJournalMagic : Z := 0x4F434A52.
Definition kSnapshotHeaderSize : nat := 112.
Definition kSnapshotFooterSize : nat := 32.
Definition kJournalHeaderSize : nat := 72.
Definition kJournalTrailerSize : nat := 8.

(** ** Snapshot layout *)

Record SnapshotHeader := mkSnapshotHeader {
  sh_format_version : Z;
  sh_header_size : Z;
  sh_flags : Z;
  sh_api_generation : Z;
  sh_catalog_fingerprint : Z;
  sh_reason_fingerprint : Z;
  sh_payload_len : Z;
  sh_created_at : Z;
  sh_store_generation : Z;
  sh_registry_epoch : Z;
  sh_rule_generation : Z;
  sh_boot_epoch : Z;
  sh_payload_digest : Digest256 }.

(** The bytes before the checksum. *)
Definition header_prefix (h : SnapshotHeader) : list Z :=
  put_u32 kSnapshotMagic ++ put_u32 (sh_format_version h) ++ put_u32 (sh_header_size h) ++
  put_u32 (sh_flags h) ++ put_u32 (sh_api_generation h) ++ put_u32 (sh_catalog_fingerprint h) ++
  put_u32 (sh_reason_fingerprint h) ++ put_u64 (sh_payload_len h) ++ put_u64 (sh_created_at h) ++
  put_u64 (sh_store_generation h) ++ put_u64 (sh_registry_epoch h) ++
  put_u64 (sh_rule_generation h) ++ put_u64 (sh_boot_epoch h) ++ put_digest (sh_payload_digest h).
Definition serialize_header (h : SnapshotHeader) : list Z :=
  header_prefix h ++ put_u32 (crc32c (header_prefix h)).

Definition parse_header (data : list Z) : ReasonCode + SnapshotHeader :=
  if (length data <? kSnapshotHeaderSize)%nat then inl StoreHeaderCorrupt
  else if negb (get_u32 data 0 =? kSnapshotMagic) then inl StoreHeaderCorrupt
  else
    let stored_crc := get_u32 data (kSnapshotHeaderSize - 4) in
    let prefix := take (kSnapshotHeaderSize - 4) data in
    if negb (crc32c prefix =? stored_crc) then inl StoreHeaderCorrupt
    else if negb (get_u32 data 4 =? kStoreFormatVersion) then inl StoreVersionIncompatible
    else if negb (get_u32 data 8 =? Z.of_nat kSnapshotHeaderSize) then inl StoreHeaderCorrupt
    else if negb (get_u32 data 12 =? 0) then inl StoreSemanticMismatch
    else if negb (get_u32 data 16 =? kApiGeneration) then inl StoreVersionIncompatible
    else if negb (get_u32 data 20 =? catalog_fingerprint) then inl StoreSemanticMismatch
    else if negb (get_u32 data 24 =? reason_table_fingerprint) then inl StoreSemanticMismatch
    else inr (mkSnapshotHeader (get_u32 data 4) (get_u32 data 8) (get_u32 data 12) (get_u32 data 16)
           (get_u32 data 20) (get_u32 data 24) (get_u64 data 28) (get_u64 data 36) (get_u64 data 44)
           (get_u64 data 52) (get_u64 data 60) (get_u64 data 68) (field data 76 kDigestBytes)).

(** The first 24 bytes of the footer, which its checksum covers. *)
Definition footer_prefix (payload : list Z) (records : Z) : list Z :=
  put_u32 kSnapshotFooterMagic ++ put_u64 (Z.of_nat (length payload)) ++ put_u32 (crc32c payload) ++
  put_u64 records.

Definition snapshot_header (s : RegistryState) (payload : list Z) (now : Tick) : SnapshotHeader :=
  mkSnapshotHeader kStoreFormatVersion (Z.of_nat kSnapshotHeaderSize) 0 kApiGeneration
    catalog_fingerprint reason_table_fingerprint (Z.of_nat (length payload)) now
    (s_store_generation s) (s_epoch s) (s_rule_generation s) (s_boot_epoch s) (digest_of payload).

(** The bytes [write_snapshot] puts into the file. *)
Definition snapshot_bytes (s : RegistryState) (now : Tick) : list Z :=
  let payload := enc_state s in
  let footer := footer_prefix payload (Z.of_nat (length (s_records s))) in
  serialize_header (snapshot_header s payload now) ++ payload ++
  footer ++ put_u32 (crc32c footer) ++ put_u32 0.

(** [decode] over a whole payload, then [at_end]. *)
Definition decode_state (payload : list Z) (rejected trailing : string) :
    Outcome RegistryState :=
  match dec_state payload with
  | inl reason => outcome_failure reason rejected
  | inr (s, []) => outcome_value s
  | inr (_, _ :: _) => outcome_failure StoreSemanticMismatch trailing
  end.

(** The block of [Store::open] that reads the snapshot file. *)
Definition open_snapshot (data : list Z) : Outcome RegistryState :=
  match parse_header data with
  | inl reason => outcome_failure reason "snapshot header rejected"
  | inr header =>
    let len := Z.of_nat (length data) in
    let fixed := Z.of_nat (kSnapshotHeaderSize + kSnapshotFooterSize) in
    if len <? fixed then outcome_failure StoreTornTail "snapshot is shorter than header plus footer"
    else if negb (sh_payload_len header =? len - fixed)
    then outcome_failure StoreTornTail "snapshot payload length disagrees with size"
    else
    let payload_len := Z.to_nat (sh_payload_len header) in
    let footer_offset := (kSnapshotHeaderSize + payload_len)%nat in
    if (length data <? footer_offset + kSnapshotFooterSize)%nat
    then outcome_failure StoreFooterMissing "snapshot footer is absent"
    else if negb (get_u32 data footer_offset =? kSnapshotFooterMagic)
    then outcome_failure StoreFooterMissing "snapshot footer magic mismatch"
    else if negb (crc32c (field data footer_offset 24) =? get_u32 data (footer_offset + 24))
    then outcome_failure StorePayloadCorrupt "snapshot footer checksum mismatch"
    else if negb (get_u32 data (footer_offset + 28) =? 0)
    then outcome_failure StoreSemanticMismatch "snapshot footer reserved field set"
    else if negb (get_u64 data (footer_offset + 4) =? sh_payload_len header)
    then outcome_failure StoreTornTail "snapshot footer length mismatch"
    else
    let payload := field data kSnapshotHeaderSize payload_len in
    if negb (crc32c payload =? get_u32 data (footer_offset + 12))
    then outcome_failure StorePayloadCorrupt "snapshot payload CRC mismatch"
    else if negb (bool_decide (digest_of payload = sh_payload_digest header))
    then outcome_failure StorePayloadCorrupt "snapshot payload digest mismatch"
    else decode_state payload "snapshot payload rejected" "snapshot payload has trailing bytes"
  end.

(** ** Journal layout *)

Inductive JournalKind :=
| StateSnapshot | JAdmission | JRetirement | SourcePolicyChange | SourceRevocation
| RuleGenerationChange | EpochAdvance | JConflictResolution | DeviceIncarnation | LimitChange.

Definition journal_kind_num (k : JournalKind) : Z :=
  match k with
  | StateSnapshot => 1 | JAdmission => 2 | JRetirement => 3 | SourcePolicyChange => 4
  | SourceRevocation => 5 | RuleGenerationChange => 6 | EpochAdvance => 7
  | JConflictResolution => 8 | DeviceIncarnation => 9 | LimitChange => 10
  end.

(** [static_cast<JournalKind>] of a code within the range. *)
Definition journal_kind_from (raw : Z) : option JournalKind :=
  if (raw <? 1) || (raw >? journal_kind_num LimitChange) then None
  else find (fun k => journal_kind_num k =? raw)
         [StateSnapshot; JAdmission; JRetirement; SourcePolicyChange; SourceRevocation;
          RuleGenerationChange; EpochAdvance; JConflictResolution; DeviceIncarnation; LimitChange].

Definition journal_kind_to_string (k : JournalKind) : string :=
  match k with
  | StateSnapshot => "state_snapshot" | JAdmission => "admission" | JRetirement => "retirement"
  | SourcePolicyChange => "source_policy_change" | SourceRevocation => "source_revocation"
  | RuleGenerationChange => "rule_generation_change" | EpochAdvance => "epoch_advance"
  | JConflictResolution => "conflict_resolution" | DeviceIncarnation => "device_incarnation"
  | LimitChange => "limit_change"
  end.

Record JournalHeader := mkJournalHeader {
  jh_format_version : Z;
  jh_kind : JournalKind;
  jh_sequence : Z;
  jh_created_at : Z;
  jh_store_generation : Z;
  jh_payload_len : Z;
  jh_payload_digest : Digest256 }.

Definition journal_prefix (h : JournalHeader) : list Z :=
  put_u32 kJournalMagic ++ put_u16 (jh_format_version h) ++ put_u16 (journal_kind_num (jh_kind h)) ++
  put_u64 (jh_sequence h) ++ put_u64 (jh_created_at h) ++ put_u64 (jh_store_generation h) ++
  put_u32 (jh_payload_len h) ++ put_digest (jh_payload_digest h).
Definition serialize_journal_header (h : JournalHeader) : list Z :=
  journal_prefix h ++ put_u32 (crc32c (journal_prefix h)).

Definition parse_journal_header (data : list Z) : ReasonCode + JournalHeader :=
  if negb (get_u32 data 0 =? kJournalMagic) then inl StoreJournalCorrupt
  else if negb (crc32c (take (kJournalHeaderSize - 4) data) =? get_u32 data (kJournalHeaderSize - 4))
  then inl StoreJournalCorrupt
  else if negb (get_u16 data 4 =? kStoreFormatVersion) then inl StoreVersionIncompatible
  else match journal_kind_from (get_u16 data 6) with
       | None => inl StoreJournalCorrupt
       | Some kind =>
           inr (mkJournalHeader (get_u16 data 4) kind (get_u64 data 8) (get_u64 data 16)
                  (get_u64 data 24) (get_u32 data 32) (field data 36 kDigestBytes))
       end.

(** The frame [append] writes: header, payload, payload checksum, reserved word. *)
Definition journal_frame (h : JournalHeader) (payload : list Z) : list Z :=
  serialize_journal_header h ++ payload ++ put_u32 (crc32c payload) ++ put_u32 0.

(** ** Scanning the journal *)

Record StoreLimits := mkStoreLimits {
  max_snapshot_bytes : Z;
  max_journal_entry_bytes : Z;
  max_journal_bytes : Z;
  max_journal_entries : Z;
  max_replay_entries : Z }.

Definition default_store_limits : StoreLimits :=
  mkStoreLimits (64 * 1024 * 1024) (1024 * 1024) (16 * 1024 * 1024) 65536 65536.

(** [last_snapshot_payload] is empty as long as no snapshot entry was seen. *)
Record JournalScan := mkScan {
  sc_valid_bytes : nat;
  sc_entries_seen : Z;
  sc_entries_valid : Z;
  sc_entries_dropped : Z;
  sc_bytes_discarded : Z;
  sc_truncated_tail : bool;
  sc_corrupt : bool;
  sc_reason : ReasonCode;
  sc_last_snapshot_payload : list Z;
  sc_last_snapshot_generation : Z;
  sc_notes : list ReasonCode }.

#[export] Instance journal_kind_eq_dec : EqDecision JournalKind.
Proof. solve_decision. Defined.

Definition empty_scan : JournalScan := mkScan 0 0 0 0 0 false false Ok_ [] 0 [].

(** The three ways the loop ends early, and the bookkeeping of one entry. *)
Definition scan_torn (remaining : nat) (s : JournalScan) : JournalScan :=
  mkScan (sc_valid_bytes s) (sc_entries_seen s) (sc_entries_valid s) (sc_entries_dropped s)
    (sc_bytes_discarded s + Z.of_nat remaining) true (sc_corrupt s) (sc_reason s)
    (sc_last_snapshot_payload s) (sc_last_snapshot_generation s) (sc_notes s).
Definition scan_corrupt (reason : ReasonCode) (remaining : nat) (s : JournalScan) : JournalScan :=
  mkScan (sc_valid_bytes s) (sc_entries_seen s) (sc_entries_valid s) (sc_entries_dropped s)
    (sc_bytes_discarded s + Z.of_nat remaining) (sc_truncated_tail s) true reason
    (sc_last_snapshot_payload s) (sc_last_snapshot_generation s) (sc_notes s).
Definition scan_seen (s : JournalScan) : JournalScan :=
  mkScan (sc_valid_bytes s) (sc_entries_seen s + 1) (sc_entries_valid s) (sc_entries_dropped s)
    (sc_bytes_discarded s) (sc_truncated_tail s) (sc_corrupt s) (sc_reason s)
    (sc_last_snapshot_payload s) (sc_last_snapshot_generation s) (sc_notes s).
Definition scan_note (reason : ReasonCode) (s : JournalScan) : JournalScan :=
  mkScan (sc_valid_bytes s) (sc_entries_seen s) (sc_entries_valid s) (sc_entries_dropped s)
    (sc_bytes_discarded s) (sc_truncated_tail s) (sc_corrupt s) (sc_reason s)
    (sc_last_snapshot_payload s) (sc_last_snapshot_generation s) (sc_notes s ++ [reason]).
Definition scan_apply (h : JournalHeader) (payload : list Z) (position : nat) (s : JournalScan) : JournalScan :=
  let take_it := bool_decide (jh_kind h = StateSnapshot) &&
                 (jh_store_generation h >=? sc_last_snapshot_generation s) in
  mkScan position (sc_entries_seen s) (sc_entries_valid s + 1) (sc_entries_dropped s)
    (sc_bytes_discarded s) (sc_truncated_tail s) (sc_corrupt s) (sc_reason s)
    (if take_it then payload else sc_last_snapshot_payload s)
    (if take_it then jh_store_generation h else sc_last_snapshot_generation s) (sc_notes s).

(** The [while] loop; [rest] is the data from [position] on.  Every iteration that
    continues consumes a whole frame, so the length of the data bounds their
    number. *)
Fixpoint scan_loop (fuel : nat) (limits : StoreLimits) (rest : list Z) (position : nat)
    (previous_sequence previous_generation : Z) (scan : JournalScan) : JournalScan :=
  match fuel with
  | O => scan
  | S fuel' =>
    let remaining := length rest in
    if (remaining =? 0)%nat then scan
    else if (remaining <? kJournalHeaderSize)%nat then scan_torn remaining scan
    else match parse_journal_header rest with
    | inl reason => scan_corrupt reason remaining scan
    | inr header =>
      let scan := scan_seen scan in
      if jh_payload_len header >? max_journal_entry_bytes limits
      then scan_corrupt StoreOversized remaining scan
      else
      let payload_len := Z.to_nat (jh_payload_len header) in
      let total := (kJournalHeaderSize + payload_len + kJournalTrailerSize)%nat in
      if (remaining <? total)%nat then scan_torn remaining scan
      else
      let payload := field rest kJournalHeaderSize payload_len in
      if negb (crc32c payload =? get_u32 rest (kJournalHeaderSize + payload_len))
      then scan_corrupt StorePayloadCorrupt remaining scan
      else if negb (bool_decide (digest_of payload = jh_payload_digest header))
      then scan_corrupt StorePayloadCorrupt remaining scan
      else if (jh_sequence header <=? previous_sequence) && (sc_entries_valid scan >? 0)
      then scan_loop fuel' limits (drop total rest) (position + total) previous_sequence
             previous_generation (scan_note ProtocolSequenceViolation scan)
      else if jh_store_generation header <? previous_generation
      then scan_loop fuel' limits (drop total rest) (position + total) previous_sequence
             previous_generation (scan_note StoreGenerationReplay scan)
      else scan_loop fuel' limits (drop total rest) (position + total) (jh_sequence header)
             (jh_store_generation header) (scan_apply header payload (position + total) scan)
    end
  end.

(** The statements after the loop. *)
Definition scan_finish (s : JournalScan) : JournalScan :=
  mkScan (sc_valid_bytes s) (sc_entries_seen s) (sc_entries_valid s)
    (if sc_entries_seen s >? sc_entries_valid s then sc_entries_seen s - sc_entries_valid s else 0)
    (sc_bytes_discarded s) (sc_truncated_tail s) (sc_corrupt s)
    (if negb (sc_corrupt s) && negb (sc_truncated_tail s) then RecoveryCleanOpen else sc_reason s)
    (sc_last_snapshot_payload s) (sc_last_snapshot_generation s) (sc_notes s).

Definition scan_journal (data : list Z) (limits : StoreLimits) : JournalScan :=
  scan_finish (scan_loop (S (length data)) limits data 0 0 0 empty_scan).

(** ** The store *)

Record StoreOptions := mkStoreOptions {
  so_base_path : string;
  so_limits : StoreLimits;
  so_sync_on_commit : bool;
  so_compact_after_entries : Z }.

Record StoreImpl := mkStoreImpl {
  si_options : StoreOptions;
  si_sequence : Z;
  si_entry_count : Z;
  si_journal_size : Z;
  si_written : Z;
  si_generation : Z }.

Record CommitToken := mkToken {
  ct_generation : Z;
  ct_sequence : Z;
  ct_bytes : Z;
  ct_payload_digest : Digest256;
  ct_synchronised : bool }.

Record OpenReport := mkOpenReport {
  or_reason : ReasonCode;
  or_existed : bool;
  or_snapshot_present : bool;
  or_journal_present : bool;
  or_snapshot_bytes : Z;
  or_journal_bytes : Z;
  or_bytes_discarded : Z;
  or_journal_entries_scanned : Z;
  or_journal_entries_valid : Z;
  or_journal_entries_dropped : Z;
  or_stale_temp_removed : bool;
  or_classification : RecoveryClass;
  or_state : RegistryState }.

(** [RegistryState{}] and the journal part of the report. *)
Definition empty_state : RegistryState :=
  mkState default_policy 0 0 0 0 0 0 1 [] [] [] [] [] [] zero_counters.

Record JournalReport := mkJournalReport {
  jr_state : option RegistryState;
  jr_journal_bytes : Z;
  jr_bytes_discarded : Z;
  jr_scanned : Z;
  jr_valid : Z;
  jr_dropped : Z;
  jr_class : RecoveryClass;
  jr_reason : ReasonCode }.

Definition scan_class (scan : JournalScan) : RecoveryClass * ReasonCode :=
  if sc_corrupt scan
  then (if sc_truncated_tail scan then TornTailTruncated else TrailingCorruptDropped, sc_reason scan)
  else if sc_truncated_tail scan then (TornTailTruncated, StoreTornTail)
  else if sc_entries_valid scan >? 0 then (JournalReplayed, RecoveryJournalReplayed)
  else (CleanOpen, RecoveryCleanOpen).

(** Which state wins: the journal's last snapshot entry unless it is older than
    the snapshot file.  Also the counts of entries used and dropped. *)
Definition choose_state (state : option RegistryState) (scan : JournalScan) :
    Outcome (option RegistryState * Z * Z) :=
  match sc_last_snapshot_payload scan with
  | [] => outcome_value (state, sc_entries_valid scan, sc_entries_dropped scan)
  | payload =>
    let decoded := decode_state payload "journal snapshot payload rejected"
                     "journal payload has trailing bytes" in
    match oc_value decoded with
    | None => mkOutcome None (oc_status decoded)
    | Some s =>
      let have_state := match state with Some _ => true | None => false end in
      let snapshot_generation := match state with Some s0 => s_store_generation s0 | None => 0 end in
      if negb have_state || (sc_last_snapshot_generation scan >=? snapshot_generation)
      then outcome_value (Some s, sc_entries_valid scan, sc_entries_dropped scan)
      else outcome_value (state, 0, sc_entries_dropped scan + sc_entries_valid scan)
    end
  end.

(** The block of [Store::open] that replays the journal. *)
Definition open_journal (opts : StoreOptions) (state : option RegistryState) :
    Io (Outcome JournalReport) :=
  bytes <- read_whole_file (so_base_path opts) JournalFile
             (u64 (max_journal_bytes (so_limits opts) + Z.of_nat kJournalHeaderSize)) ;;
  match oc_value bytes with
  | None => io_ret (mkOutcome None (oc_status bytes))
  | Some data =>
    let scan := scan_journal data (so_limits opts) in
    let chosen := choose_state state scan in
    match oc_value chosen with
    | None => io_ret (mkOutcome None (oc_status chosen))
    | Some (state, valid, dropped) =>
      let '(class, reason) := scan_class scan in
      let report bytes := outcome_value (mkJournalReport state bytes (sc_bytes_discarded scan)
            (sc_entries_seen scan) valid dropped class reason) in
      if sc_bytes_discarded scan >? 0 then
        resized_ok <- fs_resize JournalFile (sc_valid_bytes scan) ;;
        if negb resized_ok
        then io_ret (outcome_failure StoreWriteFailed "journal tail could not be truncated")
        else io_ret (report (Z.of_nat (sc_valid_bytes scan)))
      else io_ret (report (Z.of_nat (length data)))
    end
  end.

(** [Store::open] once the presence of the files is known. *)
Definition open_files (opts : StoreOptions) (snapshot_exists journal_exists stale_temp_removed : bool) :
    Io (Outcome OpenReport) :=
  let existed := snapshot_exists || journal_exists in
  snapshot <- (if snapshot_exists then
      bytes <- read_whole_file (so_base_path opts) SnapshotFile (max_snapshot_bytes (so_limits opts)) ;;
      io_ret (match oc_value bytes with
              | None => mkOutcome None (oc_status bytes)
              | Some data =>
                let opened := open_snapshot data in
                mkOutcome ((fun s => (Some s, Z.of_nat (length data))) <$> oc_value opened) (oc_status opened)
              end)
    else io_ret (outcome_value (None, 0))) ;;
  match oc_value snapshot with
  | None => io_ret (mkOutcome None (oc_status snapshot))
  | Some (state, snapshot_bytes) =>
    journal <- (if journal_exists then open_journal opts state
      else io_ret (outcome_value (mkJournalReport state 0 0 0 0 0 CleanOpen
             (if snapshot_exists then RecoveryCleanOpen else StoreEmptyNew)))) ;;
    match oc_value journal with
    | None => io_ret (mkOutcome None (oc_status journal))
    | Some jr =>
      let report st := outcome_value (mkOpenReport (jr_reason jr) existed snapshot_exists journal_exists
            snapshot_bytes (jr_journal_bytes jr) (jr_bytes_discarded jr) (jr_scanned jr) (jr_valid jr)
            (jr_dropped jr) stale_temp_removed (jr_class jr) st) in
      match jr_state jr with
      | Some st => io_ret (report st)
      | None =>
        if existed then
          let cause := if bool_decide (jr_reason jr = StoreEmptyNew) || bool_decide (jr_reason jr = Ok_)
                       then RecoveryRefused else jr_reason jr in
          io_ret (outcome_failure cause "store exists but holds no recoverable state")
        else io_ret (report empty_state)
      end
    end
  end.

Definition store_open (opts : StoreOptions) : Io (Outcome OpenReport) :=
  if String.eqb (so_base_path opts) "" then io_ret (outcome_failure StoreNotFound "store base path is empty")
  else
  snapshot_exists <- fs_exists SnapshotFile ;;
  journal_exists <- fs_exists JournalFile ;;
  temp_exists <- fs_exists TempFile ;;
  stale_temp_removed <- (if temp_exists then fs_remove TempFile else io_ret false) ;;
  open_files opts snapshot_exists journal_exists stale_temp_removed.

Definition store_bind (opts : StoreOptions) : Io (Outcome StoreImpl) :=
  if String.eqb (so_base_path opts) "" then io_ret (outcome_failure StoreNotFound "store base path is empty")
  else
  present <- fs_exists JournalFile ;;
  journal_size <- (if present then size <- fs_file_size JournalFile ;; io_ret (default 0 size)
                   else io_ret 0) ;;
  io_ret (outcome_value (mkStoreImpl opts 0 0 journal_size 0 0)).

(** The rename of [write_snapshot]: a synchronising store retries once after
    removing the target. *)
Definition publish_snapshot (sync_on_commit : bool) : Io bool :=
  renamed_ok <- fs_rename TempFile SnapshotFile ;;
  if renamed_ok then io_ret true
  else if negb sync_on_commit then io_ret false
  else
    _ <- fs_remove SnapshotFile ;;
    fs_rename TempFile SnapshotFile.

Definition store_write_snapshot (impl : StoreImpl) (state : RegistryState) (now : Tick) :
    Io (StoreImpl * Outcome CommitToken) :=
  let opts := si_options impl in
  let fail code detail := io_ret (impl, outcome_failure code detail) in
  let payload := enc_state state in
  if Z.of_nat (length payload) >? max_snapshot_bytes (so_limits opts)
  then fail StoreOversized "encoded state exceeds the snapshot bound"
  else
  let file_bytes := snapshot_bytes state now in
  opened <- open_write TempFile ;;
  if negb opened then fail StoreReadFailed (temp_path (so_base_path opts))
  else
  written <- write_all TempFile file_bytes ;;
  if negb written then fail StoreWriteFailed "snapshot payload write failed"
  else
  synced <- (if so_sync_on_commit opts then handle_sync TempFile file_bytes else io_ret true) ;;
  if negb synced then fail StoreSyncFailed "snapshot synchronisation failed"
  else
  _ <- handle_close TempFile (if so_sync_on_commit opts then [] else file_bytes) ;;
  published <- publish_snapshot (so_sync_on_commit opts) ;;
  if negb published then fail StoreWriteFailed "snapshot rename failed"
  else
  let bytes := Z.of_nat (length file_bytes) in
  let token := mkToken (s_store_generation state) (si_sequence impl) bytes (digest_of payload)
                 (so_sync_on_commit opts) in
  io_ret (mkStoreImpl opts (si_sequence impl) (si_entry_count impl) (si_journal_size impl)
            (si_written impl + bytes) (si_generation impl), outcome_value token).

(** The header [append] builds. *)
Definition entry_header (impl : StoreImpl) (kind : JournalKind) (payload : list Z) (now : Tick) : JournalHeader :=
  mkJournalHeader (u16 kStoreFormatVersion) kind (u64 (si_sequence impl + 1)) now (si_generation impl)
    (u32 (Z.of_nat (length payload))) (digest_of payload).

Definition store_append (impl : StoreImpl) (kind : JournalKind) (payload : list Z) (now : Tick) :
    Io (StoreImpl * Outcome CommitToken) :=
  let opts := si_options impl in
  let limits := so_limits opts in
  let fail code detail := io_ret (impl, outcome_failure code detail) in
  let len := Z.of_nat (length payload) in
  if len >? max_journal_entry_bytes limits
  then fail StoreOversized "journal entry exceeds the entry bound"
  else if si_journal_size impl + len + Z.of_nat kJournalHeaderSize + Z.of_nat kJournalTrailerSize
          >? max_journal_bytes limits
  then fail StoreRotationPerformed "journal byte bound reached"
  else if si_entry_count impl >=? max_journal_entries limits
  then fail StoreRotationPerformed "journal entry bound reached"
  else
  let header := entry_header impl kind payload now in
  let frame := journal_frame header payload in
  opened <- open_append JournalFile ;;
  if negb opened then fail StoreReadFailed (journal_path (so_base_path opts))
  else
  written <- write_all JournalFile frame ;;
  if negb written then fail StoreWriteFailed "journal append failed"
  else
  synced <- (if so_sync_on_commit opts then handle_sync JournalFile frame else io_ret true) ;;
  if negb synced then fail StoreSyncFailed "journal synchronisation failed"
  else
  _ <- handle_close JournalFile (if so_sync_on_commit opts then [] else frame) ;;
  let bytes := Z.of_nat (length frame) in
  io_ret (mkStoreImpl opts (jh_sequence header) (si_entry_count impl + 1) (si_journal_size impl + bytes)
            (si_written impl + bytes) (si_generation impl),
          outcome_value (mkToken (si_generation impl) (jh_sequence header) bytes (jh_payload_digest header)
            (so_sync_on_commit opts))).

Definition journal_emptied (impl : StoreImpl) : StoreImpl :=
  mkStoreImpl (si_options impl) (si_sequence impl) 0 0 (si_written impl) (si_generation impl).

(** [write_snapshot], then the journal is emptied: the tail shared by [compact]
    and the two rotations of [commit], which differ in the message. *)
Definition snapshot_and_truncate (impl : StoreImpl) (state : RegistryState) (now : Tick) (detail : string) :
    Io (StoreImpl * Outcome CommitToken) :=
  result <- store_write_snapshot impl state now ;;
    let '(impl, written) := result in
  if negb (outcome_ok written) then io_ret (impl, written)
  else
  emptied <- truncate_journal ;;
  if negb emptied then io_ret (impl, outcome_failure StoreWriteFailed detail)
  else io_ret (journal_emptied impl, written).

Definition store_compact (impl : StoreImpl) (state : RegistryState) (now : Tick) :
    Io (StoreImpl * Outcome CommitToken) :=
  snapshot_and_truncate impl state now "journal truncation failed".

(** The notes are the caller's vector; they are left uncanonicalised on the error
    paths, as in the source. *)
Definition store_commit (impl : StoreImpl) (state : RegistryState) (now : Tick) (notes : list ReasonCode) :
    Io (StoreImpl * list ReasonCode * Outcome CommitToken) :=
  let opts := si_options impl in
  let impl := mkStoreImpl opts (si_sequence impl) (si_entry_count impl) (si_journal_size impl)
                (si_written impl) (s_store_generation state) in
  let payload := enc_state state in
  if Z.of_nat (length payload) >? max_journal_entry_bytes (so_limits opts) then
    result <- store_write_snapshot impl state now ;;
    let '(impl, written) := result in
    if negb (outcome_ok written) then io_ret (impl, notes, written)
    else
    let notes := notes ++ [StoreCommitDurable; StoreRotationPerformed] in
    emptied <- truncate_journal ;;
    if negb emptied then io_ret (impl, notes, outcome_failure StoreWriteFailed "journal rotation failed")
    else io_ret (journal_emptied impl, canonical_reasons notes, written)
  else
    result <- store_append impl StateSnapshot payload now ;;
    let '(impl, appended) := result in
    if negb (outcome_ok appended) then io_ret (impl, notes, appended)
    else
    let notes := notes ++ [StoreCommitDurable] in
    let rotate := negb (so_compact_after_entries opts =? 0) &&
                  (si_entry_count impl >=? so_compact_after_entries opts) in
    if rotate then
      result <- snapshot_and_truncate impl state now "journal rotation failed" ;;
    let '(impl, written) := result in
      if negb (outcome_ok written) then io_ret (impl, notes, written)
      else io_ret (impl, canonical_reasons (notes ++ [StoreRotationPerformed]), appended)
    else io_ret (impl, canonical_reasons notes, appended).

(** [load_state]; the caller's summary is the default one. *)
Definition load_state (opts : StoreOptions) : Io (RecoverySummary * Outcome RegistryState) :=
  let summary := mkRecoverySummary CleanOpen RecoveryCleanOpen 0 0 0 0 0 0 0 0 0 0 0 0 0 [] in
  report <- store_open opts ;;
  match oc_value report with
  | None =>
    io_ret (mkRecoverySummary Refused (outcome_reason report) 0 0 0 0 0 0 0 0 0 0 0 0 0 [],
            mkOutcome None (oc_status report))
  | Some v =>
    let s := or_state v in
    let notes := (if or_journal_entries_dropped v >? 0 then [RecoveryTrailingCorruptDropped] else []) ++
                 (if or_bytes_discarded v >? 0 then [RecoveryTornTailTruncated] else []) in
    io_ret (mkRecoverySummary (or_classification v) (or_reason v) (Z.of_nat (length (s_records s)))
              (sm_records_fenced summary) (sm_records_carried_forward summary)
              (Z.of_nat (length (s_tombstones s))) (sm_conflicts_adopted summary)
              (sm_resolutions_adopted summary) (sm_evictions_adopted summary)
              (or_journal_entries_valid v) (or_journal_entries_dropped v) (or_bytes_discarded v)
              (s_store_generation s) (sm_previous_boot_epoch summary) (s_boot_epoch s)
              (canonical_reasons notes), outcome_value s)
  end.
