(* ===== verification/PersistFormat.v ===== *)
(** * The byte layouts of the store

    What [serialize_header], [serialize_journal_header] and [write_snapshot]
    write is what [parse_header], [parse_journal_header] and [Store::open] read;
    and the journal scan over a sequence of frames followed by a torn one
    applies exactly the whole frames. *)

From Stdlib Require Import ZArith Lia String ZifyBool.
From stdpp Require Import base tactics list strings.
From S2P Require Import Prelude OrdMap Reason Text Hash Catalog Evidence State.
From S2P Require Import Codec CodecTypes CodecThms Persist.

#[local] Open Scope Z_scope.
#[local] Open Scope list_scope.

(** ** Fields *)

Lemma get_put_u16 v : in_u 16 v -> get_u16 (put_u16 v) 0 = v.
Proof.
  intros H. pose proof (codec_dec_enc (enc := w_u16) (dec := r_u16) v [] H) as E.
  unfold in_u in H. unfold r_u16, r_bind, r_ret in E. cbv [r_take] in E. simpl in E. injection E as E.
  unfold get_u16, put_u16. simpl. rewrite <- E at 3. unfold w_u16 in *. symmetry. apply wrap_small.
  rewrite byte_at_div by lia. change 255 with (Z.ones 8). rewrite Z.land_ones by lia.
  pose proof (Z.mod_pos_bound (v / 2 ^ 8) 256 ltac:(lia)). pose proof (Z.mod_pos_bound v (2 ^ 8) ltac:(lia)).
  unfold u16. rewrite lor_shift8 by (unfold in_u; lia). unfold in_u. lia.
Qed.

Lemma be_bytes_range n v : bytes (be_bytes n v).
Proof.
  revert v. induction n as [|n IH]; intros v; simpl; [constructor|].
  apply Forall_app. split; [apply IH|]. constructor; [|constructor].
  apply Z.mod_pos_bound. lia.
Qed.

Lemma be_fold_bytes w n v :
  w = 8 * Z.of_nat n -> 8 <= w -> in_u w v ->
  fold_left (fun v b => Z.lor (wrap w (Z.shiftl v 8)) b) (be_bytes n v) 0 = v.
Proof.
  intros -> Hw Hv. unfold in_u in Hv. rewrite Z.pow_mul_r in Hv by lia.
  rewrite be_fold; [by apply be_val_bytes|apply be_bytes_range|lia|done|].
  rewrite be_bytes_length, Z.pow_mul_r by lia. change (2 ^ 8) with 256. lia.
Qed.

Lemma get_put_u32 v : in_u 32 v -> get_u32 (put_u32 v) 0 = v.
Proof.
  intros H. unfold get_u32. change (field (put_u32 v) 0 4) with (w_u32 v). rewrite w_u32_be.
  by apply (be_fold_bytes 32 4).
Qed.

Lemma get_put_u64 v : in_u 64 v -> get_u64 (put_u64 v) 0 = v.
Proof.
  intros H. unfold get_u64. change (field (put_u64 v) 0 8) with (w_u64 v). rewrite w_u64_be.
  by apply (be_fold_bytes 64 8).
Qed.

Lemma field_skip pre l n k : field (pre ++ l) (length pre + k) n = field l k n.
Proof. unfold field. by rewrite drop_app_add'. Qed.

Lemma field_here l rest : field (l ++ rest) 0 (length l) = l.
Proof. unfold field. by rewrite drop_0, take_app_length. Qed.

(** Reading a field behind a prefix of known length. *)
Lemma field_at pre l rest n m : n = length pre -> m = length l -> field (pre ++ l ++ rest) n m = l.
Proof. intros -> ->. rewrite <- (Nat.add_0_r (length pre)), field_skip. apply field_here. Qed.

Lemma field_whole l n : n = length l -> field l 0 n = l.
Proof. intros ->. unfold field. by rewrite drop_0, firstn_all. Qed.

Lemma get_u32_at pre v rest n :
  n = length pre -> in_u 32 v -> get_u32 (pre ++ put_u32 v ++ rest) n = v.
Proof.
  intros Hn Hv. rewrite <- (get_put_u32 v Hv) at 2. unfold get_u32.
  rewrite (field_at pre), (field_whole (put_u32 v)) by done. done.
Qed.

Lemma get_u64_at pre v rest n :
  n = length pre -> in_u 64 v -> get_u64 (pre ++ put_u64 v ++ rest) n = v.
Proof.
  intros Hn Hv. rewrite <- (get_put_u64 v Hv) at 2. unfold get_u64.
  rewrite (field_at pre), (field_whole (put_u64 v)) by done. done.
Qed.

(** ** Checksums and digests fit their fields *)

Lemma u32_log2 x : in_u 32 x <-> 0 <= x /\ Z.log2 x < 32.
Proof.
  unfold in_u. split; intros [H0 H]; (split; [done|]).
  - destruct (decide (x = 0)) as [->|]; [simpl; lia|apply Z.log2_lt_pow2; lia].
  - destruct (decide (x = 0)) as [->|]; [lia|apply Z.log2_lt_pow2; lia].
Qed.

Lemma lxor_u32 a b : in_u 32 a -> in_u 32 b -> in_u 32 (Z.lxor a b).
Proof.
  rewrite !u32_log2. intros [Ha La] [Hb Lb]. split; [apply Z.lxor_nonneg; lia|].
  eapply Z.le_lt_trans; [apply Z.log2_lxor; lia|]. lia.
Qed.

Lemma lor_u32 a b : in_u 32 a -> in_u 32 b -> in_u 32 (Z.lor a b).
Proof.
  rewrite !u32_log2. intros [Ha La] [Hb Lb]. split; [by apply Z.lor_nonneg|].
  rewrite Z.log2_lor by done. lia.
Qed.

Lemma crc_table_range i : in_u 32 (nth i kCrc32cTable 0).
Proof.
  assert (forallb (fun x => (0 <=? x) && (x <? 2 ^ 32)) kCrc32cTable = true) as H by (vm_compute; done).
  rewrite forallb_forall in H.
  destruct (nth_in_or_default i kCrc32cTable 0) as [Hi| ->]; [|unfold in_u; lia].
  apply H in Hi. unfold in_u. lia.
Qed.

Lemma crc32c_range data : in_u 32 (crc32c data).
Proof.
  unfold crc32c, crc_update. apply lxor_u32; [|unfold in_u; lia].
  assert (forall c, in_u 32 c -> in_u 32 (fold_left crc32c_update_byte data c)) as H.
  { induction data as [|b data IH]; intros c Hc; simpl; [done|]. apply IH. unfold crc32c_update_byte.
    apply lxor_u32; [apply crc_table_range|]. unfold in_u in *. rewrite Z.shiftr_div_pow2 by lia.
    split; [apply Z.div_pos; lia|apply Z.div_lt_upper_bound; lia]. }
  apply H. unfold in_u. lia.
Qed.

Lemma sha_finish_range h : Forall (in_u 8) (snd (sha_finish h)).
Proof. apply sha_serialise_range. Qed.

Lemma digest_of_length data : length (digest_of data) = kDigestBytes.
Proof. apply sha_serialise_length. Qed.

(** A computed digest has the format of one. *)
Lemma digest_of_wf data : digest_wf (digest_of data).
Proof. split; [apply digest_of_length|]. apply sha_finish_range. Qed.

(** Four bytes joined as the fingerprints join them. *)
Lemma join_bytes_u32 l :
  Forall (in_u 8) l ->
  in_u 32 (Z.lor (Z.lor (Z.lor (Z.shiftl (nth 0 l 0) 24) (Z.shiftl (nth 1 l 0) 16)) (Z.shiftl (nth 2 l 0) 8))
                 (nth 3 l 0)).
Proof.
  intros Hl. assert (forall i, in_u 8 (nth i l 0)) as Hn.
  { intros i. destruct (nth_in_or_default i l 0) as [Hi| ->]; [|unfold in_u; lia].
    rewrite Forall_forall in Hl. by apply Hl, list_elem_of_In. }
  pose proof (Hn 0%nat). pose proof (Hn 1%nat). pose proof (Hn 2%nat). pose proof (Hn 3%nat).
  unfold in_u in *. rewrite !Z.shiftl_mul_pow2 by lia. repeat apply lor_u32; unfold in_u; lia.
Qed.

Lemma fingerprints_fit : in_u 32 catalog_fingerprint /\ in_u 32 reason_table_fingerprint.
Proof.
  split; [unfold catalog_fingerprint|unfold reason_table_fingerprint];
    cbv zeta; match goal with |- context [nth 0 ?l 0] => pose proof (join_bytes_u32 l) as H end;
    apply H, sha_finish_range.
Qed.

#[local] Opaque digest_of crc32c catalog_fingerprint reason_table_fingerprint.

(** ** Headers *)

Lemma put_u16_length v : length (put_u16 v) = 2%nat. Proof. done. Qed.
Lemma put_u32_length v : length (put_u32 v) = 4%nat. Proof. done. Qed.
Lemma put_u64_length v : length (put_u64 v) = 8%nat. Proof. done. Qed.

#[local] Opaque put_u16 put_u32 put_u64.

Lemma field_past p l n m : (length p <= n)%nat -> field (p ++ l) n m = field l (n - length p) m.
Proof. intros H. rewrite <- (field_skip p l m (n - length p)). f_equal. lia. Qed.

Lemma get_u16_past p l n : (length p <= n)%nat -> get_u16 (p ++ l) n = get_u16 l (n - length p).
Proof. intros H. unfold get_u16. by rewrite field_past. Qed.
Lemma get_u32_past p l n : (length p <= n)%nat -> get_u32 (p ++ l) n = get_u32 l (n - length p).
Proof. intros H. unfold get_u32. by rewrite field_past. Qed.
Lemma get_u64_past p l n : (length p <= n)%nat -> get_u64 (p ++ l) n = get_u64 l (n - length p).
Proof. intros H. unfold get_u64. by rewrite field_past. Qed.

(** Walks to the field that starts at the offset, with the skipping lemma of the
    access. *)
Ltac walk past :=
  repeat (rewrite past by (rewrite ?put_u16_length, ?put_u32_length, ?put_u64_length; lia);
          rewrite ?put_u16_length, ?put_u32_length, ?put_u64_length; cbn [Nat.sub]).

Lemma get_u16_here v rest : in_u 16 v -> get_u16 (put_u16 v ++ rest) 0 = v.
Proof.
  intros Hv. rewrite <- (get_put_u16 v Hv) at 2. unfold get_u16.
  pose proof (field_at [] (put_u16 v) rest 0 2 eq_refl eq_refl) as E. cbn [app] in E. rewrite E, (field_whole (put_u16 v)) by done. done.
Qed.
Lemma get_u32_here v rest : in_u 32 v -> get_u32 (put_u32 v ++ rest) 0 = v.
Proof. exact (get_u32_at [] v rest 0 eq_refl). Qed.
Lemma get_u64_here v rest : in_u 64 v -> get_u64 (put_u64 v ++ rest) 0 = v.
Proof. exact (get_u64_at [] v rest 0 eq_refl). Qed.

Ltac in_range := first [assumption | unfold in_u; vm_compute; split; congruence].
Ltac at_u16 := walk get_u16_past; apply get_u16_here; in_range.
Ltac at_u32 := walk get_u32_past; apply get_u32_here; in_range.
Ltac at_u64 := walk get_u64_past; apply get_u64_here; in_range.

Lemma header_prefix_length h :
  length (sh_payload_digest h) = kDigestBytes -> length (header_prefix h) = 108%nat.
Proof.
  intros Hd. unfold header_prefix, put_digest.
  repeat rewrite length_app, ?put_u32_length, ?put_u64_length. rewrite Hd. done.
Qed.

Lemma journal_prefix_length h :
  length (jh_payload_digest h) = kDigestBytes -> length (journal_prefix h) = 68%nat.
Proof.
  intros Hd. unfold journal_prefix, put_digest.
  repeat rewrite length_app, ?put_u16_length, ?put_u32_length, ?put_u64_length. rewrite Hd. done.
Qed.

Lemma serialize_header_length h :
  length (sh_payload_digest h) = kDigestBytes -> length (serialize_header h) = kSnapshotHeaderSize.
Proof. intros Hd. unfold serialize_header. by rewrite length_app, header_prefix_length, put_u32_length. Qed.

Lemma serialize_journal_header_length h :
  length (jh_payload_digest h) = kDigestBytes -> length (serialize_journal_header h) = kJournalHeaderSize.
Proof. intros Hd. unfold serialize_journal_header. by rewrite length_app, journal_prefix_length, put_u32_length. Qed.

(** A header as the current build writes it. *)
Definition header_ok (h : SnapshotHeader) : Prop :=
  sh_format_version h = kStoreFormatVersion /\ sh_header_size h = Z.of_nat kSnapshotHeaderSize /\
  sh_flags h = 0 /\ sh_api_generation h = kApiGeneration /\
  sh_catalog_fingerprint h = catalog_fingerprint /\
  sh_reason_fingerprint h = reason_table_fingerprint /\ in_u 64 (sh_payload_len h) /\
  in_u 64 (sh_created_at h) /\ in_u 64 (sh_store_generation h) /\ in_u 64 (sh_registry_epoch h) /\
  in_u 64 (sh_rule_generation h) /\ in_u 64 (sh_boot_epoch h) /\
  length (sh_payload_digest h) = kDigestBytes.

Definition journal_header_ok (h : JournalHeader) : Prop :=
  jh_format_version h = kStoreFormatVersion /\ in_u 64 (jh_sequence h) /\ in_u 64 (jh_created_at h) /\
  in_u 64 (jh_store_generation h) /\ in_u 32 (jh_payload_len h) /\
  length (jh_payload_digest h) = kDigestBytes.

Lemma parse_serialize_header h rest :
  header_ok h -> parse_header (serialize_header h ++ rest) = inr h.
Proof.
  intros (E1 & E2 & E3 & E4 & E5 & E6 & H7 & H8 & H9 & H10 & H11 & H12 & Hd).
  pose proof fingerprints_fit as [F1 F2]. revert E5 E6 F1 F2. unfold parse_header.
  generalize catalog_fingerprint reason_table_fingerprint. intros cf rf E5 E6 F1 F2.
  pose proof (header_prefix_length h Hd) as Hl.
  pose proof (crc32c_range (header_prefix h)) as Hc.
  remember (serialize_header h ++ rest) as data eqn:Hdata.
  assert (data = header_prefix h ++ put_u32 (crc32c (header_prefix h)) ++ rest) as Ed.
  { rewrite Hdata. unfold serialize_header. by rewrite <- app_assoc. }
  assert (get_u32 data 108 = crc32c (header_prefix h)) as G0 by (rewrite Ed; by apply get_u32_at).
  assert (take 108 data = header_prefix h) as G1 by (rewrite Ed, <- Hl; apply take_app_length).
  assert ((length data <? kSnapshotHeaderSize)%nat = false) as G2.
  { rewrite Ed, !length_app, Hl, put_u32_length. unfold kSnapshotHeaderSize. lia. }
  unfold header_prefix in Ed. rewrite <- ?app_assoc in Ed.
  assert (get_u32 data 0 = kSnapshotMagic) as A0 by (rewrite Ed; at_u32).
  assert (get_u32 data 4 = sh_format_version h) as A1 by (rewrite Ed, E1; at_u32).
  assert (get_u32 data 8 = sh_header_size h) as A2 by (rewrite Ed, E2; at_u32).
  assert (get_u32 data 12 = sh_flags h) as A3 by (rewrite Ed, E3; at_u32).
  assert (get_u32 data 16 = sh_api_generation h) as A4 by (rewrite Ed, E4; at_u32).
  assert (get_u32 data 20 = sh_catalog_fingerprint h) as A5 by (rewrite Ed, E5; at_u32).
  assert (get_u32 data 24 = sh_reason_fingerprint h) as A6 by (rewrite Ed, E6; at_u32).
  assert (get_u64 data 28 = sh_payload_len h) as A7 by (rewrite Ed; at_u64).
  assert (get_u64 data 36 = sh_created_at h) as A8 by (rewrite Ed; at_u64).
  assert (get_u64 data 44 = sh_store_generation h) as A9 by (rewrite Ed; at_u64).
  assert (get_u64 data 52 = sh_registry_epoch h) as A10 by (rewrite Ed; at_u64).
  assert (get_u64 data 60 = sh_rule_generation h) as A11 by (rewrite Ed; at_u64).
  assert (get_u64 data 68 = sh_boot_epoch h) as A12 by (rewrite Ed; at_u64).
  assert (field data 76 kDigestBytes = sh_payload_digest h) as A13.
  { rewrite Ed. walk field_past. unfold put_digest. rewrite <- Hd. apply field_here. }
  change (kSnapshotHeaderSize - 4)%nat with 108%nat.
  rewrite G2, A0, G0, G1, A1, A2, A3, A4, A5, A6, A7, A8, A9, A10, A11, A12, A13.
  rewrite E1, E2, E3, E4, E5, E6, !Z.eqb_refl. cbn [negb]. f_equal. destruct h; simpl in *. congruence.
Qed.

Lemma journal_kind_from_num k : journal_kind_from (journal_kind_num k) = Some k.
Proof. by destruct k. Qed.

Lemma journal_kind_range k : in_u 16 (journal_kind_num k).
Proof. destruct k; unfold in_u; simpl; lia. Qed.

Lemma parse_serialize_journal_header h rest :
  journal_header_ok h -> parse_journal_header (serialize_journal_header h ++ rest) = inr h.
Proof.
  intros (E1 & H2 & H3 & H4 & H5 & Hd). pose proof (journal_prefix_length h Hd) as Hl.
  pose proof (crc32c_range (journal_prefix h)) as Hc. pose proof (journal_kind_range (jh_kind h)) as Hk.
  remember (serialize_journal_header h ++ rest) as data eqn:Hdata.
  assert (data = journal_prefix h ++ put_u32 (crc32c (journal_prefix h)) ++ rest) as Ed.
  { rewrite Hdata. unfold serialize_journal_header. by rewrite <- app_assoc. }
  assert (get_u32 data 68 = crc32c (journal_prefix h)) as G0 by (rewrite Ed; by apply get_u32_at).
  assert (take 68 data = journal_prefix h) as G1 by (rewrite Ed, <- Hl; apply take_app_length).
  unfold journal_prefix in Ed. rewrite <- ?app_assoc in Ed.
  assert (get_u32 data 0 = kJournalMagic) as A0 by (rewrite Ed; at_u32).
  assert (get_u16 data 4 = jh_format_version h) as A1 by (rewrite Ed, E1; at_u16).
  assert (get_u16 data 6 = journal_kind_num (jh_kind h)) as A2 by (rewrite Ed; at_u16).
  assert (get_u64 data 8 = jh_sequence h) as A3 by (rewrite Ed; at_u64).
  assert (get_u64 data 16 = jh_created_at h) as A4 by (rewrite Ed; at_u64).
  assert (get_u64 data 24 = jh_store_generation h) as A5 by (rewrite Ed; at_u64).
  assert (get_u32 data 32 = jh_payload_len h) as A6 by (rewrite Ed; at_u32).
  assert (field data 36 kDigestBytes = jh_payload_digest h) as A7.
  { rewrite Ed. walk field_past. unfold put_digest. rewrite <- Hd. apply field_here. }
  unfold parse_journal_header. change (kJournalHeaderSize - 4)%nat with 68%nat.
  rewrite A0, G0, G1, A1, A2, journal_kind_from_num, A3, A4, A5, A6, A7, E1, !Z.eqb_refl. cbn [negb].
  f_equal. destruct h; simpl in *. congruence.
Qed.

(** ** The snapshot file *)

Lemma snapshot_header_ok s now :
  state_wf s -> in_u 64 now -> in_u 64 (Z.of_nat (length (enc_state s))) ->
  header_ok (snapshot_header s (enc_state s) now).
Proof.
  intros Hs Hn Hl. unfold header_ok, snapshot_header.
  cbn [sh_format_version sh_header_size sh_flags sh_api_generation sh_catalog_fingerprint
       sh_reason_fingerprint sh_payload_len sh_created_at sh_store_generation sh_registry_epoch
       sh_rule_generation sh_boot_epoch sh_payload_digest].
  hnf in Hs. destruct_and? Hs.
  repeat (split; [first [reflexivity | assumption]|]). apply digest_of_length.
Qed.

Lemma footer_prefix_length payload n : length (footer_prefix payload n) = 24%nat.
Proof.
  unfold footer_prefix. by repeat rewrite length_app, ?put_u32_length, ?put_u64_length.
Qed.

Lemma snapshot_bytes_length s now :
  length (snapshot_bytes s now) = (kSnapshotHeaderSize + length (enc_state s) + kSnapshotFooterSize)%nat.
Proof.
  unfold snapshot_bytes. rewrite !length_app, serialize_header_length by apply digest_of_length.
  rewrite footer_prefix_length, !put_u32_length. unfold kSnapshotHeaderSize, kSnapshotFooterSize. lia.
Qed.

Lemma decode_state_enc s a b : state_wf s -> decode_state (enc_state s) a b = outcome_value s.
Proof.
  intros Hs. unfold decode_state. rewrite <- (app_nil_r (enc_state s)).
  destruct state_codec_spec as [H _]. by rewrite H.
Qed.

(** The footer behind any prefix. *)
Lemma footer_fields pre payload n data :
  in_u 64 (Z.of_nat (length payload)) ->
  data = pre ++ footer_prefix payload n ++ put_u32 (crc32c (footer_prefix payload n)) ++ put_u32 0 ->
  forall off, off = length pre ->
  get_u32 data off = kSnapshotFooterMagic /\
  field data off 24 = footer_prefix payload n /\
  get_u32 data (off + 24) = crc32c (footer_prefix payload n) /\
  get_u32 data (off + 28) = 0 /\
  get_u64 data (off + 4) = Z.of_nat (length payload) /\
  get_u32 data (off + 12) = crc32c payload.
Proof.
  intros Hp Ed off Hoff. pose proof (footer_prefix_length payload n) as Hf.
  pose proof (crc32c_range payload) as Hc. pose proof (crc32c_range (footer_prefix payload n)) as Hc'.
  assert (forall k, get_u32 data (off + k) = get_u32 (drop off data) k) as D32.
  { intros k. unfold get_u32, field. by rewrite drop_drop. }
  assert (forall k, get_u64 data (off + k) = get_u64 (drop off data) k) as D64.
  { intros k. unfold get_u64, field. by rewrite drop_drop. }
  assert (drop off data = footer_prefix payload n ++ put_u32 (crc32c (footer_prefix payload n)) ++ put_u32 0)
    as Er.
  { rewrite Ed, Hoff. apply drop_app_length. }
  rewrite <- (Nat.add_0_r off) at 1. rewrite !D32, D64, Er.
  assert (field data off 24 = footer_prefix payload n) as ->.
  { unfold field. rewrite Er, <- Hf. apply take_app_length. }
  split_and!; [| done | | | |].
  - unfold footer_prefix. rewrite <- app_assoc. at_u32.
  - rewrite <- Hf at 1. by apply get_u32_at.
  - rewrite app_assoc, <- (app_nil_r (put_u32 0)). apply get_u32_at; [|in_range].
    by rewrite length_app, Hf.
  - unfold footer_prefix. rewrite <- !app_assoc. at_u64.
  - unfold footer_prefix. rewrite <- !app_assoc. at_u32.
Qed.

Lemma open_snapshot_bytes s now :
  state_wf s -> in_u 64 now -> in_u 64 (Z.of_nat (length (enc_state s))) ->
  open_snapshot (snapshot_bytes s now) = outcome_value s.
Proof.
  intros Hs Hn Hlen. pose proof (snapshot_header_ok s now Hs Hn Hlen) as Hh.
  pose proof (snapshot_bytes_length s now) as Hl. remember (snapshot_bytes s now) as data eqn:Ed.
  unfold snapshot_bytes in Ed. set (h := snapshot_header s (enc_state s) now) in *.
  pose proof (serialize_header_length h (digest_of_length _)) as Hhl.
  assert (field data kSnapshotHeaderSize (length (enc_state s)) = enc_state s) as A0.
  { rewrite Ed. by apply field_at. }
  assert (parse_header data = inr h) as A1 by (rewrite Ed; by apply parse_serialize_header).
  rewrite app_assoc in Ed. destruct (footer_fields _ _ _ _ Hlen Ed _ eq_refl) as (B1 & B2 & B3 & B4 & B5 & B6).
  rewrite length_app, Hhl in B1, B2, B3, B4, B5, B6.
  unfold open_snapshot. rewrite A1.
  change (sh_payload_len h) with (Z.of_nat (length (enc_state s))).
  change (sh_payload_digest h) with (digest_of (enc_state s)).
  rewrite Nat2Z.id, A0, B1, B2, B3, B4, B5, B6, Hl, !Z.eqb_refl, bool_decide_true by done. cbn [negb].
  rewrite !Nat2Z.inj_add. case_if; [lia|]. case_if; [lia|]. case_if; [lia|].
  by apply decode_state_enc.
Qed.

(** ** Journal entries *)

Record Entry := mkEntry { en_header : JournalHeader; en_payload : list Z }.

Definition en_sequence (e : Entry) : Z := jh_sequence (en_header e).
Definition en_generation (e : Entry) : Z := jh_store_generation (en_header e).
Definition en_frame (e : Entry) : list Z := journal_frame (en_header e) (en_payload e).
Definition frames (es : list Entry) : list Z := mjoin (en_frame <$> es).

Record entry_ok (limits : StoreLimits) (e : Entry) : Prop := {
  eo_header : journal_header_ok (en_header e);
  eo_length : jh_payload_len (en_header e) = Z.of_nat (length (en_payload e));
  eo_digest : jh_payload_digest (en_header e) = digest_of (en_payload e);
  eo_bound : Z.of_nat (length (en_payload e)) <= max_journal_entry_bytes limits }.

Lemma frames_app es es' : frames (es ++ es') = frames es ++ frames es'.
Proof. unfold frames. by rewrite fmap_app, join_app. Qed.

Lemma frames_cons e es : frames (e :: es) = en_frame e ++ frames es.
Proof. done. Qed.

Lemma frames_snoc es e : frames (es ++ [e]) = frames es ++ en_frame e.
Proof. rewrite frames_app. unfold frames at 2. simpl. by rewrite app_nil_r. Qed.

Section scan.
Context (limits : StoreLimits).

Lemma frame_length e :
  entry_ok limits e ->
  length (en_frame e) = (kJournalHeaderSize + length (en_payload e) + kJournalTrailerSize)%nat.
Proof.
  intros [H1 H2 H3 H4]. unfold en_frame, journal_frame.
  rewrite !length_app, serialize_journal_header_length, !put_u32_length by apply H1.
  unfold kJournalTrailerSize. lia.
Qed.

(** What one iteration of the scan does with a whole frame. *)
Lemma scan_frame fuel e rest pos pq pg s :
  entry_ok limits e ->
  scan_loop (S fuel) limits (en_frame e ++ rest) pos pq pg s =
  let s := scan_seen s in
  let pos := (pos + length (en_frame e))%nat in
  if (en_sequence e <=? pq) && (sc_entries_valid s >? 0)
  then scan_loop fuel limits rest pos pq pg (scan_note ProtocolSequenceViolation s)
  else if en_generation e <? pg
  then scan_loop fuel limits rest pos pq pg (scan_note StoreGenerationReplay s)
  else scan_loop fuel limits rest pos (en_sequence e) (en_generation e)
         (scan_apply (en_header e) (en_payload e) pos s).
Proof.
  intros He. pose proof (frame_length e He) as Hl. destruct He as [H1 H2 H3 H4].
  set (data := en_frame e ++ rest). pose proof (serialize_journal_header_length (en_header e)) as Hh.
  rewrite H3 in Hh. specialize (Hh (digest_of_length _)).
  assert (data = serialize_journal_header (en_header e) ++ en_payload e ++
            put_u32 (crc32c (en_payload e)) ++ put_u32 0 ++ rest) as Ed.
  { unfold data, en_frame, journal_frame. by rewrite <- !app_assoc. }
  assert (drop (length (en_frame e)) data = rest) as Edrop by apply drop_app_length.
  assert (length data = (length (en_frame e) + length rest)%nat) as Elen by apply length_app.
  assert (field data kJournalHeaderSize (length (en_payload e)) = en_payload e) as A0.
  { rewrite Ed. by apply field_at. }
  assert (get_u32 data (kJournalHeaderSize + length (en_payload e)) = crc32c (en_payload e)) as A1.
  { rewrite Ed, (app_assoc (serialize_journal_header _)). apply get_u32_at; [|apply crc32c_range].
    by rewrite length_app, Hh. }
  assert (parse_journal_header data = inr (en_header e)) as A2.
  { rewrite Ed. by apply parse_serialize_journal_header. }
  clearbody data. cbn [scan_loop]. rewrite A2, H2, Nat2Z.id, A0, A1, H3, Z.eqb_refl, <- Hl, Edrop, Elen.
  rewrite bool_decide_true by done. unfold kJournalHeaderSize, kJournalTrailerSize in *. cbn [negb].
  case_if; [lia|]. case_if; [lia|]. case_if; [lia|]. case_if; [lia|]. done.
Qed.

Lemma scan_nil fuel pos pq pg s : scan_loop fuel limits [] pos pq pg s = s.
Proof. by destruct fuel. Qed.

(** A frame cut short ends the scan and is reported as a torn tail. *)
Lemma scan_torn_frame fuel e n pos pq pg s :
  entry_ok limits e -> (0 < n < length (en_frame e))%nat ->
  exists s', (s' = s \/ s' = scan_seen s) /\
    scan_loop (S fuel) limits (take n (en_frame e)) pos pq pg s = scan_torn n s'.
Proof.
  intros He Hn. pose proof (frame_length e He) as Hl. destruct He as [H1 H2 H3 H4].
  pose proof (serialize_journal_header_length (en_header e)) as Hh.
  rewrite H3 in Hh. specialize (Hh (digest_of_length _)).
  assert (length (take n (en_frame e)) = n) as Elen by (rewrite length_take; lia).
  cbn [scan_loop]. rewrite Elen. case_if; [lia|]. case_if; [exists s; by auto|].
  assert (parse_journal_header (take n (en_frame e)) = inr (en_header e)) as ->.
  { unfold en_frame, journal_frame. rewrite take_app_ge by (rewrite Hh; lia).
    by apply parse_serialize_journal_header. }
  exists (scan_seen s). split; [by auto|]. rewrite H2, Nat2Z.id, <- Hl.
  case_if; [lia|]. case_if; [done|lia].
Qed.
End scan.
