(* ===== verification/TypedThms.v ===== *)
(** * The registry keeps its types

    Every value of the registry's persisted state is a value of its C++ type and
    passes the checks of the canonical format: 64-bit scalars, valid names and versions,
    identifiers that are digests of their content, features and limits allowed
    for the kind.  Each operation keeps this when its request does, so what a
    registry is asked to persist can be read back, up to the bounds on the
    number of entries. *)

From Stdlib Require Import ZArith Lia String ZifyBool Sorted Permutation.
From stdpp Require Import base tactics list strings.
From S2P Require Import Prelude OrdMap Checked Reason Text Name SemVer Hash Catalog Evidence State.
From S2P Require Import Codec CodecTypes CodecThms Compat Registry RegistryOps RegistryInv Derivation RegistryThms RecoveryThms.
From S2P Require Import Persist PersistFormat.

#[local] Open Scope Z_scope.
#[local] Open Scope list_scope.

#[local] Opaque digest_of.

(** ** Types of the parts *)

(** The format's checks of a conflict, a resolution, a device entry and a policy,
    without the bounds on their lists. *)
Definition conflict_typed (g : ConflictGroup) : Prop :=
  digest_wf (cg_id g) /\ device_ref_wf (cg_device g) /\ Forall digest_wf (cg_members g) /\
  Forall (in_u 64) (cg_generations g) /\ length (cg_generations g) = length (cg_members g) /\
  in_u 64 (cg_observed_first g) /\ in_u 64 (cg_observed_last g).

Definition resolution_typed (r : ConflictResolution) : Prop :=
  digest_wf (cr_id r) /\ digest_wf (cr_conflict r) /\ digest_wf (cr_chosen r) /\
  Forall digest_wf (cr_rejected_members r) /\ name_ok (cr_resolver r) /\
  in_u 64 (cr_resolved_at r) /\ in_u 64 (cr_epoch r).

Definition entry_typed (e : DeviceIncarnationEntry) : Prop :=
  device_identity_wf (ie_device e) /\ in_u 64 (ie_current e) /\ Forall (in_u 64) (ie_history e).

Definition policy_typed (p : RegistryPolicy) : Prop :=
  Forall source_policy_wf (rp_sources p) /\ in_u 64 (rp_retention_horizon p) /\
  in_u 64 (rp_max_future_skew p) /\ in_u 64 (rp_default_max_age p) /\
  registry_limits_wf (rp_limits p) /\ in_u 64 (rp_rule_generation p) /\
  (String.length (rp_policy_name p) <= 128)%nat /\ NoDup (map sp_id (rp_sources p)).

Definition stream_typed (st : Stream) : Prop := Forall stored_wf (stream_records st).
Definition group_typed (g : GroupState) : Prop :=
  om_all (fun source st => name_ok source /\ stream_typed st) (gs_streams g) /\
  om_all (fun source t => name_ok source /\ retirement_wf t) (gs_tombstones g).
Definition groups_typed (g : Groups) : Prop :=
  om_all (fun device kinds => device_ref_wf device /\ om_all (fun _ group => group_typed group) kinds) g.

Definition scalars_typed (x : Impl) : Prop :=
  in_u 64 (i_epoch x) /\ in_u 64 (i_rule_generation x) /\ in_u 64 (i_policy_revision x) /\
  in_u 64 (i_boot_epoch x) /\ in_u 64 (i_store_generation x) /\ in_u 64 (i_logical_tick x) /\
  in_u 64 (i_next_incarnation x).

Record typed (x : Impl) : Prop := mkTyped {
  ty_policy : policy_typed (i_policy x);
  ty_scalars : scalars_typed x;
  ty_devices : om_all (fun _ e => entry_typed e) (i_incarnations x);
  ty_groups : groups_typed (i_groups x);
  ty_conflicts : Forall conflict_typed (i_conflicts x);
  ty_resolutions : Forall resolution_typed (i_resolutions x);
  ty_evictions : Forall eviction_wf (i_evictions x);
  ty_counters : counters_wf (i_counters x) }.

(** ** Lists *)

Lemma Forall_sort {A K} `{CmpLaws K} (key : A -> K) (P : A -> Prop) l : Forall P l -> Forall P (sort_by key l).
Proof. intros Hl. by rewrite sort_by_perm. Qed.
Lemma Forall_insert_by {A K} `{CmpLaws K} (key : A -> K) (P : A -> Prop) v l :
  P v -> Forall P l -> Forall P (insert_by key v l).
Proof. intros Hv Hl. rewrite insert_by_perm. by constructor. Qed.
Lemma Forall_erase_first {A} (P : A -> Prop) p l : Forall P l -> Forall P (erase_first p l).
Proof. induction 1 as [|a l Ha Hl IH]; cbn; [done|]. case_match; [done|by constructor]. Qed.
Lemma Forall_replace_first {A} (P : A -> Prop) p v l : P v -> Forall P l -> Forall P (replace_first p v l).
Proof. intros Hv. induction 1 as [|a l Ha Hl IH]; cbn; [done|]. case_match; by constructor. Qed.
Lemma Forall_update_last {A} (P : A -> Prop) p f l : (forall a, P a -> P (f a)) -> Forall P l -> Forall P (update_last p f l).
Proof.
  intros Hf. induction 1 as [|a l Ha Hl IH]; cbn; [done|]. case_match; constructor; auto.
Qed.
Lemma Forall_tail {A} (P : A -> Prop) l : Forall P l -> Forall P (tail l).
Proof. by destruct 1. Qed.
Lemma Forall_filter_list {A} (P : A -> Prop) p l : Forall P l -> Forall P (List.filter p l).
Proof. induction 1 as [|a l Ha Hl IH]; cbn; [done|]. destruct (p a); [by constructor|done]. Qed.
Lemma Forall_concat_map {A B} (P : B -> Prop) (Q : A -> Prop) (f : A -> list B) l :
  (forall a, Q a -> Forall P (f a)) -> Forall Q l -> Forall P (concat (map f l)).
Proof. intros Hf. induction 1; cbn; [done|]. apply Forall_app; auto. Qed.

Create HintDb typed discriminated.
#[export] Hint Resolve Forall_sort Forall_insert_by Forall_erase_first Forall_replace_first Forall_tail
  Forall_filter_list : typed.

(** ** Containers *)

Lemma lookup_group_typed g device kind group :
  groups_typed g -> lookup_group g device kind = Some group -> device_ref_wf device /\ group_typed group.
Proof.
  unfold lookup_group. intros Hg E. destruct (om_find device g) as [kinds|] eqn:Ek; [|done].
  destruct (om_all_find _ _ _ _ Hg Ek) as [Hd Hk]. split; [done|]. by apply (om_all_find _ _ _ _ Hk E).
Qed.

Lemma lookup_stream_typed g key st :
  groups_typed g -> lookup_stream g key = Some st -> name_ok (ek_source key) /\ stream_typed st.
Proof.
  unfold lookup_stream. intros Hg E. destruct (lookup_group g _ _) as [group|] eqn:Eg; [|done].
  destruct (lookup_group_typed _ _ _ _ Hg Eg) as [_ [Hs _]]. by apply (om_all_find _ _ _ _ Hs E).
Qed.

Lemma empty_group_typed : group_typed empty_group.
Proof. split; constructor. Qed.

Lemma group_or_empty_typed g device kind : groups_typed g -> group_typed (group_or_empty g device kind).
Proof.
  intros Hg. unfold group_or_empty. destruct (lookup_group g device kind) eqn:E; [|apply empty_group_typed].
  by eapply lookup_group_typed.
Qed.

Lemma put_group_typed g device kind group :
  groups_typed g -> device_ref_wf device -> group_typed group -> groups_typed (put_group g device kind group).
Proof.
  intros Hg Hd Hgr. apply om_set_all; [done|]. split; [done|]. apply om_set_all; [|done].
  destruct (om_find device g) as [kinds|] eqn:E; [|constructor]. by apply (om_all_find _ _ _ _ Hg E).
Qed.

Lemma put_stream_typed g key st :
  groups_typed g -> evidence_key_wf key -> stream_typed st -> groups_typed (put_stream g key st).
Proof.
  intros Hg (Hd & _ & Hs) Hst. destruct (group_or_empty_typed g (ek_device key) (ek_kind key) Hg) as [H1 H2].
  apply put_group_typed; [done|done|]. split; [|done]. by apply om_set_all.
Qed.

Lemma put_tombstone_typed g key t :
  groups_typed g -> evidence_key_wf key -> retirement_wf t -> groups_typed (put_tombstone g key t).
Proof.
  intros Hg (Hd & _ & Hs) Ht. destruct (group_or_empty_typed g (ek_device key) (ek_kind key) Hg) as [H1 H2].
  apply put_group_typed; [done|done|]. split; [done|]. by apply om_set_all.
Qed.

(** Every record is filed under a key of the format, and so is every tombstone. *)
Lemma all_records_typed g :
  groups_typed g -> Forall (fun '(key, st, r) => evidence_key_wf key /\ stored_wf r) (all_records g).
Proof.
  intros Hg. eapply Forall_concat_map; [|exact Hg]. intros [device kinds] [Hd Hk].
  eapply Forall_concat_map; [|exact Hk]. intros [kind group] [Hs _].
  eapply Forall_concat_map; [|exact Hs]. intros [source st] [Hn Hst].
  apply Forall_map. eapply Forall_impl; [exact Hst|]. intros r Hr. split; [|exact Hr]. split; [exact Hd|]. by split.
Qed.

Lemma all_tombstones_typed g :
  groups_typed g -> Forall (fun '(key, t) => evidence_key_wf key /\ retirement_wf t) (all_tombstones g).
Proof.
  intros Hg. eapply Forall_concat_map; [|exact Hg]. intros [device kinds] [Hd Hk].
  eapply Forall_concat_map; [|exact Hk]. intros [kind group] [_ Ht].
  apply Forall_map. eapply Forall_impl; [exact Ht|]. intros [source t] [Hn Hr]. split; [|exact Hr]. split; [exact Hd|]. by split.
Qed.

Lemma stored_id_wf r : stored_wf r -> digest_wf (stored_id r).
Proof.
  intros [He _]. unfold stored_id, evidence_id. hnf in He. destruct_and? He.
  match goal with E : ce_id_cache _ = _ |- _ => rewrite E end. apply digest_of_wf.
Qed.
Lemma stored_generation_wf r : stored_wf r -> in_u 64 (stored_generation r).
Proof. intros [He _]. hnf in He. by destruct_and? He. Qed.
Lemma stored_observed_wf r : stored_wf r -> in_u 64 (ce_observed_at (se_evidence r)).
Proof. intros [He _]. hnf in He. by destruct_and? He. Qed.

#[export] Hint Resolve lookup_stream_typed put_group_typed put_stream_typed put_tombstone_typed
  stored_id_wf stored_generation_wf stored_observed_wf : typed.

(** ** Setting a part of the state *)

Lemma typed_groups g x : typed x -> groups_typed g -> typed (set_i_groups g x).
Proof. by intros [] ?. Qed.
Lemma typed_total n x : typed x -> typed (set_i_total_records n x).
Proof. by intros []. Qed.
Lemma typed_conflicts l x : typed x -> Forall conflict_typed l -> typed (set_i_conflicts l x).
Proof. by intros [] ?. Qed.
Lemma typed_resolutions l x : typed x -> Forall resolution_typed l -> typed (set_i_resolutions l x).
Proof. by intros [] ?. Qed.
Lemma typed_evictions l x : typed x -> Forall eviction_wf l -> typed (set_i_evictions l x).
Proof. by intros [] ?. Qed.
Lemma typed_incarnations m x : typed x -> om_all (fun _ e => entry_typed e) m -> typed (set_i_incarnations m x).
Proof. by intros [] ?. Qed.
Lemma typed_policy p x : typed x -> policy_typed p -> typed (set_i_policy p x).
Proof. by intros [] ?. Qed.
Lemma typed_decisions m x : typed x -> typed (set_i_decisions m x).
Proof. by intros []. Qed.
Lemma typed_decision_order l x : typed x -> typed (set_i_decision_order l x).
Proof. by intros []. Qed.
Lemma typed_next n x : typed x -> in_u 64 n -> typed (set_i_next_incarnation n x).
Proof. intros [] Hn. constructor; try done. unfold scalars_typed in *. cbn. tauto. Qed.
Lemma typed_tick n x : typed x -> in_u 64 n -> typed (set_i_logical_tick n x).
Proof. intros [] Hn. constructor; try done. unfold scalars_typed in *. cbn. tauto. Qed.
Lemma typed_rule n x : typed x -> in_u 64 n -> typed (set_i_rule_generation n x).
Proof. intros [] Hn. constructor; try done. unfold scalars_typed in *. cbn. tauto. Qed.
Lemma typed_boot n x : typed x -> in_u 64 n -> typed (set_i_boot_epoch n x).
Proof. intros [] Hn. constructor; try done. unfold scalars_typed in *. cbn. tauto. Qed.

Lemma u64_in n : in_u 64 (u64 n).
Proof. by apply wrap_bound. Qed.

Lemma typed_bump x : typed x -> typed (bump_policy_revision x).
Proof.
  intros []. pose proof (u64_in (i_epoch x + 1)). pose proof (u64_in (i_policy_revision x + 1)).
  constructor; try done. unfold scalars_typed in *. cbn. tauto.
Qed.

(** A counter increment wraps. *)
Class Increment (f : RegistryCounters -> RegistryCounters) : Prop :=
  increment_wf : forall c, counters_wf c -> counters_wf (f c).
Ltac increments := intros c Hc; hnf in Hc |- *; destruct_and? Hc; cbn; split_and!; first [assumption | apply u64_in].
#[export] Instance inc_accepted : Increment inc_c_admissions_accepted. Proof. increments. Qed.
#[export] Instance inc_idempotent : Increment inc_c_admissions_idempotent. Proof. increments. Qed.
#[export] Instance inc_rejected : Increment inc_c_admissions_rejected. Proof. increments. Qed.
#[export] Instance inc_retired : Increment inc_c_retirements_accepted. Proof. increments. Qed.
#[export] Instance inc_not_retired : Increment inc_c_retirements_rejected. Proof. increments. Qed.
#[export] Instance inc_emitted : Increment inc_c_decisions_emitted. Proof. increments. Qed.
#[export] Instance inc_evicted : Increment inc_c_decisions_evicted. Proof. increments. Qed.
#[export] Instance inc_resolved : Increment inc_c_conflicts_resolved. Proof. increments. Qed.
#[export] Instance inc_evictions : Increment inc_c_evictions_total. Proof. increments. Qed.
#[export] Instance inc_ledger : Increment inc_c_eviction_ledger_dropped. Proof. increments. Qed.
#[export] Instance inc_conflicts : Increment inc_c_conflicts_dropped. Proof. increments. Qed.
#[export] Instance inc_resolutions : Increment inc_c_resolutions_dropped. Proof. increments. Qed.
#[export] Instance inc_tombstones : Increment inc_c_tombstones_dropped. Proof. increments. Qed.

Lemma typed_count f x : Increment f -> typed x -> typed (count f x).
Proof. intros Hf []. constructor; try done. by apply Hf. Qed.

#[export] Hint Resolve typed_groups typed_total typed_conflicts typed_resolutions typed_evictions
  typed_incarnations typed_policy typed_decisions typed_decision_order typed_next typed_tick typed_rule
  typed_boot typed_bump typed_count u64_in : typed.

(** ** Conflicts *)

Lemma derive_live_typed x device kind now age :
  typed x -> Forall stored_wf (dv_live (derive x device kind now age)) /\
  opt_wf digest_wf (dv_conflict (derive x device kind now age)).
Proof.
  intros Hx. unfold derive. destruct (lookup_group _ _ _) as [group|] eqn:E; [|by split].
  destruct (lookup_group_typed _ _ _ _ (ty_groups _ Hx) E) as [_ [Hs _]]. cbn [dv_live dv_conflict]. split.
  - apply Forall_sort. rewrite Forall_map. apply Forall_filter_list. rewrite Forall_map.
    eapply Forall_concat_map; [|exact Hs]. intros [source st] [_ Hst]. unfold stream_facts.
    rewrite Forall_map. eapply Forall_impl; [exact Hst|]. intros r Hr.
    destruct (classify _ _ _ _ _ _ _) as [s c]. unfold demote. by case_match.
  - case_match; [|done]. intros id [= <-]. apply digest_of_wf.
Qed.

Lemma fold_tick_typed (better : Z -> Z -> bool) l from :
  in_u 64 from -> Forall (in_u 64) l -> in_u 64 (fold_left (fun m t => if better t m then t else m) l from).
Proof.
  intros Hf Hl. revert from Hf. induction Hl as [|t l Ht Hl IH]; intros from Hf; [done|]. cbn. apply IH. by case_match.
Qed.

Lemma observed_ticks_typed l : Forall stored_wf l -> Forall (in_u 64) (observed_ticks l).
Proof. intros H. apply Forall_map. eapply Forall_impl; [exact H|]. apply stored_observed_wf. Qed.

Lemma conflict_of_typed x device kind now age :
  typed x -> device_ref_wf device -> conflict_typed (conflict_of device kind (derive x device kind now age)).
Proof.
  intros Hx Hd. destruct (derive_live_typed x device kind now age Hx) as [Hl Hc].
  set (d := derive _ _ _ _ _) in *. pose proof (observed_ticks_typed _ Hl) as Ht.
  assert (in_u 64 (match observed_ticks (dv_live d) with t :: _ => t | [] => 0 end)) as Hf.
  { destruct Ht; [by vm_compute|done]. }
  unfold conflict_of. split_and!; cbn.
  - destruct (dv_conflict d); [by apply Hc|]. split; [done|]. by apply bytes_check.
  - done.
  - apply Forall_sort, Forall_map. eapply Forall_impl; [exact Hl|]. apply stored_id_wf.
  - apply Forall_map. eapply Forall_impl; [exact Hl|]. apply stored_generation_wf.
  - by rewrite sort_by_length, !length_map.
  - by apply (fold_tick_typed (fun t m => t <? m)).
  - by apply (fold_tick_typed (fun t m => t >? m)).
Qed.

Lemma refresh_conflict_typed device kind now x :
  typed x -> device_ref_wf device -> typed (refresh_conflict device kind now x).
Proof.
  intros Hx Hd. pose proof (conflict_of_typed x device kind now 0 Hx Hd) as Hg.
  pose proof (ty_conflicts _ Hx) as Hc. unfold refresh_conflict.
  destruct (negb _); [auto with typed|]. destruct (find_conflict x device kind).
  - apply typed_conflicts; [done|]. case_match; [|apply Forall_sort]; by apply Forall_replace_first.
  - case_match; [by apply typed_count; [apply _|]|]. apply typed_conflicts; [done|].
    apply Forall_sort, Forall_app; auto.
Qed.

Lemma refresh_all_typed now x : typed x -> typed (refresh_all_conflicts now x).
Proof.
  intros Hx. unfold refresh_all_conflicts.
  assert (Forall (fun p => device_ref_wf (fst p)) (group_pairs (i_groups x))) as Hp.
  { eapply Forall_concat_map; [|exact (ty_groups _ Hx)]. intros [device kinds] [Hd _].
    apply Forall_map, Forall_forall. by intros [kind group] _. }
  assert (typed (set_i_conflicts [] x)) as Hy by by apply typed_conflicts.
  generalize dependent (set_i_conflicts [] x). clear Hx.
  induction Hp as [|[device kind] l Hd Hl IH]; intros y Hy; [done|]. cbn. by apply IH, refresh_conflict_typed.
Qed.
#[export] Hint Resolve refresh_conflict_typed refresh_all_typed : typed.

(** ** Eviction *)

Lemma push_eviction_typed e x : typed x -> eviction_wf e -> typed (push_eviction e x).
Proof.
  intros Hx He. unfold push_eviction. assert (typed (count inc_c_evictions_total x)) as Hy by (apply typed_count; [apply _|done]).
  set (y := count _ x) in *. cbv zeta.
  assert (forall z, typed z -> typed (set_i_evictions (i_evictions z ++ [e]) z)) as Hend.
  { intros z Hz. apply typed_evictions; [done|]. apply Forall_app. split; [apply Hz|by constructor]. }
  case_match; apply Hend; [|done]. apply typed_count; [apply _|]. apply typed_evictions; [done|].
  apply Forall_tail, Hy.
Qed.

Lemma apply_eviction_typed c now x y id :
  typed x -> evidence_key_wf (ec_key c) -> in_u 64 now -> apply_eviction c now x = Some (y, id) -> typed y.
Proof.
  intros Hx Hk Hn. unfold apply_eviction. destruct (find_stream x (ec_key c)) as [st|] eqn:Es; [|done].
  destruct (lookup_stream_typed _ _ _ (ty_groups _ Hx) Es) as [_ Hst].
  destruct (find _ _) as [r|] eqn:Ef; [|done]. intros [= <- _].
  assert (stored_wf r) as Hr.
  { apply List.find_some in Ef as [Hin _]. unfold stream_typed in Hst. rewrite Forall_forall in Hst.
    by apply Hst, list_elem_of_In. }
  unfold drop_record. set (e := mkEviction _ _ _ _ _ _).
  assert (typed (push_eviction e x)) as Hy.
  { apply push_eviction_typed; [done|]. split; [by apply stored_id_wf|]. split; [done|].
    split; [by apply stored_generation_wf|]. by split_and!. }
  assert (forall g z, typed z -> groups_typed g ->
    typed (if i_total_records (set_i_groups g z) >? 0
           then set_i_total_records (i_total_records (set_i_groups g z) - 1) (set_i_groups g z)
           else set_i_groups g z)) as Hend by (intros; case_match; auto with typed).
  apply Hend; [done|]. apply put_stream_typed; [apply Hy|done|]. by apply Forall_erase_first.
Qed.

Lemma pick_candidate_typed x restrict keep now c :
  typed x -> pick_eviction_candidate x restrict keep now = Some c -> evidence_key_wf (ec_key c).
Proof.
  intros Hx. unfold pick_eviction_candidate. pose proof (all_records_typed _ (ty_groups _ Hx)) as Hr.
  assert (forall o, opt_wf (fun c => evidence_key_wf (ec_key c)) o ->
    opt_wf (fun c => evidence_key_wf (ec_key c)) (fold_left (pick_step x restrict keep now) (all_records (i_groups x)) o)) as H.
  { induction Hr as [|[[key st] r] l [Hk _] Hl IH]; intros o Ho; [done|]. cbn [fold_left]. apply IH.
    unfold pick_step. cbv zeta. destruct (match restrict with Some _ => _ | None => _ end); [done|].
    destruct (bool_decide _); [done|]. destruct (negb _); [done|]. destruct (better _ _ _); [|done].
    intros c' [= <-]. exact Hk. }
  intros E. apply (H None); [by intros ? [=]|exact E].
Qed.

Lemma enforce_global_typed fuel keep now : in_u 64 now -> forall x acc,
  typed x -> typed (snd (fst (enforce_global fuel keep now x acc))).
Proof.
  intros Hn. induction fuel as [|fuel IH]; intros x acc Hx; cbn [enforce_global]; (case_match; [done|]); [done|].
  destruct (pick_eviction_candidate _ _ _ _) as [c|] eqn:Ep; [|done].
  destruct (apply_eviction c now x) as [[y id]|] eqn:Ea; [|done].
  apply IH. eapply apply_eviction_typed; [exact Hx| |exact Hn|exact Ea]. by eapply pick_candidate_typed.
Qed.

Lemma enforce_stream_typed fuel key keep now : in_u 64 now -> forall x acc,
  typed x -> typed (snd (fst (enforce_stream fuel key keep now x acc))).
Proof.
  intros Hn. induction fuel as [|fuel IH]; intros x acc Hx; cbn [enforce_stream];
    (destruct (find_stream x key); [|done]); (case_match; [done|]); [done|].
  destruct (pick_eviction_candidate _ _ _ _) as [c|] eqn:Ep; [|done].
  destruct (apply_eviction c now x) as [[y id]|] eqn:Ea; [|done].
  apply IH. eapply apply_eviction_typed; [exact Hx| |exact Hn|exact Ea]. by eapply pick_candidate_typed.
Qed.

Lemma enforce_budget_typed key keep now x :
  in_u 64 now -> typed x -> typed (snd (fst (enforce_budget key keep now x))).
Proof.
  intros Hn Hx. unfold enforce_budget. pose proof (enforce_global_typed (budget_fuel x) keep now Hn x [] Hx) as Hy.
  destruct (enforce_global _ _ _ _ _) as [[[|] y] ids]; [|done]. by apply enforce_stream_typed.
Qed.

(** ** Admission *)

(** The loops over the asserted sets accept only what the kind allows. *)
Lemma feature_set_allowed set kind :
  feature_set_valid set kind = Ok_ -> forallb (fun c => feature_allowed_for c kind) set = true.
Proof.
  unfold feature_set_valid. do 2 (case_if; [done|]).
  match goal with |- ?f set = _ -> _ => set (loop := f) end.
  enough (forall l, loop l = Ok_ -> forallb (fun c => feature_allowed_for c kind) l = true) as Hl by apply Hl.
  induction l as [|c l IH]; [done|]. cbn -[feature_info feature_allowed_for]. destruct (feature_info c); [|done].
  destruct (feature_allowed_for c kind); [exact IH|done].
Qed.

Lemma limit_check_allowed kind v : limit_check kind v = Ok_ -> limit_allowed_for (lv_code v) kind = true.
Proof. unfold limit_check. destruct (limit_info _); [|done]. by destruct (limit_allowed_for _ _). Qed.

Lemma limit_set_allowed set kind :
  limit_set_valid set kind = Ok_ -> forallb (fun v => limit_allowed_for (lv_code v) kind) set = true.
Proof.
  unfold limit_set_valid. do 2 (case_if; [done|]).
  match goal with |- ?f set = _ -> _ => set (loop := f) end.
  enough (forall l, loop l = Ok_ -> forallb (fun v => limit_allowed_for (lv_code v) kind) l = true) as Hl by apply Hl.
  induction l as [|v l IH]; [done|]. cbn -[limit_check limit_allowed_for]. destruct (limit_check kind v) eqn:E; try done.
  rewrite (limit_check_allowed _ _ E). exact IH.
Qed.

Lemma admit_content_allowed q x :
  admit_content q x = None ->
  forallb (fun c => feature_allowed_for c (aq_kind q)) (aq_features q) = true /\
  forallb (fun v => limit_allowed_for (lv_code v) (aq_kind q)) (aq_limits q) = true.
Proof.
  unfold admit_content. destruct (_ || _); [done|].
  destruct (feature_set_valid _ _) eqn:Ef; try done. destruct (limit_set_valid _ _) eqn:El; try done. intros _.
  split; [by apply feature_set_allowed|by apply limit_set_allowed].
Qed.

Lemma admission_key_wf q : admission_wf q -> evidence_key_wf (admission_key q).
Proof. intros (Hd & _ & [Hs _] & _). by split. Qed.

(** The record an admission files is one the format can carry. *)
Lemma admission_evidence_wf q x :
  scalars_typed x -> admission_wf q -> admit_content q x = None -> evidence_wf (admission_evidence q x).
Proof.
  intros Hx Hq [Hf Hl]%admit_content_allowed. pose proof (admission_key_wf q Hq) as Hk.
  hnf in Hx, Hq. destruct_and? Hx. destruct_and? Hq.
  unfold admission_evidence, refresh_id, with_id_cache. hnf.
  repeat match goal with |- _ /\ _ => split end; first [assumption|exact I|reflexivity].
Qed.

Lemma entry_lookup_typed x device entry :
  typed x -> find_device x device = Some entry -> entry_typed entry.
Proof. intros Hx E. exact (om_all_find _ _ _ _ (ty_devices _ Hx) E). Qed.

Lemma put_entry_typed x device entry :
  typed x -> entry_typed entry -> typed (set_i_incarnations (om_set device entry (i_incarnations x)) x).
Proof. intros Hx He. apply typed_incarnations; [done|]. apply (om_set_all (fun _ e => entry_typed e)); [apply Hx|exact He]. Qed.

Lemma raise_next_typed n x : typed x -> typed (raise_next_incarnation n x).
Proof. intros Hx. unfold raise_next_incarnation. case_match; auto with typed. Qed.

Lemma push_history_typed n l : in_u 64 n -> Forall (in_u 64) l -> Forall (in_u 64) (push_history n l).
Proof. intros Hn Hl. apply Forall_sort, Forall_app; auto. Qed.

#[export] Hint Resolve put_entry_typed raise_next_typed push_history_typed : typed.

Lemma register_device_typed device x y :
  typed x -> device_ref_wf device -> register_device device x = inr y -> typed y.
Proof.
  intros Hx (Hd & Hi & _). unfold register_device. destruct (find_device x _) as [entry|] eqn:E.
  - destruct (entry_lookup_typed _ _ _ Hx E) as (H1 & H2 & H3).
    case_match; [intros [= <-]; by apply raise_next_typed|]. case_match; [done|]. intros [= <-].
    apply raise_next_typed, put_entry_typed; [done|]. split; [done|]. split; [done|]. by apply push_history_typed.
  - case_match; [done|]. intros [= <-]. apply raise_next_typed, put_entry_typed; [done|].
    split; [done|]. split; [done|]. by constructor.
Qed.

Lemma stream_put_typed key x records n :
  typed x -> evidence_key_wf key -> Forall stored_wf records -> typed (set_stream key (mkStream records n) x).
Proof. intros Hx Hk Hr. apply typed_groups; [done|]. apply put_stream_typed; [apply Hx|done|done]. Qed.

Lemma ensure_stream_typed key x :
  typed x -> evidence_key_wf key ->
  stream_typed (fst (ensure_stream key x)) /\ typed (snd (ensure_stream key x)).
Proof.
  intros Hx Hk. unfold ensure_stream. destruct (find_stream x key) as [s|] eqn:E.
  - split; [|done]. by apply (lookup_stream_typed _ _ _ (ty_groups _ Hx) E).
  - split; [by apply List.Forall_nil|]. apply stream_put_typed; [done|done|by apply List.Forall_nil].
Qed.

Lemma admit_refused_typed key e stream reason now x :
  typed x -> evidence_key_wf key -> evidence_wf e -> in_u 64 now -> stream_typed stream ->
  typed (snd (admit_refused key e stream reason now x)).
Proof.
  intros Hx Hk He Hn Hs. unfold admit_refused. cbn [snd].
  assert (typed (count inc_c_admissions_rejected x)) as Hy by (apply typed_count; [apply _|done]).
  case_match; [|done]. apply refresh_conflict_typed; [|apply Hk]. apply typed_total, stream_put_typed; [done|done|].
  apply Forall_insert_by; [|done]. split; [done|]. by split_and!.
Qed.

Lemma prune_group_typed g device kind : groups_typed g -> groups_typed (prune_group g device kind).
Proof.
  intros Hg. unfold prune_group. destruct (om_find device g) as [kinds|] eqn:E; [|done].
  destruct (om_all_find _ _ _ _ Hg E) as [Hd Hk]. pose proof (om_erase_all _ kind _ Hk) as He.
  destruct (om_erase kind kinds); [by apply om_erase_all|]. by apply om_set_all.
Qed.

Lemma admit_rollback_typed key id x : typed x -> evidence_key_wf key -> typed (admit_rollback key id x).
Proof.
  intros Hx Hk. pose proof Hk as (Hd & _ & Hsrc). unfold admit_rollback.
  destruct (find_group x key) as [group|] eqn:Eg; [|done].
  destruct (lookup_group_typed _ _ _ _ (ty_groups _ Hx) Eg) as [_ [Hs Ht]].
  set (stream := match om_find (ek_source key) (gs_streams group) with Some s => s | None => empty_stream end).
  assert (stream_typed stream) as Hst.
  { subst stream. destruct (om_find _ _) as [s|] eqn:E; [|by apply List.Forall_nil].
    by apply (om_all_find _ _ _ _ Hs E). }
  assert (Forall stored_wf (erase_first (has_id id) (stream_records stream))) as Hrec by by apply Forall_erase_first.
  set (records := erase_first _ _) in *. set (set1 := om_set _ _ (gs_streams group)).
  assert (om_all (fun source st => name_ok source /\ stream_typed st) set1) as H1 by by apply om_set_all.
  set (streams := match records with [] => om_erase (ek_source key) set1 | _ => set1 end).
  assert (om_all (fun source st => name_ok source /\ stream_typed st) streams) as H2.
  { subst streams. destruct records; [by apply om_erase_all|done]. }
  set (y := if existsb (has_id id) (stream_records stream) && (i_total_records x >? 0) then _ else _).
  assert (typed y) as Hy by (subst y; case_match; auto with typed).
  assert (groups_typed (put_group (i_groups y) (ek_device key) (ek_kind key) (mkGroup streams (gs_tombstones group)))) as Hput.
  { apply put_group_typed; [apply Hy|done|by split]. }
  apply typed_groups; [done|]. destruct streams, (gs_tombstones group); try done. by apply prune_group_typed.
Qed.

Lemma admit_accept_typed key e stream now x :
  typed x -> evidence_key_wf key -> evidence_wf e -> in_u 64 now -> stream_typed stream ->
  typed (snd (admit_accept key e stream now x)).
Proof.
  intros Hx Hk He Hn Hs. unfold admit_accept. set (records := insert_by _ _ _).
  assert (Forall stored_wf records) as Hr.
  { apply Forall_insert_by; [|done]. split; [done|]. by split_and!. }
  set (y := set_i_total_records _ _).
  assert (typed y) as Hy by by apply typed_total, stream_put_typed.
  pose proof (enforce_budget_typed key (evidence_id e) now y Hn Hy) as Hz.
  destruct (enforce_budget _ _ _ _) as [[[|] z] ids]; cbn [fst snd] in *.
  - apply refresh_conflict_typed; [|apply Hk]. apply typed_count; [apply _|done].
  - apply typed_count; [apply _|]. by apply admit_rollback_typed.
Qed.

Lemma admit_record_typed key e now x :
  typed x -> evidence_key_wf key -> evidence_wf e -> in_u 64 now -> typed (snd (admit_record key e now x)).
Proof.
  intros Hx Hk He Hn. unfold admit_record.
  pose proof (ensure_stream_typed _ _ Hx Hk) as [Hs Hy]. destruct (ensure_stream key x) as [stream y]. cbn [fst snd] in *.
  case_if; [apply typed_count; [apply _|done]|].
  case_if; [by apply admit_refused_typed|]. case_if; [by apply admit_refused_typed|]. by apply admit_accept_typed.
Qed.

Lemma register_device_policy device x y : register_device device x = inr y -> i_policy y = i_policy x.
Proof. unfold register_device, raise_next_incarnation. repeat case_match; by intros [= <-]. Qed.

Lemma registry_admit_typed q now x :
  typed x -> admission_wf q -> in_u 64 now -> typed (snd (registry_admit q now x)).
Proof.
  intros Hx Hq Hn. pose proof (admission_key_wf q Hq) as Hk.
  assert (forall r d y, typed y -> typed (snd (admit_reject r d y))) as Hrej.
  { intros. apply typed_count; [apply _|done]. }
  unfold registry_admit. destruct (admit_guard q now x) as [[r d]|]; [by apply Hrej|].
  destruct (admit_content q x) as [[r d]|] eqn:Ec; [by apply Hrej|].
  destruct (register_device _ x) as [d|y] eqn:Er; [by apply Hrej|].
  assert (typed y) as Hy by (eapply register_device_typed; [exact Hx|apply Hk|exact Er]).
  cbv zeta. case_if; [by apply Hrej|]. case_if; [by apply Hrej|]. apply admit_record_typed; try done.
  apply admission_evidence_wf; [apply Hy|done|]. unfold admit_content. by rewrite (register_device_policy _ _ _ Er).
Qed.

(** ** Retirement *)

Lemma erase_tombstone_typed g key : groups_typed g -> device_ref_wf (ek_device key) -> groups_typed (erase_tombstone g key).
Proof.
  intros Hg Hd. destruct (group_or_empty_typed g (ek_device key) (ek_kind key) Hg) as [H1 H2].
  apply put_group_typed; [done|done|]. split; [done|]. by apply om_erase_all.
Qed.

Lemma oldest_tombstone_in l e : oldest_tombstone l = Some e -> e ∈ l.
Proof.
  unfold oldest_tombstone.
  assert (forall out, fold_left (fun out e => match out with
    | None => Some e
    | Some o => if rr_retired_at (snd e) <? rr_retired_at (snd o) then Some e else out end) l out = Some e ->
    out = Some e \/ e ∈ l) as H.
  { induction l as [|a l IH]; intros out; cbn [fold_left]; [by left|]. intros [E|E]%IH; [|right; by right].
    destruct out as [o|]; [|injection E as <-; right; by left].
    case_match; [injection E as <-; right; by left|by left]. }
  by intros [[=]|]%H.
Qed.

Lemma push_tombstone_typed t x : typed x -> retirement_wf t -> typed (push_tombstone t x).
Proof.
  intros Hx Ht. pose proof (proj1 Ht) as Hk. unfold push_tombstone. cbv zeta. case_if; [done|].
  pose proof (put_tombstone_typed _ _ _ (ty_groups _ Hx) Hk Ht) as Hg. set (g := put_tombstone _ _ t) in *.
  assert (typed (set_i_groups g x)) as Hy by by apply typed_groups.
  case_if; [|done]. destruct (oldest_tombstone _) as [[oldest t']|] eqn:Eo; [|done]. case_if; [|done].
  apply typed_count; [apply _|]. apply typed_groups; [done|]. apply erase_tombstone_typed; [done|].
  pose proof (all_tombstones_typed _ Hg) as Ha. rewrite Forall_forall in Ha.
  by destruct (Ha _ (oldest_tombstone_in _ _ Eo)) as [[Hd _] _].
Qed.

Lemma retirement_record_wf q now x :
  scalars_typed x -> retire_request_wf q -> in_u 64 now -> retirement_wf (retirement_record q now x).
Proof.
  intros Hx (H1 & H2 & H3 & H4 & H5 & H6 & H7) Hn. unfold scalars_typed in Hx. destruct_and? Hx.
  split; [by split|]. by repeat match goal with |- _ /\ _ => split end.
Qed.

Lemma retire_typed q now x :
  typed x -> retire_request_wf q -> in_u 64 now -> typed (snd (retire q now x)).
Proof.
  intros Hx Hq Hn. pose proof (retirement_record_wf q now x (ty_scalars _ Hx) Hq Hn) as Ht.
  assert (forall r d, typed (snd (retire_reject r d x))) as Hrej by (intros; apply typed_count; [apply _|done]).
  unfold retire. cbv zeta. case_if; [done|]. case_if; [done|]. destruct (find_device _ _); [|done].
  case_if; [apply typed_count; [apply _|done]|]. case_if; [done|].
  destruct (find_stream x _) as [stream|] eqn:Es; [|done]. case_if; [done|].
  destruct (lookup_stream_typed _ _ _ (ty_groups _ Hx) Es) as [_ Hst].
  unfold retire_stream. cbn [snd]. apply refresh_conflict_typed; [|apply Ht].
  apply typed_count; [apply _|]. apply push_tombstone_typed; [|done]. apply stream_put_typed; [done|apply Ht|].
  apply Forall_map. eapply Forall_impl; [exact Hst|]. intros r Hr. unfold retire_record. case_if; [|done].
  destruct Hr as (He & _ & _ & Ha & _). split; [done|]. split_and!; try done. by intros ? [= <-].
Qed.

(** ** Devices, sources and resolutions *)

Lemma take_incarnation_typed x :
  typed x -> in_u 64 (fst (take_incarnation x)) /\ typed (snd (take_incarnation x)).
Proof.
  intros Hx. unfold take_incarnation. cbn [fst snd]. split; [|auto with typed].
  case_if; [by vm_compute|]. pose proof (ty_scalars _ Hx) as Hs. unfold scalars_typed in Hs. tauto.
Qed.

Lemma begin_incarnation_typed device now x :
  typed x -> device_identity_wf device -> typed (snd (begin_device_incarnation device now x)).
Proof.
  intros Hx Hd. pose proof (take_incarnation_typed x Hx) as [Hn Hy]. unfold begin_device_incarnation. cbv zeta.
  destruct (find_device x device) as [entry|] eqn:E; (case_if; [done|]);
    destruct (take_incarnation x) as [n y]; cbn [fst snd] in *.
  - destruct (entry_lookup_typed _ _ _ Hx E) as (H1 & H2 & H3). apply refresh_all_typed, typed_bump.
    assert (om_all (fun _ e => entry_typed e)
      (om_set device (mkIncarnationEntry (ie_device entry) n (push_history n (ie_history entry))) (i_incarnations y))).
    { apply (om_set_all (fun _ e => entry_typed e)); [apply Hy|]. split; [done|]. split; [done|]. by apply push_history_typed. }
    by apply typed_incarnations.
  - apply typed_bump, put_entry_typed; [done|]. split; [done|]. split; [done|]. by constructor.
Qed.

Lemma set_incarnation_typed device n now x :
  typed x -> device_identity_wf device -> in_u 64 n -> typed (snd (set_device_incarnation device n now x)).
Proof.
  intros Hx Hd Hn. unfold set_device_incarnation. cbv zeta. case_if; [done|].
  destruct (find_device x device) as [entry|] eqn:E.
  - destruct (entry_lookup_typed _ _ _ Hx E) as (H1 & H2 & H3). case_if; [done|].
    set (history := if in_history n (ie_history entry) then _ else _).
    assert (Forall (in_u 64) history) as Hh by (subst history; case_if; [done|by apply push_history_typed]).
    set (y := raise_next_incarnation n _).
    assert (typed y) as Hy by by apply raise_next_typed, put_entry_typed.
    case_if; [done|]. apply refresh_all_typed, typed_bump. by apply put_entry_typed.
  - case_if; [done|]. apply refresh_all_typed, typed_bump, raise_next_typed, put_entry_typed; [done|].
    split; [done|]. split; [done|]. by constructor.
Qed.

Lemma set_sources_typed sources p :
  policy_typed p -> Forall source_policy_wf sources -> NoDup (map sp_id sources) ->
  policy_typed (set_rp_sources sources p).
Proof. intros (_ & H) Hs Hn. destruct_and? H. split; [done|]. by split_and!. Qed.

Lemma policy_sources p : policy_typed p -> Forall source_policy_wf (rp_sources p) /\ NoDup (map sp_id (rp_sources p)).
Proof. intros (? & ? & ? & ? & ? & ? & ? & ?). done. Qed.

Lemma install_sources_typed sources now x :
  typed x -> Forall source_policy_wf sources -> NoDup (map sp_id sources) ->
  typed (refresh_all_conflicts now (bump_policy_revision (set_i_policy (set_rp_sources sources (i_policy x)) x))).
Proof.
  intros Hx Hs Hn. apply refresh_all_typed, typed_bump, typed_policy; [done|]. apply set_sources_typed; [apply Hx|done..].
Qed.

Lemma change_source_typed source already change now x :
  (forall s, source_policy_wf s -> source_policy_wf (change s)) -> (forall s, sp_id (change s) = sp_id s) -> typed x ->
  typed (snd (change_source source already change now x)).
Proof.
  intros Hc Hid Hx. unfold change_source. destruct (find_last _ _); [|done]. cbv zeta. case_if; [done|].
  destruct (policy_sources _ (ty_policy _ Hx)) as [Hs Hn]. apply install_sources_typed; [done|by apply Forall_update_last|].
  by rewrite update_last_keys.
Qed.

Lemma set_trust_wf t s : source_policy_wf s -> source_policy_wf (set_sp_trust t s).
Proof. intros (? & ? & ? & ? & ? & ?). by split_and!. Qed.
Lemma set_authority_wf a s : source_policy_wf s -> source_policy_wf (set_sp_authority a s).
Proof. intros (? & ? & ? & ? & ? & ?). by split_and!. Qed.

Lemma replace_source_keys p sources :
  map sp_id (replace_first (is_source (sp_id p)) p sources) = map sp_id sources.
Proof.
  destruct (find (is_source (sp_id p)) sources) as [s|] eqn:E.
  - eapply replace_first_keys; [exact E|]. apply List.find_some in E as [_ E]. by apply String.eqb_eq in E.
  - induction sources as [|s sources IH]; [done|]. cbn [find replace_first] in *.
    destruct (is_source (sp_id p) s); [done|]. cbn [map]. by rewrite IH.
Qed.

Lemma new_source_nodup p sources :
  existsb (is_source (sp_id p)) sources = false -> NoDup (map sp_id sources) ->
  NoDup (map sp_id (sort_by sp_id (sources ++ [p]))).
Proof.
  intros Hp Hn. rewrite sort_by_perm, map_app. apply NoDup_app. split; [done|]. split; [|apply NoDup_singleton].
  intros id Hin ->%list_elem_of_singleton. apply list_elem_of_fmap in Hin as (s & Hid & Hin).
  assert (existsb (is_source (sp_id p)) sources = true); [|congruence]. apply existsb_exists. exists s.
  split; [by apply list_elem_of_In|]. by apply String.eqb_eq.
Qed.

Lemma upsert_source_typed p now x :
  typed x -> source_policy_wf p -> typed (snd (upsert_source_policy p now x)).
Proof.
  intros Hx Hp. unfold upsert_source_policy. case_if; [done|]. cbv zeta. set (p' := if _ && _ then _ else _).
  assert (source_policy_wf p') as Hp' by (subst p'; case_if; [by apply set_authority_wf|done]).
  destruct (policy_sources _ (ty_policy _ Hx)) as [Hs Hn].
  destruct (existsb _ _) eqn:E.
  - apply install_sources_typed; [done|by apply Forall_replace_first|]. pose proof (replace_source_keys p' (rp_sources (i_policy x))) as Hk. by rewrite Hk.
  - case_if; [done|]. apply install_sources_typed; [done|apply Forall_sort, Forall_app; auto|]. by apply new_source_nodup.
Qed.

Lemma push_resolution_typed r x : typed x -> resolution_typed r -> typed (push_resolution r x).
Proof.
  intros Hx Hr. pose proof (ty_resolutions _ Hx) as Hl. unfold push_resolution. cbv zeta.
  case_if; [apply typed_resolutions; [done|by apply Forall_replace_first]|].
  set (y := if _ >=? _ then _ else _).
  assert (typed y) as Hy.
  { subst y. case_if; [|done]. apply typed_count; [apply _|]. apply typed_resolutions; [done|by apply Forall_tail]. }
  apply typed_resolutions; [done|]. apply Forall_sort, Forall_app. split; [apply Hy|by constructor].
Qed.

Lemma resolve_conflict_typed conflict chosen resolver now x :
  typed x -> name_ok resolver -> in_u 64 now -> typed (snd (resolve_conflict conflict chosen resolver now x)).
Proof.
  intros Hx Hr Hn. unfold resolve_conflict. destruct (find_last _ _) as [group|] eqn:Eg; [|done]. cbv zeta.
  destruct (negb (existsb _ (cg_members group))) eqn:Hm; [done|]. case_if; [done|]. case_if; [done|]. cbn [snd]. apply typed_count; [apply _|].
  assert (conflict_typed group /\ cg_id group = conflict) as [(Hi & _ & Hms & _) <-].
  { pose proof (find_last_spec (fun g => bool_decide (cg_id g = conflict)) (i_conflicts x)) as Hf.
    rewrite Eg in Hf. destruct Hf as [Hin Hp]. apply bool_decide_eq_true in Hp. split; [|done].
    pose proof (ty_conflicts _ Hx) as Hc. rewrite Forall_forall in Hc. by apply Hc. }
  apply push_resolution_typed; [done|]. pose proof (ty_scalars _ Hx) as Hs. unfold scalars_typed in Hs. destruct_and? Hs.
  split; [apply digest_of_wf|]. split; [done|]. split; [|split; [by apply Forall_filter_list|by split]].
  apply negb_false_iff, existsb_exists in Hm as (m & Hin & Hm). apply bool_decide_eq_true in Hm as ->.
  rewrite Forall_forall in Hms. by apply Hms, list_elem_of_In.
Qed.

(** ** Epochs, clock, bounds and decisions *)

Lemma set_rule_typed n x : typed x -> in_u 64 n -> typed (snd (set_rule_generation n x)).
Proof.
  intros Hx Hn. unfold set_rule_generation. do 3 (case_if; [done|]). apply typed_bump, typed_policy; [by apply typed_rule|].
  pose proof (ty_policy _ Hx) as Hp. unfold policy_typed in Hp |- *. destruct_and? Hp. by split_and!.
Qed.

Lemma set_tick_typed now x : typed x -> in_u 64 now -> typed (snd (set_logical_tick now x)).
Proof. intros Hx Hn. unfold set_logical_tick. case_if; [done|]. by apply typed_tick. Qed.

Lemma set_limits_typed limits x : typed x -> registry_limits_wf limits -> typed (set_limits limits x).
Proof.
  intros Hx Hl. apply typed_bump, typed_policy; [done|].
  pose proof (ty_policy _ Hx) as Hp. unfold policy_typed in Hp |- *. destruct_and? Hp.
  repeat match goal with |- _ /\ _ => split end; assumption.
Qed.

Lemma trim_decisions_typed order x : typed x -> typed (trim_decisions order x).
Proof.
  revert x. induction order as [|id order IH]; intros x Hx; cbn [trim_decisions]; [by apply typed_decision_order|].
  cbv zeta. case_if; [|by apply typed_decision_order]. apply IH.
  case_if; [apply typed_count; [apply _|]|]; by apply typed_decisions.
Qed.

Lemma evaluate_typed r now x : typed x -> typed (snd (evaluate r now x)).
Proof.
  intros Hx. unfold evaluate. cbn [snd]. apply typed_count; [apply _|]. unfold push_decision. cbv zeta.
  destruct (om_find _ _); [by apply typed_decisions|]. by apply typed_decision_order, typed_decisions, trim_decisions_typed.
Qed.

(** ** Restoring a state *)

Lemma vec_forall {A} (P : A -> Prop) bound l : vec_wf P bound l -> Forall P l.
Proof. by intros [? _]. Qed.

Lemma increasing_nodup {A K} `{CmpLaws K} (key : A -> K) l : strictly_increasing key l = true -> NoDup (map key l).
Proof. intros Hl%strictly_increasing_sorted. by apply strict_sorted_nodup. Qed.

(** The policy of a file is typed when its sources are distinct. *)
Lemma policy_wf_typed p : policy_wf p -> NoDup (map sp_id (rp_sources p)) -> policy_typed (sort_sources p).
Proof.
  intros Hp Hn. unfold policy_wf in Hp. destruct_and? Hp. unfold policy_typed.
  repeat match goal with |- _ /\ _ => split end; try assumption.
  - apply (Forall_sort sp_id). by eapply vec_forall.
  - by apply Nat.leb_le.
  - cbn. by rewrite sort_by_perm.
Qed.

Lemma adopt_record_typed g r : groups_typed g -> stored_wf r -> groups_typed (adopt_record g r).
Proof.
  intros Hg Hr. unfold adopt_record. cbv zeta. apply put_stream_typed; [done|apply Hr|].
  destruct (lookup_stream g _) as [st|] eqn:E; cbn.
  - destruct (lookup_stream_typed _ _ _ Hg E) as [_ Hst]. apply Forall_app. split; [exact Hst|by constructor].
  - by constructor.
Qed.

Lemma om_all_map_values {K V} (P : K -> V -> Prop) (f : V -> V) (m : list (K * V)) :
  (forall k v, P k v -> P k (f v)) -> om_all P m -> om_all P (map (fun '(k, v) => (k, f v)) m).
Proof. intros Hf Hm. apply Forall_map. eapply Forall_impl; [exact Hm|]. intros [k v] H. by apply Hf. Qed.

Lemma sort_streams_typed g : groups_typed g -> groups_typed (sort_streams g).
Proof.
  apply (om_all_map_values (fun device kinds => device_ref_wf device /\ om_all (fun _ group => group_typed group) kinds)).
  intros device kinds [Hd Hk]. split; [done|]. revert Hk.
  apply (om_all_map_values (fun _ group => group_typed group)). intros kind group [Hs Ht]. split; [|done]. revert Hs.
  apply (om_all_map_values (fun source st => name_ok source /\ stream_typed st)). intros source st [Hn Hst].
  split; [done|]. by apply (Forall_sort record_key).
Qed.

Lemma fold_typed {A B} (P : B -> Prop) (Q : A -> Prop) (f : B -> A -> B) l b :
  (forall b a, P b -> Q a -> P (f b a)) -> Forall Q l -> P b -> P (fold_left f l b).
Proof. intros Hf Hl. revert b. induction Hl as [|a l Ha Hl IH]; intros b Hb; [done|]. apply IH. by apply Hf. Qed.

Lemma adopt_groups_typed s :
  Forall stored_wf (s_records s) -> Forall retirement_wf (s_tombstones s) -> groups_typed (i_groups (adopt s)).
Proof.
  intros Hr Ht. cbn. eapply (fold_typed groups_typed retirement_wf); [|exact Ht|].
  { intros g t Hg Hw. apply put_tombstone_typed; [done|apply Hw|done]. }
  apply sort_streams_typed. eapply (fold_typed groups_typed stored_wf); [|exact Hr|by constructor].
  intros. by apply adopt_record_typed.
Qed.

Lemma conflict_wf_typed g : conflict_wf g -> conflict_typed g.
Proof.
  intros (H1 & H2 & _ & _ & [H3 _] & H4 & H5 & H6 & H7). unfold conflict_typed.
  repeat match goal with |- _ /\ _ => split end; assumption.
Qed.
Lemma resolution_wf_typed r : resolution_wf r -> resolution_typed r.
Proof.
  intros (H1 & H2 & H3 & [H4 _] & H5 & H6 & H7). unfold resolution_typed.
  repeat match goal with |- _ /\ _ => split end; assumption.
Qed.
Lemma incarnation_wf_typed e : incarnation_entry_wf e -> entry_typed e.
Proof. intros (H1 & H2 & [H3 _]). by split. Qed.

(** A state the decoder accepts is restored to typed values. *)
Lemma adopt_typed s : state_wf s -> typed (adopt s).
Proof.
  intros (Hp & H1 & H2 & H3 & H4 & H5 & H6 & H7 & Hn & [Hi _] & [Hr _] & [Ht _] & [Hc _] & [Hres _] & [He _] & Hcnt & _ & _ & Hinc).
  constructor.
  - apply policy_wf_typed; [done|by apply increasing_nodup].
  - unfold scalars_typed. cbn [i_epoch i_rule_generation i_policy_revision i_boot_epoch i_store_generation
      i_logical_tick i_next_incarnation adopt]. apply negb_true_iff in Hn. rewrite Hn.
    repeat match goal with |- _ /\ _ => split end; assumption.
  - eapply (fold_typed (om_all (fun _ e => entry_typed e)) incarnation_entry_wf); [|exact Hi|by constructor].
    intros m e Hm Hw. apply (om_set_all (fun _ e => entry_typed e)); [done|by apply incarnation_wf_typed].
  - by apply adopt_groups_typed.
  - apply (Forall_sort cg_id). eapply Forall_impl; [exact Hc|]. apply conflict_wf_typed.
  - apply (Forall_sort cr_id). eapply Forall_impl; [exact Hres|]. apply resolution_wf_typed.
  - done.
  - done.
Qed.

Lemma maximum_tick_typed l from : in_u 64 from -> Forall (in_u 64) l -> in_u 64 (maximum_tick l from).
Proof. intros Hf Hl. unfold maximum_tick. by apply (fold_tick_typed (fun t m => t >? m)). Qed.

Lemma adopt_state_typed s now x :
  typed x -> state_wf s -> in_u 64 now -> typed (snd (adopt_state s now x)).
Proof.
  intros Hx Hs Hn. assert (typed (adopt_restored s now x)) as Hy; [|unfold adopt_state; by destruct (_ >? 0)].
  assert (Forall stored_wf (s_records s)) as Hr.
  { unfold state_wf in Hs. destruct_and? Hs. by eapply vec_forall. }
  pose proof (adopt_typed s Hs) as Ha. unfold adopt_restored. cbv zeta.
  set (y := match rp_sources (s_policy s) with [] => _ | _ => adopt s end).
  assert (typed y) as Hy by (subst y; case_match; [apply typed_policy; [done|apply Hx]|done]).
  assert (in_u 64 (rp_rule_generation (i_policy y))) as Hg.
  { pose proof (ty_policy _ Hy) as Hp. unfold policy_typed in Hp. by destruct_and? Hp. }
  apply refresh_all_typed, typed_tick; [by apply typed_bump, typed_boot, u64_in; apply typed_rule|].
  apply maximum_tick_typed.
  - pose proof (ty_scalars _ Hy) as Hsc. unfold scalars_typed in Hsc. by destruct_and? Hsc.
  - constructor; [done|]. constructor; [|done]. apply maximum_tick_typed; [by vm_compute|]. by apply observed_ticks_typed.
Qed.

(** ** Reachable states *)

(** One operation with arguments of their types, as a caller of the interface
    or a decoded frame supplies them. *)
Inductive typed_step : Impl -> Impl -> Prop :=
| ts_admit q now x : admission_wf q -> in_u 64 now -> typed_step x (snd (registry_admit q now x))
| ts_retire q now x : retire_request_wf q -> in_u 64 now -> typed_step x (snd (retire q now x))
| ts_begin d now x : device_identity_wf d -> typed_step x (snd (begin_device_incarnation d now x))
| ts_incarnation d n now x : device_identity_wf d -> in_u 64 n -> typed_step x (snd (set_device_incarnation d n now x))
| ts_revoke s now x : typed_step x (snd (revoke_source s now x))
| ts_restore s now x : typed_step x (snd (restore_source s now x))
| ts_authority s a now x : typed_step x (snd (set_source_authority s a now x))
| ts_upsert p now x : source_policy_wf p -> typed_step x (snd (upsert_source_policy p now x))
| ts_resolve c e r now x : name_ok r -> in_u 64 now -> typed_step x (snd (resolve_conflict c e r now x))
| ts_rule n x : in_u 64 n -> typed_step x (snd (set_rule_generation n x))
| ts_epoch x : typed_step x (snd (advance_epoch x))
| ts_tick now x : in_u 64 now -> typed_step x (snd (set_logical_tick now x))
| ts_limits l x : registry_limits_wf l -> typed_step x (set_limits l x)
| ts_evaluate r now x : typed_step x (snd (evaluate r now x))
| ts_adopt s now x : state_wf s -> state_ok s -> in_u 64 now -> typed_step x (snd (adopt_state s now x)).

Inductive typed_reachable : Impl -> Prop :=
| tr_create policy : policy_wf policy -> NoDup (map sp_id (rp_sources policy)) ->
    typed_reachable (registry_create policy)
| tr_restore policy s : policy_wf policy -> NoDup (map sp_id (rp_sources policy)) -> state_wf s -> state_ok s ->
    typed_reachable (registry_restore policy s)
| tr_step x y : typed_reachable x -> typed_step x y -> typed_reachable y.

Lemma typed_step_step x y : typed_step x y -> step x y.
Proof.
  destruct 1; try by constructor. constructor. unfold admission_ok. unfold admission_wf in H. by destruct_and? H.
Qed.

Lemma typed_reachable_reachable x : typed_reachable x -> reachable x.
Proof.
  induction 1; [apply reach_create|by apply reach_restore|]. eapply reach_step; [done|by apply typed_step_step].
Qed.

Lemma typed_step_typed x y : typed_step x y -> typed x -> typed y.
Proof.
  destruct 1; intros Hx.
  - by apply registry_admit_typed.
  - by apply retire_typed.
  - by apply begin_incarnation_typed.
  - by apply set_incarnation_typed.
  - apply change_source_typed; [apply set_trust_wf|done|done].
  - apply change_source_typed; [apply set_trust_wf|done|done].
  - apply change_source_typed; [apply set_authority_wf|done|done].
  - by apply upsert_source_typed.
  - by apply resolve_conflict_typed.
  - by apply set_rule_typed.
  - by apply typed_bump.
  - by apply set_tick_typed.
  - by apply set_limits_typed.
  - by apply evaluate_typed.
  - by apply adopt_state_typed.
Qed.

Lemma policy_rule_generation p : policy_wf p -> in_u 64 (rp_rule_generation p).
Proof. intros Hp. unfold policy_wf in Hp. by destruct_and? Hp. Qed.

Lemma registry_create_typed policy :
  policy_wf policy -> NoDup (map sp_id (rp_sources policy)) -> typed (registry_create policy).
Proof.
  intros Hp Hn. constructor; try by constructor.
  - by apply policy_wf_typed.
  - unfold scalars_typed. cbn. pose proof (policy_rule_generation _ Hp). by repeat match goal with |- _ /\ _ => split end.
Qed.

Lemma registry_restore_typed policy s :
  policy_wf policy -> NoDup (map sp_id (rp_sources policy)) -> state_wf s -> typed (registry_restore policy s).
Proof.
  intros Hp Hn Hs. apply typed_rule; [|by apply policy_rule_generation].
  apply typed_policy; [by apply adopt_typed|by apply policy_wf_typed].
Qed.

Lemma typed_reachable_typed x : typed_reachable x -> typed x.
Proof.
  induction 1; [by apply registry_create_typed|by apply registry_restore_typed|by eapply typed_step_typed].
Qed.

(** ** The bounds of the format *)

Definition bounded {A} (l : list A) : bool := Z.of_nat (length l) <=? kMaxCollectionEntries.

(** The state is within the bounds on the number of entries that the format
    declares, and that its own policy declares. *)
Definition within_bounds (x : Impl) : bool :=
  let limits := rp_limits (i_policy x) in
  bounded (rp_sources (i_policy x)) && bounded (i_incarnations x) &&
  forallb (fun p => bounded (ie_history (snd p))) (i_incarnations x) &&
  bounded (flatten_records x) && (Z.of_nat (length (flatten_records x)) <=? max_records limits) &&
  bounded (flatten_tombstones x) && (Z.of_nat (length (flatten_tombstones x)) <=? max_tombstones limits) &&
  bounded (i_conflicts x) && forallb (fun g => bounded (cg_members g)) (i_conflicts x) &&
  bounded (i_resolutions x) && forallb (fun r => bounded (cr_rejected_members r)) (i_resolutions x) &&
  bounded (i_evictions x).

Lemma bounded_vec {A} (P Q : A -> Prop) (p : A -> bool) l :
  (forall a, P a -> p a = true -> Q a) -> Forall P l -> bounded l = true -> forallb p l = true ->
  vec_wf Q kMaxCollectionEntries l.
Proof.
  intros HQ Hl Hb Hp. unfold bounded, kMaxCollectionEntries in *. split; [|lia].
  rewrite Forall_forall in Hl |- *. rewrite forallb_forall in Hp. intros a Ha. apply HQ; [by apply Hl|].
  by apply Hp, list_elem_of_In.
Qed.

Lemma bounded_all {A} (P : A -> Prop) l : Forall P l -> bounded l = true -> vec_wf P kMaxCollectionEntries l.
Proof. intros Hl Hb. apply (bounded_vec P P (fun _ => true)); try done. by apply forallb_forall. Qed.

Lemma bounded_entry e : entry_typed e -> bounded (ie_history e) = true -> incarnation_entry_wf e.
Proof. intros (H1 & H2 & H3) Hb. split; [done|]. split; [done|]. by apply bounded_all. Qed.
Lemma bounded_conflict g : conflict_typed g -> bounded (cg_members g) = true -> conflict_wf g.
Proof.
  intros (H1 & H2 & H3 & H4 & H5 & H6 & H7) Hb. pose proof (bounded_all _ _ H3 Hb). unfold conflict_wf.
  repeat match goal with |- _ /\ _ => split end; first [assumption|exact I].
Qed.
Lemma bounded_resolution r : resolution_typed r -> bounded (cr_rejected_members r) = true -> resolution_wf r.
Proof.
  intros (H1 & H2 & H3 & H4 & H5 & H6 & H7) Hb. pose proof (bounded_all _ _ H4 Hb). unfold resolution_wf.
  repeat match goal with |- _ /\ _ => split end; first [assumption|exact I].
Qed.

Lemma bounded_policy p : policy_typed p -> bounded (rp_sources p) = true -> policy_wf p.
Proof.
  intros (H1 & H2 & H3 & H4 & H5 & H6 & H7 & H8) Hb. pose proof (bounded_all _ _ H1 Hb). unfold policy_wf.
  assert (Z.of_nat (String.length (rp_policy_name p)) < 2 ^ 32) by lia.
  assert ((String.length (rp_policy_name p) <=? 128)%nat = true) by (by apply Nat.leb_le).
  repeat match goal with |- _ /\ _ => split end; first [assumption|exact I].
Qed.

Lemma distinct_sorted_strict {A K} `{CmpLaws K} (key : A -> K) l :
  StronglySorted (key_le key) l -> NoDup (map key l) -> strictly_increasing key l = true.
Proof.
  intros Hs Hn. apply strictly_increasing_sorted. induction Hs as [|a l Hs IH Hall]; [constructor|].
  inversion Hn as [|? ? Ha Hn']; subst. constructor; [by apply IH|]. rewrite Forall_forall in Hall |- *.
  intros b Hb. specialize (Hall b Hb). unfold key_le in Hall. unfold key_lt.
  destruct (cmp (key a) (key b)) eqn:E; [|done|].
  - apply cmp_eq in E. destruct Ha. rewrite E. by apply list_elem_of_fmap_2.
  - unfold cle in Hall. by rewrite E in Hall.
Qed.

Lemma flatten_typed x :
  typed x -> Forall stored_wf (flatten_records x) /\ Forall retirement_wf (flatten_tombstones x).
Proof.
  intros Hx. split.
  - apply Forall_map. eapply Forall_impl; [apply all_records_typed, Hx|]. by intros [[key st] r] [_ Hr].
  - apply Forall_sort, Forall_map. eapply Forall_impl; [apply all_tombstones_typed, Hx|]. by intros [key t] [_ Ht].
Qed.

Lemma within_bounds_state_wf x :
  typed x -> StronglySorted (key_le sp_id) (rp_sources (i_policy x)) -> within_bounds x = true ->
  i_next_incarnation x <> 0 -> state_wf (to_state x).
Proof.
  intros Hx Hsort Hb Hn. destruct (flatten_typed x Hx) as [Hr Ht]. pose proof (policy_sources _ (ty_policy _ Hx)) as [_ Hnd].
  pose proof (ty_scalars _ Hx) as Hs. unfold scalars_typed in Hs. destruct_and? Hs.
  unfold within_bounds in Hb. cbv zeta in Hb. rewrite !andb_true_iff in Hb.
  destruct Hb as [[[[[[[[[[[B1 B2] B3] B4] B5] B6] B7] B8] B9] B10] B11] B12].
  assert (vec_wf incarnation_entry_wf kMaxCollectionEntries (map snd (i_incarnations x))) as Hd.
  { apply (bounded_vec entry_typed _ (fun e => bounded (ie_history e))); [apply bounded_entry| | |].
    - apply Forall_map. eapply Forall_impl; [exact (ty_devices _ Hx)|]. by intros [].
    - unfold bounded in *. by rewrite length_map.
    - rewrite forallb_forall in B3 |- *. intros e (p & <- & Hp)%in_map_iff. by apply B3. }
  pose proof (bounded_vec _ _ _ _ bounded_conflict (ty_conflicts _ Hx) B8 B9).
  pose proof (bounded_vec _ _ _ _ bounded_resolution (ty_resolutions _ Hx) B10 B11).
  pose proof (bounded_policy _ (ty_policy _ Hx) B1). pose proof (distinct_sorted_strict _ _ Hsort Hnd).
  pose proof (bounded_all _ _ Hr B4). pose proof (bounded_all _ _ Ht B6).
  pose proof (bounded_all _ _ (ty_evictions _ Hx) B12). pose proof (ty_counters _ Hx).
  assert (negb (i_next_incarnation x =? 0) = true) by (by apply negb_true_iff, Z.eqb_neq).
  unfold state_wf. repeat match goal with |- _ /\ _ => split end; assumption.
Qed.

(** C4: the values of the persisted state of a registry stay values of their types
    and of the format, whatever operations are applied, when every request is one
    the interface can carry: the records, tombstones, conflicts, resolutions,
    evictions, device entries, counters and clocks of every reachable state.  A
    reachable state within the bounds on its number of entries, whose next
    incarnation has not wrapped to zero, is therefore one the decoder accepts:
    the store can be opened again.  (The explanation store and the total number of
    records are not persisted, and not covered.) *)
Theorem registry_typed x :
  typed_reachable x ->
  typed x /\
  (within_bounds x = true -> i_next_incarnation x <> 0 ->
   state_wf (to_state x) /\
   forall rest, dec_state (enc_state (to_state x) ++ rest) = inr (to_state x, rest)).
Proof.
  intros Hr. pose proof (typed_reachable_typed x Hr) as Hx. split; [done|]. intros Hb Hn.
  assert (state_wf (to_state x)) as Hw.
  { apply within_bounds_state_wf; try done. apply reachable_ordered, typed_reachable_reachable, Hr. }
  split; [done|]. intros rest. by apply (codec_dec_enc (Codec := state_codec_spec)).
Qed.

(** ** Concrete runs *)

Module TypedSample.
#[local] Open Scope string_scope.

Lemma source_wf id kind authority trust age durable :
  name_ok id -> in_u 64 age -> source_policy_wf (mkSourcePolicy id kind authority trust age durable).
Proof. intros. by split_and!. Qed.

Lemma lab_sources_wf : Forall source_policy_wf (rp_sources make_lab_policy).
Proof.
  let l := eval vm_compute in (rp_sources make_lab_policy) in
  replace (rp_sources make_lab_policy) with l by (vm_compute; reflexivity).
  repeat constructor; try exact I; try (vm_compute; reflexivity); vm_compute; discriminate.
Qed.

Lemma default_limits_wf : registry_limits_wf default_limits.
Proof. unfold registry_limits_wf, in_u. repeat match goal with |- _ /\ _ => split end; (vm_compute; first [reflexivity|discriminate]). Qed.

Lemma lab_policy_wf : policy_wf make_lab_policy /\ NoDup (map sp_id (rp_sources make_lab_policy)).
Proof.
  split; [|apply increasing_nodup; vm_compute; reflexivity].
  assert (vec_wf source_policy_wf kMaxCollectionEntries (rp_sources make_lab_policy)) as Hs.
  { split; [exact lab_sources_wf|]. by vm_compute. }
  pose proof default_limits_wf.
  unfold policy_wf, in_u in *. repeat match goal with |- _ /\ _ => split end; try assumption; try exact I;
    (vm_compute; first [reflexivity|discriminate]).
Qed.

Lemma device_typed provider model serial n :
  name_ok provider -> name_ok model -> opt_wf name_ok serial -> in_u 64 n -> n <> 0 ->
  device_ref_wf (mkDeviceRef (mkDeviceIdentity provider model 0 serial) n).
Proof.
  intros. split; [by split_and!|]. split; [done|]. unfold is_unset. cbn. lia.
Qed.

Lemma request_typed generation :
  in_u 64 generation -> generation <> 0 -> admission_wf (Sample.request "driver-selfreport" generation).
Proof.
  intros Hg Hn. unfold admission_wf. cbn [Sample.request aq_device aq_kind aq_source aq_capability_version
    aq_features aq_limits aq_firmware_version aq_firmware_generation aq_runtime_version aq_runtime_generation
    aq_observed_at aq_valid_until aq_generation].
  assert (device_ref_wf Sample.device) as Hd by by apply device_typed; vm_compute.
  repeat match goal with |- _ /\ _ => split end; try exact I; try assumption; try done.
  - split; [by split_and!|by left..].
  - unfold is_unset. lia.
Qed.

Lemma superseded_typed : typed_reachable Sample.superseded.
Proof.
  destruct lab_policy_wf as [Hp Hn].
  assert (typed_reachable Sample.start) as H0 by by apply tr_create.
  assert (typed_reachable Sample.observed) as H1.
  { eapply tr_step; [exact H0|]. apply ts_admit; [by apply request_typed|done]. }
  eapply tr_step; [exact H1|]. apply ts_admit; [by apply request_typed|done].
Qed.
End TypedSample.

Lemma registry_typed_witness :
  typed_reachable Sample.superseded /\ within_bounds Sample.superseded = true /\
  i_next_incarnation Sample.superseded <> 0 /\ state_wf (to_state Sample.superseded).
Proof.
  pose proof TypedSample.superseded_typed as Hr.
  assert (within_bounds Sample.superseded = true) as Hb by (vm_compute; reflexivity).
  assert (i_next_incarnation Sample.superseded <> 0) as Hn by (vm_compute; discriminate).
  split; [exact Hr|]. split; [exact Hb|]. split; [exact Hn|].
  apply (registry_typed Sample.superseded Hr); assumption.
Defined.

(** An accepted admission for the greatest incarnation wraps the next one to
    zero, and the decoder refuses the state that is then stored. *)
Module Wrapped.
#[local] Open Scope string_scope.

Definition request : AdmissionRequest :=
  mkAdmission (mkDeviceRef (mkDeviceIdentity "acme" "nic" 0 None) (2 ^ 64 - 1)) ChecksumOffload
    (mkSourceIncarnation "driver-selfreport" 1) Sample.version [] [] None 0 None 0 10 None 1.
Definition state : Impl := snd (registry_admit request 10 Sample.start).

Lemma greatest_incarnation_unreadable :
  outcome_ok (fst (registry_admit request 10 Sample.start)) = true /\ i_next_incarnation state = 0 /\
  exists r, dec_state (enc_state (to_state state)) = inl r.
Proof.
  split; [by vm_compute|]. split; [by vm_compute|].
  destruct (dec_state (enc_state (to_state state))) as [r|] eqn:E; [by exists r|].
  exfalso. revert E. vm_compute. discriminate.
Qed.
End Wrapped.
