(* ===== verification/LedgerThms.v ===== *)
(** * The registry engine: what becomes of a record (src/registry.cpp)

    Evidence is never lost silently.  Whatever operations follow, a record stays
    in its stream with the evidence it was admitted with, changes at most once
    (from admitted to retired), and leaves only through an eviction, which the
    ledger records until the ledger's own bound drops its oldest entries. *)

From Stdlib Require Import ZArith Lia ZifyBool String.
From stdpp Require Import base tactics list relations strings.
From S2P Require Import Prelude OrdMap Checked Reason Name SemVer Hash Catalog Evidence State.
From S2P Require Import Codec CodecTypes Registry RegistryOps RegistryInv Derivation RegistryThms AdmissionThms.

#[local] Open Scope Z_scope.
#[local] Open Scope list_scope.
#[local] Opaque digest_of compute_digest.

(** ** Records and the newest generation of a stream *)

Definition recs (x : Impl) (key : EvidenceKey) : list StoredEvidence :=
  match find_stream x key with Some s => stream_records s | None => [] end.
Definition newest (x : Impl) (key : EvidenceKey) : Z :=
  match find_stream x key with Some s => stream_max_generation s | None => 0 end.

(** What a record may have become: itself, or its retired form. *)
Inductive later (r : StoredEvidence) : StoredEvidence -> Prop :=
| later_same : later r r
| later_retired now reason : se_lifecycle r = LcAdmitted ->
    later r (mkStored (se_evidence r) LcRetired (se_admission_reason r) (se_admitted_at r) (Some now) reason).

Lemma later_trans r r' r'' : later r r' -> later r' r'' -> later r r''.
Proof.
  intros [|now reason Hr] [|now' reason' Hr']; try by constructor. done.
Qed.

Lemma later_evidence r r' : later r r' -> se_evidence r' = se_evidence r.
Proof. by destruct 1. Qed.
Lemma later_id r r' : later r r' -> stored_id r' = stored_id r.
Proof. by destruct 1. Qed.
Lemma later_generation r r' : later r r' -> stored_generation r' = stored_generation r.
Proof. by destruct 1. Qed.

(** The ledger entry of an evicted record. *)
Definition entry_of (key : EvidenceKey) (r : StoredEvidence) (e : EvictionEntry) : Prop :=
  ev_id e = stored_id r /\ ev_key e = key /\ ev_generation e = stored_generation r.

(** The ledger after one more entry, and after several: a full one drops its
    oldest entry first. *)
Definition ledger_push (bound : Z) (l : list EvictionEntry) (e : EvictionEntry) : list EvictionEntry :=
  (if Z.of_nat (length l) >=? bound then tail l else l) ++ [e].
Definition ledger_after (bound : Z) (es l : list EvictionEntry) : list EvictionEntry :=
  fold_left (ledger_push bound) es l.

(** The entry is that of a record of the first state which the second no longer
    has, in any form. *)
Definition gone (x y : Impl) (e : EvictionEntry) : Prop :=
  (exists r, r ∈ recs x (ev_key e) /\ entry_of (ev_key e) r e) /\
  forall r, r ∈ recs y (ev_key e) -> stored_id r <> ev_id e.

(** [es] are the evictions of one operation: every record is still there, as
    itself or retired, or has its entry among them; they are distinct and each is
    the entry of a record that is gone; and they are what was pushed on the
    ledger, in their order, and nothing else. *)
Record accounts (x y : Impl) (es : list EvictionEntry) : Prop := mkAccounts {
  ac_records : forall key r, r ∈ recs x key ->
    (exists r', later r r' /\ r' ∈ recs y key) \/ (exists e, e ∈ es /\ entry_of key r e);
  ac_gone : forall e, e ∈ es -> gone x y e;
  ac_distinct : NoDup (map (fun e => (ev_key e, ev_id e)) es);
  ac_ledger : i_evictions y = ledger_after (max_eviction_ledger (rp_limits (i_policy x))) es (i_evictions x) }.

Lemma accounts_trans x y z es1 es2 :
  accounts x y es1 -> accounts y z es2 -> i_policy y = i_policy x ->
  (forall key r, r ∈ recs y key -> r ∈ recs x key) -> (forall key r, r ∈ recs z key -> r ∈ recs y key) ->
  accounts x z (es1 ++ es2).
Proof.
  intros [R1 G1 N1 L1] [R2 G2 N2 L2] Hp Hyx Hzy. split.
  - intros key r Hr. destruct (R1 key r Hr) as [(r' & Hl & Hr')|(e & He & Hof)].
    + destruct (R2 key r' Hr') as [(r'' & Hl' & Hr'')|(e & He & H1 & H2 & H3)].
      * left. exists r''. split; [by eapply later_trans|done].
      * right. exists e. split; [apply elem_of_app; by right|]. unfold entry_of.
        by rewrite H1, H2, H3, (later_id _ _ Hl), (later_generation _ _ Hl).
    + right. exists e. split; [apply elem_of_app; by left|done].
  - intros e [He|He]%elem_of_app.
    + destruct (G1 e He) as [H1 H2]. split; [done|]. intros r Hr. by apply H2, Hzy.
    + destruct (G2 e He) as [(r & Hr & Hof) H2]. split; [|done]. exists r. split; [by apply Hyx|done].
  - rewrite map_app. apply NoDup_app. split_and!; [done| |done].
    intros q (e1 & -> & He1)%list_elem_of_fmap (e2 & E & He2)%list_elem_of_fmap. injection E as Ek Ei.
    destruct (G1 e1 He1) as [_ H1]. destruct (G2 e2 He2) as [(r & Hr & (Hid & _)) _]. rewrite <- Ek in Hr.
    apply (H1 r Hr). congruence.
  - rewrite L2, L1, Hp. symmetry. apply fold_left_app.
Qed.

(** Before the evictions: the states differ by what they neither remove nor
    name. *)
Lemma accounts_before x y z es keep :
  accounts y z es -> i_evictions y = i_evictions x -> i_policy y = i_policy x ->
  (forall key r, r ∈ recs x key -> r ∈ recs y key) ->
  (forall key r, r ∈ recs y key -> r ∈ recs x key \/ stored_id r = keep) ->
  (forall e, e ∈ es -> ev_id e <> keep) -> accounts x z es.
Proof.
  intros [R G N L] He Hp Hin Hout Hk. split; [|  |done|by rewrite L, He, Hp].
  - intros key r Hr. by apply R, Hin.
  - intros e Hes. destruct (G e Hes) as [(r & Hr & Hof) H2]. split; [|done]. exists r. split; [|done].
    destruct (Hout _ _ Hr) as [|E]; [done|]. destruct Hof as (Hid & _). exfalso. apply (Hk e Hes). congruence.
Qed.

Lemma accounts_same x y z es :
  accounts y z es -> (forall key, recs y key = recs x key) -> i_evictions y = i_evictions x ->
  i_policy y = i_policy x -> accounts x z es.
Proof.
  intros [R G N L] Hr He Hp. split; [| |done|by rewrite L, He, Hp].
  - intros key r. rewrite <- Hr. apply R.
  - intros e Hes. destruct (G e Hes) as [(r & Hin & Hof) H2]. split; [|done]. exists r. by rewrite <- Hr.
Qed.

(** After the evictions: nothing is added, and what the account names as kept is. *)
Lemma accounts_after x y z es :
  accounts x y es -> i_evictions z = i_evictions y ->
  (forall key r, r ∈ recs z key -> r ∈ recs y key) ->
  (forall key r r', r ∈ recs x key -> later r r' -> r' ∈ recs y key -> r' ∈ recs z key) -> accounts x z es.
Proof.
  intros [R G N L] He Hsub Hkeep. split; [| |done|by rewrite He].
  - intros key r Hr. destruct (R key r Hr) as [(r' & Hl & Hr')|H]; [left|by right]. exists r'. split; [done|].
    by eapply Hkeep.
  - intros e Hes. destruct (G e Hes) as [H1 H2]. split; [done|]. intros r Hr. by apply H2, Hsub.
Qed.

(** An operation that leaves the records and the ledger alone. *)
Definition keeps (x y : Impl) : Prop :=
  (forall key r, r ∈ recs x key -> exists r', later r r' /\ r' ∈ recs y key) /\ i_evictions y = i_evictions x.

Lemma keeps_accounts x y : keeps x y -> accounts x y [].
Proof.
  intros [Hr He]. split; [intros key r Hin; left; by apply Hr| |constructor|exact He].
  intros e Hin. by apply elem_of_nil in Hin.
Qed.

Lemma keeps_trans x y z : keeps x y -> keeps y z -> keeps x z.
Proof.
  intros [R1 E1] [R2 E2]. split; [|congruence]. intros key r Hr. destruct (R1 key r Hr) as (r' & Hl & Hr').
  destruct (R2 key r' Hr') as (r'' & Hl' & Hr''). exists r''. split; [by eapply later_trans|done].
Qed.

Lemma keeps_same x y :
  (forall key, find_stream y key = find_stream x key) -> i_evictions y = i_evictions x -> keeps x y.
Proof.
  intros Hf He. split; [|done]. intros key r Hr. exists r. split; [constructor|]. unfold recs. by rewrite Hf.
Qed.

Lemma keeps_groups x y : i_groups y = i_groups x -> i_evictions y = i_evictions x -> keeps x y.
Proof. intros Hg He. apply keeps_same; [|done]. intros key. unfold find_stream. by rewrite Hg. Qed.

Lemma keeps_refl x : keeps x x.
Proof. by apply keeps_groups. Qed.

Lemma refresh_conflict_evictions d k now x : i_evictions (refresh_conflict d k now x) = i_evictions x.
Proof. unfold refresh_conflict. by repeat case_match. Qed.

Lemma refresh_conflict_keeps d k now x : keeps x (refresh_conflict d k now x).
Proof.
  apply keeps_groups; [|apply refresh_conflict_evictions].
  pose proof (refresh_conflict_core d k now x) as Hc. unfold core in Hc. congruence.
Qed.

Lemma refresh_all_keeps now x : keeps x (refresh_all_conflicts now x).
Proof.
  apply keeps_groups.
  - pose proof (proj1 (refresh_all_core now x)) as Hc. unfold core in Hc. congruence.
  - unfold refresh_all_conflicts. change (i_evictions x) with (i_evictions (set_i_conflicts [] x)).
    generalize (group_pairs (i_groups x)) (set_i_conflicts [] x). intros l.
    induction l as [|[d k] l IH]; intros y; [done|]. cbn. by rewrite IH, refresh_conflict_evictions.
Qed.

(** ** Putting a stream *)

Lemma recs_put x key s key' :
  recs (set_stream key s x) key' = if decide (key' = key) then stream_records s else recs x key'.
Proof. unfold recs, find_stream. cbn. rewrite lookup_stream_put. by case_decide. Qed.

Lemma put_keeps x key s :
  (forall r, r ∈ recs x key -> exists r', later r r' /\ r' ∈ stream_records s) -> keeps x (set_stream key s x).
Proof.
  intros Hs. split; [|done]. intros k r Hr. rewrite recs_put. case_decide as Hk; [subst; by apply Hs|].
  exists r. split; [constructor|done].
Qed.

(** ** Evictions *)

Lemma erase_first_split {A} (p : A -> bool) l a r : find p l = Some a -> r ∈ l -> r = a \/ r ∈ erase_first p l.
Proof.
  induction l as [|b l IH]; [done|]. cbn. destruct (p b).
  - intros [= ->] [->|Hr]%elem_of_cons; [by left|by right].
  - intros Hf [->|Hr]%elem_of_cons; [right; by left|]. destruct (IH Hf Hr) as [->|Hr']; [by left|right; by right].
Qed.

Lemma push_eviction_ledger e x :
  i_evictions (push_eviction e x) = ledger_push (max_eviction_ledger (rp_limits (i_policy x))) (i_evictions x) e.
Proof. unfold push_eviction, ledger_push. cbv zeta. cbn [count set_i_counters i_evictions i_policy]. by case_if. Qed.

Lemma push_eviction_groups e x : i_groups (push_eviction e x) = i_groups x.
Proof. unfold push_eviction. by case_match. Qed.

Lemma drop_record_groups key id s x :
  i_groups (drop_record key id s x) =
    put_stream (i_groups x) key (mkStream (erase_first (has_id id) (stream_records s))
                                   (highest_generation (erase_first (has_id id) (stream_records s)))) /\
  i_evictions (drop_record key id s x) = i_evictions x.
Proof. unfold drop_record. by case_match. Qed.

Lemma erase_first_absent id l r : NoDup (map stored_id l) -> r ∈ erase_first (has_id id) l -> r ∈ l /\ stored_id r <> id.
Proof.
  intros Hn Hr. split; [eapply elem_of_sublist; [exact Hr|apply erase_first_sublist]|].
  induction l as [|a l IH]; [by apply elem_of_nil in Hr|]. cbn in *. inversion Hn as [|? ? Ha Hn']; subst.
  unfold has_id at 1 in Hr. case_bool_decide as E.
  - subst id. intros Hid. apply Ha. rewrite <- Hid. by apply list_elem_of_fmap_2.
  - apply elem_of_cons in Hr as [->|Hr]; [done|]. by apply IH.
Qed.

(** Evictions and the bookkeeping add no record. *)
Lemma evictions_subset restrict keep now x ids z k r :
  evictions restrict keep now x ids z -> Inv x -> r ∈ recs z k -> r ∈ recs x k.
Proof.
  induction 1 as [x|x c y ids z Hp Ha Hev IH]; intros Hx Hr; [done|].
  destruct (apply_eviction_inv _ _ _ _ _ Hx Ha) as (s & r1 & Hs & _ & _ & _ & Eg & _ & _ & _ & _ & Hy).
  specialize (IH Hy Hr). unfold recs, find_stream in IH |- *. rewrite Eg, lookup_stream_put in IH.
  case_decide as Hk; [subst k|exact IH]. unfold find_stream in Hs. rewrite Hs.
  eapply elem_of_sublist; [exact IH|apply erase_first_sublist].
Qed.

Lemma apply_eviction_accounts c now x y id :
  Inv x -> apply_eviction c now x = Some (y, id) -> exists e, accounts x y [e] /\ ev_id e = ec_id c.
Proof.
  intros Hx. unfold apply_eviction. destruct (find_stream x (ec_key c)) as [s|] eqn:Es; [|done].
  destruct (find _ _) as [record|] eqn:Ef; [|done]. cbv zeta. set (e := mkEviction _ _ _ _ _ _). intros [= <- _].
  pose proof (has_id_find _ _ _ Ef) as [Hin Hid].
  destruct (lookup_stream_ok _ _ _ (inv_groups _ Hx) Es) as [(_ & _ & Hnd) _].
  destruct (drop_record_groups (ec_key c) (ec_id c) s (push_eviction e x)) as [Eg Ee].
  assert (forall key, recs (drop_record (ec_key c) (ec_id c) s (push_eviction e x)) key =
    if decide (key = ec_key c) then erase_first (has_id (ec_id c)) (stream_records s) else recs x key) as Hrecs.
  { intros key. unfold recs at 1, find_stream. rewrite Eg, push_eviction_groups, lookup_stream_put. by case_decide. }
  exists e. split; [split|exact Hid].
  - intros key r Hr. rewrite Hrecs. case_decide as Hk; [subst key|].
    + unfold recs in Hr. rewrite Es in Hr. destruct (erase_first_split _ _ _ _ Ef Hr) as [->|Hin'].
      * right. exists e. split; [by left|done].
      * left. exists r. split; [constructor|done].
    + left. exists r. split; [constructor|done].
  - intros e' ->%list_elem_of_singleton. split.
    + exists record. unfold recs. cbn. by rewrite Es.
    + intros r Hr. rewrite Hrecs, decide_True in Hr by done. apply erase_first_absent in Hr as [_ Hne]; [|done].
      cbn. congruence.
  - apply NoDup_singleton.
  - rewrite Ee. apply push_eviction_ledger.
Qed.

Lemma evictions_account restrict keep now x ids z :
  evictions restrict keep now x ids z -> Inv x -> exists es, accounts x z es /\ forall e, e ∈ es -> ev_id e <> keep.
Proof.
  induction 1 as [x|x c y ids z Hp Ha Hev IH]; intros Hx.
  { exists []. split; [apply keeps_accounts, keeps_refl|]. intros e He. by apply elem_of_nil in He. }
  destruct (apply_eviction_accounts _ _ _ _ _ Hx Ha) as (e & He & Eid).
  destruct (apply_eviction_inv _ _ _ _ _ Hx Ha) as (_ & _ & _ & _ & _ & _ & _ & Epol & _ & _ & _ & Hy).
  destruct (pick_eviction_spec _ _ _ _ _ (inv_groups _ Hx) Hp) as (sp & rp & _ & _ & E2 & _ & _ & Hk & _).
  destruct (IH Hy) as (es & Hes & Hne). exists ([e] ++ es). split.
  - eapply accounts_trans; [exact He|exact Hes|exact Epol| |].
    + intros key r. apply (evictions_subset restrict keep now x [ec_id c]); [|done]. econstructor; [done|done|constructor].
    + intros key r. by apply (evictions_subset restrict keep now y ids).
  - intros e' [->%list_elem_of_singleton|He']%elem_of_app; [congruence|by apply Hne].
Qed.

(** ** The rollback of an admission *)

Lemma prune_group_other g d k d' k' :
  om_sorted g -> (d', k') <> (d, k) -> lookup_group (prune_group g d k) d' k' = lookup_group g d' k'.
Proof.
  intros Hs Hne. unfold prune_group. destruct (om_find d g) as [kinds|] eqn:Ed; [|done].
  assert (d' = d -> om_find k' (om_erase k kinds) = om_find k' kinds) as Hk.
  { intros ->. apply om_find_erase_ne. congruence. }
  unfold lookup_group. destruct (om_erase k kinds) as [|e kinds'].
  - destruct (decide (d' = d)) as [->|Hd]; [|by rewrite om_find_erase_ne].
    rewrite Ed, <- Hk, om_find_erase_eq by done. done.
  - destruct (decide (d' = d)) as [->|Hd]; [|by rewrite om_find_set_ne].
    rewrite om_find_set_eq, Ed. by apply Hk.
Qed.

(** The records of one group. *)
Definition group_recs (streams : list (SourceId * Stream)) (source : SourceId) : list StoredEvidence :=
  match om_find source streams with Some s => stream_records s | None => [] end.

Lemma recs_group x key group :
  lookup_group (i_groups x) (ek_device key) (ek_kind key) = Some group ->
  recs x key = group_recs (gs_streams group) (ek_source key).
Proof. intros E. unfold recs, find_stream, lookup_stream. by rewrite E. Qed.

(** Only the record with the identifier leaves the streams of the group. *)
Lemma rollback_streams_keep streams source id source' r :
  r ∈ group_recs streams source' -> (source' = source -> stored_id r <> id) ->
  let records := erase_first (has_id id) (group_recs streams source) in
  let streams1 := om_set source (mkStream records (highest_generation records)) streams in
  r ∈ group_recs (match records with [] => om_erase source streams1 | _ => streams1 end) source'.
Proof.
  intros Hr Hid records streams1. unfold group_recs.
  destruct (decide (source' = source)) as [->|Hne].
  - assert (r ∈ records) as Hin.
    { apply erase_first_keeps; [done|]. apply bool_decide_eq_false. by apply Hid. }
    destruct records as [|r0 l] eqn:E; [by apply elem_of_nil in Hin|].
    unfold streams1. by rewrite om_find_set_eq.
  - assert (om_find source' streams1 = om_find source' streams) as E by by apply om_find_set_ne.
    destruct records; [rewrite om_find_erase_ne by done|]; by rewrite E.
Qed.

Lemma admit_rollback_keeps key id x k r :
  om_sorted (i_groups x) -> r ∈ recs x k -> (k = key -> stored_id r <> id) -> r ∈ recs (admit_rollback key id x) k.
Proof.
  intros Hs Hr Hid. unfold admit_rollback. destruct (find_group x key) as [group|] eqn:Eg; [|done]. cbv zeta.
  set (s := match om_find (ek_source key) (gs_streams group) with Some s => s | None => empty_stream end).
  assert (stream_records s = group_recs (gs_streams group) (ek_source key)) as Es
    by (unfold s, group_recs; by destruct (om_find _ _)).
  rewrite Es. set (records := erase_first _ _).
  set (streams := match records with [] => _ | _ => _ end).
  set (y := if _ && _ then _ else x).
  assert (i_groups y = i_groups x) as Ey by (unfold y; by case_if).
  set (g1 := put_group (i_groups y) _ _ _).
  assert (r ∈ recs (set_i_groups g1 x) k) as H1.
  { unfold recs, find_stream, lookup_stream. cbn. unfold g1. rewrite lookup_group_put.
    destruct (ceq _ _ && ceq _ _) eqn:E.
    - apply andb_true_iff in E as [Ed%ceq_true Ek%ceq_true]. cbn. unfold find_group in Eg.
      apply rollback_streams_keep; [|intros E; apply Hid; by destruct k, key; cbn in *; subst].
      by rewrite (recs_group x k group) in Hr by (by rewrite Ed, Ek).
    - rewrite Ey. done. }
  destruct streams as [|p streams'] eqn:Estr; [destruct (gs_tombstones group) eqn:Et|]; try exact H1.
  unfold recs, find_stream, lookup_stream in H1 |- *. cbn [set_i_groups i_groups] in H1 |- *.
  destruct (decide ((ek_device k, ek_kind k) = (ek_device key, ek_kind key))) as [E|Hne].
  - injection E as Ed Ek. unfold g1 in H1. rewrite Ed, Ek, lookup_group_put_eq in H1. by apply elem_of_nil in H1.
  - rewrite prune_group_other; [exact H1| |done]. unfold g1, put_group. apply om_set_sorted. by rewrite Ey.
Qed.

Lemma admit_rollback_evictions key id x : i_evictions (admit_rollback key id x) = i_evictions x.
Proof. unfold admit_rollback. by repeat case_match. Qed.

Lemma rollback_streams_exact streams source id source' :
  om_sorted streams ->
  let records := erase_first (has_id id) (group_recs streams source) in
  let streams1 := om_set source (mkStream records (highest_generation records)) streams in
  group_recs (match records with [] => om_erase source streams1 | _ => streams1 end) source' =
  if decide (source' = source) then records else group_recs streams source'.
Proof.
  intros Hs records streams1. unfold group_recs at 1. case_decide as Hne; [subst source'|].
  - destruct records as [|r0 l] eqn:E; [by rewrite om_find_erase_eq by by apply om_set_sorted|].
    unfold streams1. by rewrite om_find_set_eq.
  - assert (om_find source' streams1 = om_find source' streams) as E by by apply om_find_set_ne.
    destruct records; [rewrite om_find_erase_ne by done|]; by rewrite E.
Qed.

Lemma prune_group_gone g d k :
  om_sorted g -> (forall kinds, om_find d g = Some kinds -> om_sorted kinds) ->
  lookup_group (prune_group g d k) d k = None.
Proof.
  intros Hs Hk. unfold prune_group, lookup_group. destruct (om_find d g) as [kinds|] eqn:Ed; [|by rewrite Ed].
  pose proof (om_find_erase_eq k kinds (Hk _ eq_refl)) as Hgone. destruct (om_erase k kinds) as [|e kinds'].
  - by rewrite om_find_erase_eq.
  - rewrite om_find_set_eq. exact Hgone.
Qed.

(** The rollback removes only the record with the identifier. *)
Lemma rollback_subset key id x k r :
  Inv x -> r ∈ recs (admit_rollback key id x) k ->
  if decide (k = key) then r ∈ erase_first (has_id id) (recs x key) else r ∈ recs x k.
Proof.
  intros Hx. pose proof (inv_groups _ Hx) as [Hgs Hga]. unfold admit_rollback.
  destruct (find_group x key) as [group|] eqn:Eg.
  2: { case_decide as E; [subst k|done]. unfold recs, find_stream, lookup_stream. unfold find_group in Eg.
       rewrite Eg. intros H. by apply elem_of_nil in H. }
  cbv zeta. set (s := match om_find (ek_source key) (gs_streams group) with Some s => s | None => empty_stream end).
  assert (stream_records s = group_recs (gs_streams group) (ek_source key)) as -> by (unfold s, group_recs; by destruct (om_find _ _)).
  pose proof (lookup_group_ok _ _ _ _ (inv_groups _ Hx) Eg) as (Hsort & _).
  pose proof (fun source' => rollback_streams_exact (gs_streams group) (ek_source key) id source' Hsort) as Hex. cbv zeta in Hex.
  rewrite (recs_group x key group Eg).
  set (records := erase_first _ _) in *. set (streams := match records with [] => _ | _ => _ end) in *.
  set (y := if _ && _ then _ else x). assert (i_groups y = i_groups x) as Ey by (unfold y; by case_if).
  set (g1 := put_group (i_groups y) _ _ _).
  assert (r ∈ recs (set_i_groups g1 x) k -> if decide (k = key) then r ∈ records else r ∈ recs x k) as H1.
  { unfold recs at 1, find_stream, lookup_stream. cbn. unfold g1. rewrite lookup_group_put, Ey.
    destruct (ceq _ _ && ceq _ _) eqn:E.
    - apply andb_true_iff in E as [Ed%ceq_true Ek%ceq_true]. cbn. intros Hr.
      change (r ∈ group_recs streams (ek_source k)) in Hr. rewrite Hex in Hr.
      case_decide as Hk; [rewrite decide_True; [done|by destruct k, key; cbn in *; subst]|].
      rewrite decide_False by congruence. rewrite (recs_group x k group); [done|]. by rewrite Ed, Ek.
    - intros Hr. rewrite decide_False; [done|]. intros ->. by rewrite !ceq_refl in E. }
  destruct streams as [|p streams'] eqn:Estr; [destruct (gs_tombstones group) eqn:Et|]; try exact H1.
  assert (om_sorted g1) as Hg1 by (unfold g1, put_group; apply om_set_sorted; by rewrite Ey).
  intros Hr. apply H1. unfold recs, find_stream, lookup_stream in Hr |- *. cbn [set_i_groups i_groups] in Hr |- *.
  destruct (decide ((ek_device k, ek_kind k) = (ek_device key, ek_kind key))) as [E|Hne].
  - injection E as Ed Ek. rewrite Ed, Ek, prune_group_gone in Hr; [by apply elem_of_nil in Hr|done|].
    intros kinds Ekinds. unfold g1, put_group in Ekinds. rewrite om_find_set_eq in Ekinds. injection Ekinds as <-.
    apply om_set_sorted. rewrite Ey. destruct (om_find (ek_device key) (i_groups x)) as [kinds0|] eqn:E0; [|constructor].
    exact (proj1 (om_all_find _ _ _ _ Hga E0)).
  - by rewrite prune_group_other in Hr.
Qed.

(** What the rollback leaves was there, and it takes nothing but the record. *)
Lemma rollback_sub key id x k r : Inv x -> r ∈ recs (admit_rollback key id x) k -> r ∈ recs x k.
Proof.
  intros Hx Hr. pose proof (rollback_subset key id x k r Hx Hr) as H. case_decide as Hk; [subst k|done].
  eapply elem_of_sublist; [exact H|apply erase_first_sublist].
Qed.

Lemma accounts_rollback x z es key id :
  accounts x z es -> Inv z -> (forall r, r ∈ recs x key -> stored_id r <> id) ->
  accounts x (admit_rollback key id z) es.
Proof.
  intros A Hz Hid. eapply accounts_after; [exact A|apply admit_rollback_evictions| |].
  - intros k r. by apply rollback_sub.
  - intros k r r' Hr Hl Hr'. apply admit_rollback_keeps; [apply Hz|done|]. intros ->. rewrite (later_id _ _ Hl). by apply Hid.
Qed.

(** ** Admission *)

Lemma later_here (P : StoredEvidence -> Prop) r : P r -> exists r', later r r' /\ P r'.
Proof. intros Hr. exists r. split; [constructor|done]. Qed.

Lemma insert_put_keeps x key s r0 n :
  recs x key = stream_records s -> keeps x (set_stream key (mkStream (insert_by record_key r0 (stream_records s)) n) x).
Proof.
  intros E. apply put_keeps. intros r Hr. apply (later_here (fun r' => r' ∈ _)). cbn.
  rewrite insert_by_perm, <- E. by right.
Qed.

Lemma inserted_recs x key s stored n k r :
  recs x key = stream_records s -> r ∈ recs x k ->
  r ∈ recs (set_stream key (mkStream (insert_by record_key stored (stream_records s)) n) x) k.
Proof.
  intros E Hr. rewrite recs_put. case_decide as Hk; [subst k|done]. cbn. rewrite insert_by_perm, <- E. by right.
Qed.

Lemma inserted_recs_inv x key s stored n k r :
  recs x key = stream_records s ->
  r ∈ recs (set_stream key (mkStream (insert_by record_key stored (stream_records s)) n) x) k ->
  r ∈ recs x k \/ (k = key /\ r = stored).
Proof.
  intros E Hr. rewrite recs_put in Hr. case_decide as Hk; [subst k|by left]. cbn in Hr.
  rewrite insert_by_perm in Hr. apply elem_of_cons in Hr as [->|Hr]; [by right|left]. by rewrite E.
Qed.

Lemma refresh_conflict_recs d k now x key : recs (refresh_conflict d k now x) key = recs x key.
Proof.
  pose proof (refresh_conflict_core d k now x) as Hc. unfold core in Hc. unfold recs, find_stream.
  by replace (i_groups (refresh_conflict d k now x)) with (i_groups x) by congruence.
Qed.

Lemma admit_accept_accounts key e s now x :
  Inv x -> find_stream x key = Some s ->
  (forall reason, record_ok key (mkStored e LcAdmitted reason now None Ok_)) ->
  evidence_id e ∉ map stored_id (stream_records s) -> stream_max_generation s < ce_generation e ->
  exists es, accounts x (snd (admit_accept key e s now x)) es.
Proof.
  intros Hx Hs Hr Hid Hgen. unfold admit_accept. cbv zeta.
  pose proof (lookup_stream_ok _ _ _ (inv_groups _ Hx) Hs) as Hso.
  set (stored := mkStored e LcAdmitted _ now None Ok_). set (y := set_i_total_records _ _).
  assert (recs x key = stream_records s) as Er by (unfold recs; by rewrite Hs).
  assert (Inv y) as Hy.
  { apply (set_stream_inv key s _ 1 x); [done..| |]; [by apply accepted_stream_ok|].
    unfold stream_len. simpl. rewrite insert_by_len. lia. }
  destruct (enforce_budget_run key (evidence_id e) now y Hy) as (ok & y1 & z & ids1 & ids2 & -> & H1 & H2 & _).
  destruct (evictions_inv _ _ _ _ _ _ H1 Hy) as (Hy1 & _). destruct (evictions_inv _ _ _ _ _ _ H2 Hy1) as (Hz & _).
  destruct (evictions_account _ _ _ _ _ _ H1 Hy) as (es1 & A1 & K1).
  destruct (evictions_account _ _ _ _ _ _ H2 Hy1) as (es2 & A2 & K2).
  assert (accounts x z (es1 ++ es2)) as A.
  { apply (accounts_before x y z _ (evidence_id e)); [|done|done| | |].
    - eapply accounts_trans; [exact A1|exact A2| | |].
      + pose proof (evictions_frame _ _ _ _ _ _ H1) as F. unfold frame in F. congruence.
      + intros k r. by apply (evictions_subset _ _ _ _ _ _ _ _ H1).
      + intros k r. by apply (evictions_subset _ _ _ _ _ _ _ _ H2).
    - intros k r. unfold y. by apply inserted_recs.
    - intros k r Hin. unfold y in Hin. by apply (inserted_recs_inv x key s stored _ _ _ Er) in Hin as [|[_ ->]]; [left|right].
    - intros e0 [He|He]%elem_of_app; [by apply K1|by apply K2]. }
  exists (es1 ++ es2). destruct ok; cbn [snd].
  - apply (accounts_after x z _ _ A); [by rewrite refresh_conflict_evictions| |];
      [intros k r|intros k r r' _ _]; rewrite refresh_conflict_recs; done.
  - apply (accounts_after x (admit_rollback key (evidence_id e) z)); [|done|done|done].
    apply accounts_rollback; [exact A|exact Hz|]. intros r Hrx Eid. apply Hid. rewrite Er in Hrx. rewrite <- Eid.
    by apply list_elem_of_fmap_2.
Qed.

Lemma admit_refused_keeps key e s reason now x :
  recs x key = stream_records s -> keeps x (snd (admit_refused key e s reason now x)).
Proof.
  intros E. unfold admit_refused. cbv zeta. cbn [snd]. case_if; [|by apply keeps_groups].
  eapply keeps_trans; [|apply refresh_conflict_keeps].
  set (y := count inc_c_admissions_rejected x). apply (keeps_trans _ y); [by apply keeps_groups|].
  eapply keeps_trans; [apply (insert_put_keeps y key s); exact E|by apply keeps_groups].
Qed.

Lemma ensure_stream_keeps key x : keeps x (snd (ensure_stream key x)).
Proof.
  unfold ensure_stream. destruct (find_stream x key) as [s|] eqn:E; [apply keeps_refl|].
  apply (put_keeps x key empty_stream). intros r Hr. unfold recs in Hr. rewrite E in Hr. by apply elem_of_nil in Hr.
Qed.

Lemma ensure_stream_recs key x k : recs (snd (ensure_stream key x)) k = recs x k.
Proof.
  unfold ensure_stream. destruct (find_stream x key) as [s|] eqn:E; [done|].
  pose proof (recs_put x key empty_stream k) as Hp. unfold set_stream in Hp. cbn [snd]. rewrite Hp.
  case_decide as Hk; [subst k|done]. unfold recs. by rewrite E.
Qed.

Lemma admit_record_accounts key e now x :
  Inv x -> (forall lc reason, record_ok key (mkStored e lc reason now None Ok_)) ->
  exists es, accounts x (snd (admit_record key e now x)) es.
Proof.
  intros Hx Hr. unfold admit_record. pose proof (ensure_stream_keeps key x) as Hk.
  pose proof (ensure_stream_recs key x) as Hsame.
  assert (i_policy (snd (ensure_stream key x)) = i_policy x) as Hpol by (unfold ensure_stream; by case_match).
  destruct (ensure_stream key x) as [s y] eqn:Ee. cbn [snd] in Hk, Hsame, Hpol.
  destruct (ensure_stream_inv _ _ _ _ Ee Hx) as (Hy & Hs & Hso & _).
  assert (recs y key = stream_records s) as Er by (unfold recs; by rewrite Hs).
  assert (forall z, keeps y z -> exists es, accounts x z es) as Hkeep.
  { intros z Hz. exists []. by eapply keeps_accounts, keeps_trans. }
  destruct (existsb _ _) eqn:Ed; [by apply Hkeep, keeps_groups|]. apply has_id_absent in Ed.
  destruct Hso as [_ Hm]. pose proof (highest_generation_nonneg (stream_records s)).
  destruct (Hr LcAdmitted Ok_) as (_ & Hpos & _). unfold stored_generation in Hpos. simpl in Hpos.
  destruct (negb (stream_max_generation s =? 0) && (ce_generation e <? stream_max_generation s)) eqn:E1;
    [by apply Hkeep, admit_refused_keeps|].
  destruct (negb (stream_max_generation s =? 0) && (ce_generation e =? stream_max_generation s)) eqn:E2;
    [by apply Hkeep, admit_refused_keeps|].
  assert (stream_max_generation s < ce_generation e) as Hgen by lia.
  destruct (admit_accept_accounts key e s now y Hy Hs (Hr LcAdmitted) Ed Hgen) as [es A]. exists es.
  by apply (accounts_same x y); [exact A|exact Hsame|apply Hk|].
Qed.

Lemma register_device_keeps device x y : register_device device x = inr y -> keeps x y.
Proof.
  unfold register_device, raise_next_incarnation. repeat case_match; intros [= <-]; by apply keeps_groups.
Qed.

Lemma register_device_groups d x y : register_device d x = inr y -> i_groups y = i_groups x.
Proof. unfold register_device, raise_next_incarnation. repeat case_match; by intros [= <-]. Qed.

Lemma registry_admit_accounts q now x :
  Inv x -> admission_ok q -> exists es, accounts x (snd (registry_admit q now x)) es.
Proof.
  intros Hx Hq. unfold registry_admit.
  assert (forall reason detail y, keeps x y -> exists es, accounts x (snd (admit_reject reason detail y)) es) as Hrej.
  { intros reason detail y Hy. exists []. apply keeps_accounts. eapply keeps_trans; [exact Hy|by apply keeps_groups]. }
  destruct (admit_guard q now x) as [[reason detail]|] eqn:Eg; [apply Hrej, keeps_refl|].
  destruct (admit_content q x) as [[reason detail]|]; [apply Hrej, keeps_refl|].
  destruct (register_device (aq_device q) x) as [detail|y] eqn:Er; [apply Hrej, keeps_refl|].
  pose proof (register_device_keeps _ _ _ Er) as Hk. destruct (register_device_inv _ _ _ Er Hx) as (Hy & _).
  cbv zeta. destruct (_ && _); [by apply Hrej|]. case_if; [by apply Hrej|].
  destruct (admit_record_accounts (admission_key q) (admission_evidence q y) now y Hy) as [es A].
  - intros lc reason. apply admission_record_ok.
    unfold admit_guard, is_unset in Eg. destruct (aq_generation q =? 0) eqn:E0; [done|].
    unfold admission_ok, in_u in Hq. lia.
  - exists es. apply (accounts_same x y); [exact A| |apply Hk|].
    + intros key. unfold recs, find_stream. by rewrite (register_device_groups _ _ _ Er).
    + by destruct (register_device_frame _ _ _ Er) as [-> _].
Qed.

(** ** The other operations *)

Lemma push_tombstone_keeps t x : keeps x (push_tombstone t x).
Proof.
  assert (forall key, find_stream (set_i_groups (put_tombstone (i_groups x) (rr_key t) t) x) key = find_stream x key) as H
    by (intros key; apply lookup_stream_put_tombstone).
  unfold push_tombstone. cbv zeta. case_if; [apply keeps_refl|]. case_if; [|by apply keeps_same].
  destruct (oldest_tombstone _) as [[oldest t']|]; [|by apply keeps_same]. case_if; [|by apply keeps_same].
  apply keeps_same; [|done]. intros key. rewrite <- H. unfold find_stream. apply erase_tombstone_stream.
Qed.

Lemma retire_keeps q now x : keeps x (snd (retire q now x)).
Proof.
  unfold retire. cbv zeta. case_if; [by apply keeps_groups|]. case_if; [by apply keeps_groups|].
  destruct (find_device _ _); [|by apply keeps_groups]. case_if; [by apply keeps_groups|].
  case_if; [by apply keeps_groups|]. destruct (find_stream x _) as [s|] eqn:Es; [|by apply keeps_groups].
  case_if; [by apply keeps_groups|]. unfold retire_stream. cbn [snd].
  eapply keeps_trans; [|apply refresh_conflict_keeps]. set (t := retirement_record q now x).
  set (y := set_stream (retirement_key q) _ x). assert (keeps x y) as Hy.
  { apply put_keeps. intros r Hr. unfold recs in Hr. rewrite Es in Hr. cbn.
    exists (retire_record (rt_generation q) now (rr_reason t) r). split; [|by apply list_elem_of_fmap_2].
    unfold retire_record. destruct (retires _ r) eqn:E; [|constructor].
    apply andb_true_iff in E as [_ E]. apply later_retired. by apply bool_decide_eq_true in E. }
  eapply keeps_trans; [exact Hy|]. eapply keeps_trans; [apply (push_tombstone_keeps t)|by apply keeps_groups].
Qed.

Lemma take_incarnation_keeps x : keeps x (snd (take_incarnation x)).
Proof. by apply keeps_groups. Qed.

Lemma raise_next_keeps n x : keeps x (raise_next_incarnation n x).
Proof. unfold raise_next_incarnation. case_if; by apply keeps_groups. Qed.

Lemma begin_incarnation_keeps d now x : keeps x (snd (begin_device_incarnation d now x)).
Proof.
  unfold begin_device_incarnation, take_incarnation. cbv zeta.
  destruct (find_device x d); (case_if; [by apply keeps_groups|]); cbn [snd]; [|by apply keeps_groups].
  eapply keeps_trans; [|apply refresh_all_keeps]. by apply keeps_groups.
Qed.

Lemma set_incarnation_keeps d n now x : keeps x (snd (set_device_incarnation d n now x)).
Proof.
  unfold set_device_incarnation, raise_next_incarnation. cbv zeta. case_if; [by apply keeps_groups|].
  destruct (find_device x d); (case_if; [by apply keeps_groups|]);
    repeat case_match; cbn [snd]; try (by apply keeps_groups);
    (eapply keeps_trans; [|apply refresh_all_keeps]; by apply keeps_groups).
Qed.

Lemma change_source_keeps source already change now x : keeps x (snd (change_source source already change now x)).
Proof.
  unfold change_source. destruct (find_last _ _); [|apply keeps_refl]. cbv zeta. case_if; [apply keeps_refl|].
  eapply keeps_trans; [|apply refresh_all_keeps]. by apply keeps_groups.
Qed.

Lemma upsert_source_keeps p now x : keeps x (snd (upsert_source_policy p now x)).
Proof.
  unfold upsert_source_policy. case_if; [apply keeps_refl|]. cbv zeta. case_if.
  - eapply keeps_trans; [|apply refresh_all_keeps]. by apply keeps_groups.
  - case_if; [apply keeps_refl|]. eapply keeps_trans; [|apply refresh_all_keeps]. by apply keeps_groups.
Qed.

Lemma resolve_conflict_keeps c e r now x : keeps x (snd (resolve_conflict c e r now x)).
Proof.
  unfold resolve_conflict, push_resolution. destruct (find_last _ _); [|apply keeps_refl]. cbv zeta.
  repeat case_if; by apply keeps_groups.
Qed.

Lemma trim_decisions_keeps order x : keeps x (trim_decisions order x).
Proof.
  revert x. induction order as [|id order IH]; intros x; cbn [trim_decisions]; [by apply keeps_groups|]. cbv zeta.
  case_if; [|by apply keeps_groups]. eapply keeps_trans; [|apply IH]. case_if; by apply keeps_groups.
Qed.

Lemma evaluate_keeps r now x : keeps x (snd (evaluate r now x)).
Proof.
  unfold evaluate, push_decision. cbn [snd]. cbv zeta. destruct (om_find _ _); [by apply keeps_groups|].
  eapply keeps_trans; [apply (trim_decisions_keeps (i_decision_order x))|]. by apply keeps_groups.
Qed.

(** ** Runs *)

(** One operation of a registry in service: every one but [adopt_state], which
    replaces the whole state. *)
Inductive serving : Impl -> Impl -> Prop :=
| sv_admit q now x : admission_ok q -> serving x (snd (registry_admit q now x))
| sv_retire q now x : serving x (snd (retire q now x))
| sv_begin_device_incarnation d now x : serving x (snd (begin_device_incarnation d now x))
| sv_set_device_incarnation d n now x : serving x (snd (set_device_incarnation d n now x))
| sv_revoke_source s now x : serving x (snd (revoke_source s now x))
| sv_restore_source s now x : serving x (snd (restore_source s now x))
| sv_set_source_authority s a now x : serving x (snd (set_source_authority s a now x))
| sv_upsert_source_policy p now x : serving x (snd (upsert_source_policy p now x))
| sv_resolve_conflict c e r now x : serving x (snd (resolve_conflict c e r now x))
| sv_set_rule_generation n x : serving x (snd (set_rule_generation n x))
| sv_advance_epoch x : serving x (snd (advance_epoch x))
| sv_set_logical_tick now x : serving x (snd (set_logical_tick now x))
| sv_set_limits l x : serving x (set_limits l x)
| sv_evaluate r now x : serving x (snd (evaluate r now x)).

Lemma serving_step x y : serving x y -> step x y.
Proof. destruct 1; by constructor. Qed.

Lemma serving_accounts x y : serving x y -> Inv x -> exists es, accounts x y es.
Proof.
  intros H Hx.
  assert (keeps x y -> exists es, accounts x y es) as Hk by (intros Hk; exists []; by apply keeps_accounts).
  destruct H; [by apply registry_admit_accounts| | | | | | | | | | | | |]; apply Hk.
  - apply retire_keeps.
  - apply begin_incarnation_keeps.
  - apply set_incarnation_keeps.
  - apply change_source_keeps.
  - apply change_source_keeps.
  - apply change_source_keeps.
  - apply upsert_source_keeps.
  - apply resolve_conflict_keeps.
  - unfold set_rule_generation. repeat case_if; by apply keeps_groups.
  - by apply keeps_groups.
  - unfold set_logical_tick. case_if; by apply keeps_groups.
  - by apply keeps_groups.
  - apply evaluate_keeps.
Qed.

(** A run with the account of each of its operations. *)
Inductive ledger_run : Impl -> list EvictionEntry -> Impl -> Prop :=
| ledger_run_refl x : ledger_run x [] x
| ledger_run_step x y z es1 es2 :
    serving x y -> accounts x y es1 -> ledger_run y es2 z -> ledger_run x (es1 ++ es2) z.

Lemma run_accounts x y : rtc serving x y -> Inv x -> Inv y /\ exists es, ledger_run x es y.
Proof.
  induction 1 as [x|x y z Hxy _ IH]; intros Hx; [split; [done|]; exists []; constructor|].
  assert (Inv y) as Hy by (eapply step_inv; [by apply serving_step|done]).
  destruct (serving_accounts _ _ Hxy Hx) as [es1 A1]. destruct (IH Hy) as [Hz [es2 A2]].
  split; [done|]. exists (es1 ++ es2). by eapply ledger_run_step.
Qed.

(** Along a run, every record is still there or has its entry. *)
Lemma run_records x es y :
  ledger_run x es y -> forall key r, r ∈ recs x key ->
    (exists r', later r r' /\ r' ∈ recs y key) \/ (exists e, e ∈ es /\ entry_of key r e).
Proof.
  induction 1 as [x|x y z es1 es2 _ A1 _ IH]; intros key r Hr; [left; exists r; split; [constructor|done]|].
  destruct (ac_records _ _ _ A1 key r Hr) as [(r' & Hl & Hr')|(e & He & Hof)].
  - destruct (IH key r' Hr') as [(r'' & Hl' & Hr'')|(e & He & H1 & H2 & H3)].
    + left. exists r''. split; [by eapply later_trans|done].
    + right. exists e. split; [apply elem_of_app; by right|]. unfold entry_of.
      by rewrite H1, H2, H3, (later_id _ _ Hl), (later_generation _ _ Hl).
  - right. exists e. split; [apply elem_of_app; by left|done].
Qed.

(** The newest generation of a stream is the highest among its records. *)
Lemma newest_highest x key : Inv x -> newest x key = highest_generation (recs x key).
Proof.
  intros Hx. unfold newest, recs. destruct (find_stream x key) as [s|] eqn:E; [|done].
  by destruct (lookup_stream_ok _ _ _ (inv_groups _ Hx) E) as [_ ->].
Qed.

Lemma run_newest x y es key :
  Inv x -> Inv y -> ledger_run x es y ->
  newest x key <= newest y key \/ exists e, e ∈ es /\ ev_key e = key /\ ev_generation e = newest x key.
Proof.
  intros Hx Hy Hrun. pose proof (run_records x es y Hrun) as R. rewrite !newest_highest by done.
  destruct (highest_generation_attained (recs x key)) as [E|(r & Hr & Hg)].
  - left. rewrite E. apply highest_generation_nonneg.
  - destruct (R key r Hr) as [(r' & Hl & Hr')|(e & He & _ & Hk & Hgen)].
    + left. rewrite <- Hg, <- (later_generation _ _ Hl). by apply highest_generation_le.
    + right. exists e. rewrite Hgen. done.
Qed.

(** C5: no record is lost silently.  In any run of the operations that serve a
    registry (all but [adopt_state], which replaces the whole state), each
    operation accounts for its evictions exactly, whatever its outcome: a record
    that was in a stream is still in it, as it was or retired, or is evicted; the
    evictions are distinct, each is of a record that was there and is no longer;
    and the ledger is the old one on which exactly their entries were pushed, in
    order, the oldest entry leaving when it is at its bound.  So along the whole
    run a record is kept or has its entry among those pushed, and the newest
    generation of a stream, which fences replayed evidence, goes back only when
    the record of that generation has its entry among them. *)
Theorem evidence_accounted x y :
  reachable x -> rtc serving x y ->
  exists es, ledger_run x es y /\
    (forall key r, r ∈ recs x key ->
       (exists r', later r r' /\ r' ∈ recs y key) \/ (exists e, e ∈ es /\ entry_of key r e)) /\
    forall key, newest x key <= newest y key \/
      exists e, e ∈ es /\ ev_key e = key /\ ev_generation e = newest x key.
Proof.
  intros Hx%reachable_inv Hrun. destruct (run_accounts x y Hrun Hx) as (Hy & es & R).
  exists es. split; [exact R|]. split; [by apply run_records|]. intros key. by apply run_newest.
Qed.

(** A registry that may keep one record: the second admission evicts the first. *)
Module Tight.
#[local] Open Scope string_scope.

Definition limits : RegistryLimits := mkLimits 4096 64 65536 1 64 16384 16384 16384 65536 1024 8192 64 64 64 64.
Definition start : Impl := snd (registry_admit (Sample.request "driver-selfreport" 1) 10
  (registry_create (set_rp_limits limits make_lab_policy))).
Definition after : Impl := snd (registry_admit (Sample.request "driver-selfreport" 2) 11 start).
Definition key : EvidenceKey := mkEvidenceKey Sample.device ChecksumOffload "driver-selfreport".

Lemma tight_reachable : reachable start.
Proof. eapply reach_step; [apply reach_create|]. by apply step_admit, Sample.request_ok. Qed.

Lemma run : rtc serving start after.
Proof. eapply rtc_once, sv_admit. by apply Sample.request_ok. Qed.
End Tight.

Lemma evidence_accounted_witness :
  length (recs Tight.start Tight.key) = 1%nat /\ length (i_evictions Tight.after) = 1%nat /\
  exists es, ledger_run Tight.start es Tight.after.
Proof.
  split; [vm_compute; reflexivity|]. split; [vm_compute; reflexivity|].
  destruct (evidence_accounted Tight.start Tight.after Tight.tight_reachable Tight.run) as (es & A & _).
  exists es. exact A.
Defined.
