(* ===== verification/RefusalThms.v ===== *)
(** * The registry engine: refused operations (src/registry.cpp)

    An operation whose outcome is a failure changes nothing but a counter.  The
    exceptions are admissions that get as far as the device table, which keeps
    the device they name, and those that fail to make room, whose evictions stay
    and are in the ledger; no refused admission leaves a record of its own. *)

From Stdlib Require Import ZArith Lia ZifyBool String.
From stdpp Require Import base tactics list strings.
From S2P Require Import Prelude OrdMap Checked Reason Name SemVer Hash Catalog Evidence State.
From S2P Require Import Codec CodecTypes Registry RegistryOps RegistryInv Derivation RegistryThms AdmissionThms LedgerThms.

#[local] Open Scope Z_scope.
#[local] Open Scope list_scope.
#[local] Opaque digest_of compute_digest.

(** ** Admissions *)

(** What a refused admission may leave behind, by the reason it reports. *)
Inductive refused (q : AdmissionRequest) (x : Impl) : ReasonCode -> Impl -> Prop :=
| refused_outright reason : refused q x reason (count inc_c_admissions_rejected x)
| refused_stream reason x' :
    reason = RejectedStreamBudgetExhausted \/ reason = RejectedRetiredStream ->
    register_device (aq_device q) x = inr x' -> refused q x reason (count inc_c_admissions_rejected x')
| refused_budget es x' y :
    register_device (aq_device q) x = inr x' -> frame y = frame x' ->
    (forall key, find_tombstone y key = find_tombstone x key) ->
    accounts x y es -> (forall key r, r ∈ recs y key -> r ∈ recs x key) ->
    refused q x RejectedRecordBudgetExhausted y.

(** The rollback changes neither the rules nor the tombstones. *)
Lemma rollback_frame key id x : frame (admit_rollback key id x) = frame x.
Proof. unfold admit_rollback. by repeat case_match. Qed.

Lemma rollback_tombstone key id x k : Inv x -> find_tombstone (admit_rollback key id x) k = find_tombstone x k.
Proof.
  intros Hx. pose proof (inv_groups _ Hx) as [Hgs Hga]. unfold admit_rollback.
  destruct (find_group x key) as [group|] eqn:Eg; [|done]. cbv zeta.
  set (records := erase_first _ _). set (streams := match records with [] => _ | _ => _ end).
  set (y := if _ && _ then _ else x). assert (i_groups y = i_groups x) as Ey by (unfold y; by case_if).
  set (g1 := put_group (i_groups y) _ _ _). unfold find_group in Eg.
  assert (lookup_tombstone g1 k = find_tombstone x k) as H1.
  { rewrite find_tombstone_lookup. unfold lookup_tombstone, g1. rewrite lookup_group_put, Ey.
    destruct (ceq _ _ && ceq _ _) eqn:E; [|done].
    apply andb_true_iff in E as [Ed%ceq_true Ek%ceq_true]. by rewrite Ed, Ek, Eg. }
  destruct streams as [|p l] eqn:Es; [destruct (gs_tombstones group) as [|t ts] eqn:Et|]; try exact H1.
  rewrite find_tombstone_lookup, <- H1. cbn [set_i_groups i_groups].
  assert (om_sorted g1) as Hg1 by (unfold g1, put_group; apply om_set_sorted; by rewrite Ey).
  unfold lookup_tombstone.
  destruct (decide ((ek_device k, ek_kind k) = (ek_device key, ek_kind key))) as [E|Hne]; [|by rewrite prune_group_other].
  injection E as Ed Ek. rewrite Ed, Ek, prune_group_gone; [unfold g1; by rewrite lookup_group_put_eq|done|].
  intros kinds Ekinds. unfold g1, put_group in Ekinds. rewrite om_find_set_eq in Ekinds. injection Ekinds as <-.
  apply om_set_sorted. rewrite Ey. destruct (om_find (ek_device key) (i_groups x)) as [kinds0|] eqn:E0; [|constructor].
  exact (proj1 (om_all_find _ _ _ _ Hga E0)).
Qed.

Lemma recs_nodup x key : Inv x -> NoDup (map stored_id (recs x key)).
Proof.
  intros Hx. unfold recs. destruct (find_stream x key) as [s|] eqn:E; [|constructor].
  by destruct (lookup_stream_ok _ _ _ (inv_groups _ Hx) E) as [(_ & _ & Hn) _].
Qed.

(** The rollback of an admission that found no room takes the record out. *)
Lemma accept_fails_subset key e s now x o y :
  Inv x -> find_stream x key = Some s ->
  (forall reason, record_ok key (mkStored e LcAdmitted reason now None Ok_)) ->
  evidence_id e ∉ map stored_id (stream_records s) -> stream_max_generation s < ce_generation e ->
  admit_accept key e s now x = (o, y) -> outcome_ok o = false ->
  outcome_reason o = RejectedRecordBudgetExhausted /\ frame y = frame x /\
  (forall k, find_tombstone y k = find_tombstone x k) /\ forall k r, r ∈ recs y k -> r ∈ recs x k.
Proof.
  intros Hx Hs Hr Hid Hgen. unfold admit_accept. cbv zeta.
  pose proof (lookup_stream_ok _ _ _ (inv_groups _ Hx) Hs) as Hso.
  set (stored := mkStored e LcAdmitted _ now None Ok_). set (w := set_i_total_records _ _).
  assert (Inv w) as Hw.
  { apply (set_stream_inv key s _ 1 x); [done..| |]; [by apply accepted_stream_ok|].
    unfold stream_len. simpl. rewrite insert_by_len. lia. }
  destruct (enforce_budget_run key (evidence_id e) now w Hw) as (ok & w1 & z & ids1 & ids2 & -> & H1 & H2 & _).
  destruct (evictions_inv _ _ _ _ _ _ H1 Hw) as (Hw1 & _). destruct (evictions_inv _ _ _ _ _ _ H2 Hw1) as (Hz & _).
  assert (forall k r, r ∈ recs z k -> r ∈ recs w k) as Hsub.
  { intros k r Hin. eapply evictions_subset; [exact H1|done|]. by eapply evictions_subset. }
  destruct ok; [by intros [= <- _]|]. intros [= <- <-] _. split; [done|]. split; [|split].
  { change (frame (admit_rollback key (evidence_id e) z) = frame w).
    by rewrite rollback_frame, (evictions_frame _ _ _ _ _ _ H2), (evictions_frame _ _ _ _ _ _ H1). }
  { intros k. transitivity (find_tombstone w k); [|rewrite !find_tombstone_lookup; apply lookup_tombstone_put_stream].
    transitivity (find_tombstone (admit_rollback key (evidence_id e) z) k); [done|].
    by rewrite rollback_tombstone, (evictions_tombstone _ _ _ _ _ _ k H2 Hw1), (evictions_tombstone _ _ _ _ _ _ k H1 Hw). }
  intros k r Hin.
  pose proof (rollback_subset key (evidence_id e) z k r Hz Hin) as Hb. case_decide as Hk.
  - subst k. apply erase_first_absent in Hb as [Hb Hne]; [|by apply recs_nodup]. apply Hsub in Hb.
    unfold w in Hb. change (r ∈ recs (set_stream key (mkStream (insert_by record_key stored (stream_records s)) (ce_generation e)) x) key) in Hb.
    rewrite recs_put, decide_True in Hb by done. cbn [stream_records] in Hb.
    rewrite (insert_by_perm record_key stored (stream_records s)) in Hb.
    apply elem_of_cons in Hb as [->|Hb]; [by destruct Hne|]. unfold recs. by rewrite Hs.
  - apply Hsub in Hb. change (r ∈ recs (set_stream key (mkStream (insert_by record_key stored (stream_records s)) (ce_generation e)) x) k) in Hb.
    by rewrite recs_put, decide_False in Hb.
Qed.

Lemma record_fails_refused key e now x o y :
  Inv x -> (forall lc reason, record_ok key (mkStored e lc reason now None Ok_)) ->
  admit_record key e now x = (o, y) -> outcome_ok o = false ->
  outcome_reason o = RejectedRecordBudgetExhausted /\ frame y = frame x /\
  (forall k, find_tombstone y k = find_tombstone x k) /\ forall k r, r ∈ recs y k -> r ∈ recs x k.
Proof.
  intros Hx Hr. unfold admit_record. destruct (ensure_stream key x) as [s w] eqn:Ee.
  destruct (ensure_stream_inv _ _ _ _ Ee Hx) as (Hw & Hs & Hso & _).
  pose proof (ensure_stream_recs key x) as Hsub. rewrite Ee in Hsub. cbn [snd] in Hsub.
  assert (frame w = frame x /\ forall k, find_tombstone w k = find_tombstone x k) as [Hf Ht].
  { unfold ensure_stream in Ee. destruct (find_stream x key); injection Ee as <- <-; [done|]. split; [done|].
    intros k. rewrite !find_tombstone_lookup. apply lookup_tombstone_put_stream. }
  destruct (existsb _ _) eqn:Ed; [by intros [= <- _]|]. apply has_id_absent in Ed.
  destruct Hso as [_ Hm]. pose proof (highest_generation_nonneg (stream_records s)).
  destruct (Hr LcAdmitted Ok_) as (_ & Hpos & _). unfold stored_generation in Hpos. simpl in Hpos.
  destruct (negb (stream_max_generation s =? 0) && (ce_generation e <? stream_max_generation s)) eqn:E1;
    [by intros [= <- _]|].
  destruct (negb (stream_max_generation s =? 0) && (ce_generation e =? stream_max_generation s)) eqn:E2;
    [by intros [= <- _]|].
  intros Ha Ho. assert (stream_max_generation s < ce_generation e) as Hgen by lia.
  destruct (accept_fails_subset key e s now w o y Hw Hs (Hr LcAdmitted) Ed Hgen Ha Ho) as (Hreason & Hyf & Hyt & Hy).
  split_and!; [done|congruence|intros k; by rewrite Hyt|]. intros k r Hin. rewrite <- Hsub. by apply Hy.
Qed.

Lemma admit_fails_refused q now x o y :
  Inv x -> admission_ok q -> registry_admit q now x = (o, y) -> outcome_ok o = false ->
  refused q x (outcome_reason o) y.
Proof.
  intros Hx Hq Ha Hf. destruct (registry_admit_accounts q now x Hx Hq) as [es A]. rewrite Ha in A. cbn [snd] in A.
  revert Ha. unfold registry_admit.
  destruct (admit_guard q now x) as [[reason detail]|] eqn:Eg; [intros [= _ <-]; constructor|].
  destruct (admit_content q x) as [[reason detail]|]; [intros [= _ <-]; constructor|].
  destruct (register_device (aq_device q) x) as [detail|w] eqn:Er; [intros [= _ <-]; constructor|].
  cbv zeta. case_if; [intros [= <- <-]; apply refused_stream; [by left|done]|].
  case_if; [intros [= <- <-]; apply refused_stream; [by right|done]|].
  destruct (register_device_inv _ _ _ Er Hx) as (Hw & _).
  intros Ha. destruct (record_fails_refused (admission_key q) (admission_evidence q w) now w o y Hw)
    as (-> & Hyf & Hyt & Hsub); try done.
  - intros lc reason. apply admission_record_ok.
    unfold admit_guard, is_unset in Eg. destruct (aq_generation q =? 0) eqn:E0; [done|].
    unfold admission_ok, in_u in Hq. lia.
  - apply (refused_budget q x es w); [done|done| |exact A|]; pose proof (register_device_groups _ _ _ Er) as Eg'.
    + intros k. rewrite Hyt. unfold find_tombstone, find_group. by rewrite Eg'.
    + intros k r Hin. apply Hsub in Hin. unfold recs, find_stream in Hin |- *. by rewrite Eg' in Hin.
Qed.

(** ** The other operations *)

(** A failing operation has no value and leaves the state as it was. *)
Definition inert {A} (x : Impl) (p : Outcome A * Impl) : Prop :=
  outcome_ok (fst p) = false -> oc_value (fst p) = None /\ snd p = x.

(** A failing retirement is counted, and nothing else. *)
Lemma retire_fails q now x :
  outcome_ok (fst (retire q now x)) = false ->
  oc_value (fst (retire q now x)) = None /\ snd (retire q now x) = count inc_c_retirements_rejected x.
Proof.
  unfold retire. cbv zeta. case_if; [done|]. case_if; [done|]. destruct (find_device _ _); [|done].
  case_if; [done|]. case_if; [done|]. destruct (find_stream _ _); [|done]. by case_if.
Qed.

Lemma begin_incarnation_inert d now x : inert x (begin_device_incarnation d now x).
Proof. unfold inert, begin_device_incarnation. cbv zeta. destruct (find_device x d); by case_if. Qed.

Lemma set_incarnation_inert d n now x : inert x (set_device_incarnation d n now x).
Proof.
  unfold inert, set_device_incarnation. cbv zeta. case_if; [done|].
  destruct (find_device x d); case_if; try done. by case_if.
Qed.

Lemma change_source_inert s already change now x : inert x (change_source s already change now x).
Proof. unfold inert, change_source. cbv zeta. destruct (find_last _ _); [by case_if|done]. Qed.

Lemma upsert_source_inert p now x : inert x (upsert_source_policy p now x).
Proof. unfold inert, upsert_source_policy. cbv zeta. case_if; [done|]. set (p' := if _ && _ then _ else p). by repeat case_if. Qed.

Lemma resolve_conflict_inert c e r now x : inert x (resolve_conflict c e r now x).
Proof.
  unfold inert, resolve_conflict. cbv zeta. destruct (find_last _ _); [|done]. case_if; [done|]. case_if; [done|].
  destruct (find_source _ _); [|done]. by case_if.
Qed.

Lemma set_rule_inert n x : inert x (set_rule_generation n x).
Proof. unfold inert, set_rule_generation. by repeat case_if. Qed.

Lemma set_tick_inert now x : inert x (set_logical_tick now x).
Proof. unfold inert, set_logical_tick. by case_if. Qed.

(** ** The property *)

(** C6: what an operation that reports a failure leaves behind.  A refused
    admission adds no record.  It is counted and otherwise leaves the state as it
    was, except in two cases: refused for the bound on streams or for a
    retirement, it has registered its device; refused because no room could be
    made for its record, it has registered its device, and the records it evicted
    in trying stay evicted, each with its entry in the ledger, while every other
    record, the tombstones, the policy and the epochs are as they were.  A refused
    retirement is counted, and nothing else; a refused incarnation, source or
    policy change, conflict resolution, rule generation or clock reading leaves
    the state exactly as it was; and none of these carries a value. *)
Theorem refusals_inert x :
  reachable x ->
  (forall q now, admission_ok q -> outcome_ok (fst (registry_admit q now x)) = false ->
     refused q x (outcome_reason (fst (registry_admit q now x))) (snd (registry_admit q now x))) /\
  (forall q now, outcome_ok (fst (retire q now x)) = false ->
     oc_value (fst (retire q now x)) = None /\ snd (retire q now x) = count inc_c_retirements_rejected x) /\
  (forall d now, inert x (begin_device_incarnation d now x)) /\
  (forall d n now, inert x (set_device_incarnation d n now x)) /\
  (forall s now, inert x (revoke_source s now x)) /\
  (forall s now, inert x (restore_source s now x)) /\
  (forall s a now, inert x (set_source_authority s a now x)) /\
  (forall p now, inert x (upsert_source_policy p now x)) /\
  (forall c e r now, inert x (resolve_conflict c e r now x)) /\
  (forall n, inert x (set_rule_generation n x)) /\
  (forall now, inert x (set_logical_tick now x)).
Proof.
  intros Hx%reachable_inv. split.
  { intros q now Hq Hf. destruct (registry_admit q now x) as [o y] eqn:Ea. by eapply admit_fails_refused. }
  split; [intros q now; apply retire_fails|].
  split_and!; intros; [apply begin_incarnation_inert|apply set_incarnation_inert|apply change_source_inert|apply change_source_inert|apply change_source_inert
    |apply upsert_source_inert|apply resolve_conflict_inert|apply set_rule_inert|apply set_tick_inert].
Qed.

(** A registry whose record budget is zero refuses every admission: nothing it
    holds could make room, and no record is left behind. *)
Module NoRoom.
#[local] Open Scope string_scope.

Definition limits : RegistryLimits := mkLimits 4096 64 65536 0 64 16384 16384 16384 65536 1024 8192 64 64 64 64.
Definition start : Impl := registry_create (set_rp_limits limits make_lab_policy).
Definition request : AdmissionRequest := Sample.request "driver-selfreport" 1.
Definition key : EvidenceKey := mkEvidenceKey Sample.device ChecksumOffload "driver-selfreport".
End NoRoom.

Lemma refusals_inert_witness :
  outcome_reason (fst (registry_admit NoRoom.request 10 NoRoom.start)) = RejectedRecordBudgetExhausted /\
  recs (snd (registry_admit NoRoom.request 10 NoRoom.start)) NoRoom.key = [] /\
  refused NoRoom.request NoRoom.start (outcome_reason (fst (registry_admit NoRoom.request 10 NoRoom.start)))
    (snd (registry_admit NoRoom.request 10 NoRoom.start)).
Proof.
  split; [vm_compute; reflexivity|]. split; [vm_compute; reflexivity|].
  apply (refusals_inert NoRoom.start); [apply reach_create|done|vm_compute; reflexivity].
Defined.
