(* ===== verification/PersistThms.v ===== *)
(** * The store: recovery, atomicity and durability

    A small program logic over the scripted file system: [wp m Q d] says that
    however the operating system answers, [m] started on disk [d] ends on a disk
    and with a result satisfying [Q]; the result is [None] after a crash.  With
    it: a commit interrupted at any point leaves a store that reopens to the
    state before or the state after, and an acknowledged commit reopens to the
    committed state. *)

From Stdlib Require Import ZArith Lia String ZifyBool.
From stdpp Require Import base tactics list strings.
From S2P Require Import Prelude OrdMap Reason Text Hash Catalog Evidence State.
From S2P Require Import Codec CodecTypes CodecThms Persist PersistFormat.

#[local] Open Scope Z_scope.
#[local] Open Scope list_scope.
#[local] Opaque digest_of crc32c catalog_fingerprint reason_table_fingerprint snapshot_bytes enc_state.

(** ** Scanning a journal *)

Definition mark : Type := option (Z * Z).
Definition mark_sequence (m : mark) : Z := match m with Some (q, _) => q | None => 0 end.
Definition mark_generation (m : mark) : Z := match m with Some (_, g) => g | None => 0 end.

(** Sequences increase and generations do not decrease. *)
Fixpoint chain (m : mark) (es : list Entry) : Prop :=
  match es with
  | [] => True
  | e :: es' =>
      (match m with Some (q, g) => q < en_sequence e /\ g <= en_generation e | None => True end) /\
      chain (Some (en_sequence e, en_generation e)) es'
  end.

Definition is_snapshot (e : Entry) : bool := bool_decide (jh_kind (en_header e) = StateSnapshot).
Definition last_snapshot (es : list Entry) : option Entry := last (filter (fun e => is_snapshot e = true) es).

Lemma last_snapshot_snoc es e :
  last_snapshot (es ++ [e]) = if is_snapshot e then Some e else last_snapshot es.
Proof.
  unfold last_snapshot. rewrite filter_app. destruct (is_snapshot e) eqn:E.
  - rewrite filter_cons_True, filter_nil by done. by rewrite last_snoc.
  - rewrite filter_cons_False, filter_nil by (by rewrite E). by rewrite app_nil_r.
Qed.

Lemma last_snapshot_elem es e : last_snapshot es = Some e -> e ∈ es /\ is_snapshot e = true.
Proof.
  unfold last_snapshot. intros H. apply last_Some_elem_of in H. apply list_elem_of_filter in H. tauto.
Qed.

(** The scan's fields after the entries [es] were applied. *)
Record scanned (es : list Entry) (m : mark) (s : JournalScan) : Prop := {
  sd_bytes : sc_valid_bytes s = length (frames es);
  sd_seen : sc_entries_seen s = Z.of_nat (length es);
  sd_valid : sc_entries_valid s = Z.of_nat (length es);
  sd_discarded : sc_bytes_discarded s = 0;
  sd_torn : sc_truncated_tail s = false;
  sd_corrupt : sc_corrupt s = false;
  sd_notes : sc_notes s = [];
  sd_payload : sc_last_snapshot_payload s = match last_snapshot es with Some e => en_payload e | None => [] end;
  sd_generation : sc_last_snapshot_generation s = match last_snapshot es with Some e => en_generation e | None => 0 end;
  sd_mark : m = None <-> es = [];
  sd_latest : 0 <= mark_generation m /\ sc_last_snapshot_generation s <= mark_generation m }.

Section scan.
Context (limits : StoreLimits).

Lemma scanned_nil : scanned [] None empty_scan.
Proof. by constructor. Qed.

Lemma scanned_snoc es m s e :
  scanned es m s -> entry_ok limits e -> mark_generation m <= en_generation e ->
  scanned (es ++ [e]) (Some (en_sequence e, en_generation e))
    (scan_apply (en_header e) (en_payload e) (length (frames es) + length (en_frame e)) (scan_seen s)).
Proof.
  intros [] He Hg. assert (bool_decide (jh_kind (en_header e) = StateSnapshot) = is_snapshot e) as Ek by done.
  fold (en_generation e) in *.
  constructor; unfold scan_apply; fold (en_generation e); rewrite ?Ek, ?last_snapshot_snoc;
    cbn [sc_valid_bytes sc_entries_seen sc_entries_valid sc_bytes_discarded sc_truncated_tail sc_corrupt
         sc_notes sc_last_snapshot_payload sc_last_snapshot_generation scan_seen mark_generation].
  - by rewrite frames_snoc, length_app.
  - rewrite length_app. simpl. lia.
  - rewrite length_app. simpl. lia.
  - done.
  - done.
  - done.
  - done.
  - destruct (is_snapshot e); simpl; [|done]. by replace (_ >=? _) with true by lia.
  - destruct (is_snapshot e); simpl; [|done]. by replace (_ >=? _) with true by lia.
  - split; [done|]. by destruct es.
  - destruct (is_snapshot e); simpl; [|lia]. replace (_ >=? _) with true by lia. lia.
Qed.

(** The scan applies a chain of whole frames one after the other. *)
Lemma scan_run todo : forall es m s fuel tail,
  scanned es m s -> chain m todo -> Forall (entry_ok limits) todo ->
  Forall (fun e => 0 <= en_generation e) todo ->
  exists m' s', scanned (es ++ todo) m' s' /\
    scan_loop (length todo + fuel) limits (frames todo ++ tail) (length (frames es))
      (mark_sequence m) (mark_generation m) s =
    scan_loop fuel limits tail (length (frames (es ++ todo))) (mark_sequence m') (mark_generation m') s'.
Proof.
  induction todo as [|e todo IH]; intros es m s fuel tail Hs Hc Hok Hg.
  { exists m, s. rewrite app_nil_r. by split. }
  apply Forall_cons in Hok as [He Hok]. apply Forall_cons in Hg as [Hg0 Hg]. destruct Hc as [Hm Hc].
  assert (mark_generation m <= en_generation e) as Hge by (destruct m as [[q g]|]; simpl; lia).
  pose proof (scanned_snoc es m s e Hs He Hge) as Hs'.
  destruct (IH _ _ _ fuel tail Hs' Hc Hok Hg) as (m' & s' & Hd & E).
  rewrite <- app_assoc in Hd, E. cbn [app] in Hd, E. exists m', s'. split; [done|]. rewrite <- E.
  rewrite frames_cons. cbn [Nat.add length]. rewrite <- app_assoc, scan_frame by done. cbv zeta.
  assert ((en_sequence e <=? mark_sequence m) && (sc_entries_valid (scan_seen s) >? 0) = false) as ->.
  { change (sc_entries_valid (scan_seen s)) with (sc_entries_valid s). rewrite (sd_valid _ _ _ Hs).
    destruct m as [[q g]|]; simpl in *; [lia|]. pose proof (proj1 (sd_mark _ _ _ Hs) eq_refl) as ->. simpl. lia. }
  case_if; [lia|]. rewrite frames_snoc, length_app. done.
Qed.

Lemma frames_long es : Forall (entry_ok limits) es -> (length es <= length (frames es))%nat.
Proof.
  induction 1 as [|e es He _ IH]; [done|]. rewrite frames_cons, length_app, (frame_length limits e He). cbn [length]. unfold kJournalHeaderSize. lia.
Qed.

(** A journal: a chain of well-formed entries. *)
Record journal_ok (es : list Entry) : Prop := {
  jo_chain : chain None es;
  jo_entries : Forall (entry_ok limits) es;
  jo_generations : Forall (fun e => 0 <= en_generation e) es }.

(** Nothing, or a strict prefix of one more frame. *)
Definition torn (tail : list Z) : Prop :=
  tail = [] \/ exists e n, entry_ok limits e /\ (0 < n < length (en_frame e))%nat /\ tail = take n (en_frame e).

(** Bytes the scan stops at: it applies no entry and discards them all. *)
Definition unread (tail : list Z) : Prop :=
  tail = [] \/ forall fuel pos q g s, exists s', scan_loop (S fuel) limits tail pos q g s = s' /\
    sc_valid_bytes s' = sc_valid_bytes s /\ sc_entries_valid s' = sc_entries_valid s /\
    sc_bytes_discarded s' = sc_bytes_discarded s + Z.of_nat (length tail) /\
    sc_last_snapshot_payload s' = sc_last_snapshot_payload s /\
    sc_last_snapshot_generation s' = sc_last_snapshot_generation s.

Lemma torn_unread tail : torn tail -> unread tail.
Proof.
  intros [->|(e & n & He & Hn & ->)]; [by left|right]. intros fuel pos q g s.
  destruct (scan_torn_frame limits fuel e n pos q g s He Hn) as (s' & Hs' & ->).
  assert (length (take n (en_frame e)) = n) as -> by (rewrite length_take; lia).
  eexists. split; [done|]. by destruct Hs' as [->| ->].
Qed.

(** The loop over whole frames followed by anything. *)
Lemma scan_journal_run es tail :
  journal_ok es -> exists m s fuel, scanned es m s /\
    scan_journal (frames es ++ tail) limits =
    scan_finish (scan_loop (S fuel) limits tail (length (frames es)) (mark_sequence m) (mark_generation m) s).
Proof.
  intros [Hc Hok Hg]. pose proof (frames_long es Hok) as Hl.
  set (fuel := (length (frames es) - length es + length tail)%nat).
  destruct (scan_run es [] None empty_scan (S fuel) tail scanned_nil Hc Hok Hg) as (m & s & Hs & E).
  exists m, s, fuel. split; [done|]. unfold scan_journal. rewrite length_app.
  replace (S (length (frames es) + length tail)) with (length es + S fuel)%nat by lia.
  change (length (frames [])) with 0%nat in E. cbn [mark_sequence mark_generation] in E. by rewrite E.
Qed.

Lemma scan_journal_unread es tail :
  journal_ok es -> unread tail ->
  let r := scan_journal (frames es ++ tail) limits in
  sc_valid_bytes r = length (frames es) /\ sc_bytes_discarded r = Z.of_nat (length tail) /\
  sc_last_snapshot_payload r = match last_snapshot es with Some e => en_payload e | None => [] end /\
  sc_last_snapshot_generation r = match last_snapshot es with Some e => en_generation e | None => 0 end.
Proof.
  intros Hj Ht r. destruct (scan_journal_run es tail Hj) as (m & s & fuel & Hs & E). unfold r. rewrite E. clear E r.
  destruct Hs as [D1 D2 D3 D4 D5 D6 D7 D8 D9 D10 D11]. destruct Ht as [->|Ht].
  - rewrite scan_nil. unfold scan_finish. simpl. by rewrite D4.
  - destruct (Ht fuel (length (frames es)) (mark_sequence m) (mark_generation m) s) as (s' & -> & H1 & _ & H2 & H3 & H4).
    unfold scan_finish. simpl. rewrite H1, H2, H3, H4, D4. split_and!; [done|lia|done|done].
Qed.

Lemma scan_journal_frames es tail :
  journal_ok es -> torn tail ->
  let r := scan_journal (frames es ++ tail) limits in
  sc_valid_bytes r = length (frames es) /\ sc_entries_valid r = Z.of_nat (length es) /\
  sc_bytes_discarded r = Z.of_nat (length tail) /\ sc_corrupt r = false /\
  sc_truncated_tail r = negb (length tail =? 0)%nat /\
  sc_last_snapshot_payload r = match last_snapshot es with Some e => en_payload e | None => [] end /\
  sc_last_snapshot_generation r = match last_snapshot es with Some e => en_generation e | None => 0 end.
Proof.
  intros Hj Ht r. destruct (scan_journal_run es tail Hj) as (m & s & fuel & Hs & E). unfold r. rewrite E. clear E r.
  destruct Hs as [D1 D2 D3 D4 D5 D6 D7 D8 D9 D10 D11].
  destruct Ht as [->|(e & n & He & Hn & ->)].
  - rewrite scan_nil. unfold scan_finish. simpl. rewrite D4, D5. done.
  - destruct (scan_torn_frame limits fuel e n (length (frames es)) (mark_sequence m) (mark_generation m) s He Hn)
      as (s' & Hs' & ->).
    assert (length (take n (en_frame e)) = n) as -> by (rewrite length_take; lia).
    unfold scan_finish, scan_torn. destruct Hs' as [->| ->]; simpl; rewrite D4, D6;
      (split_and!; [done..|lia|by destruct n; lia|done|done]).
Qed.
End scan.

(** ** What a disk holds *)

Record options_ok (opts : StoreOptions) : Prop := {
  oo_path : so_base_path opts <> ""%string;
  oo_sync : so_sync_on_commit opts = true;
  oo_journal : 0 <= max_journal_bytes (so_limits opts) < 2 ^ 64 - 72;
  oo_entry : max_journal_entry_bytes (so_limits opts) < 2 ^ 32;
  oo_snapshot : max_snapshot_bytes (so_limits opts) < 2 ^ 64 }.

Definition entry_state (e : Entry) : option RegistryState :=
  match dec_state (en_payload e) with inr (s, []) => Some s | _ => None end.

Definition entry_holds (e : Entry) (s : RegistryState) : Prop :=
  state_wf s /\ en_payload e = enc_state s /\ en_generation e = s_store_generation s.

(** The state a snapshot file and a journal stand for: the last journalled state
    unless the file is newer. *)
Definition current (snap : option (RegistryState * Tick)) (es : list Entry) : option RegistryState :=
  match last_snapshot es with
  | Some e =>
      match snap with
      | Some (s0, _) => if en_generation e >=? s_store_generation s0 then entry_state e else Some s0
      | None => entry_state e
      end
  | None => fst <$> snap
  end.

Record view (opts : StoreOptions) (d : Disk) (snap : option (RegistryState * Tick)) (es : list Entry)
    (tail : list Z) : Prop := {
  v_snapshot : d_snapshot d = (fun p => snapshot_bytes (fst p) (snd p)) <$> snap;
  v_snap_ok : forall s now, snap = Some (s, now) -> state_wf s /\ in_u 64 now /\
    Z.of_nat (length (snapshot_bytes s now)) <= max_snapshot_bytes (so_limits opts);
  v_journal : default [] (d_journal d) = frames es ++ tail;
  v_entries : journal_ok (so_limits opts) es;
  v_states : Forall (fun e => is_snapshot e = true -> exists s, entry_holds e s) es;
  v_unread : unread (so_limits opts) tail;
  v_size : Z.of_nat (length (frames es ++ tail)) <= max_journal_bytes (so_limits opts) }.

(** Opening the store, with no further faults, yields the state. *)
Definition recovers (opts : StoreOptions) (d : Disk) (s : RegistryState) : Prop :=
  exists w rep, store_open opts (mkWorld d []) = (w, Some (outcome_value rep)) /\ or_state rep = s.

Lemma enc_state_nonempty s : exists b l, enc_state s = b :: l.
Proof. Transparent enc_state. unfold enc_state. simpl. eauto. Qed.
#[local] Opaque enc_state.

Lemma entry_holds_state e s : entry_holds e s -> entry_state e = Some s.
Proof.
  intros (Hs & Hp & _). unfold entry_state. rewrite Hp, <- (app_nil_r (enc_state s)).
  destruct state_codec_spec as [H _]. by rewrite H.
Qed.

Lemma read_quiet base f max d :
  read_whole_file base f max (mkWorld d []) =
  (mkWorld d [], Some (match file_of d f with
     | None => outcome_failure StoreReadFailed "file size unavailable"
     | Some c => if Z.of_nat (length c) >? max
                 then outcome_failure StoreOversized "file exceeds the configured bound"
                 else outcome_value c
     end)).
Proof.
  unfold read_whole_file, fs_file_size, open_read, f_read, io_bind, syscall, io_ret. simpl.
  destruct (file_of d f) as [c|] eqn:E; simpl; [|done]. case_if; [done|].
  simpl. unfold is_present. rewrite E. simpl. destruct (Z.of_nat (length c) =? 0) eqn:E0; simpl.
  - destruct c; [done|simpl in E0; lia].
  - by rewrite E.
Qed.

Lemma choose_current snap es tail opts d :
  view opts d snap es tail ->
  forall s, current snap es = Some s ->
  exists v dr, choose_state (fst <$> snap) (scan_journal (frames es ++ tail) (so_limits opts)) =
            outcome_value (Some s, v, dr).
Proof.
  intros Hv s Hc. destruct (scan_journal_unread _ es tail (v_entries _ _ _ _ _ Hv) (v_unread _ _ _ _ _ Hv))
    as (_ & _ & Ep & Eg).
  unfold choose_state. rewrite Ep, Eg. unfold current in Hc.
  destruct (last_snapshot es) as [e|] eqn:El; [|rewrite Hc; eauto].
  apply last_snapshot_elem in El as [He Hk]. pose proof (v_states _ _ _ _ _ Hv) as Hst.
  rewrite Forall_forall in Hst. destruct (Hst e He Hk) as [s1 H1].
  pose proof (entry_holds_state e s1 H1) as E1. destruct H1 as (H1 & H2 & H3). rewrite E1 in Hc. rewrite H2.
  destruct (enc_state_nonempty s1) as (b & l & Eb). rewrite Eb, <- Eb, decode_state_enc by done. simpl.
  destruct snap as [[s0 now0]|]; simpl in *; [|simplify_eq; eauto].
  destruct (_ >=? _); simplify_eq; eauto.
Qed.

Lemma open_journal_view opts d snap es tail s c :
  options_ok opts -> view opts d snap es tail -> current snap es = Some s -> d_journal d = Some c ->
  exists w jr, open_journal opts (fst <$> snap) (mkWorld d []) = (w, Some (outcome_value jr)) /\
    jr_state jr = Some s.
Proof.
  intros [O1 _ O3 _ O5] Hv Hc Hj. pose proof (choose_current _ _ _ _ _ Hv s Hc) as (v & dr & Ech).
  pose proof (v_size _ _ _ _ _ Hv) as Hz. pose proof (v_journal _ _ _ _ _ Hv) as Ej.
  rewrite Hj in Ej. simpl in Ej. subst c.
  unfold open_journal, io_bind. rewrite read_quiet. cbn [file_of]. rewrite Hj.
  assert (u64 (max_journal_bytes (so_limits opts) + Z.of_nat kJournalHeaderSize) =
          max_journal_bytes (so_limits opts) + 72) as ->.
  { unfold u64. apply wrap_small. unfold in_u, kJournalHeaderSize. lia. }
  case_if; [lia|]. cbn [outcome_value oc_value]. rewrite Ech. cbn [outcome_value oc_value].
  destruct (scan_class _) as [cl re]. case_if; [|by eexists _, _].
  unfold fs_resize, syscall. cbn [w_script w_disk hd tl file_of]. rewrite Hj. by eexists _, _.
Qed.

Lemma open_files_view opts d snap es tail s stale :
  options_ok opts -> view opts d snap es tail -> current snap es = Some s ->
  exists w rep, open_files opts (is_present d SnapshotFile) (is_present d JournalFile) stale (mkWorld d []) =
    (w, Some (outcome_value rep)) /\ or_state rep = s.
Proof.
  intros Ho Hv Hc. unfold open_files.
  assert (forall k : Outcome (option RegistryState * Z) -> Io (Outcome OpenReport),
    exists n, io_bind (if is_present d SnapshotFile
      then io_bind (read_whole_file (so_base_path opts) SnapshotFile (max_snapshot_bytes (so_limits opts)))
        (fun bytes => io_ret (match oc_value bytes with
              | None => mkOutcome None (oc_status bytes)
              | Some data => let opened := open_snapshot data in
                mkOutcome ((fun s => (Some s, Z.of_nat (length data))) <$> oc_value opened) (oc_status opened)
              end))
      else io_ret (outcome_value (None, 0))) k (mkWorld d []) =
    k (outcome_value (fst <$> snap, n)) (mkWorld d [])) as Hsnap.
  { intros k. unfold is_present. cbn [file_of]. rewrite (v_snapshot _ _ _ _ _ Hv).
    destruct snap as [[s0 now]|]; cbn [fmap option_fmap option_map fst snd]; [|by exists 0].
    destruct (v_snap_ok _ _ _ _ _ Hv s0 now eq_refl) as (W1 & W2 & W3).
    exists (Z.of_nat (length (snapshot_bytes s0 now))). unfold io_bind. rewrite read_quiet. cbn [file_of].
    rewrite (v_snapshot _ _ _ _ _ Hv). cbn [fmap option_fmap option_map fst snd]. case_if; [lia|].
    unfold io_ret. cbn [outcome_value oc_value]. rewrite open_snapshot_bytes; [done..|].
    rewrite snapshot_bytes_length in W3. pose proof (oo_snapshot _ Ho). unfold in_u. lia. }
  edestruct Hsnap as (n & ->). cbn [outcome_value oc_value]. unfold is_present at 1. cbn [file_of].
  destruct (d_journal d) as [c|] eqn:Hj.
  - destruct (open_journal_view _ _ _ _ _ _ _ Ho Hv Hc Hj) as (w & jr & E & Ej).
    unfold io_bind at 1. rewrite E. cbn [outcome_value oc_value]. rewrite Ej. by eexists _, _.
  - assert (es = []) as ->.
    { pose proof (v_journal _ _ _ _ _ Hv) as Ej. rewrite Hj in Ej. simpl in Ej. symmetry in Ej.
      apply app_eq_nil in Ej as [Ej _]. pose proof (frames_long _ _ (jo_entries _ _ (v_entries _ _ _ _ _ Hv))).
      rewrite Ej in *. destruct es; simpl in *; [done|lia]. }
    unfold current in Hc. change (last_snapshot []) with (@None Entry) in Hc.
    unfold io_bind at 1, io_ret at 1. cbn [outcome_value oc_value jr_state]. rewrite Hc. by eexists _, _.
Qed.

Lemma open_view opts d snap es tail s :
  options_ok opts -> view opts d snap es tail -> current snap es = Some s -> recovers opts d s.
Proof.
  intros Ho Hv Hc. unfold recovers, store_open. destruct (String.eqb _ _) eqn:Eb.
  { apply String.eqb_eq in Eb. by destruct (oo_path _ Ho). }
  unfold fs_exists, fs_remove, syscall, io_bind. cbn [w_script w_disk hd tl].
  unfold is_present at 1. destruct (file_of d TempFile).
  - cbn [w_script w_disk hd tl].
    assert (view opts (set_file TempFile None d) snap es tail) as Hv1 by by destruct Hv.
    by apply (open_files_view opts (set_file TempFile None d) snap es tail s true).
  - by apply (open_files_view opts d snap es tail s false).
Qed.

(** ** The program logic *)

(** The events of the script are all allowed by [ev]. *)
Definition wp (ev : IoEvent -> Prop) {A} (m : Io A) (Q : Disk -> option A -> Prop) (d : Disk) : Prop :=
  forall script, Forall ev script ->
    let '(w, r) := m (mkWorld d script) in Q (w_disk w) r /\ Forall ev (w_script w).

Section wp.
Context (ev : IoEvent -> Prop).

Lemma wp_ret {A} (x : A) (Q : Disk -> option A -> Prop) d : Q d (Some x) -> wp ev (io_ret x) Q d.
Proof. intros H script Hs. done. Qed.

Lemma wp_bind {A B} (m : Io A) (k : A -> Io B) (Q : Disk -> option B -> Prop) d :
  wp ev m (fun d' r => match r with Some x => wp ev (k x) Q d' | None => Q d' None end) d ->
  wp ev (io_bind m k) Q d.
Proof.
  intros H script Hs. specialize (H script Hs). unfold io_bind.
  destruct (m _) as [[d' script'] [x|]]; [|done]. destruct H as [H Hs']. by apply H.
Qed.

Lemma wp_syscall {A} (ok : Disk -> Disk * A) bad crash (Q : Disk -> option A -> Prop) d :
  Q (fst (ok d)) (Some (snd (ok d))) ->
  (forall n, ev (IoError n) -> Q (fst (bad n d)) (Some (snd (bad n d)))) ->
  (forall n, Q (crash n d) None) -> wp ev (syscall ok bad crash) Q d.
Proof.
  intros H1 H2 H3 script Hs. unfold syscall. simpl.
  assert (Forall ev (tl script)) as Ht by by destruct Hs.
  destruct (hd IoDone script) as [|n|n] eqn:E; [| |split; [apply H3|done]].
  - by destruct (ok d).
  - assert (ev (IoError n)) as He by (destruct Hs; simpl in *; [done|by subst]).
    specialize (H2 n He). by destruct (bad n d).
Qed.

Lemma wp_mono {A} (m : Io A) (P Q : Disk -> option A -> Prop) d :
  wp ev m P d -> (forall d' r, P d' r -> Q d' r) -> wp ev m Q d.
Proof.
  intros H HPQ script Hs. specialize (H script Hs). destruct (m _) as [w r]. destruct H. split; auto.
Qed.
End wp.

(** ** The effect of the operations on the disk *)

(** The journal has gained the first [n] bytes of [data]; no other file matters. *)
Definition grown (data : list Z) (n : nat) (d d' : Disk) : Prop :=
  d_snapshot d' = d_snapshot d /\ default [] (d_journal d') = default [] (d_journal d) ++ take n data.

Lemma grown_refl data d : grown data 0 d d.
Proof. split; [done|]. by rewrite app_nil_r. Qed.

Lemma grown_open data d : grown data 0 d (set_file JournalFile (Some (default [] (d_journal d))) d).
Proof. split; [done|]. simpl. by rewrite app_nil_r. Qed.

Lemma grown_write data n d :
  grown data n d (appended JournalFile (take n data) (set_file JournalFile (Some (default [] (d_journal d))) d)).
Proof. by split. Qed.

Lemma grown_keep data n d :
  grown data n d (keep_written JournalFile data n
    (appended JournalFile data (set_file JournalFile (Some (default [] (d_journal d))) d))).
Proof.
  split; [done|]. unfold keep_written, appended. simpl. by rewrite length_app, Nat.add_sub, take_app_length.
Qed.

Lemma keep_nothing f n d : keep_written f [] n d = d.
Proof.
  unfold keep_written. destruct (file_of d f) as [c|] eqn:E; [|done]. cbn [length].
  rewrite Nat.sub_0_r, firstn_all, take_nil, app_nil_r. destruct d, f; simpl in *; by subst.
Qed.

Section commit.
Context (ev : IoEvent -> Prop) (opts : StoreOptions) (Ho : options_ok opts).

Definition append_fits (impl : StoreImpl) (payload : list Z) : Prop :=
  Z.of_nat (length payload) <= max_journal_entry_bytes (so_limits opts) /\
  si_journal_size impl + Z.of_nat (length payload) + Z.of_nat kJournalHeaderSize +
    Z.of_nat kJournalTrailerSize <= max_journal_bytes (so_limits opts).

Definition advanced (impl : StoreImpl) (header : JournalHeader) (frame : list Z) : StoreImpl :=
  mkStoreImpl (si_options impl) (jh_sequence header) (si_entry_count impl + 1)
    (si_journal_size impl + Z.of_nat (length frame)) (si_written impl + Z.of_nat (length frame))
    (si_generation impl).

Definition no_success {A B} (r : option (A * Outcome B)) : Prop :=
  match r with Some (_, o) => outcome_ok o = false | None => True end.

(** [append] refuses and changes nothing, or adds a prefix of the frame; when it
    reports success the frame is there in full. *)
Definition append_post (impl : StoreImpl) (kind : JournalKind) (payload : list Z) (now : Tick) (d d' : Disk)
    (r : option (StoreImpl * Outcome CommitToken)) : Prop :=
  let header := entry_header impl kind payload now in
  let frame := journal_frame header payload in
  exists n, grown frame n d d' /\ (append_fits impl payload \/ n = 0%nat) /\
    (no_success r \/
     (length frame <= n)%nat /\ append_fits impl payload /\
     exists o, r = Some (advanced impl header frame, o) /\ outcome_ok o = true).

Lemma append_partial impl kind payload now d d' r n :
  grown (journal_frame (entry_header impl kind payload now) payload) n d d' ->
  append_fits impl payload \/ n = 0%nat -> no_success r -> append_post impl kind payload now d d' r.
Proof. intros H1 H2 H3. exists n. auto. Qed.

Lemma wp_append impl kind payload now d :
  si_options impl = opts ->
  wp ev (store_append impl kind payload now) (append_post impl kind payload now d) d.
Proof.
  intros Hopt. unfold store_append. rewrite Hopt, (oo_sync _ Ho).
  set (frame := journal_frame (entry_header impl kind payload now) payload).
  case_if; [apply wp_ret; eapply append_partial; [apply grown_refl|by right|done]|].
  case_if; [apply wp_ret; eapply append_partial; [apply grown_refl|by right|done]|].
  case_if; [apply wp_ret; eapply append_partial; [apply grown_refl|by right|done]|].
  assert (append_fits impl payload) as Hfit by (unfold append_fits; lia).
  assert ((length frame =? 0)%nat = false) as Ef by done.
  apply wp_bind, wp_syscall; cbn [fst snd negb].
  2: { intros ? ?. apply wp_ret. eapply append_partial; [apply grown_refl|by right|done]. }
  2: { intros ?. eapply append_partial; [apply grown_refl|by right|done]. }
  apply wp_bind. unfold write_all. rewrite Ef. apply wp_syscall; cbn [fst snd negb].
  2: { intros n ?. apply wp_ret. eapply append_partial; [apply grown_write|by left|done]. }
  2: { intros n. eapply append_partial; [apply grown_write|by left|done]. }
  apply wp_bind, wp_syscall; cbn [fst snd negb].
  2: { intros n ?. apply wp_ret. eapply append_partial; [apply grown_keep|by left|done]. }
  2: { intros n. eapply append_partial; [apply grown_keep|by left|done]. }
  assert (grown frame (length frame) d (appended JournalFile frame
            (set_file JournalFile (Some (default [] (d_journal d))) d))) as Hg.
  { pose proof (grown_write frame (length frame) d) as H. by rewrite firstn_all in H. }
  apply wp_bind, wp_syscall; cbn [fst snd].
  - apply wp_ret. exists (length frame). split_and!; [done|by left|right].
    split_and!; [done..|]. rewrite <- Hopt. by eexists.
  - intros n ?. rewrite keep_nothing. apply wp_ret. exists (length frame). split_and!; [done|by left|right].
    split_and!; [done..|]. rewrite <- Hopt. by eexists.
  - intros n. rewrite keep_nothing. eapply append_partial; [done|by left|done].
Qed.

(** [write_snapshot] leaves the journal alone and the snapshot file as it was or
    with the new bytes; it is missing only if a rename was refused. *)
Definition snapshot_post (impl : StoreImpl) (s : RegistryState) (now : Tick) (d d' : Disk)
    (r : option (StoreImpl * Outcome CommitToken)) : Prop :=
  let data := snapshot_bytes s now in
  d_journal d' = d_journal d /\
  (d_snapshot d' = d_snapshot d \/ d_snapshot d' = Some data \/
   d_snapshot d' = None /\ exists n, ev (IoError n)) /\
  (no_success r \/
   d_snapshot d' = Some data /\
   exists o, r = Some (mkStoreImpl (si_options impl) (si_sequence impl) (si_entry_count impl)
       (si_journal_size impl) (si_written impl + Z.of_nat (length data)) (si_generation impl), o) /\
     outcome_ok o = true).

Lemma snapshot_untouched impl s now d d' r :
  d_journal d' = d_journal d -> d_snapshot d' = d_snapshot d -> no_success r ->
  snapshot_post impl s now d d' r.
Proof. unfold snapshot_post. tauto. Qed.

Lemma keep_temp_journal data n d : d_journal (keep_written TempFile data n d) = d_journal d.
Proof. unfold keep_written. by destruct (file_of d TempFile). Qed.
Lemma keep_temp_snapshot data n d : d_snapshot (keep_written TempFile data n d) = d_snapshot d.
Proof. unfold keep_written. by destruct (file_of d TempFile). Qed.

Lemma wp_publish d data :
  d_temp d = Some data ->
  wp ev (publish_snapshot true) (fun d' r => d_journal d' = d_journal d /\
    (d_snapshot d' = d_snapshot d \/ d_snapshot d' = Some data \/
     d_snapshot d' = None /\ exists n, ev (IoError n)) /\
    (r = Some true -> d_snapshot d' = Some data)) d.
Proof.
  intros Ht. unfold publish_snapshot, fs_rename, renamed.
  apply wp_bind, wp_syscall; cbn [file_of]; rewrite ?Ht; cbn [fst snd].
  - apply wp_ret. simpl. auto.
  - intros n Hn. cbn [negb]. apply wp_bind, wp_syscall; cbn [fst snd].
    + apply wp_syscall; cbn [file_of set_file d_temp]; rewrite ?Ht; cbn [fst snd]; simpl.
      * auto.
      * intros m Hm. split_and!; [done| |done]. right. right. eauto.
      * intros [|m]; simpl; split_and!; try done; right; [right; eauto|by left].
    + intros m Hm. apply wp_syscall; cbn [file_of]; rewrite ?Ht; cbn [fst snd]; simpl.
      * auto.
      * intros k Hk. split_and!; [done|by left|done].
      * intros [|k]; simpl; split_and!; auto; done.
    + intros m. simpl. split_and!; auto; done.
  - intros [|n]; simpl; split_and!; auto; done.
Qed.

Lemma wp_write_snapshot impl s now d :
  si_options impl = opts ->
  wp ev (store_write_snapshot impl s now) (snapshot_post impl s now d) d.
Proof.
  intros Hopt. unfold store_write_snapshot. rewrite Hopt, (oo_sync _ Ho).
  set (data := snapshot_bytes s now).
  case_if; [by apply wp_ret, snapshot_untouched|].
  assert ((length data =? 0)%nat = false) as Ef.
  { unfold data. rewrite snapshot_bytes_length. done. }
  apply wp_bind, wp_syscall; cbn [fst snd negb].
  2: { intros n Hn. by apply wp_ret, snapshot_untouched. }
  2: { intros n. by apply snapshot_untouched. }
  apply wp_bind. unfold write_all. rewrite Ef. apply wp_syscall; cbn [fst snd negb].
  2: { intros n Hn. by apply wp_ret, snapshot_untouched. }
  2: { intros n. by apply snapshot_untouched. }
  apply wp_bind, wp_syscall; cbn [fst snd negb].
  2: { intros n Hn. apply wp_ret, snapshot_untouched; [exact (keep_temp_journal _ _ _)|exact (keep_temp_snapshot _ _ _)|done]. }
  2: { intros n. apply snapshot_untouched; [exact (keep_temp_journal _ _ _)|exact (keep_temp_snapshot _ _ _)|done]. }
  set (d1 := appended TempFile data (set_file TempFile (Some []) d)).
  assert (wp ev (publish_snapshot true) (fun d' r => match r with Some x =>
    wp ev (if negb x then io_ret (impl, outcome_failure StoreWriteFailed "snapshot rename failed") else
       io_ret (mkStoreImpl opts (si_sequence impl) (si_entry_count impl) (si_journal_size impl)
            (si_written impl + Z.of_nat (length data)) (si_generation impl),
          outcome_value (mkToken (s_store_generation s) (si_sequence impl) (Z.of_nat (length data))
            (digest_of (enc_state s)) true))) (snapshot_post impl s now d) d'
    | None => snapshot_post impl s now d d' None end) d1) as Hpub.
  { eapply wp_mono; [by apply (wp_publish d1 data)|]. intros d' r (H1 & H2 & H3).
    destruct r as [[|]|]; cbn [negb]; [apply wp_ret|apply wp_ret|]; split_and!; try done; [|by left..].
    right. split; [by apply H3|]. rewrite <- Hopt. by eexists. }
  apply wp_bind, wp_syscall; cbn [fst snd].
  - by apply wp_bind.
  - intros n Hn. rewrite keep_nothing. by apply wp_bind.
  - intros n. rewrite keep_nothing. by apply snapshot_untouched.
Qed.

Lemma wp_truncate d :
  wp ev truncate_journal (fun d' r => d_snapshot d' = d_snapshot d /\
    (d_journal d' = d_journal d \/ d_journal d' = Some []) /\
    (r = Some true -> d_journal d' = Some [])) d.
Proof.
  unfold truncate_journal. apply wp_bind, wp_syscall; cbn [fst snd].
  - unfold is_present. cbn [file_of]. destruct (d_journal d) as [c|] eqn:E; cbn [negb];
      apply wp_syscall; cbn [fst snd file_of]; rewrite ?E; cbn [fst snd]; simpl; intros;
      split_and!; auto; done.
  - intros n Hn. cbn [negb]. apply wp_syscall; simpl; intros; split_and!; auto; done.
  - intros n. simpl. split_and!; auto; done.
Qed.

(** ** The invariant of an open store *)

Record store_inv (impl : StoreImpl) (d : Disk) (snap : option (RegistryState * Tick)) (es : list Entry) : Prop := {
  sv_options : si_options impl = opts;
  sv_view : view opts d snap es [];
  sv_size : si_journal_size impl = Z.of_nat (length (frames es));
  sv_sequence : 0 <= si_sequence impl;
  sv_sequences : Forall (fun e => en_sequence e <= si_sequence impl) es }.

(** No generation on disk exceeds [g]. *)
Definition bounded_by (g : Z) (snap : option (RegistryState * Tick)) (es : list Entry) : Prop :=
  Forall (fun e => en_generation e <= g) es /\
  forall s now, snap = Some (s, now) -> s_store_generation s <= g.

(** The store stands for [o]: the last committed state, or nothing yet. *)
Definition holds (impl : StoreImpl) (d : Disk) (o : option RegistryState) : Prop :=
  exists snap es, store_inv impl d snap es /\ current snap es = o /\
    match o with Some s => bounded_by (s_store_generation s) snap es | None => snap = None /\ es = [] end.

Lemma holds_recovers impl d s : holds impl d (Some s) -> recovers opts d s.
Proof. intros (snap & es & [] & Hc & _). by eapply open_view. Qed.

Lemma chain_snoc es e : forall m,
  chain m es -> Forall (fun e' => en_sequence e' < en_sequence e /\ en_generation e' <= en_generation e) es ->
  (forall q g, m = Some (q, g) -> q < en_sequence e /\ g <= en_generation e) -> chain m (es ++ [e]).
Proof.
  induction es as [|e0 es IH]; intros m Hc Hall Hm; simpl in *.
  - split; [|done]. destruct m as [[q g]|]; [by apply Hm|done].
  - apply Forall_cons in Hall as [He0 Hall]. destruct Hc as [H1 H2]. split; [done|].
    apply IH; [done..|]. by intros q g [= <- <-].
Qed.

(** The entry a commit of [s] appends. *)
Definition commit_impl (impl : StoreImpl) (s : RegistryState) : StoreImpl :=
  mkStoreImpl (si_options impl) (si_sequence impl) (si_entry_count impl) (si_journal_size impl)
    (si_written impl) (s_store_generation s).
Definition commit_entry (impl : StoreImpl) (s : RegistryState) (now : Tick) : Entry :=
  mkEntry (entry_header (commit_impl impl s) StateSnapshot (enc_state s) now) (enc_state s).

Record committable (impl : StoreImpl) (s : RegistryState) (now : Tick) : Prop := {
  cm_state : state_wf s;
  cm_now : in_u 64 now;
  cm_sequence : si_sequence impl < u64_max;
  cm_snapshot : Z.of_nat (length (snapshot_bytes s now)) <= max_snapshot_bytes (so_limits opts) }.

Lemma commit_entry_ok impl s now :
  committable impl s now -> append_fits (commit_impl impl s) (enc_state s) ->
  entry_ok (so_limits opts) (commit_entry impl s now).
Proof.
  intros [Hs Hn Hq Hz] [Hf _]. pose proof (oo_entry _ Ho) as He.
  assert (in_u 32 (Z.of_nat (length (enc_state s)))) as Hl by (unfold in_u; lia).
  assert (in_u 64 (s_store_generation s)) as Hg by (hnf in Hs; by destruct_and? Hs).
  constructor; unfold commit_entry, entry_header; cbn [en_header en_payload jh_payload_len jh_payload_digest].
  - repeat (split; cbn; [first [done | by apply (wrap_bound 64)]|]). split; cbn.
    + by apply (wrap_bound 32).
    + apply digest_of_length.
  - by apply wrap_small.
  - done.
  - done.
Qed.

Lemma commit_entry_holds impl s now : committable impl s now -> entry_holds (commit_entry impl s now) s.
Proof. by intros [Hs _ _ _]. Qed.

Lemma current_committed impl s now snap es :
  committable impl s now -> bounded_by (s_store_generation s) snap es ->
  current snap (es ++ [commit_entry impl s now]) = Some s.
Proof.
  intros Hc [_ Hb]. unfold current. rewrite last_snapshot_snoc. change (is_snapshot (commit_entry _ _ _)) with true.
  cbv iota. rewrite (entry_holds_state _ s) by (by apply commit_entry_holds).
  destruct snap as [[s0 now0]|]; [|done]. specialize (Hb s0 now0 eq_refl).
  change (en_generation (commit_entry impl s now)) with (s_store_generation s). case_if; [done|lia].
Qed.

Section step.
Context (impl : StoreImpl) (d : Disk) (snap : option (RegistryState * Tick)) (es : list Entry)
  (s : RegistryState) (now : Tick).
Hypotheses (Hinv : store_inv impl d snap es) (Hcm : committable impl s now)
  (Hb : bounded_by (s_store_generation s) snap es).

Definition new_entry := commit_entry impl s now.
Definition after_append := advanced (commit_impl impl s) (en_header new_entry) (en_frame new_entry).

(** The disk after a torn append. *)
Lemma view_torn n d' :
  grown (en_frame new_entry) n d d' -> append_fits (commit_impl impl s) (enc_state s) \/ n = 0%nat ->
  (n < length (en_frame new_entry))%nat -> view opts d' snap es (take n (en_frame new_entry)).
Proof.
  intros [G1 G2] Hfit Hn. destruct Hinv as [I1 [V1 V2 V3 V4 V5 V6 V7] I3 I4 I5].
  assert (length (take n (en_frame new_entry)) = n) as El by (rewrite length_take; lia).
  constructor; [congruence|done|by rewrite G2, V3, app_nil_r|done|done| |].
  - apply torn_unread. destruct n as [|n]; [by left|]. right. exists new_entry, (S n). destruct Hfit as [Hfit|]; [|done].
    split_and!; [by apply commit_entry_ok|lia..|done].
  - rewrite app_nil_r in V7. rewrite length_app, El. destruct Hfit as [Hfit| ->]; [|lia].
    pose proof (frame_length _ _ (commit_entry_ok _ _ _ Hcm Hfit)) as Hl. fold new_entry in Hl.
    destruct Hfit as [_ Hfit]. change (si_journal_size (commit_impl impl s)) with (si_journal_size impl) in Hfit.
    change (en_payload new_entry) with (enc_state s) in Hl. lia.
Qed.

(** The disk and the store after a complete append. *)
Lemma inv_appended d' :
  d_snapshot d' = d_snapshot d -> default [] (d_journal d') = default [] (d_journal d) ++ en_frame new_entry ->
  append_fits (commit_impl impl s) (enc_state s) -> store_inv after_append d' snap (es ++ [new_entry]).
Proof.
  intros G1 G2 Hfit. destruct Hinv as [I1 [V1 V2 V3 V4 V5 V6 V7] I3 I4 I5].
  pose proof (commit_entry_ok _ _ _ Hcm Hfit) as He. fold new_entry in He.
  pose proof (frame_length _ _ He) as Hl. change (en_payload new_entry) with (enc_state s) in Hl.
  assert (en_sequence new_entry = si_sequence impl + 1) as Eq.
  { unfold en_sequence, new_entry, commit_entry, entry_header. cbn. unfold u64. apply wrap_small. pose proof (cm_sequence _ _ _ Hcm).
    unfold in_u, u64_max in *. lia. }
  assert (in_u 64 (s_store_generation s)) as Hg by (pose proof (cm_state _ _ _ Hcm) as Hs; hnf in Hs; by destruct_and? Hs).
  change (s_store_generation s) with (en_generation new_entry) in Hg. rewrite app_nil_r in *.
  constructor; [done| | | |].
  - constructor; [congruence|done|by rewrite G2, V3, frames_snoc, !app_nil_r| | |by left|].
    + destruct V4 as [C1 C2 C3]. constructor.
      * apply chain_snoc; [done| |done]. destruct Hb as [Hb1 _]. rewrite Forall_forall in Hb1, I5 |- *.
        intros e' He'. specialize (Hb1 e' He'). specialize (I5 e' He'). rewrite Eq. split; [lia|exact Hb1].
      * by apply Forall_app_2; [|constructor].
      * apply Forall_app_2; [done|]. constructor; [|done]. unfold in_u in Hg. lia.
    + apply Forall_app_2; [done|]. constructor; [|done]. intros _. exists s. by apply commit_entry_holds.
    + rewrite app_nil_r, frames_snoc, length_app. destruct Hfit as [_ Hfit].
      change (si_journal_size (commit_impl impl s)) with (si_journal_size impl) in Hfit. lia.
  - unfold after_append, advanced. cbn [si_journal_size commit_impl]. rewrite frames_snoc, length_app. lia.
  - unfold after_append, advanced. cbn [si_sequence]. change (jh_sequence (en_header new_entry)) with (en_sequence new_entry). lia.
  - unfold after_append, advanced. cbn [si_sequence]. change (jh_sequence (en_header new_entry)) with (en_sequence new_entry).
    apply Forall_app_2; [|by constructor]. eapply Forall_impl; [exact I5|]. simpl. intros. lia.
Qed.
End step.

Definition wrote (impl : StoreImpl) (n : Z) : StoreImpl :=
  mkStoreImpl (si_options impl) (si_sequence impl) (si_entry_count impl) (si_journal_size impl)
    (si_written impl + n) (si_generation impl).

(** The possible disks after writing a snapshot and emptying the journal. *)
Definition rotate_post (impl : StoreImpl) (s : RegistryState) (now : Tick) (d d' : Disk)
    (r : option (StoreImpl * Outcome CommitToken)) : Prop :=
  let data := snapshot_bytes s now in
  (d_journal d' = d_journal d /\
     (d_snapshot d' = d_snapshot d \/ d_snapshot d' = Some data \/ d_snapshot d' = None /\ exists n, ev (IoError n)) \/
   d_journal d' = Some [] /\ d_snapshot d' = Some data) /\
  (no_success r \/
   d_journal d' = Some [] /\ d_snapshot d' = Some data /\
   exists o, r = Some (journal_emptied (wrote impl (Z.of_nat (length data))), o) /\ outcome_ok o = true).

Lemma wp_rotate impl s now detail d :
  si_options impl = opts ->
  wp ev (snapshot_and_truncate impl s now detail) (rotate_post impl s now d) d.
Proof.
  intros Hopt. unfold snapshot_and_truncate. apply wp_bind.
  eapply wp_mono; [by apply wp_write_snapshot|]. intros d' r (H1 & H2 & H3).
  destruct r as [[i out]|]; [|split; [by left|by left]]. destruct (outcome_ok out) eqn:Eo; cbn [negb].
  - destruct H3 as [H3|(H3 & o & [= -> ->] & _)]; [simpl in H3; congruence|].
    apply wp_bind. eapply wp_mono; [apply wp_truncate|]. intros d2 r (T1 & T2 & T3).
    destruct r as [[|]|]; cbn [negb].
    + specialize (T3 eq_refl). apply wp_ret. split; [right; by rewrite T1|right].
      rewrite T1. split_and!; [done..|]. by exists o.
    + apply wp_ret. split; [|by left]. destruct T2 as [T2|T2]; [left|right]; rewrite T1, T2; auto.
    + split; [|by left]. destruct T2 as [T2|T2]; [left|right]; rewrite T1, T2; auto.
  - apply wp_ret. split; [by left|by left].
Qed.

(** ** Views after a rotation *)

Lemma view_files d d' snap es :
  view opts d snap es [] -> d_journal d' = d_journal d -> d_snapshot d' = d_snapshot d -> view opts d' snap es [].
Proof. intros [] E1 E2. constructor; congruence || done. Qed.

Lemma view_replaced impl s now d d' snap es :
  view opts d snap es [] -> committable impl s now -> d_journal d' = d_journal d ->
  d_snapshot d' = Some (snapshot_bytes s now) -> view opts d' (Some (s, now)) es [].
Proof.
  intros [] [] E1 E2. constructor; [done| |congruence|done..]. by intros ? ? [= <- <-].
Qed.

Lemma view_dropped d d' snap es :
  view opts d snap es [] -> d_journal d' = d_journal d -> d_snapshot d' = None -> view opts d' None es [].
Proof. intros [] E1 E2. constructor; congruence || done. Qed.

Lemma view_emptied impl s now d' :
  committable impl s now -> d_journal d' = Some [] -> d_snapshot d' = Some (snapshot_bytes s now) ->
  view opts d' (Some (s, now)) [] [].
Proof.
  intros [] E1 E2. pose proof (oo_journal _ Ho). constructor; [done| |by rewrite E1| |done|by left|simpl; lia].
  - by intros ? ? [= <- <-].
  - by constructor.
Qed.

(** A rotated store. *)
Lemma holds_emptied impl0 impl s now d' n :
  si_options impl = opts -> 0 <= si_sequence impl -> committable impl0 s now ->
  d_journal d' = Some [] -> d_snapshot d' = Some (snapshot_bytes s now) ->
  holds (journal_emptied (wrote impl n)) d' (Some s).
Proof.
  intros H1 H2 H3 H4 H5. exists (Some (s, now)), []. split; [|split; [done|]].
  - constructor; [done|by eapply view_emptied|done|done|done].
  - split; [done|]. by intros ? ? [= <- <-].
Qed.

(** The disks a rotation may leave, when the journal's last entry is the state
    written, all reopen to that state. *)
Lemma rotate_recovers impl0 impl s now d d' snap es r :
  view opts d snap es [] -> current snap es = Some s -> committable impl0 s now ->
  current None es = Some s -> current (Some (s, now)) es = Some s ->
  rotate_post impl s now d d' r -> recovers opts d' s.
Proof.
  intros Hv Hc Hcm Hn Hs [[[J [S|[S|[S _]]]]|[J S]] _].
  - by apply (open_view opts d' snap es []); [|eapply view_files|].
  - by apply (open_view opts d' (Some (s, now)) es []); [|eapply view_replaced|].
  - by apply (open_view opts d' None es []); [|eapply view_dropped|].
  - by apply (open_view opts d' (Some (s, now)) [] []); [|eapply view_emptied|].
Qed.

(** ** Commit *)

Definition commit_post (o : option RegistryState) (s : RegistryState) (d' : Disk)
    (r : option (StoreImpl * list ReasonCode * Outcome CommitToken)) : Prop :=
  (recovers opts d' s \/ match o with Some s0 => recovers opts d' s0 | None => True end) /\
  forall impl' notes' out, r = Some (impl', notes', out) -> outcome_ok out = true ->
    holds impl' d' (Some s).

Definition follows (o : option RegistryState) (s : RegistryState) : Prop :=
  match o with Some s0 => s_store_generation s0 <= s_store_generation s | None => True end.

Lemma bounded_follows o s snap es :
  match o with Some s0 => bounded_by (s_store_generation s0) snap es | None => snap = None /\ es = [] end ->
  follows o s -> bounded_by (s_store_generation s) snap es.
Proof.
  destruct o as [s0|]; simpl; [|by intros [-> ->]]. intros [H1 H2] Hf. split.
  - eapply Forall_impl; [exact H1|]. simpl. lia.
  - intros s1 n1 E. specialize (H2 s1 n1 E). lia.
Qed.

(** What [append] leaves behind reopens to the old or to the new state. *)
Lemma append_recovers impl d snap es s now d1 r :
  store_inv impl d snap es -> committable impl s now -> bounded_by (s_store_generation s) snap es ->
  append_post (commit_impl impl s) StateSnapshot (enc_state s) now d d1 r ->
  recovers opts d1 s \/ match current snap es with Some s0 => recovers opts d1 s0 | None => True end.
Proof.
  intros Hinv Hcm Hb (n & Hg & Hfit & _). set (frame := en_frame (commit_entry impl s now)).
  destruct (decide (n < length frame)%nat) as [Hn|Hn].
  - right. pose proof (view_torn _ _ _ _ _ _ Hinv Hcm n d1 Hg Hfit Hn) as Hv.
    destruct (current snap es) as [s0|] eqn:Ec; [|done]. by eapply open_view.
  - left. destruct Hfit as [Hfit| ->].
    2: { unfold frame, en_frame, journal_frame in Hn. rewrite !length_app, !put_u32_length in Hn. lia. }
    destruct Hg as [G1 G2]. change (journal_frame _ _) with frame in G2. rewrite take_ge in G2 by lia.
    pose proof (inv_appended _ _ _ _ _ _ Hinv Hcm Hb d1 G1 G2 Hfit) as Hi.
    eapply open_view; [done|apply Hi|by apply current_committed].
Qed.

Lemma wp_commit impl d o s now notes :
  holds impl d o -> committable impl s now -> follows o s ->
  Z.of_nat (length (enc_state s)) <= max_journal_entry_bytes (so_limits opts) ->
  wp ev (store_commit impl s now notes) (commit_post o s) d.
Proof.
  intros (snap & es & Hinv & Hcur & Hbnd) Hcm Hf Hsz. pose proof (bounded_follows _ _ _ _ Hbnd Hf) as Hb.
  pose proof (sv_options _ _ _ _ Hinv) as Hopt.
  unfold store_commit. cbv zeta. fold (commit_impl impl s). case_if; [rewrite Hopt in *; lia|].
  apply wp_bind. eapply wp_mono; [by apply wp_append|]. clear Heqb. intros d1 r Hr.
  pose proof (append_recovers _ _ _ _ _ _ _ _ Hinv Hcm Hb Hr) as Hrec. rewrite Hcur in Hrec.
  destruct r as [[i out]|]; [|by split]. destruct (outcome_ok out) eqn:Eo; cbn [negb].
  2: { apply wp_ret. split; [done|]. intros ? ? ? [= <- <- <-]. congruence. }
  destruct Hr as (n & [G1 G2] & _ & [Hno|(Hn & Hfit & o' & [= -> ->] & _)]); [simpl in Hno; congruence|].
  rewrite take_ge in G2 by done.
  pose proof (inv_appended _ _ _ _ _ _ Hinv Hcm Hb d1 G1 G2 Hfit) as Hi.
  pose proof (current_committed impl s now snap es Hcm Hb) as Hc1.
  assert (bounded_by (s_store_generation s) snap (es ++ [commit_entry impl s now])) as Hb1.
  { destruct Hb as [B1 B2]. split; [|done]. apply Forall_app_2; [done|]. by constructor. }
  change (advanced _ _ _) with (after_append impl s now). case_if.
  - apply wp_bind. eapply wp_mono; [apply wp_rotate; exact Hopt|]. intros d2 r Hrot.
    assert (recovers opts d2 s) as Hrec2.
    { eapply rotate_recovers; [apply Hi|done|exact Hcm| | |exact Hrot].
      - apply current_committed; [done|]. by split; [apply Hb|].
      - apply current_committed; [done|]. split; [apply Hb|]. by intros ? ? [= <- <-]. }
    destruct r as [[i out]|]; [|split; [by left|done]]. destruct (outcome_ok out) eqn:Eo2; cbn [negb].
    + apply wp_ret. split; [by left|]. intros ? ? ? [= <- <- <-] _.
      destruct Hrot as [_ [Hno|(J & S & o2 & [= -> ->] & _)]]; [simpl in Hno; congruence|].
      eapply holds_emptied; [exact Hopt|apply Hi|done..].
    + apply wp_ret. split; [by left|]. intros ? ? ? [= <- <- <-]. congruence.
  - apply wp_ret. split; [by left; eapply open_view; [|apply Hi|]|].
    intros ? ? ? [= <- <- <-] _. by exists snap, (es ++ [commit_entry impl s now]).
Qed.
End commit.

(** ** Scanning arbitrary bytes *)

Section arbitrary.
Context (limits : StoreLimits) (data : list Z).

(** The bytes at [off] are a frame whose checksum and digest match, of a state
    snapshot with the given payload and generation. *)
Definition verified_frame (off : nat) (payload : list Z) (generation : Z) (limit : nat) : Prop :=
  exists h, parse_journal_header (drop off data) = inr h /\ jh_kind h = StateSnapshot /\
    jh_store_generation h = generation /\
    payload = field (drop off data) kJournalHeaderSize (Z.to_nat (jh_payload_len h)) /\
    crc32c payload = get_u32 (drop off data) (kJournalHeaderSize + Z.to_nat (jh_payload_len h)) /\
    digest_of payload = jh_payload_digest h /\
    (off + (kJournalHeaderSize + Z.to_nat (jh_payload_len h) + kJournalTrailerSize) <= limit)%nat.

Record scan_sound (s : JournalScan) : Prop := {
  ss_bytes : Z.of_nat (sc_valid_bytes s) + sc_bytes_discarded s <= Z.of_nat (length data);
  ss_discarded : 0 <= sc_bytes_discarded s;
  ss_entries : 0 <= sc_entries_valid s <= sc_entries_seen s;
  ss_payload : sc_last_snapshot_payload s <> [] ->
    exists off, verified_frame off (sc_last_snapshot_payload s) (sc_last_snapshot_generation s) (sc_valid_bytes s) }.

Lemma scan_sound_end pos s (n : nat) :
  scan_sound s -> sc_bytes_discarded s = 0 -> (sc_valid_bytes s <= pos)%nat ->
  (pos + n <= length data)%nat ->
  scan_sound (scan_torn n s) /\ forall reason, scan_sound (scan_corrupt reason n s).
Proof. intros [] H0 H1 H2. split; [|intros reason]; constructor; simpl; try done; lia. Qed.

Lemma scan_sound_seen s : scan_sound s -> scan_sound (scan_seen s).
Proof. intros []. constructor; simpl; try done; lia. Qed.

Lemma scan_sound_apply h s pos :
  scan_sound s -> sc_bytes_discarded s = 0 -> (sc_valid_bytes s <= pos)%nat ->
  sc_entries_valid s < sc_entries_seen s ->
  let len := Z.to_nat (jh_payload_len h) in
  let total := (kJournalHeaderSize + len + kJournalTrailerSize)%nat in
  let payload := field (drop pos data) kJournalHeaderSize len in
  (pos + total <= length data)%nat -> parse_journal_header (drop pos data) = inr h ->
  crc32c payload = get_u32 (drop pos data) (kJournalHeaderSize + len) ->
  digest_of payload = jh_payload_digest h ->
  scan_sound (scan_apply h payload (pos + total) s).
Proof.
  intros [S1 S2 S3 S4] H0 H1 Hlt len total payload Hl Hp Hc Hd.
  constructor; unfold scan_apply; cbn [sc_valid_bytes sc_bytes_discarded sc_entries_valid sc_entries_seen
    sc_last_snapshot_payload sc_last_snapshot_generation]; [lia|lia|lia|].
  destruct (bool_decide _ && _) eqn:E.
  - intros _. apply andb_true_iff in E as [E _]. apply bool_decide_eq_true in E.
    exists pos, h. by split_and!.
  - intros Hne. destruct (S4 Hne) as (off & h' & V). destruct_and? V. exists off, h'. split_and!; try done. lia.
Qed.

Lemma scan_loop_sound fuel : forall pos pq pg s,
  scan_sound s -> sc_bytes_discarded s = 0 -> (sc_valid_bytes s <= pos <= length data)%nat ->
  scan_sound (scan_loop fuel limits (drop pos data) pos pq pg s).
Proof.
  induction fuel as [|fuel IH]; intros pos pq pg s Hs H0 Hp; [done|]. cbn [scan_loop].
  rewrite length_drop. case_if; [done|]. case_if.
  { apply (scan_sound_end pos s); [done|done|simpl; lia|lia]. }
  destruct (parse_journal_header (drop pos data)) as [re|h] eqn:Eh.
  { apply (scan_sound_end pos s); [done|done|simpl; lia|lia]. }
  pose proof (scan_sound_seen s Hs) as Hs1. case_if.
  { apply (scan_sound_end pos (scan_seen s)); [done|done|simpl; lia|lia]. }
  case_if; [apply (scan_sound_end pos (scan_seen s)); [done|done|simpl; lia|lia]|].
  case_if; [apply (scan_sound_end pos (scan_seen s)); [done|done|simpl; lia|lia]|].
  case_if; [apply (scan_sound_end pos (scan_seen s)); [done|done|simpl; lia|lia]|].
  rewrite !drop_drop.
  case_if; [apply IH; [by destruct Hs1|done|cbn [sc_valid_bytes scan_note scan_seen]; lia]|].
  case_if; [apply IH; [by destruct Hs1|done|cbn [sc_valid_bytes scan_note scan_seen]; lia]|].
  apply IH; [|done|cbn [sc_valid_bytes scan_apply]; lia]. pose proof (ss_entries _ Hs).
  apply scan_sound_apply; cbn [sc_valid_bytes sc_entries_valid sc_entries_seen scan_seen]; try done; try lia.
  by eapply bool_decide_eq_true, negb_false_iff.
Qed.

Lemma scan_journal_sound : scan_sound (scan_journal data limits).
Proof.
  unfold scan_journal. pose proof (scan_loop_sound (S (length data)) 0 0 0 empty_scan) as H.
  rewrite drop_0 in H. destruct H; [constructor; simpl; try done; lia|done|simpl; lia|].
  by constructor.
Qed.

(** The fuel of the scan is enough: more does not change the result. *)
Lemma scan_loop_fuel fuel : forall extra pos pq pg s rest,
  (length rest < fuel)%nat ->
  scan_loop (fuel + extra) limits rest pos pq pg s = scan_loop fuel limits rest pos pq pg s.
Proof.
  induction fuel as [|fuel IH]; intros extra pos pq pg s rest Hl; [lia|]. cbn [scan_loop Nat.add].
  case_if; [done|]. case_if; [done|]. destruct (parse_journal_header rest) as [re|h]; [done|].
  case_if; [done|]. case_if; [done|]. case_if; [done|]. case_if; [done|].
  case_if; [apply IH; rewrite length_drop; unfold kJournalHeaderSize in *; lia|].
  case_if; apply IH; rewrite length_drop; unfold kJournalHeaderSize in *; lia.
Qed.
End arbitrary.
