(* ===== verification/StoreThms.v ===== *)
(** * What the store promises

    The properties of [Store] over the scripted file system, and the three ways
    in which an acknowledged commit is lost. *)

From Stdlib Require Import ZArith Lia String ZifyBool.
From stdpp Require Import base tactics list strings.
From S2P Require Import Prelude OrdMap Reason Text Hash Catalog Evidence State.
From S2P Require Import Codec CodecTypes CodecThms Persist PersistFormat PersistThms.

#[local] Open Scope Z_scope.
#[local] Open Scope list_scope.

(** ** A concrete store *)

Module Shelf.
Definition options : StoreOptions := mkStoreOptions "store"%string default_store_limits true 4096.
Definition state (generation : Z) : RegistryState :=
  mkState default_policy 1 1 0 1 generation 5 1 [] [] [] [] [] [] zero_counters.
Definition blank : Disk := mkDisk None None None.
Definition fresh : StoreImpl := mkStoreImpl options 0 0 0 0 0.

Lemma options_fit : options_ok options.
Proof. by constructor. Qed.

(** A state the decoder accepts meets the format's checks. *)
Lemma decodes_wf s :
  forallb (fun b => (0 <=? b) && (b <? 256)) (enc_state s) = true ->
  match dec_state (enc_state s) with inr (s', []) => bool_decide (s' = s) | _ => false end = true -> state_wf s.
Proof.
  intros Hb Hd. destruct (dec_state (enc_state s)) as [|[s' [|]]] eqn:E; [done| |done].
  apply bool_decide_eq_true in Hd as ->. apply (codec_dec_wf (Codec := state_codec_spec) (enc_state s) s [] ).
  - by apply bytes_check.
  - done.
Qed.

Lemma state_fits : state_wf (state 1) /\ state_wf (state 2) /\ state_wf (state 3).
Proof. split_and!; apply decodes_wf; vm_compute; reflexivity. Qed.

Lemma blank_holds : holds options fresh blank None.
Proof.
  exists None, []. split_and!; [|done..]. constructor; [done| |done|done|done].
  constructor; [done|done|done| |done|by left|done]. by constructor.
Qed.

Lemma first_commit : committable options fresh (state 1) 7.
Proof. constructor; [apply state_fits|unfold in_u; lia|done|vm_compute; congruence]. Qed.

Definition after {A} (r : World * A) : Disk := w_disk (fst r).
Definition acknowledged {A B} (r : World * option (A * Outcome B)) : bool :=
  match snd r with Some (_, o) => outcome_ok o | None => false end.

(** The generation of the state the store reopens to. *)
Definition reopened (opts : StoreOptions) (d : Disk) : option Z :=
  match snd (store_open opts (mkWorld d [])) with
  | Some o => (fun rep => s_store_generation (or_state rep)) <$> oc_value o
  | None => None
  end.

(** The first commit on a blank disk. *)
Definition first := store_commit fresh (state 1) 7 [] (mkWorld blank []).
Definition first_impl : StoreImpl := match snd first with Some (i, _, _) => i | None => fresh end.

Lemma first_result :
  exists notes token, first = (fst first, Some (first_impl, notes, token)) /\ outcome_ok token = true.
Proof. vm_compute. by eexists _, _. Qed.
End Shelf.

(** ** Commit *)

Lemma wp_run (ev : IoEvent -> Prop) {A} (m : Io A) Q d script :
  wp ev m Q d -> Forall ev script -> Q (w_disk (fst (m (mkWorld d script)))) (snd (m (mkWorld d script))).
Proof. intros H Hs. specialize (H script Hs). destruct (m _) as [w r]. by destruct H. Qed.

Definition any_event (_ : IoEvent) : Prop := True.
Definition no_error (e : IoEvent) : Prop := match e with IoError _ => False | _ => True end.

Lemma any_script script : Forall any_event script.
Proof. by apply Forall_true. Qed.



(** ** Histories *)

(** The store objects and disks reached from an empty store by acknowledged
    commits, with the committed states, the latest first. *)
Inductive committed (opts : StoreOptions) : StoreImpl -> Disk -> list RegistryState -> Prop :=
| committed_bind d impl w :
    d_snapshot d = None -> d_journal d = None ->
    store_bind opts (mkWorld d []) = (w, Some (outcome_value impl)) ->
    committed opts impl (w_disk w) []
| committed_commit impl d history s now notes script w impl' notes' token :
    committed opts impl d history -> committable opts impl s now -> follows (head history) s ->
    Z.of_nat (length (enc_state s)) <= max_journal_entry_bytes (so_limits opts) ->
    store_commit impl s now notes (mkWorld d script) = (w, Some (impl', notes', token)) ->
    outcome_ok token = true -> committed opts impl' (w_disk w) (s :: history).

Lemma bind_holds opts d impl w :
  options_ok opts -> d_snapshot d = None -> d_journal d = None ->
  store_bind opts (mkWorld d []) = (w, Some (outcome_value impl)) -> holds opts impl (w_disk w) None.
Proof.
  intros Ho Hs Hj. unfold store_bind. destruct (String.eqb _ _) eqn:E; [done|].
  unfold fs_exists, io_bind, syscall, io_ret, is_present. simpl. rewrite Hj. intros [= <- <-]. simpl.
  exists None, []. split_and!; [|done..]. pose proof (oo_journal _ Ho).
  constructor; [done| |done|done|done].
  constructor; [done|done|by rewrite Hj| |done|by left|simpl; lia]. by constructor.
Qed.

Lemma committed_holds opts impl d history :
  options_ok opts -> committed opts impl d history -> holds opts impl d (head history).
Proof.
  intros Ho. induction 1 as [|impl d history s now notes script w impl' notes' token H IH Hc Hf Hz E Eo].
  { by eapply bind_holds. }
  pose proof (wp_run any_event _ _ d script (wp_commit any_event opts Ho impl d _ s now notes IH Hc Hf Hz)
              (any_script script)) as [_ H2].
  rewrite E in H2. by eapply H2.
Qed.



(** ** Compaction *)



(** ** The formats *)


(** Scanning a journal of whole frames followed by a torn one applies every
    whole entry, reports the torn tail and its exact size, and finds the last
    state snapshot; the bytes to keep are exactly the whole frames. *)
Theorem torn_tail_recovered limits es tail :
  journal_ok limits es -> torn limits tail ->
  let r := scan_journal (frames es ++ tail) limits in
  sc_valid_bytes r = length (frames es) /\ sc_entries_valid r = Z.of_nat (length es) /\
  sc_bytes_discarded r = Z.of_nat (length tail) /\ sc_corrupt r = false /\
  sc_truncated_tail r = negb (length tail =? 0)%nat /\
  sc_last_snapshot_payload r = match last_snapshot es with Some e => en_payload e | None => [] end /\
  sc_last_snapshot_generation r = match last_snapshot es with Some e => en_generation e | None => 0 end.
Proof. apply scan_journal_frames. Qed.

Lemma torn_tail_recovered_witness :
  let e := commit_entry Shelf.fresh (Shelf.state 1) 7 in
  sc_bytes_discarded (scan_journal (frames [e] ++ take 100 (en_frame e)) default_store_limits) = 100.
Proof.
  intros e.
  assert (entry_ok default_store_limits e) as He.
  { apply (commit_entry_ok Shelf.options Shelf.options_fit Shelf.fresh (Shelf.state 1) 7 Shelf.first_commit).
    split; vm_compute; congruence. }
  assert (journal_ok default_store_limits [e]) as Hj.
  { constructor; [done|by constructor|]. constructor; [vm_compute; congruence|done]. }
  assert (100 < length (en_frame e))%nat as Hl by (vm_compute; lia).
  assert (length (take 100 (en_frame e)) = 100%nat) as El by (rewrite length_take; lia).
  destruct (torn_tail_recovered default_store_limits [e] (take 100 (en_frame e)) Hj) as (_ & _ & H & _).
  - right. exists e, 100%nat. split_and!; [exact He|lia|lia|reflexivity].
  - rewrite El in H. exact H.
Defined.

(** C31: over arbitrary bytes the journal scan terminates within its bound on the
    iterations, never accounts for more bytes than there are, reports every
    entry it saw as applied or dropped, and adopts a payload only from a frame
    whose header, CRC-32C and SHA-256 digest are all valid. *)
Theorem journal_scan_verified limits data :
  let r := scan_journal data limits in
  (forall extra, scan_finish (scan_loop (S (length data) + extra) limits data 0 0 0 empty_scan) = r) /\
  Z.of_nat (sc_valid_bytes r) + sc_bytes_discarded r <= Z.of_nat (length data) /\
  sc_entries_dropped r + sc_entries_valid r = sc_entries_seen r /\
  (sc_last_snapshot_payload r <> [] ->
   exists off, verified_frame data off (sc_last_snapshot_payload r) (sc_last_snapshot_generation r)
                 (sc_valid_bytes r)).
Proof.
  intros r. destruct (scan_journal_sound limits data) as [S1 S2 S3 S4]. split_and!; [|done| |done].
  - intros extra. unfold r, scan_journal. by rewrite scan_loop_fuel by lia.
  - fold r in S3. unfold r, scan_journal, scan_finish in *. simpl in *. case_if; lia.
Qed.

(** ** Lost commits *)

(** A store object bound to an existing journal restarts its sequence at zero,
    so the commit made through it, although acknowledged, is skipped as a
    replay when the store is opened again: the earlier state comes back. *)
Theorem rebind_loses_commit :
  let d1 := Shelf.after (store_commit Shelf.fresh (Shelf.state 1) 7 [] (mkWorld Shelf.blank [])) in
  let second := store_commit (mkStoreImpl Shelf.options 0 0 (Z.of_nat (length (default [] (d_journal d1)))) 0 0)
                  (Shelf.state 2) 8 [] (mkWorld d1 []) in
  snd (store_bind Shelf.options (mkWorld d1 [])) =
    Some (outcome_value (mkStoreImpl Shelf.options 0 0 (Z.of_nat (length (default [] (d_journal d1)))) 0 0)) /\
  Shelf.acknowledged second = true /\
  Shelf.reopened Shelf.options (Shelf.after second) = Some 1.
Proof. vm_compute. split_and!; reflexivity. Qed.

(** An append that fails half-way leaves its partial frame in the journal, so
    the next commit, although acknowledged, lies behind it and is cut off with
    the torn tail when the store is opened again. *)
Lemma failed_append_loses_next :
  let first := store_commit Shelf.fresh (Shelf.state 1) 7 [] (mkWorld Shelf.blank []) in
  let impl1 := match snd first with Some (i, _, _) => i | None => Shelf.fresh end in
  let failed := store_commit impl1 (Shelf.state 2) 8 [] (mkWorld (Shelf.after first) [IoDone; IoError 10]) in
  let impl2 := match snd failed with Some (i, _, _) => i | None => Shelf.fresh end in
  let third := store_commit impl2 (Shelf.state 3) 9 [] (mkWorld (Shelf.after failed) []) in
  Shelf.acknowledged first = true /\ Shelf.acknowledged failed = false /\
  Shelf.acknowledged third = true /\ Shelf.reopened Shelf.options (Shelf.after third) = Some 1.
Proof. vm_compute. split_and!; reflexivity. Qed.

(** The snapshot bound is checked against the payload when writing and
    against the whole file when reading, so a state whose encoding just meets
    the bound is compacted, acknowledged, and can not be opened again. *)
Lemma full_snapshot_unreadable :
  let limits := mkStoreLimits (Z.of_nat (length (enc_state (Shelf.state 1)))) (1024 * 1024) (16 * 1024 * 1024) 16 16 in
  let opts := mkStoreOptions "store"%string limits true 0 in
  let compacted := store_compact (mkStoreImpl opts 0 0 0 0 0) (Shelf.state 1) 7 (mkWorld Shelf.blank []) in
  Shelf.acknowledged compacted = true /\
  option_map outcome_reason (snd (store_open opts (mkWorld (Shelf.after compacted) []))) = Some StoreOversized.
Proof. vm_compute. split; reflexivity. Qed.
