(* ===== verification/Protocol.v ===== *)
(** * The wire protocol (include/ocreg/protocol.hpp, src/protocol.cpp)

    Opcodes, the 60-byte frame header with its checksum, whole frames, and the
    payload codecs of every request and response, over the readers and writers
    of the canonical codec. *)

From Stdlib Require Import ZArith Lia String.
From stdpp Require Import base tactics list strings.
From S2P Require Import Prelude Checked Reason Text Units SemVer Hash Catalog Evidence State.
From S2P Require Import Codec CodecTypes Persist.

#[local] Open Scope string_scope.
#[local] Open Scope Z_scope.
#[local] Open Scope list_scope.
#[local] Open Scope reader_scope.

(** ** Opcodes *)

Inductive OpCode :=
| OpPing | OpStats | OpAdmit | OpRetire | OpQuery | OpEvaluate | OpExplain | OpExport
| OpRevokeSource | OpRestoreSource | OpSetSourceAuthority | OpUpsertSourcePolicy
| OpBeginDeviceIncarnation | OpCurrentIncarnation | OpResolveConflict | OpEvictionLedger
| OpSnapshot | OpShutdown.

#[export] Instance opcode_eq_dec : EqDecision OpCode.
Proof. solve_decision. Defined.

Definition opcode_num (c : OpCode) : Z :=
  match c with
  | OpPing => 1 | OpStats => 2 | OpAdmit => 3 | OpRetire => 4 | OpQuery => 5 | OpEvaluate => 6
  | OpExplain => 7 | OpExport => 8 | OpRevokeSource => 9 | OpRestoreSource => 10
  | OpSetSourceAuthority => 11 | OpUpsertSourcePolicy => 12 | OpBeginDeviceIncarnation => 13
  | OpCurrentIncarnation => 14 | OpResolveConflict => 15 | OpEvictionLedger => 16
  | OpSnapshot => 17 | OpShutdown => 18
  end.

Definition all_opcodes : list OpCode :=
  [OpPing; OpStats; OpAdmit; OpRetire; OpQuery; OpEvaluate; OpExplain; OpExport; OpRevokeSource;
   OpRestoreSource; OpSetSourceAuthority; OpUpsertSourcePolicy; OpBeginDeviceIncarnation;
   OpCurrentIncarnation; OpResolveConflict; OpEvictionLedger; OpSnapshot; OpShutdown].

Definition opcode_from (raw : Z) : option OpCode :=
  if (raw <? 1) || (raw >? opcode_num OpShutdown) then None
  else find (fun c => opcode_num c =? raw) all_opcodes.

Definition opcode_to_string (c : OpCode) : string :=
  match c with
  | OpPing => "ping" | OpStats => "stats" | OpAdmit => "admit" | OpRetire => "retire"
  | OpQuery => "query" | OpEvaluate => "evaluate" | OpExplain => "explain" | OpExport => "export"
  | OpRevokeSource => "revoke_source" | OpRestoreSource => "restore_source"
  | OpSetSourceAuthority => "set_source_authority" | OpUpsertSourcePolicy => "upsert_source_policy"
  | OpBeginDeviceIncarnation => "begin_device_incarnation"
  | OpCurrentIncarnation => "current_incarnation" | OpResolveConflict => "resolve_conflict"
  | OpEvictionLedger => "eviction_ledger" | OpSnapshot => "snapshot" | OpShutdown => "shutdown"
  end.

(** [parse_opcode] of a spelling: the loop over the codes. *)
Definition parse_opcode (text : string) : option OpCode :=
  find (fun c => String.eqb (opcode_to_string c) text) all_opcodes.

(** ** Frames *)

Definition kFrameMagic : Z := 0x4F435046.
Definition kFrameHeaderSize : nat := 60.
Definition kMaxFramePayload : Z := 4 * 1024 * 1024.
Definition kProtocolVersion : Z := 1.

(** [FrameFlags]. *)
Definition flag_response : Z := 1.
Definition flag_failure : Z := 2.
Definition flag_final : Z := 4.

Record FrameHeader := mkFrameHeader {
  fh_version : Z;
  fh_flags : Z;
  fh_opcode : OpCode;
  fh_reserved : Z;
  fh_request_id : Z;
  fh_payload_len : Z;
  fh_payload_digest : Digest256;
  fh_header_crc : Z }.

Definition default_frame_header : FrameHeader :=
  mkFrameHeader kProtocolVersion 0 OpPing 0 0 0 digest_zero 0.

Definition frame_prefix (h : FrameHeader) : list Z :=
  put_u32 kFrameMagic ++ put_u16 (fh_version h) ++ put_u16 (fh_flags h) ++
  put_u16 (opcode_num (fh_opcode h)) ++ put_u16 0 ++ put_u64 (fh_request_id h) ++
  put_u32 (fh_payload_len h) ++ fh_payload_digest h.

Definition encode_frame_header (h : FrameHeader) : option (list Z) :=
  if fh_payload_len h >? kMaxFramePayload then None
  else if negb (fh_reserved h =? 0) then None
  else match opcode_from (opcode_num (fh_opcode h)) with
       | None => None
       | Some verified =>
           if negb (bool_decide (verified = fh_opcode h)) then None
           else
             let buffer := frame_prefix h ++ put_u32 (crc32c (frame_prefix h)) in
             if negb (length buffer =? kFrameHeaderSize)%nat then None else Some buffer
       end.

(** The bytes are exactly one header. *)
Definition decode_frame_header (bytes : list Z) : ReasonCode + FrameHeader :=
  if negb (get_u32 bytes 0 =? kFrameMagic) then inl ProtocolFrameMalformed
  else
  let stored_crc := get_u32 bytes (kFrameHeaderSize - 4) in
  if negb (crc32c (take (kFrameHeaderSize - 4) bytes) =? stored_crc) then inl ProtocolChecksumMismatch
  else if negb (get_u16 bytes 4 =? kProtocolVersion) then inl ProtocolVersionUnsupported
  else if negb (get_u16 bytes 10 =? 0) then inl ProtocolFrameMalformed
  else match opcode_from (get_u16 bytes 8) with
       | None => inl ProtocolUnknownOpcode
       | Some opcode =>
           let payload_len := get_u32 bytes 20 in
           if payload_len >? kMaxFramePayload then inl ProtocolFrameTooLarge
           else inr (mkFrameHeader (get_u16 bytes 4) (get_u16 bytes 6) opcode (get_u16 bytes 10)
                       (get_u64 bytes 12) payload_len (field bytes 24 kDigestBytes) stored_crc)
       end.

Record Frame := mkFrame { fr_header : FrameHeader; fr_payload : list Z }.

Definition is_response (f : Frame) : bool := negb (Z.land (fh_flags (fr_header f)) flag_response =? 0).
Definition frame_is_failure (f : Frame) : bool := negb (Z.land (fh_flags (fr_header f)) flag_failure =? 0).

Definition seal_header (h : FrameHeader) (payload : list Z) : FrameHeader :=
  mkFrameHeader (fh_version h) (fh_flags h) (fh_opcode h) (fh_reserved h) (fh_request_id h)
    (u32 (Z.of_nat (length payload))) (digest_of payload) (fh_header_crc h).

(** The empty vector when the frame is not representable. *)
Definition serialize_frame (f : Frame) : list Z :=
  match encode_frame_header (seal_header (fr_header f) (fr_payload f)) with
  | None => []
  | Some bytes => bytes ++ fr_payload f
  end.

(** ** The envelope *)

Record ResponseEnvelope := mkEnvelope {
  re_reason : ReasonCode; re_detail : string; re_body : list Z }.

Definition enc_envelope (e : ResponseEnvelope) : list Z :=
  w_reason (re_reason e) ++ w_str (re_detail e) ++ w_vec w_u8 (re_body e).

Definition dec_envelope : Reader ResponseEnvelope :=
  reason <- r_reason ;; detail <- r_bytes ;;
  check (String.length detail <=? 4096)%nat else RejectedOversizedInput ;;
  body <- r_vec r_u8 kMaxFramePayload RejectedOversizedInput ;;
  r_ret (mkEnvelope reason detail body).

(** ** Requests *)

Definition enc_now (now : Tick) : list Z := w_strong now.
Definition dec_now : Reader Tick := r_strong.

Definition enc_query_request (q : CapabilityQuery * Tick) : list Z :=
  enc_device_ref (cq_device (fst q)) ++ enc_kind (cq_kind (fst q)) ++
  w_strong (cq_max_evidence_age (fst q)) ++ w_boolean (cq_include_history (fst q)) ++ w_strong (snd q).
Definition dec_query_request : Reader (CapabilityQuery * Tick) :=
  device <- dec_device_ref ;; kind <- dec_kind ;; age <- r_strong ;; history <- r_boolean ;;
  now <- r_strong ;; r_ret (mkQuery device kind age history, now).

Definition enc_evaluate_request (q : CapabilityRequirement * Tick) : list Z :=
  enc_requirement (fst q) ++ w_strong (snd q).
Definition dec_evaluate_request : Reader (CapabilityRequirement * Tick) :=
  requirement <- dec_requirement ;; now <- r_strong ;; r_ret (requirement, now).

Definition enc_explain_request (id : DecisionId) : list Z := w_digest id.
Definition dec_explain_request : Reader DecisionId := r_digest.

Record ExportOptions := mkExportOptions {
  eo_include_history : bool;
  eo_include_rejected : bool;
  eo_include_evictions : bool;
  eo_include_policy : bool;
  eo_pretty : bool;
  eo_max_records : Z;
  eo_max_bytes : Z }.

Definition default_export_options : ExportOptions :=
  mkExportOptions true true true true false 262144 (64 * 1024 * 1024).

Definition enc_export_request (q : ExportOptions * Tick) : list Z :=
  w_boolean (eo_include_history (fst q)) ++ w_boolean (eo_include_rejected (fst q)) ++
  w_boolean (eo_include_evictions (fst q)) ++ w_boolean (eo_include_policy (fst q)) ++
  w_boolean (eo_pretty (fst q)) ++ w_u64 (eo_max_records (fst q)) ++ w_u64 (eo_max_bytes (fst q)) ++
  w_strong (snd q).

(** [checked_narrow] to [std::size_t], 64 bits wide. *)
Definition narrow_size (v : Z) : Reader Z :=
  match checked_narrow uint64_t uint64_t v with
  | Some v => r_ret v
  | None => r_fail RejectedOversizedInput
  end.
Definition dec_export_request : Reader (ExportOptions * Tick) :=
  history <- r_boolean ;; rejected <- r_boolean ;; evictions <- r_boolean ;; policy <- r_boolean ;;
  pretty <- r_boolean ;; max_records <- r_u64 ;; max_bytes <- r_u64 ;;
  max_records <- narrow_size max_records ;; max_bytes <- narrow_size max_bytes ;;
  now <- r_strong ;;
  r_ret (mkExportOptions history rejected evictions policy pretty max_records max_bytes, now).

Definition enc_source_request (q : SourceId * Tick) : list Z := w_name (fst q) ++ w_strong (snd q).
Definition dec_source_request : Reader (SourceId * Tick) :=
  source <- r_name ;; now <- r_strong ;; r_ret (source, now).

Definition enc_authority_request (q : SourceId * AuthorityRank * Tick) : list Z :=
  w_name (fst (fst q)) ++ enc_authority (snd (fst q)) ++ w_strong (snd q).
Definition dec_authority_request : Reader (SourceId * AuthorityRank * Tick) :=
  source <- r_name ;; authority <- dec_authority ;; now <- r_strong ;; r_ret (source, authority, now).

Definition enc_policy_request (q : SourcePolicy * Tick) : list Z :=
  enc_source_policy (fst q) ++ w_strong (snd q).
Definition dec_policy_request : Reader (SourcePolicy * Tick) :=
  policy <- dec_source_policy ;; now <- r_strong ;; r_ret (policy, now).

Definition enc_incarnation_request (q : DeviceIdentity * Tick) : list Z :=
  enc_device_identity (fst q) ++ w_strong (snd q).
Definition dec_incarnation_request : Reader (DeviceIdentity * Tick) :=
  device <- dec_device_identity ;; now <- r_strong ;; r_ret (device, now).

Record ResolveConflictRequest := mkResolveRequest {
  rc_conflict : ConflictId; rc_chosen : EvidenceId; rc_resolver : SourceId; rc_now : Tick }.

Definition enc_resolve_request (q : ResolveConflictRequest) : list Z :=
  w_digest (rc_conflict q) ++ w_digest (rc_chosen q) ++ w_name (rc_resolver q) ++ w_strong (rc_now q).
Definition dec_resolve_request : Reader ResolveConflictRequest :=
  conflict <- r_digest ;; chosen <- r_digest ;; resolver <- r_name ;; now <- r_strong ;;
  r_ret (mkResolveRequest conflict chosen resolver now).

(** ** Responses *)

Record BoolResponse := mkBoolResponse { br_value : bool; br_reason : ReasonCode }.
Definition enc_bool_response (v : BoolResponse) : list Z := w_boolean (br_value v) ++ w_reason (br_reason v).
Definition dec_bool_response : Reader BoolResponse :=
  value <- r_boolean ;; reason <- r_reason ;; r_ret (mkBoolResponse value reason).

Record IdResponse := mkIdResponse { ir_incarnation : Z; ir_reason : ReasonCode }.
Definition enc_id_response (v : IdResponse) : list Z := w_strong (ir_incarnation v) ++ w_reason (ir_reason v).
Definition dec_id_response : Reader IdResponse :=
  incarnation <- r_strong ;; reason <- r_reason ;; r_ret (mkIdResponse incarnation reason).

Record ExportResponse := mkExportResponse {
  xr_document : string; xr_digest : Digest256; xr_truncated : bool; xr_notes : list ReasonCode }.
Definition enc_export_response (v : ExportResponse) : list Z :=
  w_str (xr_document v) ++ w_digest (xr_digest v) ++ w_boolean (xr_truncated v) ++
  w_vec w_reason (xr_notes v).
Definition dec_export_response : Reader ExportResponse :=
  document <- r_bytes ;;
  check Z.of_nat (String.length document) <=? kMaxFramePayload else RejectedOversizedInput ;;
  digest <- r_digest ;; truncated <- r_boolean ;;
  notes <- r_vec r_reason 64 RejectedOversizedInput ;;
  r_ret (mkExportResponse document digest truncated notes).

Record EvictionLedgerResponse := mkLedgerResponse { lr_entries : list EvictionEntry; lr_truncated : bool }.
Definition enc_ledger_response (v : EvictionLedgerResponse) : list Z :=
  w_boolean (lr_truncated v) ++ w_vec enc_eviction (lr_entries v).
Definition dec_ledger_response : Reader EvictionLedgerResponse :=
  truncated <- r_boolean ;; entries <- r_vec dec_eviction 1048576 RejectedOversizedInput ;;
  r_ret (mkLedgerResponse entries truncated).

Definition dec_decision_kind : Reader DecisionKind := read_enum decision_kind_from RejectedMalformedDocument.

(** The loop over the reasons, then [canonicalize_reasons]. *)
Definition dec_reasons : Reader (list ReasonCode) :=
  reasons <- r_vec r_reason 4096 RejectedOversizedInput ;; r_ret (canonical_reasons reasons).
Definition dec_ids : Reader (list EvidenceId) := r_vec r_digest 1048576 RejectedOversizedInput.

Definition enc_fact (f : EvidenceStateFact) : list Z :=
  w_digest (sf_id f) ++ enc_lifecycle (sf_lifecycle f) ++ enc_evidence_state (sf_state f) ++
  w_reason (sf_reason f) ++ w_strong (sf_observed_at f) ++ w_strong (sf_age f) ++
  enc_authority (sf_authority f) ++ w_strong (sf_generation f) ++
  enc_source_incarnation (sf_source_incarnation f) ++ enc_semver (sf_capability_version f) ++
  enc_features (sf_features f) ++ enc_limits (sf_limits f) ++
  w_optional enc_semver (sf_firmware_version f) ++ w_optional enc_semver (sf_runtime_version f).

(** Both numbers are read before either is checked. *)
Definition dec_fact_state : Reader (EvidenceLifecycle * EvidenceState) :=
  lifecycle <- r_u16 ;; state <- r_u16 ;;
  match lifecycle_from lifecycle, evidence_state_from state with
  | Some l, Some s => r_ret (l, s)
  | _, _ => r_fail RejectedMalformedDocument
  end.
Definition dec_fact : Reader EvidenceStateFact :=
  id <- r_digest ;; ls <- dec_fact_state ;; reason <- r_reason ;; observed_at <- r_strong ;;
  age <- r_strong ;; authority <- dec_authority ;; generation <- r_strong ;;
  source <- dec_source_incarnation ;; version <- dec_semver ;; features <- dec_features ;;
  limits <- dec_limits ;; firmware <- r_optional dec_semver ;; runtime <- r_optional dec_semver ;;
  r_ret (mkStateFact id (fst ls) (snd ls) reason observed_at age authority generation source version
           features limits firmware runtime).

Definition enc_query_result (v : QueryResult) : list Z :=
  enc_decision_kind (qr_kind v) ++ enc_device_ref (qr_device v) ++ enc_kind (qr_kind_requested v) ++
  w_vec w_reason (qr_reasons v) ++ w_vec enc_fact (qr_facts v) ++ w_optional w_digest (qr_selected v) ++
  w_optional w_digest (qr_conflict v) ++ w_strong (qr_rule_generation v) ++
  w_strong (qr_registry_epoch v) ++ w_strong (qr_policy_revision v) ++ w_strong (qr_evaluated_at v).
Definition dec_query_result : Reader QueryResult :=
  kind <- dec_decision_kind ;; device <- dec_device_ref ;; requested <- dec_kind ;;
  reasons <- dec_reasons ;; facts <- r_vec dec_fact 1048576 RejectedOversizedInput ;;
  selected <- r_optional r_digest ;; conflict <- r_optional r_digest ;; rule_generation <- r_strong ;;
  epoch <- r_strong ;; revision <- r_strong ;; evaluated_at <- r_strong ;;
  r_ret (mkQueryResult kind device requested reasons facts selected conflict rule_generation epoch
           revision evaluated_at).

Definition enc_decision (v : CompatibilityDecision) : list Z :=
  w_digest (cd_id v) ++ enc_decision_kind (cd_kind v) ++ enc_device_ref (cd_device v) ++
  enc_kind (cd_capability v) ++ enc_requirement (cd_requirement v) ++ w_vec w_reason (cd_reasons v) ++
  w_vec w_digest (cd_evidence v) ++ w_vec enc_fact (cd_evidence_facts v) ++
  w_optional w_digest (cd_selected v) ++ w_optional w_digest (cd_conflict v) ++
  enc_authority (cd_selected_authority v) ++ w_strong (cd_rule_generation v) ++
  w_strong (cd_registry_epoch v) ++ w_strong (cd_policy_revision v) ++ w_strong (cd_evaluated_at v).
Definition dec_decision : Reader CompatibilityDecision :=
  id <- r_digest ;; kind <- dec_decision_kind ;; device <- dec_device_ref ;; capability <- dec_kind ;;
  requirement <- dec_requirement ;; reasons <- dec_reasons ;; evidence <- dec_ids ;;
  facts <- r_vec dec_fact 1048576 RejectedOversizedInput ;; selected <- r_optional r_digest ;;
  conflict <- r_optional r_digest ;; authority <- dec_authority ;; rule_generation <- r_strong ;;
  epoch <- r_strong ;; revision <- r_strong ;; evaluated_at <- r_strong ;;
  r_ret (mkDecision id kind device capability requirement reasons evidence facts selected conflict
           authority rule_generation epoch revision evaluated_at).

Definition enc_explanation (v : Explanation) : list Z :=
  enc_decision (ex_decision v) ++ w_boolean (ex_decision_available v) ++ w_reason (ex_reason v) ++
  w_vec enc_source_policy (ex_involved_sources v) ++ w_optional enc_conflict (ex_conflict v) ++
  w_optional enc_resolution (ex_resolution v).
Definition dec_explanation : Reader Explanation :=
  decision <- dec_decision ;; available <- r_boolean ;; reason <- r_reason ;;
  sources <- r_vec dec_source_policy 4096 RejectedOversizedInput ;;
  conflict <- r_optional dec_conflict ;; resolution <- r_optional dec_resolution ;;
  r_ret (mkExplanation decision sources conflict resolution available reason).

Definition enc_admission_outcome (v : AdmissionOutcome) : list Z :=
  w_digest (ao_id v) ++ enc_evidence_state (ao_state v) ++ w_reason (ao_reason v) ++
  w_boolean (ao_idempotent v) ++ w_vec w_digest (ao_superseded v) ++ w_vec w_digest (ao_evicted v) ++
  w_optional w_digest (ao_conflict v) ++ w_strong (ao_stream_generation v) ++
  w_u64 (ao_conflicts_opened v).
Definition dec_admission_outcome : Reader AdmissionOutcome :=
  id <- r_digest ;; state <- dec_evidence_state ;; reason <- r_reason ;; idempotent <- r_boolean ;;
  superseded <- dec_ids ;; evicted <- dec_ids ;; conflict <- r_optional r_digest ;;
  generation <- r_strong ;; opened <- r_u64 ;;
  r_ret (mkAdmissionOutcome id state reason idempotent superseded evicted conflict generation opened).

Definition enc_retirement_outcome (v : RetirementOutcome) : list Z :=
  enc_evidence_key (ro_key v) ++ w_strong (ro_generation v) ++ w_reason (ro_reason v) ++
  w_boolean (ro_idempotent v) ++ w_vec w_digest (ro_retired v) ++ w_vec w_digest (ro_evicted v).
Definition dec_retirement_outcome : Reader RetirementOutcome :=
  key <- dec_evidence_key ;; generation <- r_strong ;; reason <- r_reason ;; idempotent <- r_boolean ;;
  retired <- dec_ids ;; evicted <- dec_ids ;;
  r_ret (mkRetirementOutcome key generation reason idempotent retired evicted).

(** The statistics, written field by field in the order of the array. *)
Definition stats_fields (s : RegistryStats) : list Z :=
  [rs_devices s; rs_incarnations s; rs_streams s; rs_records_total s; rs_records_active s;
   rs_records_superseded s; rs_records_retired s; rs_records_rejected s; rs_records_fenced s;
   rs_records_stale s; rs_records_outranked s; rs_records_evicted s; rs_conflicts_open s;
   rs_conflicts_resolved s; rs_tombstones s; rs_resolutions s; rs_eviction_ledger_dropped s;
   rs_conflicts_dropped s; rs_resolutions_dropped s; rs_tombstones_dropped s; rs_decisions_emitted s;
   rs_decisions_evicted s; rs_admissions_accepted s; rs_admissions_idempotent s;
   rs_admissions_rejected s; rs_retirements_accepted s; rs_retirements_rejected s].
Definition enc_stats_response (s : RegistryStats) : list Z :=
  concat (map w_u64 (stats_fields s)) ++ w_strong (rs_registry_epoch s) ++
  w_strong (rs_rule_generation s) ++ w_strong (rs_policy_revision s) ++ w_strong (rs_boot_epoch s) ++
  w_strong (rs_logical_tick s).
Definition dec_stats_response : Reader RegistryStats :=
  fields <- r_loop r_u64 27 ;; epoch <- r_strong ;; rule_generation <- r_strong ;;
  revision <- r_strong ;; boot <- r_strong ;; tick <- r_strong ;;
  let f i := nth i fields 0 in
  r_ret (mkStats (f 0%nat) (f 1%nat) (f 2%nat) (f 3%nat) (f 4%nat) (f 5%nat) (f 6%nat) (f 7%nat)
           (f 8%nat) (f 9%nat) (f 10%nat) (f 11%nat) (f 12%nat) (f 13%nat) (f 14%nat) (f 15%nat)
           (f 16%nat) (f 17%nat) (f 18%nat) (f 19%nat) (f 20%nat) (f 21%nat) (f 22%nat) (f 23%nat)
           (f 24%nat) (f 25%nat) (f 26%nat) epoch rule_generation revision boot tick).

(** [encode]/[decode] of [Status] (src/codec.cpp): the failed flag does not travel. *)
Definition enc_status (v : Status) : list Z := w_reason (st_code v) ++ w_str (st_detail v).
Definition dec_status (failed : bool) : Reader Status :=
  code <- r_reason ;; detail <- r_bytes ;;
  check (String.length detail <=? 4096)%nat else RejectedOversizedInput ;;
  r_ret (mkStatus code detail failed).
