(* ===== verification/ProtocolThms.v ===== *)
(** * Facts about the wire protocol

    Every request and response payload crosses the codec unchanged, and a frame
    written by [serialize_frame] is read back by the header decoder and the
    digest check. *)

From Stdlib Require Import ZArith Lia String ZifyBool.
From stdpp Require Import base tactics list strings.
From S2P Require Import Prelude Checked Reason Text Units SemVer Hash Catalog Evidence State.
From S2P Require Import Codec CodecTypes CodecThms Persist PersistFormat Protocol.

#[local] Open Scope Z_scope.
#[local] Open Scope list_scope.
#[local] Opaque digest_of crc32c.

(** ** Requests *)

Definition query_request_wf (q : CapabilityQuery * Tick) : Prop :=
  device_ref_wf (cq_device (fst q)) /\ any (cq_kind (fst q)) /\
  in_u 64 (cq_max_evidence_age (fst q)) /\ any (cq_include_history (fst q)) /\ in_u 64 (snd q).
#[export] Instance query_request_codec :
  CanonicalCodec enc_query_request dec_query_request query_request_wf.
Proof.
  split; [|record_inv enc_query_request dec_query_request].
  intros [[d k a h] now] rest Hx. hnf in Hx. destruct_and? Hx. unfold enc_query_request, dec_query_request.
  cbn [fst snd cq_device cq_kind cq_max_evidence_age cq_include_history] in *.
  repeat (rewrite <- ?app_assoc; rewrite codec_bind by (first [exact I | assumption])). done.
Qed.

(** A request that pairs a value with the caller's clock. *)
Section stamped.
Context {A : Type} (enc : A -> list Z) (dec : Reader A) (wf : A -> Prop).

Definition stamped_wf (q : A * Tick) : Prop := wf (fst q) /\ in_u 64 (snd q).

Lemma stamped_codec `{!Codec enc dec wf} :
  Codec (fun q : A * Tick => enc (fst q) ++ w_strong (snd q))
        (r_bind dec (fun x => r_bind r_strong (fun now => r_ret (x, now)))) stamped_wf.
Proof.
  split.
  - intros [x now] rest [H1 H2]. cbn [fst snd] in *. rewrite <- app_assoc.
    by rewrite codec_bind, codec_bind by done.
  - intros b x rest Hb H. apply codec_bind_wf in H as (y & b1 & Hy & Hb1 & H); [|done].
    apply codec_bind_wf in H as (now & b2 & Hn & Hb2 & H); [|done]. by injection H as <- <-.
Qed.
End stamped.

#[export] Instance now_codec : Codec enc_now dec_now (in_u 64).
Proof. apply _. Qed.
#[export] Instance explain_request_codec : Codec enc_explain_request dec_explain_request digest_wf.
Proof. apply _. Qed.
#[export] Instance evaluate_request_codec :
  Codec enc_evaluate_request dec_evaluate_request (stamped_wf requirement_wf).
Proof. apply (stamped_codec enc_requirement dec_requirement requirement_wf). Qed.
#[export] Instance source_request_codec :
  Codec enc_source_request dec_source_request (stamped_wf name_ok).
Proof. apply (stamped_codec w_name r_name name_ok). Qed.
#[export] Instance policy_request_codec :
  Codec enc_policy_request dec_policy_request (stamped_wf source_policy_wf).
Proof. apply (stamped_codec enc_source_policy dec_source_policy source_policy_wf). Qed.
#[export] Instance incarnation_request_codec :
  Codec enc_incarnation_request dec_incarnation_request (stamped_wf device_identity_wf).
Proof. apply (stamped_codec enc_device_identity dec_device_identity device_identity_wf). Qed.

Definition authority_request_wf (q : SourceId * AuthorityRank * Tick) : Prop :=
  name_ok (fst (fst q)) /\ any (snd (fst q)) /\ in_u 64 (snd q).
#[export] Instance authority_request_codec :
  CanonicalCodec enc_authority_request dec_authority_request authority_request_wf.
Proof.
  split; [|record_inv enc_authority_request dec_authority_request].
  intros [[s a] now] rest (H1 & H2 & H3). unfold enc_authority_request, dec_authority_request.
  cbn [fst snd] in *. repeat (rewrite <- ?app_assoc; rewrite codec_bind by (first [exact I | assumption])). done.
Qed.

Lemma narrow_size_id v rest : in_u 64 v -> narrow_size v rest = inr (v, rest).
Proof.
  intros Hv. unfold narrow_size, uint64_t. unfold in_u in Hv. rewrite checked_narrow_exact by lia.
  case_if; [done|lia].
Qed.

Definition export_request_wf (q : ExportOptions * Tick) : Prop :=
  in_u 64 (eo_max_records (fst q)) /\ in_u 64 (eo_max_bytes (fst q)) /\ in_u 64 (snd q).
#[export] Instance export_request_codec : Codec enc_export_request dec_export_request export_request_wf.
Proof.
  split.
  - intros [[h r e p q mr mb] now] rest (H1 & H2 & H3). unfold enc_export_request, dec_export_request.
    cbn [fst snd eo_include_history eo_include_rejected eo_include_evictions eo_include_policy eo_pretty
         eo_max_records eo_max_bytes] in *.
    repeat (rewrite <- ?app_assoc; rewrite codec_bind by (first [exact I | assumption])).
    unfold r_bind at 1 2. rewrite !narrow_size_id by done. by rewrite codec_bind.
  - intros b x rest Hb H. unfold dec_export_request in H. codec_wf H.
    unfold r_bind at 1 2 in H. rewrite !narrow_size_id in H by done. codec_wf H. by injection H as <- <-.
Qed.

Definition resolve_request_wf (q : ResolveConflictRequest) : Prop :=
  digest_wf (rc_conflict q) /\ digest_wf (rc_chosen q) /\ name_ok (rc_resolver q) /\ in_u 64 (rc_now q).
#[export] Instance resolve_request_codec :
  CanonicalCodec enc_resolve_request dec_resolve_request resolve_request_wf.
Proof. split; [record_fwd enc_resolve_request dec_resolve_request|record_inv enc_resolve_request dec_resolve_request]. Qed.

(** ** Responses *)

#[export] Instance bool_response_codec : CanonicalCodec enc_bool_response dec_bool_response any.
Proof.
  split; [|record_inv enc_bool_response dec_bool_response].
  intros [v r] rest _. unfold enc_bool_response, dec_bool_response. rewrite <- app_assoc.
  by rewrite codec_bind, codec_bind.
Qed.

Definition id_response_wf (v : IdResponse) : Prop := in_u 64 (ir_incarnation v) /\ any (ir_reason v).
#[export] Instance id_response_codec : CanonicalCodec enc_id_response dec_id_response id_response_wf.
Proof. split; [record_fwd enc_id_response dec_id_response|record_inv enc_id_response dec_id_response]. Qed.

Definition export_response_wf (v : ExportResponse) : Prop :=
  Z.of_nat (String.length (xr_document v)) < 2 ^ 32 /\
  (Z.of_nat (String.length (xr_document v)) <=? kMaxFramePayload) = true /\
  digest_wf (xr_digest v) /\ any (xr_truncated v) /\ vec_wf any 64 (xr_notes v).
#[export] Instance export_response_codec :
  CanonicalCodec enc_export_response dec_export_response export_response_wf.
Proof. split; [record_fwd enc_export_response dec_export_response|record_inv enc_export_response dec_export_response]. Qed.

Definition ledger_response_wf (v : EvictionLedgerResponse) : Prop :=
  any (lr_truncated v) /\ vec_wf eviction_wf 1048576 (lr_entries v).
#[export] Instance ledger_response_codec :
  CanonicalCodec enc_ledger_response dec_ledger_response ledger_response_wf.
Proof. split; [record_fwd enc_ledger_response dec_ledger_response|record_inv enc_ledger_response dec_ledger_response]. Qed.

#[export] Instance decision_kind_codec : CanonicalCodec enc_decision_kind dec_decision_kind any.
Proof. enum_instance decision_kind_num decision_kind_from RejectedMalformedDocument. Qed.

Lemma canonical_reasons_idemp l : canonical_reasons (canonical_reasons l) = canonical_reasons l.
Proof.
  unfold canonical_reasons at 1. pose proof (canonical_reasons_sorted l) as H.
  rewrite sort_by_id by by apply strict_sorted_le. by apply unique_by_id.
Qed.

Lemma unique_by_length {A K} `{Cmp K} (key : A -> K) l : (length (unique_by key l) <= length l)%nat.
Proof.
  induction l as [|a [|b l] IH]; [done..|].
  change (unique_by key (a :: b :: l)) with
    (match unique_by key (b :: l) with
     | [] => [a]
     | z :: r => if ceq (key a) (key z) then a :: r else a :: z :: r
     end).
  destruct (unique_by key (b :: l)); [simpl; lia|]. destruct (ceq _ _); simpl in *; lia.
Qed.

Lemma canonical_reasons_length l : (length (canonical_reasons l) <= length l)%nat.
Proof.
  unfold canonical_reasons. etransitivity; [apply unique_by_length|].
  by rewrite sort_by_length.
Qed.

Definition reasons_wf (l : list ReasonCode) : Prop := vec_wf any 4096 l /\ canonical_reasons l = l.
#[export] Instance reasons_codec : Codec (w_vec w_reason) dec_reasons reasons_wf.
Proof.
  split.
  - intros l rest [Hl Hc]. unfold dec_reasons. rewrite codec_bind by done. unfold r_ret. by rewrite Hc.
  - intros b x rest Hb H. unfold dec_reasons in H. codec_wf H. injection H as <- <-. split; [|done].
    split; [|apply canonical_reasons_idemp].
    match goal with V : vec_wf _ 4096 ?y |- _ => destruct V as (_ & V1 & V2); pose proof (canonical_reasons_length y) end.
    split_and!; [by apply Forall_true|lia..].
Qed.

#[export] Instance fact_state_codec :
  Codec (fun q : EvidenceLifecycle * EvidenceState => enc_lifecycle (fst q) ++ enc_evidence_state (snd q))
        dec_fact_state any.
Proof.
  split.
  - intros [l st] rest _. unfold dec_fact_state, enc_lifecycle, enc_evidence_state. cbn [fst snd].
    rewrite <- app_assoc, codec_bind by (destruct l; unfold in_u; simpl; lia).
    rewrite codec_bind by (destruct st; unfold in_u; simpl; lia). by destruct l, st.
  - intros b x rest Hb H. unfold dec_fact_state in H. codec_wf H. 
    destruct (lifecycle_from _); [|done]. destruct (evidence_state_from _); [|done]. by injection H as <- <-.
Qed.

Definition fact_wf (f : EvidenceStateFact) : Prop :=
  digest_wf (sf_id f) /\ any (sf_reason f) /\ in_u 64 (sf_observed_at f) /\
  in_u 64 (sf_age f) /\ any (sf_authority f) /\ in_u 64 (sf_generation f) /\
  source_incarnation_wf (sf_source_incarnation f) /\ semver_valid (sf_capability_version f) /\
  features_wf (sf_features f) /\ limits_wf (sf_limits f) /\
  opt_wf semver_valid (sf_firmware_version f) /\ opt_wf semver_valid (sf_runtime_version f).
#[export] Instance fact_codec : Codec enc_fact dec_fact fact_wf.
Proof.
  split; [|record_wf dec_fact].
  intros x rest Hx. hnf in Hx. destruct_and? Hx. unfold enc_fact, dec_fact.
  rewrite <- ?app_assoc, codec_bind by assumption. rewrite (app_assoc (enc_lifecycle _)).
  change (enc_lifecycle (sf_lifecycle x) ++ enc_evidence_state (sf_state x)) with
    ((fun q => enc_lifecycle (fst q) ++ enc_evidence_state (snd q)) (sf_lifecycle x, sf_state x)).
  repeat (rewrite <- ?app_assoc; rewrite codec_bind by (first [exact I | assumption])).
  by destruct x.
Qed.

Definition query_result_wf (v : QueryResult) : Prop :=
  any (qr_kind v) /\ device_ref_wf (qr_device v) /\ any (qr_kind_requested v) /\
  reasons_wf (qr_reasons v) /\ vec_wf fact_wf 1048576 (qr_facts v) /\
  opt_wf digest_wf (qr_selected v) /\ opt_wf digest_wf (qr_conflict v) /\
  in_u 64 (qr_rule_generation v) /\ in_u 64 (qr_registry_epoch v) /\
  in_u 64 (qr_policy_revision v) /\ in_u 64 (qr_evaluated_at v).
#[export] Instance query_result_codec : Codec enc_query_result dec_query_result query_result_wf.
Proof. split; [record_fwd enc_query_result dec_query_result|record_wf dec_query_result]. Qed.

#[export] Instance ids_codec : CanonicalCodec (w_vec w_digest) dec_ids (vec_wf digest_wf 1048576).
Proof. unfold dec_ids. apply _. Qed.

Definition decision_wf (v : CompatibilityDecision) : Prop :=
  digest_wf (cd_id v) /\ any (cd_kind v) /\ device_ref_wf (cd_device v) /\ any (cd_capability v) /\
  requirement_wf (cd_requirement v) /\ reasons_wf (cd_reasons v) /\
  vec_wf digest_wf 1048576 (cd_evidence v) /\ vec_wf fact_wf 1048576 (cd_evidence_facts v) /\
  opt_wf digest_wf (cd_selected v) /\ opt_wf digest_wf (cd_conflict v) /\
  any (cd_selected_authority v) /\ in_u 64 (cd_rule_generation v) /\ in_u 64 (cd_registry_epoch v) /\
  in_u 64 (cd_policy_revision v) /\ in_u 64 (cd_evaluated_at v).
#[export] Instance decision_codec : Codec enc_decision dec_decision decision_wf.
Proof. split; [record_fwd enc_decision dec_decision|record_wf dec_decision]. Qed.

Definition explanation_wf (v : Explanation) : Prop :=
  decision_wf (ex_decision v) /\ any (ex_decision_available v) /\ any (ex_reason v) /\
  vec_wf source_policy_wf 4096 (ex_involved_sources v) /\ opt_wf conflict_wf (ex_conflict v) /\
  opt_wf resolution_wf (ex_resolution v).
#[export] Instance explanation_codec : Codec enc_explanation dec_explanation explanation_wf.
Proof. split; [record_fwd enc_explanation dec_explanation|record_wf dec_explanation]. Qed.

Definition admission_outcome_wf (v : AdmissionOutcome) : Prop :=
  digest_wf (ao_id v) /\ any (ao_state v) /\ any (ao_reason v) /\ any (ao_idempotent v) /\
  vec_wf digest_wf 1048576 (ao_superseded v) /\ vec_wf digest_wf 1048576 (ao_evicted v) /\
  opt_wf digest_wf (ao_conflict v) /\ in_u 64 (ao_stream_generation v) /\ in_u 64 (ao_conflicts_opened v).
#[export] Instance admission_outcome_codec :
  CanonicalCodec enc_admission_outcome dec_admission_outcome admission_outcome_wf.
Proof. split; [record_fwd enc_admission_outcome dec_admission_outcome|record_inv enc_admission_outcome dec_admission_outcome]. Qed.

Definition retirement_outcome_wf (v : RetirementOutcome) : Prop :=
  evidence_key_wf (ro_key v) /\ in_u 64 (ro_generation v) /\ any (ro_reason v) /\ any (ro_idempotent v) /\
  vec_wf digest_wf 1048576 (ro_retired v) /\ vec_wf digest_wf 1048576 (ro_evicted v).
#[export] Instance retirement_outcome_codec :
  CanonicalCodec enc_retirement_outcome dec_retirement_outcome retirement_outcome_wf.
Proof. split; [record_fwd enc_retirement_outcome dec_retirement_outcome|record_inv enc_retirement_outcome dec_retirement_outcome]. Qed.

Definition envelope_wf (e : ResponseEnvelope) : Prop :=
  any (re_reason e) /\ Z.of_nat (String.length (re_detail e)) < 2 ^ 32 /\
  (String.length (re_detail e) <=? 4096)%nat = true /\ vec_wf (in_u 8) kMaxFramePayload (re_body e).
#[export] Instance envelope_codec : CanonicalCodec enc_envelope dec_envelope envelope_wf.
Proof. split; [record_fwd enc_envelope dec_envelope|record_inv enc_envelope dec_envelope]. Qed.

Definition stats_wf (s : RegistryStats) : Prop :=
  in_u 64 (rs_devices s) /\ in_u 64 (rs_incarnations s) /\ in_u 64 (rs_streams s) /\
  in_u 64 (rs_records_total s) /\ in_u 64 (rs_records_active s) /\ in_u 64 (rs_records_superseded s) /\
  in_u 64 (rs_records_retired s) /\ in_u 64 (rs_records_rejected s) /\ in_u 64 (rs_records_fenced s) /\
  in_u 64 (rs_records_stale s) /\ in_u 64 (rs_records_outranked s) /\ in_u 64 (rs_records_evicted s) /\
  in_u 64 (rs_conflicts_open s) /\ in_u 64 (rs_conflicts_resolved s) /\ in_u 64 (rs_tombstones s) /\
  in_u 64 (rs_resolutions s) /\ in_u 64 (rs_eviction_ledger_dropped s) /\
  in_u 64 (rs_conflicts_dropped s) /\ in_u 64 (rs_resolutions_dropped s) /\
  in_u 64 (rs_tombstones_dropped s) /\ in_u 64 (rs_decisions_emitted s) /\
  in_u 64 (rs_decisions_evicted s) /\ in_u 64 (rs_admissions_accepted s) /\
  in_u 64 (rs_admissions_idempotent s) /\ in_u 64 (rs_admissions_rejected s) /\
  in_u 64 (rs_retirements_accepted s) /\ in_u 64 (rs_retirements_rejected s) /\
  in_u 64 (rs_registry_epoch s) /\ in_u 64 (rs_rule_generation s) /\
  in_u 64 (rs_policy_revision s) /\ in_u 64 (rs_boot_epoch s) /\ in_u 64 (rs_logical_tick s).
#[export] Instance stats_codec : CanonicalCodec enc_stats dec_stats stats_wf.
Proof. split; [record_fwd enc_stats dec_stats|record_inv enc_stats dec_stats]. Qed.

(** The loop over the array and the store's field-by-field encoding agree. *)
Lemma enc_stats_response_eq s : enc_stats_response s = enc_stats s.
Proof. reflexivity. Qed.

Lemma dec_stats_response_eq b : dec_stats_response b = dec_stats b.
Proof.
  unfold dec_stats_response, dec_stats, r_bind. cbn [r_loop]. unfold r_bind, r_ret.
  repeat match goal with |- context [match r_u64 ?x with _ => _ end] => destruct (r_u64 x) as [|[? ?]]; [done|] end.
  reflexivity.
Qed.

#[export] Instance stats_response_codec : CanonicalCodec enc_stats_response dec_stats_response stats_wf.
Proof.
  destruct stats_codec as [H1 H2].
  split; [intros x rest Hx; rewrite dec_stats_response_eq; by apply H1|].
  intros b x rest Hb H. rewrite dec_stats_response_eq in H. by apply H2.
Qed.

(** ** Frames *)

(** A frame the current build can put on the wire. *)
Definition frame_ok (f : Frame) : Prop :=
  fh_version (fr_header f) = kProtocolVersion /\ in_u 16 (fh_flags (fr_header f)) /\
  fh_reserved (fr_header f) = 0 /\ in_u 64 (fh_request_id (fr_header f)) /\
  Z.of_nat (length (fr_payload f)) <= kMaxFramePayload.

(** The header as it arrives: sealed, with the checksum that was read. *)
Definition received_header (f : Frame) : FrameHeader :=
  let h := seal_header (fr_header f) (fr_payload f) in
  mkFrameHeader (fh_version h) (fh_flags h) (fh_opcode h) (fh_reserved h) (fh_request_id h)
    (fh_payload_len h) (fh_payload_digest h) (crc32c (frame_prefix h)).

Lemma opcode_from_num c : opcode_from (opcode_num c) = Some c.
Proof. by destruct c. Qed.

Lemma opcode_num_range c : in_u 16 (opcode_num c).
Proof. destruct c; unfold in_u; simpl; lia. Qed.

Lemma frame_prefix_length h :
  length (fh_payload_digest h) = kDigestBytes -> length (frame_prefix h) = 56%nat.
Proof.
  intros Hd. unfold frame_prefix.
  repeat rewrite length_app, ?put_u16_length, ?put_u32_length, ?put_u64_length. by rewrite Hd.
Qed.

Lemma encode_frame_header_ok h :
  fh_payload_len h <= kMaxFramePayload -> fh_reserved h = 0 ->
  length (fh_payload_digest h) = kDigestBytes ->
  encode_frame_header h = Some (frame_prefix h ++ put_u32 (crc32c (frame_prefix h))).
Proof.
  intros Hl Hr Hd. unfold encode_frame_header. rewrite opcode_from_num, Hr.
  destruct (_ >? _) eqn:E; [lia|]. rewrite bool_decide_true by done. cbn [negb Z.eqb].
  rewrite length_app, frame_prefix_length by done. done.
Qed.

Lemma decode_encoded_header h :
  fh_version h = kProtocolVersion -> in_u 16 (fh_flags h) -> in_u 64 (fh_request_id h) ->
  0 <= fh_payload_len h <= kMaxFramePayload -> length (fh_payload_digest h) = kDigestBytes ->
  decode_frame_header (frame_prefix h ++ put_u32 (crc32c (frame_prefix h))) =
  inr (mkFrameHeader (fh_version h) (fh_flags h) (fh_opcode h) 0 (fh_request_id h) (fh_payload_len h)
         (fh_payload_digest h) (crc32c (frame_prefix h))).
Proof.
  intros E1 H2 H3 H4 Hd. pose proof (frame_prefix_length h Hd) as Hl.
  pose proof (crc32c_range (frame_prefix h)) as Hc. pose proof (opcode_num_range (fh_opcode h)) as Ho.
  assert (in_u 32 (fh_payload_len h)) as Hp by (unfold in_u, kMaxFramePayload in *; lia).
  remember (frame_prefix h ++ put_u32 (crc32c (frame_prefix h))) as data eqn:Ed.
  rewrite <- (app_nil_r (put_u32 _)) in Ed.
  assert (get_u32 data 56 = crc32c (frame_prefix h)) as G0 by (rewrite Ed; by apply get_u32_at).
  assert (take 56 data = frame_prefix h) as G1 by (rewrite Ed, <- Hl; apply take_app_length).
  unfold frame_prefix in Ed. rewrite <- ?app_assoc in Ed.
  assert (get_u32 data 0 = kFrameMagic) as A0 by (rewrite Ed; at_u32).
  assert (get_u16 data 4 = fh_version h) as A1 by (rewrite Ed, E1; at_u16).
  assert (get_u16 data 6 = fh_flags h) as A2 by (rewrite Ed; at_u16).
  assert (get_u16 data 8 = opcode_num (fh_opcode h)) as A3 by (rewrite Ed; at_u16).
  assert (get_u16 data 10 = 0) as A4 by (rewrite Ed; at_u16).
  assert (get_u64 data 12 = fh_request_id h) as A5 by (rewrite Ed; at_u64).
  assert (get_u32 data 20 = fh_payload_len h) as A6 by (rewrite Ed; at_u32).
  assert (field data 24 kDigestBytes = fh_payload_digest h) as A7.
  { rewrite Ed. walk field_past. rewrite <- Hd. apply field_here. }
  unfold decode_frame_header. change (kFrameHeaderSize - 4)%nat with 56%nat.
  rewrite A0, G0, G1, A1, A2, A3, opcode_from_num, A4, A5, A6, A7, E1, !Z.eqb_refl. cbn [negb].
  destruct (_ >? _) eqn:E; [lia|done].
Qed.

(** The bytes of a frame: a header the decoder reads back, then the payload. *)
Lemma serialize_frame_bytes f :
  frame_ok f ->
  exists hdr, serialize_frame f = hdr ++ fr_payload f /\ length hdr = kFrameHeaderSize /\
    decode_frame_header hdr = inr (received_header f) /\
    fh_payload_len (received_header f) = Z.of_nat (length (fr_payload f)).
Proof.
  intros (Hv & Hf & Hr & Hi & Hl). set (h := seal_header (fr_header f) (fr_payload f)).
  assert (fh_payload_len h = Z.of_nat (length (fr_payload f))) as Hlen.
  { unfold h, seal_header. cbn [fh_payload_len]. unfold u32. apply wrap_small. unfold in_u, kMaxFramePayload in *. lia. }
  assert (length (fh_payload_digest h) = kDigestBytes) as Hd by apply digest_of_length.
  exists (frame_prefix h ++ put_u32 (crc32c (frame_prefix h))). unfold serialize_frame. fold h.
  rewrite encode_frame_header_ok by (done || lia). split; [done|]. split.
  - rewrite length_app, frame_prefix_length by done. done.
  - split; [|done]. rewrite decode_encoded_header by (done || lia). unfold received_header. fold h.
    do 2 f_equal. by symmetry.
Qed.

(** ** Headers are canonical *)

Lemma field_bytes b n m : bytes b -> bytes (field b n m).
Proof. intros Hb. unfold field. by apply Forall_take, Forall_drop. Qed.

Lemma field_length b n m : (n + m <= length b)%nat -> length (field b n m) = m.
Proof. intros H. unfold field. rewrite length_take, length_drop. lia. Qed.

Lemma field_app b n m k : field b n m ++ field b (n + m) k = field b n (m + k).
Proof. unfold field. by rewrite <- drop_drop, take_take_drop. Qed.

Lemma be_fold_val w l :
  bytes l -> w = 8 * Z.of_nat (length l) -> 8 <= w ->
  fold_left (fun v b => Z.lor (wrap w (Z.shiftl v 8)) b) l 0 = be_val l.
Proof.
  intros Hl -> Hw. rewrite be_fold; [done|done|lia|done|].
  rewrite Z.pow_mul_r by lia. change (2 ^ 8) with 256. lia.
Qed.

Lemma put_get_u16 b n : bytes b -> (n + 2 <= length b)%nat -> put_u16 (get_u16 b n) = field b n 2.
Proof.
  intros Hb Hn. pose proof (field_length b n 2 Hn) as Hl. pose proof (field_bytes b n 2 Hb) as Hf.
  unfold get_u16. destruct (field b n 2) as [|x [|y []]]; try done.
  change (put_u16 ?v) with (w_u16 v). rewrite w_u16_be. cbn [nth].
  replace (Z.lor (u16 (Z.shiftl x 8)) y) with (be_val [x; y]).
  - by rewrite <- (be_bytes_val [x; y]) at 2.
  - rewrite <- (be_fold_val 16) by done. cbn [fold_left]. by rewrite Z.shiftl_0_l.
Qed.

Lemma put_get_u32 b n : bytes b -> (n + 4 <= length b)%nat -> put_u32 (get_u32 b n) = field b n 4.
Proof.
  intros Hb Hn. pose proof (field_length b n 4 Hn) as Hl. pose proof (field_bytes b n 4 Hb) as Hf.
  change (put_u32 ?v) with (w_u32 v). rewrite w_u32_be. unfold get_u32, u32.
  rewrite be_fold_val by (rewrite ?Hl; done). rewrite <- Hl at 1. by apply be_bytes_val.
Qed.

Lemma put_get_u64 b n : bytes b -> (n + 8 <= length b)%nat -> put_u64 (get_u64 b n) = field b n 8.
Proof.
  intros Hb Hn. pose proof (field_length b n 8 Hn) as Hl. pose proof (field_bytes b n 8 Hb) as Hf.
  change (put_u64 ?v) with (w_u64 v). rewrite w_u64_be. unfold get_u64, u64.
  rewrite be_fold_val by (rewrite ?Hl; done). rewrite <- Hl at 1. by apply be_bytes_val.
Qed.

Lemma opcode_from_sound raw c : opcode_from raw = Some c -> opcode_num c = raw.
Proof.
  unfold opcode_from. destruct (_ || _); [done|]. intros H. apply find_some_spec in H as [H _]. lia.
Qed.

(** A header the decoder accepts is the one the encoder writes for the result:
    every byte of the sixty is determined by the decoded fields. *)
Lemma frame_header_canonical b h :
  bytes b -> length b = kFrameHeaderSize -> decode_frame_header b = inr h ->
  encode_frame_header h = Some b /\ fh_header_crc h = crc32c (frame_prefix h).
Proof.
  intros Hb Hl. unfold decode_frame_header. change (kFrameHeaderSize - 4)%nat with 56%nat.
  destruct (get_u32 b 0 =? kFrameMagic) eqn:E0; [|done].
  destruct (crc32c (take 56 b) =? get_u32 b 56) eqn:E1; [|done].
  destruct (get_u16 b 4 =? kProtocolVersion) eqn:E2; [|done].
  destruct (get_u16 b 10 =? 0) eqn:E3; [|done]. cbn [negb].
  destruct (opcode_from (get_u16 b 8)) as [c|] eqn:Ec; [|done].
  destruct (get_u32 b 20 >? kMaxFramePayload) eqn:E4; [done|]. intros [= <-]. zb.
  apply opcode_from_sound in Ec. unfold kFrameHeaderSize in Hl.
  set (h := mkFrameHeader _ _ _ _ _ _ _ _).
  assert (frame_prefix h = take 56 b) as Hp.
  { unfold frame_prefix, h. cbn [fh_version fh_flags fh_opcode fh_request_id fh_payload_len fh_payload_digest].
    rewrite <- E0, Ec, <- E3, !put_get_u32, !put_get_u16, put_get_u64 by (done || lia).
    rewrite !app_assoc. rewrite !(field_app b 0). done. }
  split; [|by rewrite Hp].
  rewrite encode_frame_header_ok.
  - rewrite Hp, E1, put_get_u32 by (done || lia). unfold field.
    rewrite (take_ge (drop 56 b)) by (rewrite length_drop; lia). by rewrite take_drop.
  - cbn. lia.
  - done.
  - apply field_length. rewrite Hl. unfold kDigestBytes. lia.
Qed.

(** ** The protocol's promises *)

(** C33: a frame that can be sent is a 60-byte header followed by its payload; the
    decoder reads that header back with the same opcode, flags and request
    number, the payload's length and the payload's digest. Conversely the
    decoder accepts a header only when it is, byte for byte, what the encoder
    writes for the fields it returned. *)
Theorem frame_roundtrip :
  (forall f, frame_ok f -> exists hdr,
     serialize_frame f = hdr ++ fr_payload f /\ length hdr = kFrameHeaderSize /\
     exists h, decode_frame_header hdr = inr h /\ fh_opcode h = fh_opcode (fr_header f) /\
       fh_flags h = fh_flags (fr_header f) /\ fh_request_id h = fh_request_id (fr_header f) /\
       fh_payload_len h = Z.of_nat (length (fr_payload f)) /\
       fh_payload_digest h = digest_of (fr_payload f)) /\
  (forall b h, bytes b -> length b = kFrameHeaderSize -> decode_frame_header b = inr h ->
     encode_frame_header h = Some b /\ fh_header_crc h = crc32c (frame_prefix h)).
Proof.
  split; [|apply frame_header_canonical].
  intros f Hf. destruct (serialize_frame_bytes f Hf) as (hdr & H1 & H2 & H3 & H4).
  exists hdr. split; [done|]. split; [done|]. by exists (received_header f).
Qed.

(** A value of the format is read back unchanged, whatever follows it, and nothing
    else is read. *)
Definition crosses {A} (enc : A -> list Z) (dec : Reader A) (wf : A -> Prop) : Prop :=
  (forall x rest, wf x -> dec (enc x ++ rest) = inr (x, rest)) /\
  (forall b x rest, bytes b -> dec b = inr (x, rest) -> wf x /\ bytes rest).

Lemma codec_crosses {A} (enc : A -> list Z) dec wf : Codec enc dec wf -> crosses enc dec wf.
Proof. by intros [H1 H2]. Qed.

(** C34: the payload of every request (the bare clock of ping, stats, ledger,
    snapshot and shutdown; admission, retirement, query, evaluation, explanation,
    export, the revoked or restored source, its authority, its policy, the device
    whose incarnation is begun or asked for, the resolution) and of every response
    (the envelope, and the body for each operation) crosses the wire unchanged:
    what is decoded from the encoding of a value within the format's ranges and
    bounds, whatever follows it, is that value, and what is decoded from any bytes
    is a value within them. *)
Theorem payload_roundtrip :
  (crosses enc_now dec_now (in_u 64) /\
   crosses enc_admission dec_admission admission_wf /\
   crosses enc_retire_request dec_retire_request retire_request_wf /\
   crosses enc_query_request dec_query_request query_request_wf /\
   crosses enc_evaluate_request dec_evaluate_request (stamped_wf requirement_wf) /\
   crosses enc_explain_request dec_explain_request digest_wf /\
   crosses enc_export_request dec_export_request export_request_wf /\
   crosses enc_source_request dec_source_request (stamped_wf name_ok) /\
   crosses enc_authority_request dec_authority_request authority_request_wf /\
   crosses enc_policy_request dec_policy_request (stamped_wf source_policy_wf) /\
   crosses enc_incarnation_request dec_incarnation_request (stamped_wf device_identity_wf) /\
   crosses enc_resolve_request dec_resolve_request resolve_request_wf) /\
  (crosses enc_envelope dec_envelope envelope_wf /\
   crosses enc_bool_response dec_bool_response any /\
   crosses enc_stats_response dec_stats_response stats_wf /\
   crosses enc_admission_outcome dec_admission_outcome admission_outcome_wf /\
   crosses enc_retirement_outcome dec_retirement_outcome retirement_outcome_wf /\
   crosses enc_query_result dec_query_result query_result_wf /\
   crosses enc_decision dec_decision decision_wf /\
   crosses enc_explanation dec_explanation explanation_wf /\
   crosses enc_export_response dec_export_response export_response_wf /\
   crosses enc_source_policy dec_source_policy source_policy_wf /\
   crosses enc_id_response dec_id_response id_response_wf /\
   crosses enc_resolution dec_resolution resolution_wf /\
   crosses enc_ledger_response dec_ledger_response ledger_response_wf /\
   crosses w_digest r_digest digest_wf).
Proof. split; split_and!; apply codec_crosses, _. Qed.
