(* ===== verification/Json.v ===== *)
(** * Strict canonical JSON (include/ocreg/json.hpp, src/json.cpp)

    The value type, the strict bounded parser and the canonical writer. A
    position in the text is the text that remains; the parser's loops and
    recursion carry fuel, of which twice the length of the text plus one is
    always enough ([parse_value_fuel]), so the reason [Ok_] that marks
    exhausted fuel is never reported. *)

From Stdlib Require Import ZArith Lia Ascii String.
From stdpp Require Import base tactics list strings.
From S2P Require Import Prelude OrdMap Reason Text Hash State.

#[local] Open Scope string_scope.
#[local] Open Scope Z_scope.
#[local] Open Scope list_scope.

(** ** Values *)

Record JsonLimits := mkJsonLimits {
  jl_max_bytes : Z; jl_max_depth : Z; jl_max_items : Z; jl_max_string_bytes : Z; jl_max_key_bytes : Z }.
Definition default_json_limits : JsonLimits :=
  mkJsonLimits (8 * 1024 * 1024) 32 262144 (1 * 1024 * 1024) 128.

#[warnings="-register-all"] Inductive JsonValue :=
| JNull
| JBool (b : bool)
| JInteger (n : Z)
| JString (s : string)
| JArray (l : list JsonValue)
| JObject (m : list (string * JsonValue)).

(** [find] on an object; null on anything else. *)
Definition json_find (key : string) (v : JsonValue) : option JsonValue :=
  match v with JObject m => om_find key m | _ => None end.
(** [set] keeps the members in key order; [push] appends. Both are only called
    on values made by [object()] and [array()]. *)
Definition json_set (key : string) (x : JsonValue) (v : JsonValue) : JsonValue :=
  match v with JObject m => JObject (om_set key x m) | _ => v end.
Definition json_push (x : JsonValue) (v : JsonValue) : JsonValue :=
  match v with JArray l => JArray (l ++ [x]) | _ => v end.

(** ** UTF-8 *)

Definition continuation (c : ascii) : bool := Z.land (byte_of_char c) 0xC0 =? 0x80.
Definition extend_code_point (code_point : Z) (c : ascii) : Z :=
  Z.lor (u32 (Z.shiftl code_point 6)) (Z.land (byte_of_char c) 0x3F).
Definition code_point_ok (extra : nat) (code_point : Z) : bool :=
  negb ((extra =? 2)%nat && (code_point <? 0x800)) &&
  negb ((extra =? 3)%nat && (code_point <? 0x10000)) &&
  negb (code_point >? 0x10FFFF) &&
  negb ((code_point >=? 0xD800) && (code_point <=? 0xDFFF)).

Fixpoint valid_utf8 (text : string) : bool :=
  match text with
  | EmptyString => true
  | String c text1 =>
      let byte := byte_of_char c in
      if byte <? 0x80 then valid_utf8 text1
      else if Z.land byte 0xE0 =? 0xC0 then
        let cp := Z.land byte 0x1F in
        if cp <? 2 then false
        else match text1 with
             | String c1 text2 =>
                 continuation c1 && code_point_ok 1 (extend_code_point cp c1) && valid_utf8 text2
             | _ => false
             end
      else if Z.land byte 0xF0 =? 0xE0 then
        let cp := Z.land byte 0x0F in
        match text1 with
        | String c1 (String c2 text3) =>
            continuation c1 && continuation c2 &&
            code_point_ok 2 (extend_code_point (extend_code_point cp c1) c2) && valid_utf8 text3
        | _ => false
        end
      else if Z.land byte 0xF8 =? 0xF0 then
        let cp := Z.land byte 0x07 in
        match text1 with
        | String c1 (String c2 (String c3 text4)) =>
            continuation c1 && continuation c2 && continuation c3 &&
            code_point_ok 3 (extend_code_point (extend_code_point (extend_code_point cp c1) c2) c3) &&
            valid_utf8 text4
        | _ => false
        end
      else false
  end.

Definition append_utf8 (code_point : Z) : string :=
  string_of_bytes
    (if code_point <? 0x80 then [code_point]
     else if code_point <? 0x800 then
       [Z.lor 0xC0 (Z.shiftr code_point 6); Z.lor 0x80 (Z.land code_point 0x3F)]
     else if code_point <? 0x10000 then
       [Z.lor 0xE0 (Z.shiftr code_point 12); Z.lor 0x80 (Z.land (Z.shiftr code_point 6) 0x3F);
        Z.lor 0x80 (Z.land code_point 0x3F)]
     else
       [Z.lor 0xF0 (Z.shiftr code_point 18); Z.lor 0x80 (Z.land (Z.shiftr code_point 12) 0x3F);
        Z.lor 0x80 (Z.land (Z.shiftr code_point 6) 0x3F); Z.lor 0x80 (Z.land code_point 0x3F)]).

(** ** Lexical elements *)

Definition quote : ascii := "034".
Definition backslash : ascii := "092".
Definition newline : ascii := "010".

(** Sequencing of steps that may refuse the document. *)
Notation "'let+' p ':=' m 'in' k" := (match m with inl e => inl e | inr p => k end)
  (at level 200, p pattern, m at level 100, k at level 200).

Definition is_space (c : ascii) : bool :=
  char_is " " c || char_is "009" c || char_is newline c || char_is "013" c.
Fixpoint skip_whitespace (s : string) : string :=
  match s with
  | String c s' => if is_space c then skip_whitespace s' else s
  | EmptyString => s
  end.

(** The next character, when there is one, is [c]. *)
Definition next_is (c : ascii) (s : string) : bool :=
  match s with String a _ => char_is c a | EmptyString => false end.
Definition str_tail (s : string) : string := match s with String _ s' => s' | EmptyString => s end.

Definition unexpected (s : string) : ReasonCode :=
  if str_empty s then RejectedTruncatedInput else RejectedMalformedDocument.
Definition consume (expected : ascii) (s : string) : ReasonCode + string :=
  if next_is expected s then inr (str_tail s) else inl (unexpected s).

Fixpoint strip_prefix (word s : string) : option string :=
  match word, s with
  | EmptyString, _ => Some s
  | String a word', String b s' => if Ascii.eqb a b then strip_prefix word' s' else None
  | _, _ => None
  end.
Definition literal (word s : string) : ReasonCode + string :=
  match strip_prefix word s with Some s' => inr s' | None => inl RejectedMalformedDocument end.

(** The digits at the front, and the rest. *)
Fixpoint span_digits (s : string) : string * string :=
  match s with
  | String c s' => if is_digit c then let '(d, r) := span_digits s' in (String c d, r) else ("", s)
  | EmptyString => ("", s)
  end.

Definition parse_integer (s : string) : ReasonCode + JsonValue * string :=
  let negative := next_is "-" s in
  let '(digits, rest) := span_digits (if negative then str_tail s else s) in
  if str_empty digits then inl RejectedMalformedDocument
  else if (1 <? String.length digits)%nat && next_is "0" digits then inl RejectedMalformedDocument
  else if next_is "." rest || next_is "e" rest || next_is "E" rest then inl RejectedMalformedDocument
  else if (19 <? String.length digits)%nat then inl RejectedOversizedInput
  else
    let magnitude := dec_val digits in
    if negative then
      if magnitude >? i64_max + 1 then inl RejectedOversizedInput
      else inr (JInteger (if magnitude =? i64_max + 1 then i64_min else - magnitude), rest)
    else if magnitude >? i64_max then inl RejectedOversizedInput
    else inr (JInteger magnitude, rest).

Definition hex_value (c : ascii) : option Z :=
  let n := byte_of_char c in
  if (48 <=? n) && (n <=? 57) then Some (n - 48)
  else if (97 <=? n) && (n <=? 102) then Some (n - 97 + 10)
  else if (65 <=? n) && (n <=? 70) then Some (n - 65 + 10)
  else None.

Definition parse_hex4 (s : string) : ReasonCode + Z * string :=
  match s with
  | String a (String b (String c (String d s'))) =>
      match hex_value a, hex_value b, hex_value c, hex_value d with
      | Some x, Some y, Some z, Some w =>
          inr (Z.lor (Z.shiftl (Z.lor (Z.shiftl (Z.lor (Z.shiftl x 4) y) 4) z) 4) w, s')
      | _, _, _, _ => inl RejectedMalformedDocument
      end
  | _ => inl RejectedTruncatedInput
  end.

(** The code point of a [\u] escape, after the [u]. *)
Definition parse_code_point (s : string) : ReasonCode + Z * string :=
  let+ (high, s) := parse_hex4 s in
  if (high >=? 0xD800) && (high <=? 0xDBFF) then
    match strip_prefix "\u" s with
    | None => inl RejectedInvalidUtf8
    | Some s =>
        let+ (low, s) := parse_hex4 s in
        if (low <? 0xDC00) || (low >? 0xDFFF) then inl RejectedInvalidUtf8
        else inr (0x10000 + Z.shiftl (high - 0xD800) 10 + (low - 0xDC00), s)
    end
  else if (high >=? 0xDC00) && (high <=? 0xDFFF) then inl RejectedInvalidUtf8
  else inr (high, s).

Definition parse_escape (s : string) : ReasonCode + string * string :=
  match s with
  | EmptyString => inl RejectedTruncatedInput
  | String escape s' =>
      let char c := inr (String c "", s') in
      if char_is quote escape then char quote
      else if char_is backslash escape then char backslash
      else if char_is "/" escape then char "/"%char
      else if char_is "b" escape then char "008"%char
      else if char_is "f" escape then char "012"%char
      else if char_is "n" escape then char newline
      else if char_is "r" escape then char "013"%char
      else if char_is "t" escape then char "009"%char
      else if char_is "u" escape then
        let+ (code_point, s') := parse_code_point s' in inr (append_utf8 code_point, s')
      else inl RejectedMalformedDocument
  end.

(** One turn of the loop over a string: the closing quote, or the characters
    appended and whether they came from an escape. *)
Definition string_char (s : string) : ReasonCode + option (string * bool) * string :=
  match s with
  | EmptyString => inl RejectedTruncatedInput
  | String c s' =>
      if char_is quote c then inr (None, s')
      else if byte_of_char c <? 0x20 then inl RejectedMalformedDocument
      else if char_is backslash c then
        let+ (piece, s') := parse_escape s' in inr (Some (piece, true), s')
      else inr (Some (String c "", false), s')
  end.

Section parser.
Context (limits : JsonLimits).

(** The length is compared with the bound only after an escape. *)
Fixpoint string_loop (fuel : nat) (s out : string) : ReasonCode + string * string :=
  match fuel with
  | O => inl Ok_
  | S f =>
      let+ (step, s) := string_char s in
      match step with
      | None => inr (out, s)
      | Some (piece, escaped) =>
          let out := (out ++ piece)%string in
          if escaped && (Z.of_nat (String.length out) >? jl_max_string_bytes limits)
          then inl RejectedOversizedInput else string_loop f s out
      end
  end.

Definition parse_string (s : string) : ReasonCode + string * string :=
  let+ s := consume quote s in string_loop (S (String.length s)) s "".

(** ** The parser *)

Definition account_item (items : Z) : ReasonCode + Z :=
  if items >=? jl_max_items limits then inl RejectedOversizedInput else inr (items + 1).

(** A value at a depth, from the remaining text and the number of items so far;
    the loops over the elements of an array and the members of an object. *)
Fixpoint parse_value (fuel : nat) (depth : Z) (s : string) (items : Z)
  : ReasonCode + JsonValue * string * Z :=
  match fuel with
  | O => inl Ok_
  | S f =>
      if depth >? jl_max_depth limits then inl RejectedNestingTooDeep
      else match s with
      | EmptyString => inl RejectedTruncatedInput
      | String c rest =>
          let+ items := account_item items in
          if char_is "{" c then
            let s := skip_whitespace rest in
            if next_is "}" s then inr (JObject [], str_tail s, items)
            else parse_members f depth s items (JObject [])
          else if char_is "[" c then
            let s := skip_whitespace rest in
            if next_is "]" s then inr (JArray [], str_tail s, items)
            else parse_elements f depth s items (JArray [])
          else if char_is quote c then
            let+ (value, s) := parse_string s in inr (JString value, s, items)
          else if char_is "t" c then let+ s := literal "true" s in inr (JBool true, s, items)
          else if char_is "f" c then let+ s := literal "false" s in inr (JBool false, s, items)
          else if char_is "n" c then let+ s := literal "null" s in inr (JNull, s, items)
          else let+ (value, s) := parse_integer s in inr (value, s, items)
      end
  end
with parse_elements (fuel : nat) (depth : Z) (s : string) (items : Z) (result : JsonValue)
  : ReasonCode + JsonValue * string * Z :=
  match fuel with
  | O => inl Ok_
  | S f =>
      let+ (value, s, items) := parse_value f (depth + 1) (skip_whitespace s) items in
      let result := json_push value result in
      let s := skip_whitespace s in
      if next_is "," s then parse_elements f depth (str_tail s) items result
      else if next_is "]" s then inr (result, str_tail s, items)
      else inl (unexpected s)
  end
with parse_members (fuel : nat) (depth : Z) (s : string) (items : Z) (result : JsonValue)
  : ReasonCode + JsonValue * string * Z :=
  match fuel with
  | O => inl Ok_
  | S f =>
      let+ (key, s) := parse_string (skip_whitespace s) in
      if Z.of_nat (String.length key) >? jl_max_key_bytes limits then inl RejectedOversizedInput
      else
      let+ s := consume ":" (skip_whitespace s) in
      let+ (value, s, items) := parse_value f (depth + 1) (skip_whitespace s) items in
      match json_find key result with
      | Some _ => inl RejectedDuplicateKey
      | None =>
          let result := json_set key value result in
          let s := skip_whitespace s in
          if next_is "," s then parse_members f depth (str_tail s) items result
          else if next_is "}" s then inr (result, str_tail s, items)
          else inl (unexpected s)
      end
  end.

Definition parse_document (text : string) : ReasonCode + JsonValue :=
  if Z.of_nat (String.length text) >? jl_max_bytes limits then inl RejectedOversizedInput
  else if negb (valid_utf8 text) then inl RejectedInvalidUtf8
  else
    let s := skip_whitespace text in
    let+ (value, s, _) := parse_value (2 * String.length s + 1) 0 s 0 in
    if str_empty (skip_whitespace s) then inr value else inl RejectedTrailingGarbage.
End parser.

Definition json_parse (text : string) (limits : JsonLimits) : Outcome JsonValue :=
  match parse_document limits text with
  | inl reason => outcome_failure reason "canonical JSON rejected"
  | inr value => outcome_value value
  end.

(** ** The writer *)

Definition escape_char (c : ascii) : string :=
  let byte := byte_of_char c in
  let short x := String backslash (String x "") in
  if char_is quote c then short quote
  else if char_is backslash c then short backslash
  else if char_is newline c then short "n"%char
  else if char_is "013" c then short "r"%char
  else if char_is "009" c then short "t"%char
  else if char_is "008" c then short "b"%char
  else if char_is "012" c then short "f"%char
  else if byte <? 0x20 then
    ("\u00" ++ String (kHexDigits (Z.land (Z.shiftr byte 4) 15)) (String (kHexDigits (Z.land byte 15)) ""))%string
  else String c "".
Fixpoint escape_body (text : string) : string :=
  match text with
  | EmptyString => ""
  | String c text' => (escape_char c ++ escape_body text')%string
  end.
Definition json_escape (text : string) : string :=
  String quote (escape_body text ++ String quote "")%string.

(** [std::to_string] of a signed value. *)
Definition int_str (n : Z) : string := if n <? 0 then String "-" (dec_str (- n)) else dec_str n.

Fixpoint spaces (n : nat) : string := match n with O => "" | S n' => String " " (spaces n') end.
(** A line break and the indentation, when printing for people. *)
Definition line (pretty : bool) (depth : nat) : string :=
  if pretty then String newline (spaces (depth * 2)) else "".

Section writer.
Context (pretty : bool).

(** What the loop writes from element [i] on: a comma unless it is the first,
    a line break, the element. *)
Section items.
Context {A : Type} (depth : nat) (one : A -> string).
Fixpoint dump_items (first : bool) (l : list A) : string :=
  match l with
  | [] => ""
  | x :: l' => ((if first then "" else ",") ++ line pretty (depth + 1) ++ one x ++ dump_items false l')%string
  end.
End items.

Fixpoint dump_to (depth : nat) (v : JsonValue) : string :=
  match v with
  | JNull => "null"
  | JBool b => if b then "true" else "false"
  | JInteger n => int_str n
  | JString s => json_escape s
  | JArray l =>
      match l with
      | [] => "[]"
      | _ => ("[" ++ dump_items depth (dump_to (depth + 1)) true l ++ line pretty depth ++ "]")%string
      end
  | JObject m =>
      match m with
      | [] => "{}"
      | _ => ("{" ++ dump_items depth
                       (fun e => json_escape (fst e) ++ (if pretty then ": " else ":") ++
                                 dump_to (depth + 1) (snd e)) true m ++
              line pretty depth ++ "}")%string
      end
  end.
End writer.

Definition dump (pretty : bool) (v : JsonValue) : string := dump_to pretty 0 v.
