(* ===== verification/JsonThms.v ===== *)
(** * Facts about canonical JSON

    The parser terminates on every text, accepts only canonical values, and
    reads back exactly what the writer prints, with or without indentation. *)

From Stdlib Require Import ZArith Lia ZifyBool Ascii String.
From stdpp Require Import base tactics list strings.
From S2P Require Import Prelude OrdMap Reason Text Hash State Json.

#[local] Open Scope string_scope.
#[local] Open Scope Z_scope.
#[local] Open Scope list_scope.

(** ** Termination *)

(** A step consumes at least one character and never runs out of fuel. *)
Definition shrinks {A} (s : string) (r : ReasonCode + A * string) : Prop :=
  match r with inl e => e <> Ok_ | inr (_, s') => (String.length s' < String.length s)%nat end.

Lemma skip_whitespace_length s : (String.length (skip_whitespace s) <= String.length s)%nat.
Proof. induction s as [|c s IH]; simpl; [done|]. destruct (is_space c); simpl; lia. Qed.

Lemma consume_shrinks c s :
  match consume c s with inl e => e <> Ok_ | inr s' => (S (String.length s') = String.length s)%nat end.
Proof.
  unfold consume, unexpected. destruct s as [|a s]; simpl; [done|]. by destruct (char_is c a).
Qed.

Lemma strip_prefix_some word s s' : strip_prefix word s = Some s' -> s = (word ++ s')%string.
Proof.
  revert s. induction word as [|a word IH]; intros s; simpl; [congruence|].
  destruct s as [|b s]; [done|]. destruct (Ascii.eqb a b) eqn:E; [|done].
  apply Ascii.eqb_eq in E as ->. intros H. simpl. f_equal. by apply IH.
Qed.

Lemma literal_shrinks w c s :
  match literal (String c w) s with
  | inl e => e <> Ok_
  | inr s' => (String.length s' < String.length s)%nat
  end.
Proof.
  unfold literal. destruct (strip_prefix _ s) as [s'|] eqn:E; [|done].
  apply strip_prefix_some in E as ->. rewrite str_app_length. simpl. lia.
Qed.

Lemma span_digits_spec s :
  let '(d, r) := span_digits s in s = (d ++ r)%string /\ str_all is_digit d = true.
Proof.
  induction s as [|c s IH]; simpl; [done|]. destruct (is_digit c) eqn:E; [|done].
  destruct (span_digits s) as [d r]. destruct IH as [-> Hd]. simpl. by rewrite E, Hd.
Qed.

Lemma parse_integer_shrinks s : shrinks s (parse_integer s).
Proof.
  unfold parse_integer. set (t := if next_is "-" s then str_tail s else s).
  assert (String.length t <= String.length s)%nat as Ht by (unfold t; destruct s; simpl; [done|case_match; simpl; lia]).
  pose proof (span_digits_spec t) as H. destruct (span_digits t) as [d r]. destruct H as [E _].
  rewrite E, str_app_length in Ht. destruct d as [|c d]; [done|]. simpl in Ht. cbn [str_empty].
  unfold shrinks. repeat case_match; simplify_eq; try done; lia.
Qed.

Lemma parse_hex4_shrinks s : shrinks s (parse_hex4 s).
Proof.
  destruct s as [|a [|b [|c [|d s]]]]; try done. cbn [parse_hex4].
  destruct (hex_value a), (hex_value b), (hex_value c), (hex_value d); cbn; (done || lia).
Qed.

Lemma parse_code_point_shrinks s : shrinks s (parse_code_point s).
Proof.
  unfold parse_code_point. pose proof (parse_hex4_shrinks s) as H.
  destruct (parse_hex4 s) as [e|[hi s1]]; [done|]. cbn in H.
  destruct (_ && _); [|by destruct (_ && _)].
  destruct (strip_prefix "\u" s1) as [s2|] eqn:E; [|done]. apply strip_prefix_some in E as ->.
  pose proof (parse_hex4_shrinks s2) as H2. destruct (parse_hex4 s2) as [e|[lo s3]]; [done|].
  destruct (_ || _); [done|]. cbn in *. lia.
Qed.

Lemma parse_escape_shrinks s : shrinks s (parse_escape s).
Proof.
  destruct s as [|c s]; [done|]. cbn [parse_escape].
  repeat (case_match; [cbn; lia|]). case_match; [|done].
  pose proof (parse_code_point_shrinks s) as Hcp. destruct (parse_code_point s) as [e|[cp s']]; [done|].
  cbn in *. lia.
Qed.

Lemma string_char_shrinks s : shrinks s (string_char s).
Proof.
  destruct s as [|c s]; [done|]. cbn [string_char]. destruct (char_is quote c); [cbn; lia|].
  destruct (_ <? _); [done|]. destruct (char_is backslash c); [|cbn; lia].
  pose proof (parse_escape_shrinks s) as H. destruct (parse_escape s) as [e|[p s']]; [done|].
  cbn in *. lia.
Qed.

Lemma string_loop_shrinks limits fuel s out :
  (String.length s < fuel)%nat -> shrinks s (string_loop limits fuel s out).
Proof.
  revert s out. induction fuel as [|f IH]; intros s out Hf; [lia|]. cbn [string_loop].
  pose proof (string_char_shrinks s) as H. destruct (string_char s) as [e|[step s']]; [done|].
  cbn in H. destruct step as [[p esc]|]; [|done]. destruct (_ && _); [done|].
  specialize (IH s' (out ++ p)%string ltac:(lia)). unfold shrinks in *.
  destruct (string_loop _ _ _ _) as [e|[v s'']]; [done|lia].
Qed.

Lemma parse_string_shrinks limits s : shrinks s (parse_string limits s).
Proof.
  unfold parse_string. pose proof (consume_shrinks quote s) as H. destruct (consume quote s) as [e|s']; [done|].
  pose proof (string_loop_shrinks limits (S (String.length s')) s' "" ltac:(lia)) as H2.
  unfold shrinks in *. destruct (string_loop _ _ _ _) as [e|[v s'']]; [done|lia].
Qed.

Definition progress (s : string) (r : ReasonCode + JsonValue * string * Z) : Prop :=
  match r with inl e => e <> Ok_ | inr (_, s', _) => (String.length s' < String.length s)%nat end.

Lemma str_tail_length s : (String.length (str_tail s) <= String.length s)%nat.
Proof. destruct s; simpl; lia. Qed.

(** Twice the length of the text is enough for values, one more for the loops. *)
Lemma parse_fuel limits fuel :
  (forall depth s items, (2 * String.length s + 1 <= fuel)%nat ->
     progress s (parse_value limits fuel depth s items)) /\
  (forall depth s items r, (2 * String.length s + 2 <= fuel)%nat ->
     progress s (parse_elements limits fuel depth s items r)) /\
  (forall depth s items r, (2 * String.length s + 2 <= fuel)%nat ->
     progress s (parse_members limits fuel depth s items r)).
Proof.
  induction fuel as [|f (IHv & IHe & IHm)]; [split_and!; intros; lia|]. split_and!.
  - intros depth s items Hf. cbn [parse_value]. destruct (_ >? _); [done|].
    destruct s as [|c s]; [done|]. unfold account_item. destruct (_ >=? _); [done|].
    pose proof (skip_whitespace_length s) as Hw. pose proof (str_tail_length (skip_whitespace s)) as Ht.
    cbn [String.length] in Hf. destruct (char_is "{" c).
    { destruct (next_is "}" _); [cbn; lia|]. specialize (IHm depth (skip_whitespace s) (items + 1) (JObject []) ltac:(lia)).
      unfold progress in *. destruct (parse_members _ _ _ _ _ _) as [|[[? ?] ?]]; [done|cbn; lia]. }
    destruct (char_is "[" c).
    { destruct (next_is "]" _); [cbn; lia|]. specialize (IHe depth (skip_whitespace s) (items + 1) (JArray []) ltac:(lia)).
      unfold progress in *. destruct (parse_elements _ _ _ _ _ _) as [|[[? ?] ?]]; [done|cbn; lia]. }
    destruct (char_is quote c).
    { pose proof (parse_string_shrinks limits (String c s)). by destruct (parse_string _ _) as [|[? ?]]. }
    destruct (char_is "t" c).
    { pose proof (literal_shrinks "rue" "t" (String c s)). by destruct (literal _ _). }
    destruct (char_is "f" c).
    { pose proof (literal_shrinks "alse" "f" (String c s)). by destruct (literal _ _). }
    destruct (char_is "n" c).
    { pose proof (literal_shrinks "ull" "n" (String c s)). by destruct (literal _ _). }
    pose proof (parse_integer_shrinks (String c s)). by destruct (parse_integer _) as [|[? ?]].
  - intros depth s items r Hf. cbn [parse_elements]. pose proof (skip_whitespace_length s) as Hw.
    specialize (IHv (depth + 1) (skip_whitespace s) items ltac:(lia)). unfold progress in IHv.
    destruct (parse_value _ _ _ _ _) as [e|[[v s1] i1]]; [done|].
    pose proof (skip_whitespace_length s1) as Hw1. pose proof (str_tail_length (skip_whitespace s1)) as Ht.
    destruct (next_is "," _); [|destruct (next_is "]" _); [cbn; lia|cbn; unfold unexpected; by destruct (str_empty _)]].
    specialize (IHe depth (str_tail (skip_whitespace s1)) i1 (json_push v r) ltac:(lia)).
    unfold progress in *. destruct (parse_elements _ _ _ _ _ _) as [|[[? ?] ?]]; [done|lia].
  - intros depth s items r Hf. cbn [parse_members]. pose proof (skip_whitespace_length s) as Hw.
    pose proof (parse_string_shrinks limits (skip_whitespace s)) as Hs. unfold shrinks in Hs.
    destruct (parse_string _ _) as [e|[key s1]]; [done|]. destruct (_ >? _); [done|].
    pose proof (skip_whitespace_length s1). pose proof (consume_shrinks ":" (skip_whitespace s1)) as Hc.
    destruct (consume _ _) as [e|s2]; [done|]. pose proof (skip_whitespace_length s2).
    specialize (IHv (depth + 1) (skip_whitespace s2) items ltac:(lia)). unfold progress in IHv.
    destruct (parse_value _ _ _ _ _) as [e|[[v s3] i1]]; [done|]. destruct (json_find key r); [done|].
    pose proof (skip_whitespace_length s3). pose proof (str_tail_length (skip_whitespace s3)).
    destruct (next_is "," _); [|destruct (next_is "}" _); [cbn; lia|cbn; unfold unexpected; by destruct (str_empty _)]].
    specialize (IHm depth (str_tail (skip_whitespace s3)) i1 (json_set key v r) ltac:(lia)).
    unfold progress in *. destruct (parse_members _ _ _ _ _ _) as [|[[? ?] ?]]; [done|lia].
Qed.

(** ** Values the writer prints and the parser returns *)

Section induction.
Context (P : JsonValue -> Prop).
Hypothesis (Hnull : P JNull) (Hbool : forall b, P (JBool b)) (Hint : forall n, P (JInteger n))
  (Hstr : forall s, P (JString s)) (Harr : forall l, Forall P l -> P (JArray l))
  (Hobj : forall m, Forall (fun e => P (snd e)) m -> P (JObject m)).
Fixpoint json_nested_ind (v : JsonValue) : P v :=
  match v with
  | JNull => Hnull
  | JBool b => Hbool b
  | JInteger n => Hint n
  | JString s => Hstr s
  | JArray l => Harr l ((fix go l := match l return Forall P l with
                                     | [] => Forall_nil_2 _
                                     | x :: l' => Forall_cons_2 _ _ _ (json_nested_ind x) (go l')
                                     end) l)
  | JObject m => Hobj m ((fix go m := match m return Forall (fun e => P (snd e)) m with
                                      | [] => Forall_nil_2 _
                                      | e :: m' => Forall_cons_2 _ _ _ (json_nested_ind (snd e)) (go m')
                                      end) m)
  end.
End induction.

(** Nesting below a value, and the values in it. *)
Definition max_of {A} (f : A -> Z) (l : list A) : Z := foldr (fun x n => Z.max (f x) n) 0 l.
Definition sum_of {A} (f : A -> Z) (l : list A) : Z := foldr (fun x n => f x + n) 0 l.
Fixpoint json_height (v : JsonValue) : Z :=
  match v with
  | JArray l => match l with [] => 0 | _ => 1 + max_of json_height l end
  | JObject m => match m with [] => 0 | _ => 1 + max_of (fun e => json_height (snd e)) m end
  | _ => 0
  end.
Fixpoint json_items (v : JsonValue) : Z :=
  match v with
  | JArray l => 1 + sum_of json_items l
  | JObject m => 1 + sum_of (fun e => json_items (snd e)) m
  | _ => 1
  end.

(** Canonical values: integers of 64 bits, members in strict key order, and
    every text satisfying [T]. *)
Section canonical.
Context (T : string -> Prop) (limits : JsonLimits).
#[warnings="-register-all"] Inductive json_wf : JsonValue -> Prop :=
| wf_null : json_wf JNull
| wf_bool b : json_wf (JBool b)
| wf_integer n : i64_min <= n <= i64_max -> json_wf (JInteger n)
| wf_string s : T s -> json_wf (JString s)
| wf_array l : Forall json_wf l -> json_wf (JArray l)
| wf_object m :
    om_sorted m -> Forall (fun e => json_wf (snd e)) m ->
    Forall (fun e => T (fst e) /\ Z.of_nat (String.length (fst e)) <= jl_max_key_bytes limits) m ->
    json_wf (JObject m).
End canonical.

(** Texts that are UTF-8 and within the bound on strings. *)
Definition text_ok (limits : JsonLimits) (s : string) : Prop :=
  valid_utf8 s = true /\ Z.of_nat (String.length s) <= jl_max_string_bytes limits.
Definition json_canonical (limits : JsonLimits) : JsonValue -> Prop := json_wf (text_ok limits) limits.

(** ** Strings *)

Lemma string_char_escaped c rest :
  exists esc, string_char (escape_char c ++ rest) = inr (Some (String c "", esc), rest).
Proof.
  destruct c as [[|] [|] [|] [|] [|] [|] [|] [|]]; eexists; reflexivity.
Qed.

Lemma escape_char_nonempty c : exists a t, escape_char c = String a t.
Proof. destruct c as [[|] [|] [|] [|] [|] [|] [|] [|]]; eexists _, _; reflexivity. Qed.

Lemma string_loop_escaped limits fuel s rest out :
  (String.length (escape_body s ++ String quote rest) < fuel)%nat ->
  Z.of_nat (String.length out + String.length s) <= jl_max_string_bytes limits ->
  string_loop limits fuel (escape_body s ++ String quote rest) out = inr ((out ++ s)%string, rest).
Proof.
  revert fuel out. induction s as [|c s IH]; intros fuel out Hf Hl.
  - destruct fuel as [|f]; [simpl in Hf; lia|]. cbn [escape_body String.append string_loop string_char].
    by rewrite str_app_nil.
  - cbn [escape_body] in *. rewrite <- str_app_assoc in *. destruct fuel as [|f]; [lia|].
    cbn [string_loop]. destruct (string_char_escaped c (escape_body s ++ String quote rest)) as [esc ->].
    destruct (escape_char_nonempty c) as (a & t & Ec). rewrite Ec, !str_app_length in Hf. simpl in Hf, Hl.
    rewrite str_app_length. cbn [String.length].
    replace (_ >? _) with false by lia. rewrite andb_false_r.
    rewrite IH; [by rewrite <- str_app_assoc| |rewrite str_app_length; simpl; lia].
    rewrite str_app_length. simpl. lia.
Qed.

Lemma parse_string_escaped limits s rest :
  text_ok limits s -> parse_string limits (json_escape s ++ rest) = inr (s, rest).
Proof.
  intros [_ Hl]. unfold parse_string, json_escape, consume. cbn [String.append next_is char_is str_tail].
  rewrite <- str_app_assoc. cbn [String.append]. change (char_is quote quote) with true. cbn iota.
  by rewrite string_loop_escaped by (simpl; lia).
Qed.

(** ** Integers *)

(** The text after a number does not continue it. *)
Definition ends_number (s : string) : bool :=
  match s with
  | EmptyString => true
  | String c _ => negb (is_digit c || char_is "." c || char_is "e" c || char_is "E" c)
  end.

Lemma span_digits_app d r :
  str_all is_digit d = true -> ends_number r = true -> span_digits (d ++ r) = (d, r).
Proof.
  intros Hd Hr. induction d as [|c d IH]; simpl in *.
  - destruct r as [|c r]; [done|]. simpl in *. by destruct (is_digit c).
  - apply andb_prop in Hd as [Hc Hd]. by rewrite Hc, IH.
Qed.

Lemma dec_val_nonneg s : str_all is_digit s = true -> 0 <= dec_val s.
Proof.
  induction s as [|c s IH]; [done|]. simpl. intros [Hc Hs]%andb_prop.
  unfold dec_val. cbn [dec_acc]. rewrite dec_acc_shift. specialize (IH Hs).
  assert (0 <= digit_val c) by (unfold digit_val, is_digit in *; lia). nia.
Qed.

(** Canonical decimals below ten to the nineteenth have at most nineteen digits. *)
Lemma dec_ok_length n s : dec_ok n s -> n < 10 ^ 19 -> (String.length s <= 19)%nat.
Proof.
  intros [Hd Hv Hh _] Hn. destruct s as [|c s]; [done|]. destruct Hh as [->|Hz]; [simpl; lia|].
  simpl in Hd. apply andb_prop in Hd as [Hc Hs]. pose proof (dec_val_nonneg s Hs).
  unfold dec_val in Hv. cbn [dec_acc] in Hv. rewrite dec_acc_shift in Hv.
  assert (1 <= digit_val c) as Hdc.
  { unfold digit_val, is_digit in *. assert (N_of_ascii c <> 48%N); [|lia].
    intros E. apply Hz. by rewrite <- (ascii_N_embedding c), E. }
  assert (10 ^ Z.of_nat (String.length s) < 10 ^ 19) as Hp by nia.
  apply Z.pow_lt_mono_r_iff in Hp; simpl; lia.
Qed.

Lemma next_is_digit c s : str_all is_digit s = true -> is_digit c = false -> next_is c s = false.
Proof.
  destruct s as [|a s]; [done|]. simpl. intros [Ha _]%andb_prop Hc. unfold char_is.
  destruct (Ascii.eqb_spec a c); [congruence|done].
Qed.

Lemma next_is_app c d r : str_empty d = false -> next_is c (d ++ r) = next_is c d.
Proof. by destruct d. Qed.

(** The checks of [parse_integer] on canonical digits. *)
Lemma canonical_digits n s rest :
  dec_ok n s -> n < 10 ^ 19 -> ends_number rest = true ->
  str_empty s = false /\ ((1 <? String.length s)%nat && next_is "0" s) = false /\
  (next_is "." rest || next_is "e" rest || next_is "E" rest) = false /\
  (19 <? String.length s)%nat = false.
Proof.
  intros Hok Hn Hr. pose proof (dec_ok_length n s Hok Hn). destruct Hok as [Hd Hv Hh _].
  destruct s as [|c s]; [done|]. split; [done|]. split_and!.
  - destruct Hh as [->|Hz]; [done|]. simpl. unfold char_is. destruct (Ascii.eqb_spec c "0"); [done|].
    by rewrite andb_false_r.
  - destruct rest as [|a r]; [done|]. simpl in *. by destruct (is_digit a), (char_is "." a), (char_is "e" a), (char_is "E" a).
  - lia.
Qed.

Lemma parse_integer_printed n rest :
  i64_min <= n <= i64_max -> ends_number rest = true ->
  parse_integer (int_str n ++ rest) = inr (JInteger n, rest).
Proof.
  intros Hn Hr. unfold int_str, i64_min, i64_max in *. destruct (n <? 0) eqn:En.
  - pose proof (dec_str_ok (- n) ltac:(unfold u64_max; lia)) as Hok. unfold parse_integer.
    destruct (canonical_digits (- n) (dec_str (- n)) rest Hok ltac:(lia) Hr) as (E1 & E2 & E3 & E4).
    pose proof Hok as [Hd Hv _ _]. change (next_is "-" (String "-" (dec_str (- n)) ++ rest)) with true.
    change (str_tail (String "-" (dec_str (- n)) ++ rest)) with (dec_str (- n) ++ rest)%string.
    cbv zeta iota. rewrite span_digits_app, E1, E2, E3, E4, Hv by done. unfold i64_min, i64_max.
    destruct (_ >? _) eqn:E5; [lia|]. destruct (_ =? _) eqn:E6; [|by rewrite Z.opp_involutive].
    do 3 f_equal. lia.
  - pose proof (dec_str_ok n ltac:(unfold u64_max; lia)) as Hok. unfold parse_integer.
    destruct (canonical_digits n (dec_str n) rest Hok ltac:(lia) Hr) as (E1 & E2 & E3 & E4).
    pose proof Hok as [Hd Hv _ _]. rewrite next_is_app, next_is_digit by done.
    cbv zeta iota. rewrite span_digits_app, E1, E2, E3, E4, Hv by done. unfold i64_max.
    destruct (_ >? _) eqn:E5; [lia|done].
Qed.

(** ** Round trip *)

Lemma skip_line pretty d s : skip_whitespace (line pretty d ++ s) = skip_whitespace s.
Proof.
  destruct pretty; [|done]. cbn [line String.append skip_whitespace]. change (is_space newline) with true.
  cbn iota. induction (d * 2)%nat as [|n IH]; [done|]. cbn [spaces String.append skip_whitespace].
  change (is_space " ") with true. by cbn iota.
Qed.

Lemma skip_whitespace_idemp s : skip_whitespace (skip_whitespace s) = skip_whitespace s.
Proof.
  induction s as [|c s IH]; [done|]. cbn [skip_whitespace]. destruct (is_space c) eqn:E; [done|].
  cbn [skip_whitespace]. by rewrite E.
Qed.

(** A printed value begins with a character that is neither space nor a closing
    bracket, and so is its own text without leading whitespace. *)
Definition value_start (s : string) : bool :=
  match s with
  | EmptyString => false
  | String c _ => negb (is_space c || char_is "]" c)
  end.

Lemma value_start_app s t : value_start s = true -> value_start (s ++ t) = true.
Proof. by destruct s. Qed.
Lemma value_start_skip s : value_start s = true -> skip_whitespace s = s.
Proof. destruct s as [|c s]; [done|]. cbn. by destruct (is_space c). Qed.
Lemma value_start_close s : value_start s = true -> next_is "]" s = false.
Proof. destruct s as [|c s]; [done|]. cbn. destruct (is_space c); [done|]. by destruct (char_is "]" c). Qed.

Lemma digit_start c s : is_digit c = true -> value_start (String c s) = true.
Proof.
  intros H. cbn. assert (is_space c = false /\ char_is "]" c = false) as [-> ->]; [|done].
  revert H. destruct c as [[|] [|] [|] [|] [|] [|] [|] [|]]; vm_compute; intros; by split.
Qed.

(** The characters a number begins with select no other branch. *)
Lemma int_str_start n :
  i64_min <= n <= i64_max ->
  exists c t, int_str n = String c t /\ value_start (int_str n) = true /\
    forallb (fun a => negb (char_is a c)) ["{"; "["; quote; "t"; "f"; "n"]%char = true.
Proof.
  intros Hn. unfold int_str, i64_min, i64_max in *. destruct (n <? 0) eqn:En; [by eexists _, _|].
  pose proof (dec_str_ok n ltac:(unfold u64_max; lia)) as [Hd _ Hh _].
  destruct (dec_str n) as [|c t]; [done|]. exists c, t. split; [done|].
  simpl in Hd. apply andb_prop in Hd as [Hc _]. split; [by apply digit_start|].
  revert Hc. clear. destruct c as [[|] [|] [|] [|] [|] [|] [|] [|]]; vm_compute; by intros.
Qed.

Lemma dump_start limits pretty d v : json_canonical limits v -> value_start (dump_to pretty d v) = true.
Proof.
  intros Hc. destruct Hc as [| |n Hn| |l|m]; cbn [dump_to]; try done.
  - by destruct b.
  - by destruct (int_str_start n Hn) as (? & ? & ? & ? & _).
  - by destruct l.
  - by destruct m.
Qed.

Section printed.
Context (limits : JsonLimits) (pretty : bool).

(** The parser returns the value from its printed form. *)
Definition reads_back (v : JsonValue) : Prop :=
  forall d fuel depth items rest,
    (2 * String.length (dump_to pretty d v ++ rest) + 1 <= fuel)%nat ->
    depth + json_height v <= jl_max_depth limits -> items + json_items v <= jl_max_items limits ->
    ends_number rest = true ->
    parse_value limits fuel depth (dump_to pretty d v ++ rest) items = inr (v, rest, items + json_items v).

(** The text of a collection after an element: more elements, or the end. *)
Definition after_items {A} (d : nat) (one : A -> string) (l : list A) (close : ascii) (rest : string) : string :=
  (dump_items pretty d one false l ++ line pretty d ++ String close rest)%string.

Lemma after_items_ends {A} d (one : A -> string) l close rest :
  is_digit close = false -> char_is "." close = false -> char_is "e" close = false ->
  char_is "E" close = false -> ends_number (after_items d one l close rest) = true.
Proof.
  intros H1 H2 H3 H4. unfold after_items. destruct l as [|x l]; [|done]. destruct pretty; [done|].
  cbn. by rewrite H1, H2, H3, H4.
Qed.

Lemma max_of_cons {A} (f : A -> Z) x l : max_of f (x :: l) = Z.max (f x) (max_of f l).
Proof. done. Qed.
Lemma sum_of_cons {A} (f : A -> Z) x l : sum_of f (x :: l) = f x + sum_of f l.
Proof. done. Qed.

Lemma sum_of_nonneg {A} (f : A -> Z) l : Forall (fun x => 0 < f x) l -> 0 <= sum_of f l.
Proof. induction 1 as [|x l Hx Hl IH]; [done|]. rewrite sum_of_cons. lia. Qed.

Lemma json_items_pos v : 0 < json_items v.
Proof.
  induction v as [| | | |l Hl|m Hm] using json_nested_ind; cbn [json_items]; try lia.
  - apply sum_of_nonneg in Hl. lia.
  - apply sum_of_nonneg in Hm. lia.
Qed.

Lemma sum_items_nonneg {A} (f : A -> JsonValue) l : 0 <= sum_of (fun e => json_items (f e)) l.
Proof. apply sum_of_nonneg, Forall_true. intros x. apply json_items_pos. Qed.

(** One turn of the loop over an array. *)
Lemma elements_turn x tail acc t d f depth items :
  reads_back x -> skip_whitespace t = (dump_to pretty d x ++ tail)%string ->
  (2 * String.length t + 1 <= f)%nat -> depth + 1 + json_height x <= jl_max_depth limits ->
  items + json_items x <= jl_max_items limits -> ends_number tail = true ->
  parse_elements limits (S f) depth t items (JArray acc) =
  let s := skip_whitespace tail in
  if next_is "," s then parse_elements limits f depth (str_tail s) (items + json_items x) (JArray (acc ++ [x]))
  else if next_is "]" s then inr (JArray (acc ++ [x]), str_tail s, items + json_items x)
  else inl (unexpected s).
Proof.
  intros Hr Ht Hf Hd Hi He. cbn [parse_elements]. pose proof (skip_whitespace_length t) as Hw.
  rewrite Ht in *. by rewrite Hr by (done || lia).
Qed.

Lemma elements_back l : forall x acc t d fuel depth items rest,
  Forall (fun v => json_canonical limits v /\ reads_back v) (x :: l) ->
  skip_whitespace t = (dump_to pretty (d + 1) x ++ after_items d (dump_to pretty (d + 1)) l "]" rest)%string ->
  (2 * String.length t + 2 <= fuel)%nat ->
  depth + 1 + max_of json_height (x :: l) <= jl_max_depth limits ->
  items + sum_of json_items (x :: l) <= jl_max_items limits ->
  parse_elements limits fuel depth t items (JArray acc) =
  inr (JArray (acc ++ x :: l), rest, items + sum_of json_items (x :: l)).
Proof.
  induction l as [|y l IH]; intros x acc t d fuel depth items rest Hall Ht Hf Hd Hi;
    (destruct fuel as [|f]; [lia|]); rewrite max_of_cons in Hd; rewrite sum_of_cons in Hi;
    apply Forall_cons in Hall as [[Hc Hr] Hall].
  - change (sum_of json_items []) with 0 in Hi.
    rewrite (elements_turn _ _ _ _ _ _ _ _ Hr Ht) by first [by apply after_items_ends|lia].
    unfold after_items. cbn [dump_items String.append]. rewrite skip_line. cbn. do 2 f_equal. lia.
  - pose proof (sum_items_nonneg id (y :: l)) as Hs.
    change (0 <= sum_of json_items (y :: l)) in Hs.
    rewrite (elements_turn _ _ _ _ _ _ _ _ Hr Ht) by first [by apply after_items_ends|lia].
    pose proof (skip_whitespace_length t) as Hw. rewrite Ht, str_app_length in Hw.
    unfold after_items in *. cbn [dump_items String.append] in *. cbv zeta.
    set (t' := (_ ++ line pretty d ++ _)%string) in *. cbn [String.length] in Hw.
    change (skip_whitespace (String "," t')) with (String "," t'). cbn [next_is str_tail].
    change (char_is "," ",") with true. cbn iota.
    rewrite (IH y (acc ++ [x]) t' d f depth (items + json_items x) rest).
    + rewrite <- app_assoc, !sum_of_cons. cbn [app]. do 2 f_equal. lia.
    + done.
    + unfold t'. rewrite <- !str_app_assoc, skip_line. apply value_start_skip, value_start_app.
      apply Forall_cons in Hall as [[Hy _] _]. by eapply dump_start.
    + lia.
    + lia.
    + lia.
Qed.

Definition member_text (d : nat) (e : string * JsonValue) : string :=
  (json_escape (fst e) ++ (if pretty then ": " else ":") ++ dump_to pretty (d + 1) (snd e))%string.

Definition member_ok (e : string * JsonValue) : Prop :=
  (text_ok limits (fst e) /\ Z.of_nat (String.length (fst e)) <= jl_max_key_bytes limits) /\
  json_canonical limits (snd e) /\ reads_back (snd e).

Lemma member_start d e : value_start (member_text d e) = true.
Proof. done. Qed.

(** One turn of the loop over an object. *)
Lemma members_turn e tail acc t d f depth items :
  member_ok e -> Forall (fun a => cmp (fst a) (fst e) = Lt) acc ->
  skip_whitespace t = (member_text d e ++ tail)%string ->
  (2 * String.length t + 1 <= f)%nat -> depth + 1 + json_height (snd e) <= jl_max_depth limits ->
  items + json_items (snd e) <= jl_max_items limits -> ends_number tail = true ->
  parse_members limits (S f) depth t items (JObject acc) =
  let s := skip_whitespace tail in
  if next_is "," s
  then parse_members limits f depth (str_tail s) (items + json_items (snd e)) (JObject (acc ++ [e]))
  else if next_is "}" s then inr (JObject (acc ++ [e]), str_tail s, items + json_items (snd e))
  else inl (unexpected s).
Proof.
  destruct e as [k v]. intros ((Hk & Hkl) & Hc & Hr) Hlt Ht Hf Hd Hi He. cbn [fst snd] in *.
  destruct (om_set_last k v acc Hlt) as [Eset Efind].
  pose proof (skip_whitespace_length t) as Hw. cbn [parse_members]. rewrite Ht in *.
  unfold member_text in *. cbn [fst snd] in *. rewrite <- !str_app_assoc in *.
  rewrite parse_string_escaped by done. replace (_ >? _) with false by lia.
  set (tl := (dump_to pretty (d + 1) v ++ tail)%string) in *.
  assert (consume ":" (skip_whitespace ((if pretty then ": " else ":") ++ tl)) =
          inr (if pretty then String " " tl else tl)) as Ecol by by destruct pretty.
  assert (skip_whitespace (if pretty then String " " tl else tl) = tl) as Esk.
  { assert (skip_whitespace tl = tl) as E; [|by destruct pretty].
    apply value_start_skip, value_start_app. by eapply dump_start. }
  rewrite Ecol, Esk. unfold tl. rewrite Hr; [|rewrite !str_app_length in Hw; fold tl; lia|lia|lia|done].
  cbn [json_find json_set]. by rewrite Efind, Eset.
Qed.

Lemma members_back m : forall e acc t d fuel depth items rest,
  Forall member_ok (e :: m) -> om_sorted (acc ++ e :: m) ->
  skip_whitespace t = (member_text d e ++ after_items d (member_text d) m "}" rest)%string ->
  (2 * String.length t + 2 <= fuel)%nat ->
  depth + 1 + max_of (fun e => json_height (snd e)) (e :: m) <= jl_max_depth limits ->
  items + sum_of (fun e => json_items (snd e)) (e :: m) <= jl_max_items limits ->
  parse_members limits fuel depth t items (JObject acc) =
  inr (JObject (acc ++ e :: m), rest, items + sum_of (fun e => json_items (snd e)) (e :: m)).
Proof.
  induction m as [|y m IH]; intros e acc t d fuel depth items rest Hall Hsort Ht Hf Hd Hi;
    (destruct fuel as [|f]; [lia|]); rewrite max_of_cons in Hd; rewrite sum_of_cons in Hi;
    apply Forall_cons in Hall as [He Hall]; pose proof (om_sorted_before _ _ _ Hsort) as Hlt.
  - change (sum_of (fun e => json_items (snd e)) []) with 0 in Hi.
    rewrite (members_turn _ _ _ _ _ _ _ _ He Hlt Ht) by first [by apply after_items_ends|lia].
    unfold after_items. cbn [dump_items String.append]. rewrite skip_line. cbn. do 2 f_equal. lia.
  - pose proof (sum_items_nonneg snd (y :: m)) as Hs.
    rewrite (members_turn _ _ _ _ _ _ _ _ He Hlt Ht) by first [by apply after_items_ends|lia].
    pose proof (skip_whitespace_length t) as Hw. rewrite Ht, str_app_length in Hw.
    unfold after_items in *. cbn [dump_items String.append] in *. cbv zeta.
    set (t' := (_ ++ line pretty d ++ _)%string) in *. cbn [String.length] in Hw.
    change (skip_whitespace (String "," t')) with (String "," t'). cbn [next_is str_tail].
    change (char_is "," ",") with true. cbn iota.
    rewrite (IH y (acc ++ [e]) t' d f depth (items + json_items (snd e)) rest).
    + rewrite <- app_assoc, !sum_of_cons. cbn [app]. do 2 f_equal. lia.
    + done.
    + by rewrite <- app_assoc.
    + unfold t'. rewrite <- !str_app_assoc, skip_line. apply value_start_skip, value_start_app, member_start.
    + lia.
    + lia.
    + lia.
Qed.

Lemma json_height_nonneg v : 0 <= json_height v.
Proof.
  assert (forall A (f : A -> Z) l, 0 <= max_of f l) as H.
  { intros A f l. induction l as [|x l IH]; [done|]. rewrite max_of_cons. lia. }
  destruct v as [| | | |[|x l]|[|e m]]; cbn [json_height]; try lia.
  - specialize (H _ json_height (x :: l)). lia.
  - specialize (H _ (fun e => json_height (snd e)) (e :: m)). lia.
Qed.

(** The dispatch on the first character, within the bounds. *)
Lemma parse_value_enter f depth c s items :
  depth <= jl_max_depth limits -> items < jl_max_items limits ->
  parse_value limits (S f) depth (String c s) items =
  if char_is "{" c then
    let s := skip_whitespace s in
    if next_is "}" s then inr (JObject [], str_tail s, items + 1)
    else parse_members limits f depth s (items + 1) (JObject [])
  else if char_is "[" c then
    let s := skip_whitespace s in
    if next_is "]" s then inr (JArray [], str_tail s, items + 1)
    else parse_elements limits f depth s (items + 1) (JArray [])
  else if char_is quote c then
    let+ (value, s) := parse_string limits (String c s) in inr (JString value, s, items + 1)
  else if char_is "t" c then let+ s := literal "true" (String c s) in inr (JBool true, s, items + 1)
  else if char_is "f" c then let+ s := literal "false" (String c s) in inr (JBool false, s, items + 1)
  else if char_is "n" c then let+ s := literal "null" (String c s) in inr (JNull, s, items + 1)
  else let+ (value, s) := parse_integer (String c s) in inr (value, s, items + 1).
Proof.
  intros Hd Hi. cbn [parse_value]. replace (depth >? _) with false by lia. unfold account_item.
  by replace (items >=? _) with false by lia.
Qed.

Lemma scalar_reads_back v :
  match v with JArray _ | JObject _ => False | _ => True end -> json_canonical limits v -> reads_back v.
Proof.
  intros Hv Hc d fuel depth items rest Hf Hd Hi He. pose proof (json_height_nonneg v).
  pose proof (json_items_pos v). destruct fuel as [|f]; [lia|].
  destruct Hc as [|b|n Hn|s Hs| |]; try done; cbn [dump_to].
  - cbn [String.append]. by rewrite parse_value_enter by lia.
  - destruct b; cbn [String.append]; by rewrite parse_value_enter by lia.
  - destruct (int_str_start n Hn) as (c & t & Es & _ & Hb). rewrite Es.
    change ((String c t ++ rest)%string) with (String c (t ++ rest)). rewrite parse_value_enter by lia.
    simpl in Hb. repeat (apply andb_prop in Hb as [?%negb_true_iff Hb]).
    repeat match goal with E : char_is _ c = false |- _ => rewrite E; clear E end.
    change (String c (t ++ rest)) with (String c t ++ rest)%string. by rewrite <- Es, parse_integer_printed.
  - change (json_escape s ++ rest)%string with (String quote ((escape_body s ++ String quote "") ++ rest)).
    rewrite parse_value_enter by lia.
    change (String quote ((escape_body s ++ String quote "") ++ rest)) with (json_escape s ++ rest)%string.
    by rewrite parse_string_escaped.
Qed.

Lemma array_reads_back l :
  Forall (fun v => json_canonical limits v /\ reads_back v) l -> reads_back (JArray l).
Proof.
  intros Hl d fuel depth items rest Hf Hd Hi He. pose proof (json_height_nonneg (JArray l)).
  pose proof (json_items_pos (JArray l)). destruct fuel as [|f]; [lia|]. destruct l as [|x l].
  - cbn [dump_to String.append]. by rewrite parse_value_enter by lia.
  - cbn [dump_to] in *. cbn [String.append dump_items] in *. rewrite parse_value_enter by lia.
    change (char_is "{" "[") with false. change (char_is "[" "[") with true. cbv zeta iota.
    rewrite <- !str_app_assoc in *. rewrite skip_line.
    change (String.append (dump_items pretty d (dump_to pretty (d + 1)) false l) _) with
      (after_items d (dump_to pretty (d + 1)) l "]" rest).
    apply Forall_cons in Hl as Hl'. destruct Hl' as [[Hx _] _].
    assert (value_start (dump_to pretty (d + 1) x ++ after_items d (dump_to pretty (d + 1)) l "]" rest) = true) as Hv
      by (apply value_start_app; by eapply dump_start).
    rewrite value_start_skip, value_start_close by done. cbn [json_height json_items] in *.
    rewrite (elements_back l x [] _ d f depth (items + 1) rest Hl).
    + cbn [app]. do 2 f_equal. lia.
    + by apply value_start_skip.
    + revert Hf. cbn [String.length]. rewrite (str_app_length (line _ _)).
      change (dump_to pretty (d + 1) x ++ dump_items _ _ _ _ _ ++ _)%string with
        (dump_to pretty (d + 1) x ++ after_items d (dump_to pretty (d + 1)) l "]" rest)%string. lia.
    + lia.
    + lia.
Qed.

Lemma object_reads_back m : om_sorted m -> Forall member_ok m -> reads_back (JObject m).
Proof.
  intros Hs Hm d fuel depth items rest Hf Hd Hi He. pose proof (json_height_nonneg (JObject m)).
  pose proof (json_items_pos (JObject m)). destruct fuel as [|f]; [lia|]. destruct m as [|e m].
  - cbn [dump_to String.append]. by rewrite parse_value_enter by lia.
  - cbn [dump_to] in *. fold (member_text d) in *. cbn [String.append dump_items] in *.
    rewrite parse_value_enter by lia. change (char_is "{" "{") with true. cbv zeta iota.
    rewrite <- !str_app_assoc in *. rewrite skip_line.
    change (String.append (dump_items pretty d (member_text d) false m) _) with
      (after_items d (member_text d) m "}" rest).
    assert (value_start (member_text d e ++ after_items d (member_text d) m "}" rest) = true) as Hv by done.
    rewrite value_start_skip by done. change (next_is "}" _) with false. cbn iota.
    cbn [json_height json_items] in *.
    rewrite (members_back m e [] _ d f depth (items + 1) rest Hm Hs).
    + cbn [app]. do 2 f_equal. lia.
    + by apply value_start_skip.
    + revert Hf. cbn [String.length]. rewrite (str_app_length (line _ _)).
      change (member_text d e ++ dump_items _ _ _ _ _ ++ _)%string with
        (member_text d e ++ after_items d (member_text d) m "}" rest)%string. lia.
    + lia.
    + lia.
Qed.

Lemma canonical_reads_back v : json_canonical limits v -> reads_back v.
Proof.
  induction v as [| | | |l IH|m IH] using json_nested_ind; intros Hc;
    try (by apply scalar_reads_back); inversion Hc as [| | | |? Hl|? Hs Hm Hk]; subst.
  - apply array_reads_back. rewrite Forall_forall in *. naive_solver.
  - apply object_reads_back; [done|]. rewrite Forall_forall in *. intros e He. repeat split; naive_solver.
Qed.
End printed.

(** ** Printed documents are UTF-8 *)

Definition is_ascii (c : ascii) : bool := byte_of_char c <? 0x80.

Lemma string_length_ind (P : string -> Prop) :
  (forall s, (forall t, (String.length t < String.length s)%nat -> P t) -> P s) -> forall s, P s.
Proof.
  intros H s. remember (String.length s) as n eqn:E. revert s E.
  induction n as [n IH] using lt_wf_ind. intros s ->. apply H. intros t Ht. by eapply IH.
Qed.

Lemma valid_utf8_cons_ascii c s : is_ascii c = true -> valid_utf8 (String c s) = valid_utf8 s.
Proof. unfold is_ascii. intros H. cbn [valid_utf8]. by rewrite H. Qed.

Lemma valid_utf8_ascii s t : str_all is_ascii s = true -> valid_utf8 (s ++ t) = valid_utf8 t.
Proof.
  induction s as [|c s IH]; [done|]. cbn [str_all String.append]. intros [Hc Hs]%andb_prop.
  by rewrite valid_utf8_cons_ascii, IH.
Qed.

Lemma valid_utf8_app a b : valid_utf8 a = true -> valid_utf8 (a ++ b) = valid_utf8 b.
Proof.
  induction a as [a IH] using string_length_ind. destruct a as [|c a]; [done|].
  cbn [valid_utf8 String.append]. destruct (_ <? 128) eqn:E0; [intros H; apply IH; [simpl; lia|done]|].
  destruct (_ =? 192).
  { destruct (_ <? 2); [done|]. destruct a as [|c1 a]; [done|]. cbn [String.append].
    intros [-> H]%andb_prop. apply IH; [simpl; lia|done]. }
  destruct (_ =? 224).
  { destruct a as [|c1 [|c2 a]]; try done. cbn [String.append].
    intros [-> H]%andb_prop. apply IH; [simpl; lia|done]. }
  destruct (_ =? 240); [|done].
  destruct a as [|c1 [|c2 [|c3 a]]]; try done. cbn [String.append].
  intros [-> H]%andb_prop. apply IH; [simpl; lia|done].
Qed.

Lemma escape_char_ascii c : is_ascii c = true -> str_all is_ascii (escape_char c) = true.
Proof. destruct c as [[|] [|] [|] [|] [|] [|] [|] [|]]; vm_compute; by intros. Qed.

Lemma escape_char_high c : is_ascii c = false -> escape_char c = String c "".
Proof. destruct c as [[|] [|] [|] [|] [|] [|] [|] [|]]; vm_compute; by intros. Qed.

Lemma continuation_high c : continuation c = true -> is_ascii c = false.
Proof. destruct c as [[|] [|] [|] [|] [|] [|] [|] [|]]; vm_compute; by intros. Qed.

Lemma escape_body_valid s : valid_utf8 s = true -> valid_utf8 (escape_body s) = true.
Proof.
  induction s as [s IH] using string_length_ind. destruct s as [|c s]; [done|].
  cbn [escape_body]. destruct (is_ascii c) eqn:Ea.
  { rewrite valid_utf8_cons_ascii by done. intros H. rewrite valid_utf8_ascii by by apply escape_char_ascii.
    apply IH; [simpl; lia|done]. }
  rewrite escape_char_high by done. unfold is_ascii in Ea. cbn [String.append valid_utf8]. rewrite Ea.
  destruct (_ =? 192).
  { destruct (_ <? 2); [done|]. destruct s as [|c1 s]; [done|].
    intros [[H1 H2]%andb_prop H]%andb_prop. cbn [escape_body]. rewrite escape_char_high by by apply continuation_high.
    cbn [String.append]. rewrite H1, H2. apply IH; [simpl; lia|done]. }
  destruct (_ =? 224).
  { destruct s as [|c1 [|c2 s]]; try done. intros [[[H1 H2]%andb_prop H3]%andb_prop H]%andb_prop.
    cbn [escape_body]. rewrite !escape_char_high by by apply continuation_high.
    cbn [String.append]. rewrite H1, H2, H3. apply IH; [simpl; lia|done]. }
  destruct (_ =? 240); [|done].
  destruct s as [|c1 [|c2 [|c3 s]]]; try done. intros [[[[H1 H2]%andb_prop H3]%andb_prop H4]%andb_prop H]%andb_prop.
  cbn [escape_body]. rewrite !escape_char_high by by apply continuation_high.
  cbn [String.append]. rewrite H1, H2, H3, H4. apply IH; [simpl; lia|done].
Qed.

Lemma json_escape_valid s : valid_utf8 s = true -> valid_utf8 (json_escape s) = true.
Proof.
  intros H. unfold json_escape. rewrite valid_utf8_cons_ascii, valid_utf8_app by (done || by apply escape_body_valid).
  done.
Qed.

Lemma line_ascii pretty d : str_all is_ascii (line pretty d) = true.
Proof. destruct pretty; [|done]. cbn. induction (d * 2)%nat; [done|]. by cbn. Qed.

Lemma int_str_ascii n : i64_min <= n <= i64_max -> str_all is_ascii (int_str n) = true.
Proof.
  unfold int_str, i64_min, i64_max. intros Hn.
  assert (forall m, 0 <= m <= u64_max -> str_all is_ascii (dec_str m) = true) as H.
  { intros m Hm. eapply str_all_impl; [|apply (dec_str_ok m Hm)]. unfold is_digit, is_ascii, byte_of_char. lia. }
  destruct (n <? 0) eqn:E; [cbn [str_all]; change (is_ascii "-") with true|]; apply H; unfold u64_max; lia.
Qed.

Lemma dump_items_valid {A} pretty d (one : A -> string) first l :
  Forall (fun x => valid_utf8 (one x) = true) l -> valid_utf8 (dump_items pretty d one first l) = true.
Proof.
  intros H. revert first. induction H as [|x l Hx Hl IH]; intros first; [done|]. cbn [dump_items].
  rewrite valid_utf8_ascii by by destruct first. rewrite valid_utf8_ascii by apply line_ascii.
  by rewrite valid_utf8_app.
Qed.

Lemma dump_valid limits pretty v d : json_canonical limits v -> valid_utf8 (dump_to pretty d v) = true.
Proof.
  revert d. induction v as [| | | |l IH|m IH] using json_nested_ind; intros d Hc;
    inversion Hc as [| |? Hn|? [Hs _]|? Hl|? Hs Hm Hk]; subst; cbn [dump_to].
  - done.
  - by destruct b.
  - rewrite <- (str_app_nil (int_str n)). by rewrite valid_utf8_ascii by by apply int_str_ascii.
  - by apply json_escape_valid.
  - destruct l as [|x l]; [done|]. cbn [String.append].
    rewrite valid_utf8_cons_ascii, valid_utf8_app, valid_utf8_ascii.
    + done.
    + apply line_ascii.
    + apply dump_items_valid. rewrite Forall_forall in *. naive_solver.
    + done.
  - destruct m as [|e m]; [done|]. cbn [String.append].
    rewrite valid_utf8_cons_ascii, valid_utf8_app, valid_utf8_ascii.
    + done.
    + apply line_ascii.
    + apply dump_items_valid. rewrite Forall_forall in *. intros x Hx.
      rewrite valid_utf8_app by (apply json_escape_valid; by apply Hk).
      rewrite valid_utf8_ascii by by destruct pretty. naive_solver.
    + done.
Qed.

(** The parser reads back exactly what the writer prints, with white space after
    it. *)
Lemma parse_dump_then limits pretty v rest :
  json_canonical limits v -> json_height v <= jl_max_depth limits ->
  json_items v <= jl_max_items limits -> ends_number rest = true ->
  valid_utf8 rest = true -> skip_whitespace rest = "" ->
  Z.of_nat (String.length (dump pretty v ++ rest)) <= jl_max_bytes limits ->
  parse_document limits (dump pretty v ++ rest) = inr v.
Proof.
  intros Hc Hh Hi Hf Hu Hr Hl. unfold parse_document, dump in *. replace (_ >? _) with false by lia.
  rewrite valid_utf8_app by by eapply dump_valid. rewrite Hu. cbn [negb].
  rewrite value_start_skip by (apply value_start_app; by eapply dump_start).
  pose proof (canonical_reads_back limits pretty v Hc 0%nat
                (2 * String.length (dump_to pretty 0 v ++ rest) + 1)%nat 0 0 rest) as H.
  rewrite H by (done || lia). by rewrite Hr.
Qed.

Lemma parse_dump limits pretty v :
  json_canonical limits v -> json_height v <= jl_max_depth limits ->
  json_items v <= jl_max_items limits ->
  Z.of_nat (String.length (dump pretty v)) <= jl_max_bytes limits ->
  parse_document limits (dump pretty v) = inr v.
Proof. intros. rewrite <- (str_app_nil (dump pretty v)) in *. by apply parse_dump_then. Qed.
