(* ===== verification/JsonSound.v ===== *)
(** * What the JSON parser accepts

    Every document accepted yields a canonical value within the bounds: integers
    of 64 bits, members in strict key order, valid UTF-8 in every string, the
    declared nesting and number of items. *)

From Stdlib Require Import ZArith Lia ZifyBool Ascii String.
From stdpp Require Import base tactics list strings.
From S2P Require Import Prelude OrdMap Reason Text Hash State Json JsonThms.

#[local] Open Scope string_scope.
#[local] Open Scope Z_scope.
#[local] Open Scope list_scope.

(** ** UTF-8 survives cutting at a character below 128 *)

Lemma valid_utf8_split a c b :
  is_ascii c = true -> valid_utf8 (a ++ String c b) = true ->
  valid_utf8 a = true /\ valid_utf8 (String c b) = true.
Proof.
  intros Hc. assert (continuation c = false) as Hcc.
  { destruct (continuation c) eqn:E; [|done]. apply continuation_high in E. congruence. }
  induction a as [a IH] using string_length_ind. destruct a as [|x a]; [done|].
  cbn [valid_utf8 String.append]. destruct (_ <? 128); [apply IH; simpl; lia|].
  destruct (_ =? 192).
  { destruct (_ <? 2); [done|]. destruct a as [|c1 a]; cbn [String.append]; [by rewrite Hcc|].
    intros [-> H]%andb_prop. apply IH; [simpl; lia|done]. }
  destruct (_ =? 224).
  { destruct a as [|c1 [|c2 a]]; cbn [String.append].
    - destruct b as [|? ?]; [done|]. by rewrite Hcc.
    - rewrite Hcc. by rewrite andb_false_r.
    - intros [-> H]%andb_prop. apply IH; [simpl; lia|done]. }
  destruct (_ =? 240); [|done].
  destruct a as [|c1 [|c2 [|c3 a]]]; cbn [String.append].
  - destruct b as [|? [|? ?]]; try done. by rewrite Hcc.
  - destruct b as [|? ?]; try done. rewrite Hcc. by rewrite andb_false_r.
  - rewrite Hcc. by rewrite andb_false_r.
  - intros [-> H]%andb_prop. apply IH; [simpl; lia|done].
Qed.

(** ** Lexical elements leave valid text *)

Lemma skip_whitespace_valid s : valid_utf8 (skip_whitespace s) = valid_utf8 s.
Proof.
  induction s as [|c s IH]; [done|]. cbn [skip_whitespace]. destruct (is_space c) eqn:E; [|done].
  rewrite valid_utf8_cons_ascii, IH; [done|]. revert E.
  destruct c as [[|] [|] [|] [|] [|] [|] [|] [|]]; vm_compute; by intros.
Qed.

Lemma next_is_inv c s : next_is c s = true -> s = String c (str_tail s).
Proof. destruct s as [|a s]; [done|]. cbn. unfold char_is. by intros ->%Ascii.eqb_eq. Qed.

Lemma consume_inv c s s' : consume c s = inr s' -> s = String c s'.
Proof.
  unfold consume. destruct (next_is c s) eqn:E; [|done]. intros [= <-]. by apply next_is_inv.
Qed.

Lemma literal_valid w s s' :
  str_all is_ascii w = true -> literal w s = inr s' -> valid_utf8 s = valid_utf8 s'.
Proof.
  unfold literal. intros Hw. destruct (strip_prefix w s) as [t|] eqn:E; [|done]. intros [= <-].
  apply strip_prefix_some in E as ->. by rewrite valid_utf8_ascii.
Qed.

Lemma digits_ascii d : str_all is_digit d = true -> str_all is_ascii d = true.
Proof. apply str_all_impl. unfold is_digit, is_ascii, byte_of_char. lia. Qed.

Lemma parse_integer_sound s v s' :
  parse_integer s = inr (v, s') ->
  (exists n, v = JInteger n /\ i64_min <= n <= i64_max) /\ valid_utf8 s = valid_utf8 s'.
Proof.
  unfold parse_integer. set (t := if next_is "-" s then str_tail s else s).
  assert (valid_utf8 t = valid_utf8 s) as Ht.
  { unfold t. destruct (next_is "-" s) eqn:E; [|done]. apply next_is_inv in E. rewrite E at 2.
    by rewrite valid_utf8_cons_ascii. }
  pose proof (span_digits_spec t) as H. destruct (span_digits t) as [d r]. destruct H as [E Hd].
  rewrite <- Ht, E, valid_utf8_ascii by by apply digits_ascii. pose proof (dec_val_nonneg d Hd) as Hv.
  destruct (str_empty d); [done|]. do 3 (case_if; [done|]). unfold i64_min, i64_max.
  destruct (next_is "-" s); (destruct (_ >? _) eqn:E1; [done|]); intros [= <- <-];
    (split; [|done]); eexists; (split; [done|]); [destruct (_ =? _) eqn:E2|]; lia.
Qed.

Lemma hex_value_ascii c x : hex_value c = Some x -> is_ascii c = true /\ 0 <= x < 16.
Proof. destruct c as [[|] [|] [|] [|] [|] [|] [|] [|]]; vm_compute; intros; simplify_eq; by split. Qed.

(** ** Code points *)

Lemma lor_low a b n : 0 <= n -> 0 <= b < 2 ^ n -> Z.lor (Z.shiftl a n) b = a * 2 ^ n + b.
Proof.
  intros Hn Hb. rewrite <- Z.shiftl_mul_pow2 by done.
  assert (Z.land (Z.shiftl a n) b = 0) as H0.
  { apply Z.bits_inj'. intros i Hi. rewrite Z.land_spec, Z.bits_0.
    destruct (Z.ltb_spec i n); [by rewrite Z.shiftl_spec_low|].
    destruct (decide (b = 0)) as [->|]; [by rewrite Z.bits_0, andb_false_r|].
    rewrite (Z.bits_above_log2 b i), andb_false_r; [done|lia|]. apply Z.log2_lt_pow2; [lia|].
    eapply Z.lt_le_trans; [apply Hb|apply Z.pow_le_mono_r; lia]. }
  rewrite <- Z.lxor_lor, <- Z.add_nocarry_lxor by done. done.
Qed.

Lemma parse_hex4_sound s cp s' :
  parse_hex4 s = inr (cp, s') -> 0 <= cp < 65536 /\ valid_utf8 s = valid_utf8 s'.
Proof.
  destruct s as [|a [|b [|c [|d s]]]]; try done. cbn [parse_hex4].
  destruct (hex_value a) as [x|] eqn:Ea; [|done]. destruct (hex_value b) as [y|] eqn:Eb; [|done].
  destruct (hex_value c) as [z|] eqn:Ec; [|done]. destruct (hex_value d) as [w|] eqn:Ed; [|done].
  apply hex_value_ascii in Ea as [Ha Hx], Eb as [Hb Hy], Ec as [Hc Hz], Ed as [Hd Hw].
  intros [= <- <-]. rewrite !valid_utf8_cons_ascii by done. split; [|done].
  rewrite !lor_low by lia. lia.
Qed.

(** The bytes of a code point: six-bit groups under a leading byte. *)
Lemma continuation_byte x :
  0 <= x < 64 -> continuation (char_of_byte (Z.lor 0x80 x)) = true /\
  forall cp, 0 <= cp < 2 ^ 26 -> extend_code_point cp (char_of_byte (Z.lor 0x80 x)) = cp * 64 + x.
Proof.
  intros Hx. assert (Z.lor 128 x = 128 + x) as E.
  { change 128 with (Z.shiftl 1 7) at 1. rewrite lor_low by lia. lia. }
  assert (byte_of_char (char_of_byte (128 + x)) = 128 + x) as Eb.
  { unfold byte_of_char, char_of_byte. rewrite N_ascii_embedding; lia. }
  unfold continuation, extend_code_point. rewrite E, Eb.
  assert (Z.land (128 + x) 192 = 128 /\ Z.land (128 + x) 63 = x) as [-> ->].
  { assert (forallb (fun k => (Z.land (128 + k) 192 =? 128) && (Z.land (128 + k) 63 =? k))
              (map Z.of_nat (seq 0 64)) = true) as H by (vm_compute; reflexivity).
    rewrite forallb_forall in H. specialize (H x).
    assert (In x (map Z.of_nat (seq 0 64))) as Hi.
    { apply in_map_iff. exists (Z.to_nat x). split; [lia|]. apply in_seq. lia. }
    specialize (H Hi). lia. }
  split; [done|]. intros cp Hcp. unfold u32. rewrite wrap_small.
  - rewrite lor_low by lia. lia.
  - rewrite Z.shiftl_mul_pow2 by lia. unfold in_u. lia.
Qed.

(** A test over a small range, by evaluation. *)
Lemma small_range (P : Z -> bool) n x :
  forallb P (map Z.of_nat (seq 0 n)) = true -> 0 <= x < Z.of_nat n -> P x = true.
Proof.
  intros H Hx. rewrite forallb_forall in H. apply H, in_map_iff. exists (Z.to_nat x).
  split; [lia|]. apply in_seq. lia.
Qed.

Definition lead (base x : Z) : Z := byte_of_char (char_of_byte (Z.lor base x)).

Lemma append_utf8_valid cp :
  0 <= cp <= 0x10FFFF -> ~ (0xD800 <= cp <= 0xDFFF) -> valid_utf8 (append_utf8 cp) = true.
Proof.
  intros Hr Hs. unfold append_utf8.
  assert (forall k, 0 <= k -> 0 <= Z.land (Z.shiftr cp k) 63 < 64) as Hlow.
  { intros k Hk. change 63 with (Z.ones 6). rewrite Z.land_ones by lia. apply Z.mod_pos_bound. lia. }
  assert (forall k, 0 <= k -> Z.shiftr cp k = Z.shiftr cp (k + 6) * 64 + Z.land (Z.shiftr cp k) 63) as Hsplit.
  { intros k Hk. change 63 with (Z.ones 6). rewrite Z.land_ones, <- Z.shiftr_shiftr by lia.
    rewrite (Z.shiftr_div_pow2 (Z.shiftr cp k)) by lia. change (2 ^ 6) with 64.
    pose proof (Z.div_mod (Z.shiftr cp k) 64). lia. }
  pose proof (Hlow 0 ltac:(lia)) as L0. pose proof (Hlow 6 ltac:(lia)) as L6. pose proof (Hlow 12 ltac:(lia)) as L12.
  pose proof (Hsplit 0 ltac:(lia)) as S0. pose proof (Hsplit 6 ltac:(lia)) as S6. pose proof (Hsplit 12 ltac:(lia)) as S12.
  change (0 + 6) with 6 in S0. change (6 + 6) with 12 in S6. change (12 + 6) with 18 in S12. rewrite Z.shiftr_0_r in *.
  destruct (continuation_byte _ L0) as [C0 X0]. destruct (continuation_byte _ L6) as [C6 X6].
  destruct (continuation_byte _ L12) as [C12 X12]. clear Hlow Hsplit.
  destruct (cp <? 128) eqn:E1.
  { cbn [string_of_bytes]. rewrite valid_utf8_cons_ascii; [done|]. unfold is_ascii.
    unfold byte_of_char, char_of_byte. rewrite N_ascii_embedding; lia. }
  destruct (cp <? 2048) eqn:E2; [|destruct (cp <? 65536) eqn:E3]; cbn [string_of_bytes valid_utf8].
  - pose proof (small_range (fun q => negb (lead 192 q <? 128) && (Z.land (lead 192 q) 224 =? 192) &&
                                      (Z.land (lead 192 q) 31 =? q)) 32 (Z.shiftr cp 6)
                  ltac:(vm_compute; reflexivity) ltac:(lia)) as H.
    unfold lead in H. cbv beta in H. set (b := byte_of_char _) in *.
    replace (b <? 128) with false by lia. replace (Z.land b 224 =? 192) with true by lia.
    replace (Z.land b 31) with (Z.shiftr cp 6) by lia. replace (_ <? 2) with false by lia.
    rewrite C0, X0 by lia. rewrite <- S0. unfold code_point_ok. cbn [andb Nat.eqb]. lia.
  - pose proof (small_range (fun q => negb (lead 224 q <? 128) && negb (Z.land (lead 224 q) 224 =? 192) &&
                                      (Z.land (lead 224 q) 240 =? 224) && (Z.land (lead 224 q) 15 =? q)) 16
                  (Z.shiftr cp 12) ltac:(vm_compute; reflexivity) ltac:(lia)) as H.
    unfold lead in H. cbv beta in H. set (b := byte_of_char _) in *.
    replace (b <? 128) with false by lia. replace (Z.land b 224 =? 192) with false by lia.
    replace (Z.land b 240 =? 224) with true by lia. replace (Z.land b 15) with (Z.shiftr cp 12) by lia.
    rewrite C0, C6, X6, <- S6, X0, <- S0 by lia. unfold code_point_ok. cbn [andb Nat.eqb]. lia.
  - pose proof (small_range (fun q => negb (lead 240 q <? 128) && negb (Z.land (lead 240 q) 224 =? 192) &&
                                      negb (Z.land (lead 240 q) 240 =? 224) &&
                                      (Z.land (lead 240 q) 248 =? 240) && (Z.land (lead 240 q) 7 =? q)) 8
                  (Z.shiftr cp 18) ltac:(vm_compute; reflexivity) ltac:(lia)) as H.
    unfold lead in H. cbv beta in H. set (b := byte_of_char _) in *.
    replace (b <? 128) with false by lia. replace (Z.land b 224 =? 192) with false by lia.
    replace (Z.land b 240 =? 224) with false by lia. replace (Z.land b 248 =? 240) with true by lia.
    replace (Z.land b 7) with (Z.shiftr cp 18) by lia.
    rewrite C0, C6, C12, X12, <- S12, X6, <- S6, X0, <- S0 by lia. unfold code_point_ok. cbn [andb Nat.eqb]. lia.
Qed.

Lemma parse_code_point_sound s cp s' :
  parse_code_point s = inr (cp, s') ->
  0 <= cp <= 0x10FFFF /\ ~ (0xD800 <= cp <= 0xDFFF) /\ valid_utf8 s = valid_utf8 s'.
Proof.
  unfold parse_code_point. destruct (parse_hex4 s) as [e|[hi s1]] eqn:E1; [done|].
  apply parse_hex4_sound in E1 as [H1 V1]. rewrite V1. destruct (_ && _) eqn:Es.
  - destruct (strip_prefix "\u" s1) as [s2|] eqn:E2; [|done]. apply strip_prefix_some in E2 as ->.
    destruct (parse_hex4 s2) as [e|[lo s3]] eqn:E3; [done|]. apply parse_hex4_sound in E3 as [H3 V3].
    destruct (_ || _) eqn:El; [done|]. intros [= <- <-]. rewrite valid_utf8_ascii by done.
    rewrite Z.shiftl_mul_pow2 by lia. split; [lia|]. split; [lia|done].
  - destruct (_ && _) eqn:Et in |- *; [done|]. intros [= <- <-]. split; [lia|]. split; [lia|done].
Qed.

(** An escape denotes valid text and leaves valid text. *)
Lemma parse_escape_sound s piece s' :
  parse_escape s = inr (piece, s') -> valid_utf8 piece = true /\ valid_utf8 s = valid_utf8 s'.
Proof.
  destruct s as [|c s]; [done|]. cbn [parse_escape].
  assert (forall a p, char_is a c = true -> is_ascii a = true -> is_ascii p = true ->
            (inr (String p "", s) : ReasonCode + string * string) = inr (piece, s') ->
            valid_utf8 piece = true /\ valid_utf8 (String c s) = valid_utf8 s') as Hone.
  { intros a p Hc Ha Hp [= <- <-]. unfold char_is in Hc. apply Ascii.eqb_eq in Hc as ->.
    by rewrite !valid_utf8_cons_ascii. }
  repeat (case_match; [eapply Hone; done|]). case_match; [|done].
  destruct (parse_code_point s) as [e|[cp s1]] eqn:E; [done|]. intros [= <- <-].
  apply parse_code_point_sound in E as (R1 & R2 & R3). split; [by apply append_utf8_valid|].
  match goal with Hu : char_is "u" c = true |- _ => unfold char_is in Hu; apply Ascii.eqb_eq in Hu as -> end.
  by rewrite valid_utf8_cons_ascii.
Qed.

Lemma string_loop_sound limits fuel s out v s' :
  valid_utf8 (out ++ s) = true -> string_loop limits fuel s out = inr (v, s') ->
  valid_utf8 v = true /\ valid_utf8 s' = true.
Proof.
  revert s out. induction fuel as [|f IH]; intros s out Hv; [done|]. cbn [string_loop].
  destruct s as [|c s]; [done|]. cbn [string_char]. destruct (char_is quote c) eqn:Eq.
  { intros [= <- <-]. unfold char_is in Eq. apply Ascii.eqb_eq in Eq as ->.
    apply valid_utf8_split in Hv as [H1 H2]; [|done]. by rewrite valid_utf8_cons_ascii in H2. }
  destruct (_ <? 32); [done|]. destruct (char_is backslash c) eqn:Eb.
  - unfold char_is in Eb. apply Ascii.eqb_eq in Eb as ->. apply valid_utf8_split in Hv as [H1 H2]; [|done].
    rewrite valid_utf8_cons_ascii in H2 by done.
    destruct (parse_escape s) as [e|[p s1]] eqn:E; [done|]. apply parse_escape_sound in E as [H3 H4].
    destruct (_ && _); [done|]. apply IH. rewrite valid_utf8_app; [congruence|]. by rewrite valid_utf8_app.
  - cbn [andb]. apply IH. by rewrite <- str_app_assoc.
Qed.

Lemma parse_string_sound limits s v s' :
  valid_utf8 s = true -> parse_string limits s = inr (v, s') -> valid_utf8 v = true /\ valid_utf8 s' = true.
Proof.
  intros Hv. unfold parse_string. destruct (consume quote s) as [e|s1] eqn:E; [done|].
  apply consume_inv in E as ->. rewrite valid_utf8_cons_ascii in Hv by done. by apply string_loop_sound.
Qed.

(** ** Values *)

(** The shape of every accepted value, and the bounds it meets at a depth. *)
Definition utf8_text (s : string) : Prop := valid_utf8 s = true.

Section accepted.
Context (limits : JsonLimits).
Definition accepted (depth : Z) (v : JsonValue) : Prop :=
  json_wf utf8_text limits v /\ depth + json_height v <= jl_max_depth limits.

(** A parsed collection: the members so far, with the items they account for. *)
Definition elements_of (depth : Z) (items0 items : Z) (r : JsonValue) : Prop :=
  exists l, r = JArray l /\ Forall (accepted (depth + 1)) l /\ items = items0 + sum_of json_items l.
Definition members_of (depth : Z) (items0 items : Z) (r : JsonValue) : Prop :=
  exists m, r = JObject m /\ om_sorted m /\ Forall (fun e => accepted (depth + 1) (snd e)) m /\
    Forall (fun e => utf8_text (fst e) /\ Z.of_nat (String.length (fst e)) <= jl_max_key_bytes limits) m /\
    items = items0 + sum_of (fun e => json_items (snd e)) m.

Lemma max_of_bound {A} (f : A -> Z) (l : list A) b : 0 <= b -> Forall (fun x => f x <= b) l -> max_of f l <= b.
Proof. intros Hb. induction 1 as [|x l Hx Hl IH]; [done|]. rewrite max_of_cons. lia. Qed.

Lemma accepted_array depth l :
  depth <= jl_max_depth limits -> Forall (accepted (depth + 1)) l -> accepted depth (JArray l).
Proof.
  intros Hd Hl. split.
  - constructor. by eapply Forall_impl; [exact Hl|]; intros v [? _].
  - destruct l as [|x l]; [cbn; lia|]. cbn [json_height].
    assert (max_of json_height (x :: l) <= jl_max_depth limits - depth - 1); [|lia].
    assert (0 <= jl_max_depth limits - depth - 1) as Hb.
    { apply Forall_cons in Hl as [[_ Hx] _]. pose proof (json_height_nonneg x). lia. }
    apply max_of_bound; [done|]. eapply Forall_impl; [exact Hl|]. intros v [_ Hv]. lia.
Qed.

Lemma accepted_object depth items0 items r :
  depth <= jl_max_depth limits -> members_of depth items0 items r -> accepted depth r.
Proof.
  intros Hd (m & -> & Hs & Hm & Hk & _). split.
  - constructor; [done| |done]. eapply Forall_impl; [exact Hm|]. by intros e [? _].
  - destruct m as [|x m]; [cbn; lia|]. cbn [json_height].
    assert (max_of (fun e => json_height (snd e)) (x :: m) <= jl_max_depth limits - depth - 1); [|lia].
    assert (0 <= jl_max_depth limits - depth - 1) as Hb.
    { apply Forall_cons in Hm as [[_ Hx] _]. pose proof (json_height_nonneg (snd x)). lia. }
    apply max_of_bound; [done|]. eapply Forall_impl; [exact Hm|]. intros v [_ Hv]. lia.
Qed.

Lemma sum_of_set (f : string * JsonValue -> Z) k v m :
  om_find k m = None -> sum_of f (om_set k v m) = f (k, v) + sum_of f m.
Proof.
  induction m as [|[k' v'] m IH]; [done|]. cbn [om_find om_set]. unfold ceq.
  destruct (cmp k k') eqn:E; [done| |]; intros H; [done|]. rewrite !sum_of_cons, IH by done. lia.
Qed.

(** Adding a member under a new key. *)
Lemma members_set depth items0 items r key v :
  members_of depth items0 items r -> json_find key r = None -> accepted (depth + 1) v ->
  utf8_text key -> Z.of_nat (String.length key) <= jl_max_key_bytes limits ->
  members_of depth items0 (items + json_items v) (json_set key v r).
Proof.
  intros (m & -> & Hs & Hm & Hk & ->) Hf Hv Ht Hl. cbn in *. exists (om_set key v m).
  split; [done|]. split; [by apply om_set_sorted|]. split; [|split].
  - change (om_all (fun _ v => accepted (depth + 1) v) (om_set key v m)). by apply om_set_all.
  - change (om_all (fun k _ => utf8_text k /\ Z.of_nat (String.length k) <= jl_max_key_bytes limits) (om_set key v m)).
    by apply om_set_all.
  - rewrite sum_of_set by done. cbn [snd]. lia.
Qed.

Lemma elements_push depth items0 items r v :
  elements_of depth items0 items r -> accepted (depth + 1) v ->
  elements_of depth items0 (items + json_items v) (json_push v r).
Proof.
  intros (l & -> & Hl & ->) Hv. exists (l ++ [v]). split; [done|]. split; [by apply Forall_app_2; [|constructor]|].
  clear Hl. induction l as [|x l IH]; [cbn; lia|]. cbn [app]. rewrite !sum_of_cons. lia.
Qed.

(** What a successful call promises, by the fuel it was given. *)
Definition value_spec (fuel : nat) : Prop := forall depth s items v s' items',
  valid_utf8 s = true -> parse_value limits fuel depth s items = inr (v, s', items') ->
  accepted depth v /\ valid_utf8 s' = true /\ items' = items + json_items v /\ items' <= jl_max_items limits.
Definition elements_spec (fuel : nat) : Prop := forall depth s items items0 r v s' items',
  valid_utf8 s = true -> depth <= jl_max_depth limits -> elements_of depth items0 items r ->
  parse_elements limits fuel depth s items r = inr (v, s', items') ->
  elements_of depth items0 items' v /\ valid_utf8 s' = true /\ items' <= jl_max_items limits.
Definition members_spec (fuel : nat) : Prop := forall depth s items items0 r v s' items',
  valid_utf8 s = true -> depth <= jl_max_depth limits -> members_of depth items0 items r ->
  parse_members limits fuel depth s items r = inr (v, s', items') ->
  members_of depth items0 items' v /\ valid_utf8 s' = true /\ items' <= jl_max_items limits.

Lemma tail_valid c s : next_is c s = true -> is_ascii c = true -> valid_utf8 s = true -> valid_utf8 (str_tail s) = true.
Proof. intros H Hc. rewrite (next_is_inv c s H) at 1. by rewrite valid_utf8_cons_ascii. Qed.

Lemma elements_step f : value_spec f -> elements_spec f -> elements_spec (S f).
Proof.
  intros IHv IHe depth s items items0 r v s' items' Hs Hd Hr. cbn [parse_elements].
  destruct (parse_value _ _ _ _ _) as [e|[[x s1] i1]] eqn:E; [done|].
  apply IHv in E as (Hx & Hs1 & -> & Hi); [|by rewrite skip_whitespace_valid].
  pose proof (elements_push _ _ _ _ _ Hr Hx) as Hp. rewrite <- skip_whitespace_valid in Hs1.
  destruct (next_is "," _) eqn:E1.
  - intros H. eapply IHe; [by eapply tail_valid|done|exact Hp|exact H].
  - destruct (next_is "]" _) eqn:E2; [|done]. intros [= <- <- <-]. split; [done|].
    split; [by eapply tail_valid|done].
Qed.

Lemma members_step f : value_spec f -> members_spec f -> members_spec (S f).
Proof.
  intros IHv IHm depth s items items0 r v s' items' Hs Hd Hr. cbn [parse_members].
  destruct (parse_string _ _) as [e|[key s1]] eqn:E; [done|].
  apply parse_string_sound in E as [Hk Hs1]; [|by rewrite skip_whitespace_valid].
  destruct (_ >? _) eqn:El; [done|]. destruct (consume _ _) as [e|s2] eqn:Ec; [done|].
  apply consume_inv in Ec. rewrite <- skip_whitespace_valid, Ec, valid_utf8_cons_ascii in Hs1 by done.
  destruct (parse_value _ _ _ _ _) as [e|[[x s3] i1]] eqn:E; [done|].
  apply IHv in E as (Hx & Hs3 & -> & Hi); [|by rewrite skip_whitespace_valid].
  destruct (json_find key r) eqn:Ef; [done|].
  pose proof (members_set _ _ _ _ _ _ Hr Ef Hx Hk ltac:(lia)) as Hp. rewrite <- skip_whitespace_valid in Hs3.
  destruct (next_is "," _) eqn:E1.
  - intros H. eapply IHm; [by eapply tail_valid|done|exact Hp|exact H].
  - destruct (next_is "}" _) eqn:E2; [|done]. intros [= <- <- <-]. split; [done|].
    split; [by eapply tail_valid|done].
Qed.

Lemma accepted_scalar depth v :
  depth <= jl_max_depth limits -> json_wf utf8_text limits v -> json_height v = 0 -> accepted depth v.
Proof. intros Hd Hw Hh. split; [done|lia]. Qed.

Lemma value_step f : elements_spec f -> members_spec f -> value_spec (S f).
Proof.
  intros IHe IHm depth s items v s' items' Hs. cbn [parse_value]. destruct (_ >? _) eqn:Ed; [done|].
  assert (depth <= jl_max_depth limits) as Hd by lia.
  destruct s as [|c s]; [done|]. unfold account_item. destruct (_ >=? _) eqn:Ei; [done|].
  assert (items + 1 <= jl_max_items limits) as Hi by lia.
  assert (forall a, char_is a c = true -> is_ascii a = true -> valid_utf8 (skip_whitespace s) = true) as Htl.
  { intros a Ha Hasc. unfold char_is in Ha. apply Ascii.eqb_eq in Ha as ->.
    rewrite skip_whitespace_valid. by rewrite valid_utf8_cons_ascii in Hs. }
  destruct (char_is "{" c) eqn:E1.
  { specialize (Htl _ E1 eq_refl). cbv zeta. destruct (next_is "}" _) eqn:E2.
    { intros [= <- <- <-]. split; [apply accepted_scalar; [done|by repeat constructor|done]|].
      split; [by eapply tail_valid|done]. }
    intros H. eapply (IHm _ _ _ (items + 1)) in H as (Hm & H2 & H3); [| |done|].
    - split; [by eapply accepted_object|]. split; [done|]. destruct Hm as (m & -> & _ & _ & _ & ->). split; [cbn; lia|done].
    - done.
    - exists []. split_and!; [done|constructor..|cbn; lia]. }
  destruct (char_is "[" c) eqn:E2.
  { specialize (Htl _ E2 eq_refl). cbv zeta. destruct (next_is "]" _) eqn:E3.
    { intros [= <- <- <-]. split; [apply accepted_scalar; [done|by repeat constructor|done]|].
      split; [by eapply tail_valid|done]. }
    intros H. eapply (IHe _ _ _ (items + 1)) in H as ((l & -> & Hl & ->) & H2 & H3); [| |done|].
    - split; [by apply accepted_array|]. split; [done|]. split; [cbn; lia|done].
    - done.
    - exists []. split_and!; [done|constructor|cbn; lia]. }
  destruct (char_is quote c).
  { destruct (parse_string _ _) as [e|[t s1]] eqn:E; [done|]. apply parse_string_sound in E as [Ht Hs1]; [|done].
    intros [= <- <- <-]. split; [by apply accepted_scalar; [|constructor|]|done]. }
  assert (forall w b, str_all is_ascii w = true -> json_wf utf8_text limits b -> json_height b = 0 -> json_items b = 1 ->
            (let+ s1 := literal w (String c s) in inr (b, s1, items + 1)) = inr (v, s', items') ->
            accepted depth v /\ valid_utf8 s' = true /\ items' = items + json_items v /\ items' <= jl_max_items limits) as Hlit.
  { intros w b Hw Hb Hh Hn. destruct (literal w _) as [e|s1] eqn:E; [done|]. apply literal_valid in E; [|done].
    intros [= <- <- <-]. split; [by apply accepted_scalar|]. rewrite Hn. by rewrite <- E. }
  destruct (char_is "t" c); [by apply Hlit; [|constructor| |]|].
  destruct (char_is "f" c); [by apply Hlit; [|constructor| |]|].
  destruct (char_is "n" c); [by apply Hlit; [|constructor| |]|].
  destruct (parse_integer _) as [e|[x s1]] eqn:E; [done|]. apply parse_integer_sound in E as [(n & -> & Hn) Hv].
  intros [= <- <- <-]. split; [by apply accepted_scalar; [|constructor|]|]. by rewrite <- Hv.
Qed.

Lemma parse_sound fuel : value_spec fuel /\ elements_spec fuel /\ members_spec fuel.
Proof.
  induction fuel as [|f (IHv & IHe & IHm)].
  - split_and!; repeat intro; discriminate.
  - split_and!; [by apply value_step|by apply elements_step|by apply members_step].
Qed.
End accepted.

(** ** Canonical JSON *)

(** C35: the parser stops on every text, whatever its content, with a value or with
    a reason of its own; a value it returns is canonical: integers of 64 bits,
    members in strict key order, valid UTF-8 in every string and key, keys and
    nesting and the number of values within the bounds.  (The bound on a string's
    length is not part of it: the parser checks it only after an escape.) *)
Theorem json_parse_sound limits text :
  match parse_document limits text with
  | inl reason => reason <> Ok_
  | inr v => json_wf (fun s => valid_utf8 s = true) limits v /\ json_height v <= jl_max_depth limits /\
             json_items v <= jl_max_items limits
  end.
Proof.
  unfold parse_document. destruct (_ >? _); [done|]. destruct (valid_utf8 text) eqn:Ev; [|done]. cbn [negb].
  set (s := skip_whitespace text). assert (valid_utf8 s = true) as Hs by (unfold s; by rewrite skip_whitespace_valid).
  pose proof (proj1 (parse_fuel limits (2 * String.length s + 1)) 0 s 0 ltac:(lia)) as Hf.
  destruct (parse_value _ _ _ _ _) as [e|[[v s'] items]] eqn:E; [done|].
  apply (proj1 (parse_sound limits _)) in E as ((Hw & Hh) & _ & -> & Hi); [|done].
  destruct (str_empty _); [|done]. split; [done|]. lia.
Qed.

(** C36: a canonical value within the bounds is read back exactly from its printed
    form, indented or not. *)
Theorem json_roundtrip limits pretty v :
  json_canonical limits v -> json_height v <= jl_max_depth limits ->
  json_items v <= jl_max_items limits ->
  Z.of_nat (String.length (dump pretty v)) <= jl_max_bytes limits ->
  json_parse (dump pretty v) limits = outcome_value v.
Proof. intros. unfold json_parse. by rewrite parse_dump. Qed.

Lemma json_roundtrip_witness :
  let v := JObject [("a", JArray [JInteger (-7); JNull; JString "x"]); ("b", JBool true)]%string in
  json_parse (dump true v) default_json_limits = outcome_value v.
Proof.
  apply json_roundtrip; [|by vm_compute..]. repeat constructor; vm_compute; try split; congruence.
Defined.

(** The bound on strings is checked only after an escape: an unescaped string of
    any length within the document is accepted. *)
Lemma unescaped_string_unbounded :
  let limits := mkJsonLimits 100 4 8 2 8 in
  parse_document limits (json_escape "abcdef") = inr (JString "abcdef") /\
  parse_document limits (json_escape (String newline "abcdef")) = inr (JString (String newline "abcdef")) /\
  parse_document limits (json_escape ("abcdef" ++ String newline "")) = inl RejectedOversizedInput.
Proof. by vm_compute. Qed.
