(* ===== verification/Export.v ===== *)
(** * Canonical documents: the writers (src/export.cpp)

    The JSON of every exported type, field by field in the order of the [set]
    calls, and [export_registry], [render_requirement_document] and
    [render_policy_document]. *)

From Stdlib Require Import ZArith Lia Ascii String.
From stdpp Require Import base tactics list strings.
From S2P Require Import Prelude OrdMap Checked Reason Text Units SemVer Hash Catalog Evidence State.
From S2P Require Import Codec CodecTypes Registry RegistryOps Persist Protocol Json.

#[local] Open Scope string_scope.
#[local] Open Scope Z_scope.
#[local] Open Scope list_scope.

Definition kFormatName : string := "ocreg.canonical-state".
Definition kExportFormatVersion : Z := 1.

(** [JsonValue::object()] followed by one [set] per entry; an optional field is
    set only when it has a value. *)
Definition obj (fields : list (string * JsonValue)) : JsonValue :=
  fold_left (fun o e => json_set (fst e) (snd e) o) fields (JObject []).
Definition opt_field {A} (key : string) (f : A -> JsonValue) (o : option A) : list (string * JsonValue) :=
  match o with Some x => [(key, f x)] | None => [] end.
(** [JsonValue::array()] followed by one [push] per element. *)
Definition arr {A} (f : A -> JsonValue) (l : list A) : JsonValue := JArray (map f l).

(** [JsonValue::integer(static_cast<std::int64_t>(v))] of an unsigned value. *)
Definition jint (v : Z) : JsonValue := JInteger (signed64 v).

(** ** [json_of] *)

Definition json_of_semver (v : SemVer) : JsonValue := JString (semver_str v).
Definition json_of_unit (u : Unit) : JsonValue := JString (unit_to_string u).
Definition json_of_features (s : FeatureSet) : JsonValue := arr (fun c => JString (feature_to_string c)) s.

Definition json_of_limit (e : LimitValue) : JsonValue :=
  obj [("code", JString (limit_to_string (lv_code e))); ("unit", json_of_unit (lv_unit e));
       ("value", JInteger (lv_value e))].
Definition json_of_limits (s : LimitSet) : JsonValue := arr json_of_limit s.

Definition json_of_device (d : DeviceIdentity) : JsonValue :=
  obj ([("provider", JString (di_provider d)); ("model", JString (di_model d));
        ("unit_index", JInteger (di_unit_index d))] ++ opt_field "serial" JString (di_serial d)).

Definition json_of_device_ref (d : DeviceIncarnationRef) : JsonValue :=
  obj [("device", json_of_device (dr_device d)); ("incarnation", jint (dr_incarnation d))].

Definition json_of_source_incarnation (s : SourceIncarnation) : JsonValue :=
  obj [("source", JString (si_source s)); ("counter", jint (si_counter s))].

Definition json_of_source_policy (s : SourcePolicy) : JsonValue :=
  obj [("id", JString (sp_id s)); ("kind", JString (source_kind_to_string (sp_kind s)));
       ("authority", JString (authority_rank_to_string (sp_authority s)));
       ("trust", JString (source_trust_state_to_string (sp_trust s))); ("max_age", jint (sp_max_age s));
       ("durable_across_boot", JBool (sp_durable_across_boot s))].

Definition json_of_registry_limits (l : RegistryLimits) : JsonValue :=
  obj [("max_conflict_groups", jint (max_conflict_groups l)); ("max_decisions", jint (max_decisions l));
       ("max_devices", jint (max_devices l)); ("max_eviction_ledger", jint (max_eviction_ledger l));
       ("max_features_per_record", jint (max_features_per_record l));
       ("max_incarnations_per_device", jint (max_incarnations_per_device l));
       ("max_limits_per_record", jint (max_limits_per_record l));
       ("max_limits_per_requirement", jint (max_limits_per_requirement l));
       ("max_records", jint (max_records l)); ("max_records_per_stream", jint (max_records_per_stream l));
       ("max_required_features", jint (max_required_features l));
       ("max_resolutions", jint (max_resolutions l)); ("max_sources", jint (max_sources l));
       ("max_streams", jint (max_streams l)); ("max_tombstones", jint (max_tombstones l))].

Definition json_of_policy (p : RegistryPolicy) : JsonValue :=
  obj [("sources", arr json_of_source_policy (rp_sources p));
       ("require_configured_source", JBool (rp_require_configured_source p));
       ("refuse_untrusted_sources", JBool (rp_refuse_untrusted_sources p));
       ("boot_policy", JString (boot_policy_to_string (rp_boot_policy p)));
       ("clock_mode", JString (clock_mode_to_string (rp_clock_mode p)));
       ("retention_horizon", jint (rp_retention_horizon p));
       ("max_future_skew", jint (rp_max_future_skew p)); ("default_max_age", jint (rp_default_max_age p));
       ("limits", json_of_registry_limits (rp_limits p));
       ("rule_generation", jint (rp_rule_generation p)); ("policy_name", JString (rp_policy_name p))].

Definition json_of_stored (s : StoredEvidence) : JsonValue :=
  let e := se_evidence s in
  obj ([("id", JString (digest_hex (evidence_id e))); ("device", json_of_device_ref (ek_device (ce_key e)));
        ("capability_kind", JString (capability_kind_to_string (ek_kind (ce_key e))));
        ("source", json_of_source_incarnation (ce_source_incarnation e));
        ("capability_version", json_of_semver (ce_capability_version e));
        ("features", json_of_features (ce_features e)); ("limits", json_of_limits (ce_limits e))] ++
       opt_field "firmware_version" json_of_semver (ce_firmware_version e) ++
       [("firmware_generation", jint (ce_firmware_generation e))] ++
       opt_field "runtime_version" json_of_semver (ce_runtime_version e) ++
       [("runtime_generation", jint (ce_runtime_generation e)); ("observed_at", jint (ce_observed_at e))] ++
       opt_field "valid_until" jint (ce_valid_until e) ++
       [("generation", jint (ce_generation e));
        ("authority", JString (authority_rank_to_string (ce_authority e)));
        ("epoch_at_ingest", jint (ce_epoch_at_ingest e)); ("boot_at_ingest", jint (ce_boot_at_ingest e));
        ("evidence_policy_revision", jint (ce_policy_revision e));
        ("lifecycle", JString (evidence_lifecycle_to_string (se_lifecycle s)));
        ("admission_reason", JString (reason_to_string (se_admission_reason s)));
        ("admitted_at", jint (se_admitted_at s))] ++
       opt_field "retired_at" jint (se_retired_at s) ++
       [("retirement_reason", JString (reason_to_string (se_retirement_reason s)))]).

Definition json_of_retirement (r : RetirementRecord) : JsonValue :=
  obj [("device", json_of_device_ref (ek_device (rr_key r)));
       ("capability_kind", JString (capability_kind_to_string (ek_kind (rr_key r))));
       ("source", JString (ek_source (rr_key r))); ("generation", jint (rr_generation r));
       ("retired_at", jint (rr_retired_at r)); ("reason", JString (reason_to_string (rr_reason r)));
       ("epoch", jint (rr_epoch r)); ("policy_revision", jint (rr_policy_revision r));
       ("authority", JString (authority_rank_to_string (rr_authority r)))].

Definition json_of_digest (d : Digest256) : JsonValue := JString (digest_hex d).

Definition json_of_conflict (g : ConflictGroup) : JsonValue :=
  obj [("id", json_of_digest (cg_id g)); ("device", json_of_device_ref (cg_device g));
       ("capability_kind", JString (capability_kind_to_string (cg_kind g)));
       ("authority", JString (authority_rank_to_string (cg_authority g)));
       ("members", arr json_of_digest (cg_members g)); ("generations", arr jint (cg_generations g));
       ("observed_first", jint (cg_observed_first g)); ("observed_last", jint (cg_observed_last g))].

Definition json_of_resolution (r : ConflictResolution) : JsonValue :=
  obj [("id", json_of_digest (cr_id r)); ("conflict", json_of_digest (cr_conflict r));
       ("chosen", json_of_digest (cr_chosen r));
       ("rejected_members", arr json_of_digest (cr_rejected_members r));
       ("resolver", JString (cr_resolver r)); ("resolved_at", jint (cr_resolved_at r));
       ("epoch", jint (cr_epoch r))].

Definition json_of_eviction (e : EvictionEntry) : JsonValue :=
  obj [("id", json_of_digest (ev_id e)); ("device", json_of_device_ref (ek_device (ev_key e)));
       ("capability_kind", JString (capability_kind_to_string (ek_kind (ev_key e))));
       ("source", JString (ek_source (ev_key e))); ("generation", jint (ev_generation e));
       ("state_at_eviction", JString (evidence_state_to_string (ev_state_at_eviction e)));
       ("reason", JString (reason_to_string (ev_reason e))); ("evicted_at", jint (ev_evicted_at e))].

Definition json_of_incarnation_entry (e : DeviceIncarnationEntry) : JsonValue :=
  obj [("device", json_of_device (ie_device e)); ("current", jint (ie_current e));
       ("history", arr jint (ie_history e))].

Definition json_of_counters (c : RegistryCounters) : JsonValue :=
  obj [("admissions_accepted", jint (c_admissions_accepted c));
       ("admissions_idempotent", jint (c_admissions_idempotent c));
       ("admissions_rejected", jint (c_admissions_rejected c));
       ("retirements_accepted", jint (c_retirements_accepted c));
       ("retirements_rejected", jint (c_retirements_rejected c));
       ("decisions_emitted", jint (c_decisions_emitted c)); ("decisions_evicted", jint (c_decisions_evicted c));
       ("conflicts_resolved", jint (c_conflicts_resolved c)); ("evictions_total", jint (c_evictions_total c));
       ("eviction_ledger_dropped", jint (c_eviction_ledger_dropped c));
       ("conflicts_dropped", jint (c_conflicts_dropped c));
       ("resolutions_dropped", jint (c_resolutions_dropped c));
       ("tombstones_dropped", jint (c_tombstones_dropped c))].

(** ** [export_registry] *)

Record ExportResult := mkExportResult {
  er_document : string;
  er_digest : Digest256;
  er_records_written : Z;
  er_tombstones_written : Z;
  er_conflicts_written : Z;
  er_evictions_written : Z;
  er_truncated : bool;
  er_notes : list ReasonCode }.

(** The record is left out of the requested view. *)
Definition export_skips (o : ExportOptions) (r : StoredEvidence) : bool :=
  (negb (eo_include_rejected o) && bool_decide (se_lifecycle r = LcRejected)) ||
  (negb (bool_decide (se_lifecycle r = LcRejected)) &&
   negb (eo_include_history o) && negb (bool_decide (se_lifecycle r = LcAdmitted))).

(** The records written, and whether the bound cut them short. *)
Fixpoint export_records (o : ExportOptions) (written : Z) (records : list StoredEvidence)
  : list StoredEvidence * bool :=
  match records with
  | [] => ([], false)
  | r :: records' =>
      if export_skips o r then export_records o written records'
      else if written >=? eo_max_records o then ([], true)
      else let '(l, truncated) := export_records o (written + 1) records' in (r :: l, truncated)
  end.

Definition export_document (s : RegistryState) (o : ExportOptions) (now : Tick) : JsonValue :=
  let '(records, truncated) := export_records o 0 (s_records s) in
  obj ([("format", JString kFormatName); ("format_version", jint kExportFormatVersion);
        ("api_generation", jint kApiGeneration); ("catalog_fingerprint", jint catalog_fingerprint);
        ("reason_table_fingerprint", jint reason_table_fingerprint); ("registry_epoch", jint (s_epoch s));
        ("rule_generation", jint (s_rule_generation s)); ("policy_revision", jint (s_policy_revision s));
        ("boot_epoch", jint (s_boot_epoch s)); ("store_generation", jint (s_store_generation s));
        ("logical_tick", jint (s_logical_tick s)); ("exported_at", jint now);
        ("next_incarnation", jint (s_next_incarnation s))] ++
       (if eo_include_policy o then [("policy", json_of_policy (s_policy s))] else []) ++
       [("devices", arr json_of_incarnation_entry (s_incarnations s));
        ("evidence", arr json_of_stored records); ("tombstones", arr json_of_retirement (s_tombstones s));
        ("conflicts", arr json_of_conflict (s_conflicts s));
        ("resolutions", arr json_of_resolution (s_resolutions s));
        ("evictions", arr json_of_eviction (if eo_include_evictions o then s_evictions s else []));
        ("counters", json_of_counters (s_counters s));
        ("state_digest", json_of_digest (state_digest s)); ("truncated", JBool truncated);
        ("notes", arr (fun r => JString (reason_to_string r)) (if truncated then [ExportTruncated] else []))]).

Definition export_registry (x : Impl) (o : ExportOptions) (now : Tick) : Outcome ExportResult :=
  let s := to_state x in
  let '(records, truncated) := export_records o 0 (s_records s) in
  let document := dump (eo_pretty o) (export_document s o now) in
  if Z.of_nat (String.length document) >? eo_max_bytes o
  then outcome_failure RejectedOversizedInput "canonical export exceeds the byte bound"
  else outcome_value
    (mkExportResult document (state_digest s) (Z.of_nat (length records))
       (Z.of_nat (length (s_tombstones s))) (Z.of_nat (length (s_conflicts s)))
       (if eo_include_evictions o then Z.of_nat (length (s_evictions s)) else 0) truncated
       (canonical_reasons ((if truncated then [ExportTruncated] else []) ++ [ExportComplete]))).

(** ** The other documents *)

Definition json_of_limit_requirement (l : LimitRequirement) : JsonValue :=
  obj [("code", JString (limit_to_string (lr_code l))); ("unit", json_of_unit (lr_unit l));
       ("value", JInteger (lr_minimum l))].

Definition json_of_requirement (r : CapabilityRequirement) : JsonValue :=
  obj ([("device", json_of_device_ref (rq_device r));
        ("capability_kind", JString (capability_kind_to_string (rq_capability r)));
        ("version", obj ([("minimum", json_of_semver (vr_minimum (rq_version r)))] ++
                         opt_field "maximum_exclusive" json_of_semver (vr_maximum_exclusive (rq_version r))));
        ("required_features", json_of_features (rq_required_features r));
        ("required_limits", arr json_of_limit_requirement (rq_required_limits r))] ++
       opt_field "minimum_firmware_version" json_of_semver (rq_minimum_firmware_version r) ++
       opt_field "minimum_firmware_generation" jint (rq_minimum_firmware_generation r) ++
       opt_field "minimum_runtime_version" json_of_semver (rq_minimum_runtime_version r) ++
       opt_field "minimum_runtime_generation" jint (rq_minimum_runtime_generation r) ++
       [("max_evidence_age", jint (rq_max_evidence_age r))]).

Definition render_requirement_document (r : CapabilityRequirement) (pretty : bool) : string :=
  dump pretty (obj [("format", JString "ocreg.requirement"); ("format_version", jint kExportFormatVersion);
                    ("requirement", json_of_requirement r)]).

Definition render_policy_document (p : RegistryPolicy) (pretty : bool) : string :=
  dump pretty (obj [("format", JString "ocreg.policy"); ("format_version", jint kExportFormatVersion);
                    ("policy", json_of_policy p)]).
