(* ===== verification/Import.v ===== *)
(** * Canonical documents: the readers (src/export.cpp)

    The field readers, the reader of every exported type, and
    [import_document], [parse_policy_document] and
    [parse_requirement_document]. A reader returns the value or the reason it
    leaves in its output argument. *)

From Stdlib Require Import ZArith Lia Ascii String.
From stdpp Require Import base tactics list strings.
From S2P Require Import Prelude OrdMap Checked Reason Text Units Name SemVer Hash Catalog Evidence State.
From S2P Require Import Codec CodecTypes Registry RegistryOps Persist Protocol Json Export.

#[local] Open Scope string_scope.
#[local] Open Scope Z_scope.
#[local] Open Scope list_scope.

(** ** Fields *)

Definition value_missing (object : JsonValue) (key : string) : bool :=
  match json_find key object with None => true | Some _ => false end.

(** A member read with [read], which must be present. *)
Definition required {A} (read : JsonValue -> ReasonCode + A) (object : JsonValue) (key : string)
  : ReasonCode + A :=
  match json_find key object with None => inl RejectedMissingField | Some v => read v end.
Definition optional {A} (read : JsonValue -> ReasonCode + A) (object : JsonValue) (key : string)
  : ReasonCode + option A :=
  match json_find key object with
  | None => inr None
  | Some v => let+ x := read v in inr (Some x)
  end.

Definition as_string (v : JsonValue) : ReasonCode + string :=
  match v with JString s => inr s | _ => inl RejectedMalformedDocument end.
Definition as_integer (v : JsonValue) : ReasonCode + Z :=
  match v with JInteger n => inr n | _ => inl RejectedMalformedDocument end.
Definition as_bool (v : JsonValue) : ReasonCode + bool :=
  match v with JBool b => inr b | _ => inl RejectedMalformedDocument end.

Definition read_string := required as_string.
Definition read_integer := required as_integer.
Definition read_bool := required as_bool.

(** [read_integer] followed by the refusal of values below the bound. *)
Definition read_at_least (low : Z) (reason : ReasonCode) (object : JsonValue) (key : string) : ReasonCode + Z :=
  let+ raw := read_integer object key in if raw <? low then inl reason else inr raw.
Definition read_u64 := read_at_least 0 RejectedMalformedDocument.
(** The optional time fields. *)
Definition read_tick_opt (object : JsonValue) (key : string) : ReasonCode + option Tick :=
  optional (fun v => let+ raw := as_integer v in if raw <? 0 then inl RejectedMalformedDocument else inr raw)
    object key.

(** A text parsed with [parse]. *)
Definition read_text {A} (parse : string -> option A) (reason : ReasonCode) (object : JsonValue) (key : string)
  : ReasonCode + A :=
  let+ text := read_string object key in
  match parse text with None => inl reason | Some x => inr x end.
Definition read_name := read_text name_parse RejectedMalformedName.
Definition read_digest := read_text digest_parse RejectedMalformedDocument.
Definition read_semver := read_text semver_parse RejectedMalformedVersion.
Definition read_unit := read_text parse_unit RejectedLimitUnitInvalid.
Definition read_enum {A} (object : JsonValue) (key : string) (parse : string -> option A) : ReasonCode + A :=
  read_text parse RejectedMalformedDocument object key.
(** [find] then [read_semver], when present. *)
Definition read_semver_opt (object : JsonValue) (key : string) : ReasonCode + option SemVer :=
  if value_missing object key then inr None
  else let+ v := read_semver object key in inr (Some v).

Definition is_object (v : JsonValue) : bool := match v with JObject _ => true | _ => false end.
(** The check at the head of each reader of an object. *)
Definition expect_object (v : JsonValue) : ReasonCode + unit :=
  if is_object v then inr tt else inl RejectedMalformedDocument.
(** The reader's loop over an array. *)
Fixpoint read_all {A E} (read : JsonValue -> E + A) (l : list JsonValue) : E + list A :=
  match l with
  | [] => inr []
  | v :: l' => let+ x := read v in let+ xs := read_all read l' in inr (x :: xs)
  end.

(** ** Readers of the exported types *)

Definition read_serial (value : JsonValue) : ReasonCode + option string :=
  optional (fun v => let+ text := as_string v in
                     match name_parse text with None => inl RejectedMalformedName | Some n => inr n end)
    value "serial".

Definition read_device (value : JsonValue) : ReasonCode + DeviceIdentity :=
  let+ _ := expect_object value in
  let+ provider := read_name value "provider" in
  let+ model := read_name value "model" in
  let+ unit_index := read_integer value "unit_index" in
  if (unit_index <? 0) || (unit_index >? kMaxDeviceUnitIndex) then inl RejectedMalformedDocument
  else
  let+ serial := read_serial value in
  inr (mkDeviceIdentity provider model unit_index serial).

Definition read_device_ref (value : JsonValue) : ReasonCode + DeviceIncarnationRef :=
  let+ _ := expect_object value in
  let+ device := required read_device value "device" in
  let+ incarnation := read_at_least 1 RejectedZeroIncarnation value "incarnation" in
  inr (mkDeviceRef device incarnation).

Definition read_source_incarnation (value : JsonValue) : ReasonCode + SourceIncarnation :=
  let+ _ := expect_object value in
  let+ source := read_name value "source" in
  let+ counter := read_u64 value "counter" in
  inr (mkSourceIncarnation source counter).

Definition read_feature (item : JsonValue) : ReasonCode + FeatureCode :=
  match item with
  | JString s => match parse_feature_code s with None => inl RejectedUnknownFeatureCode | Some c => inr c end
  | _ => inl RejectedMalformedFeature
  end.
Definition read_features (kind : CapabilityKind) (value : JsonValue) : ReasonCode + FeatureSet :=
  match value with
  | JArray l =>
      if Z.of_nat (length l) >? kMaxFeaturesPerRecord then inl RejectedFeatureBudgetExceeded
      else let+ codes := read_all read_feature l in feature_set_make codes kind
  | _ => inl RejectedMalformedDocument
  end.

Definition read_limit (item : JsonValue) : ReasonCode + LimitValue :=
  if negb (is_object item) then inl RejectedMalformedLimit
  else
  let+ code := read_text parse_limit_code RejectedUnknownLimitCode item "code" in
  let+ unit := read_unit item "unit" in
  let+ raw := read_at_least 0 RejectedNegativeLimit item "value" in
  inr (mkLimitValue code unit raw).
Definition read_limits (kind : CapabilityKind) (value : JsonValue) : ReasonCode + LimitSet :=
  match value with
  | JArray l =>
      if Z.of_nat (length l) >? kMaxLimitsPerRecord then inl RejectedLimitBudgetExceeded
      else let+ values := read_all read_limit l in limit_set_make values kind
  | _ => inl RejectedMalformedDocument
  end.

Definition read_stored_evidence (value : JsonValue) : ReasonCode + StoredEvidence :=
  let+ _ := expect_object value in
  let+ device := required read_device_ref value "device" in
  let+ kind := read_enum value "capability_kind" parse_capability_kind in
  let+ source := required read_source_incarnation value "source" in
  let+ version := read_semver value "capability_version" in
  let+ features := required (read_features kind) value "features" in
  let+ limits := required (read_limits kind) value "limits" in
  let+ firmware_version := read_semver_opt value "firmware_version" in
  let+ firmware_generation := read_u64 value "firmware_generation" in
  let+ runtime_version := read_semver_opt value "runtime_version" in
  let+ runtime_generation := read_u64 value "runtime_generation" in
  let+ observed_at := read_u64 value "observed_at" in
  let+ valid_until := read_tick_opt value "valid_until" in
  let+ generation := read_at_least 1 RejectedGenerationRegression value "generation" in
  let+ authority := read_enum value "authority" parse_authority_rank in
  let+ epoch := read_u64 value "epoch_at_ingest" in
  let+ boot := read_u64 value "boot_at_ingest" in
  let+ revision := read_u64 value "evidence_policy_revision" in
  let+ lifecycle := read_enum value "lifecycle" parse_evidence_lifecycle in
  let+ admission_reason := read_enum value "admission_reason" parse_reason_code in
  let+ admitted_at := read_u64 value "admitted_at" in
  let+ retired_at := read_tick_opt value "retired_at" in
  let+ retirement_reason := read_enum value "retirement_reason" parse_reason_code in
  if bool_decide (lifecycle = LcRetired) && match retired_at with None => true | Some _ => false end then inl RejectedMissingField
  else
  let+ declared := read_digest value "id" in
  let evidence := refresh_id
    (mkEvidence (mkEvidenceKey device kind (si_source source)) source version features limits firmware_version
       firmware_generation runtime_version runtime_generation observed_at valid_until generation authority
       epoch boot revision digest_zero) in
  if negb (bool_decide (declared = compute_digest evidence)) then inl StorePayloadCorrupt
  else inr (mkStored evidence lifecycle admission_reason admitted_at retired_at retirement_reason).

Definition read_tombstone (value : JsonValue) : ReasonCode + RetirementRecord :=
  let+ _ := expect_object value in
  let+ device := required read_device_ref value "device" in
  let+ kind := read_enum value "capability_kind" parse_capability_kind in
  let+ source := read_name value "source" in
  let+ generation := read_at_least 1 RejectedGenerationRegression value "generation" in
  let+ retired_at := read_u64 value "retired_at" in
  let+ reason := read_enum value "reason" parse_reason_code in
  let+ epoch := read_u64 value "epoch" in
  let+ revision := read_u64 value "policy_revision" in
  let+ authority := read_enum value "authority" parse_authority_rank in
  inr (mkRetirement (mkEvidenceKey device kind source) generation retired_at reason epoch revision authority).

(** The elements of an array of identifiers, and of an array of positive numbers. *)
Definition read_id (item : JsonValue) : ReasonCode + Digest256 :=
  match item with
  | JString s => match digest_parse s with None => inl RejectedMalformedDocument | Some d => inr d end
  | _ => inl RejectedMalformedDocument
  end.
Definition read_positive (reason : ReasonCode) (item : JsonValue) : ReasonCode + Z :=
  match item with
  | JInteger n => if n <=? 0 then inl reason else inr n
  | _ => inl reason
  end.
(** A member that is an array; anything else counts as missing. *)
Definition read_array (object : JsonValue) (key : string) (reason : ReasonCode) : ReasonCode + list JsonValue :=
  match json_find key object with Some (JArray l) => inr l | _ => inl reason end.

(** [std::is_sorted]. *)
Fixpoint is_sorted_by {A K} `{Cmp K} (key : A -> K) (l : list A) : bool :=
  match l with
  | x :: ((y :: _) as l') => negb (clt (key y) (key x)) && is_sorted_by key l'
  | _ => true
  end.

Definition read_conflict (value : JsonValue) : ReasonCode + ConflictGroup :=
  let+ _ := expect_object value in
  let+ id := read_digest value "id" in
  let+ device := required read_device_ref value "device" in
  let+ kind := read_enum value "capability_kind" parse_capability_kind in
  let+ authority := read_enum value "authority" parse_authority_rank in
  let+ items := read_array value "members" RejectedMissingField in
  let+ members := read_all read_id items in
  let+ items := read_array value "generations" RejectedMalformedDocument in
  if negb (length items =? length members)%nat then inl RejectedMalformedDocument
  else
  let+ generations := read_all (read_positive RejectedMalformedDocument) items in
  if negb (is_sorted_by (fun x => x) members) then inl RejectedMalformedDocument
  else
  let+ first := read_integer value "observed_first" in
  let+ last := read_integer value "observed_last" in
  if (first <? 0) || (last <? first) then inl RejectedMalformedDocument
  else inr (mkConflictGroup id device kind authority members generations first last).

Definition read_resolution (value : JsonValue) : ReasonCode + ConflictResolution :=
  let+ _ := expect_object value in
  let+ id := read_digest value "id" in
  let+ conflict := read_digest value "conflict" in
  let+ chosen := read_digest value "chosen" in
  let+ items := read_array value "rejected_members" RejectedMissingField in
  let+ rejected := read_all read_id items in
  let+ resolver := read_name value "resolver" in
  let+ resolved_at := read_u64 value "resolved_at" in
  let+ epoch := read_u64 value "epoch" in
  inr (mkResolution id conflict chosen rejected resolver resolved_at epoch).

Definition read_eviction (value : JsonValue) : ReasonCode + EvictionEntry :=
  let+ _ := expect_object value in
  let+ id := read_digest value "id" in
  let+ device := required read_device_ref value "device" in
  let+ kind := read_enum value "capability_kind" parse_capability_kind in
  let+ source := read_name value "source" in
  let+ generation := read_at_least 1 RejectedGenerationRegression value "generation" in
  let+ state := read_enum value "state_at_eviction" parse_evidence_state in
  let+ reason := read_enum value "reason" parse_reason_code in
  let+ evicted_at := read_u64 value "evicted_at" in
  inr (mkEviction id (mkEvidenceKey device kind source) generation state reason evicted_at).

Definition read_incarnation_entry (value : JsonValue) : ReasonCode + DeviceIncarnationEntry :=
  let+ _ := expect_object value in
  let+ device := required read_device value "device" in
  let+ current := read_at_least 1 RejectedZeroIncarnation value "current" in
  let+ items := read_array value "history" RejectedMissingField in
  if (length items =? 0)%nat then inl RejectedMissingField
  else
  let+ history := read_all (read_positive RejectedZeroIncarnation) items in
  if negb (is_sorted_by (fun x => x) history) then inl RejectedMalformedDocument
  else if negb (bool_decide (current ∈ history)) then inl RejectedMalformedDocument
  else inr (mkIncarnationEntry device current history).

Definition read_source_policy (value : JsonValue) : ReasonCode + SourcePolicy :=
  let+ _ := expect_object value in
  let+ id := read_name value "id" in
  let+ kind := read_enum value "kind" parse_source_kind in
  let+ authority := read_enum value "authority" parse_authority_rank in
  let+ trust := read_enum value "trust" parse_source_trust_state in
  let+ max_age := read_u64 value "max_age" in
  let+ durable := read_bool value "durable_across_boot" in
  inr (mkSourcePolicy id kind authority trust max_age durable).

Definition read_counters (value : JsonValue) : ReasonCode + RegistryCounters :=
  let+ _ := expect_object value in
  let+ x0 := read_u64 value "admissions_accepted" in
  let+ x1 := read_u64 value "admissions_idempotent" in
  let+ x2 := read_u64 value "admissions_rejected" in
  let+ x3 := read_u64 value "retirements_accepted" in
  let+ x4 := read_u64 value "retirements_rejected" in
  let+ x5 := read_u64 value "decisions_emitted" in
  let+ x6 := read_u64 value "decisions_evicted" in
  let+ x7 := read_u64 value "conflicts_resolved" in
  let+ x8 := read_u64 value "evictions_total" in
  let+ x9 := read_u64 value "eviction_ledger_dropped" in
  let+ x10 := read_u64 value "conflicts_dropped" in
  let+ x11 := read_u64 value "resolutions_dropped" in
  let+ x12 := read_u64 value "tombstones_dropped" in
  inr (mkCounters x0 x1 x2 x3 x4 x5 x6 x7 x8 x9 x10 x11 x12).

(** ** [import_document] *)

(** A refusal: the reason and the detail. *)
Notation Refusal := (ReasonCode * string)%type (only parsing).
Definition refuse {A} (reason : ReasonCode) (detail : string) : Refusal + A := inl (reason, detail).
(** [if (!read(...)) return failure(reason, detail)]. *)
Definition with_detail {A} (detail : string) (r : ReasonCode + A) : Refusal + A :=
  match r with inl reason => inl (reason, detail) | inr x => inr x end.
Definition outcome_of {A} (r : Refusal + A) : Outcome A :=
  match r with inl (reason, detail) => outcome_failure reason detail | inr x => outcome_value x end.

(** [static_cast<std::uint32_t>] of a signed 64-bit value. *)
Definition cast_u32 (v : Z) : Z := v mod 2 ^ 32.

Definition import_header (root : JsonValue) : Refusal + unit :=
  let+ format := with_detail "missing format" (read_string root "format") in
  if negb (String.eqb format kFormatName)
  then refuse StoreSemanticMismatch "document format is not ocreg.canonical-state"
  else
  let+ version := with_detail "missing format_version" (read_integer root "format_version") in
  if negb (version =? kExportFormatVersion)
  then refuse StoreVersionIncompatible "document format version is not supported"
  else
  let+ api := with_detail "missing api_generation" (read_integer root "api_generation") in
  if negb (api =? kApiGeneration)
  then refuse StoreVersionIncompatible "document API generation is not supported"
  else
  let+ catalog := with_detail "missing catalog_fingerprint" (read_integer root "catalog_fingerprint") in
  if negb (cast_u32 catalog =? catalog_fingerprint)
  then refuse StoreSemanticMismatch "capability catalog generation differs"
  else
  let+ reasons := with_detail "missing reason_table_fingerprint" (read_integer root "reason_table_fingerprint") in
  if negb (cast_u32 reasons =? reason_table_fingerprint)
  then refuse StoreSemanticMismatch "reason table generation differs"
  else
  let+ truncated := with_detail "missing truncated flag" (read_bool root "truncated") in
  if truncated : bool then refuse ExportTruncated "a truncated export is not a complete state" else inr tt.

(** The scalar fields of the state, in the order of the checks: epoch, rule
    generation, policy revision, boot epoch, store generation, tick, next incarnation. *)
Definition import_scalars (root : JsonValue) : Refusal + (Z * Z * Z * Z * Z * Z * Z) :=
  let+ epoch := with_detail "missing registry_epoch" (read_integer root "registry_epoch") in
  let+ rule := with_detail "missing rule_generation" (read_integer root "rule_generation") in
  let+ revision := with_detail "missing policy_revision" (read_integer root "policy_revision") in
  let+ boot := with_detail "missing boot_epoch" (read_integer root "boot_epoch") in
  let+ store := with_detail "missing store_generation" (read_integer root "store_generation") in
  let+ tick := with_detail "missing logical_tick" (read_integer root "logical_tick") in
  let+ next := with_detail "missing next_incarnation" (read_integer root "next_incarnation") in
  if (epoch <? 0) || (rule <=? 0) || (revision <? 0) || (boot <? 0) || (store <? 0) || (tick <? 0) || (next <=? 0)
  then refuse RejectedEpochOutOfRange "document contains an impossible generation"
  else inr (epoch, rule, revision, boot, store, tick, next).

(** [std::adjacent_find] on equal identifiers. *)
Fixpoint has_adjacent_equal (l : list SourcePolicy) : bool :=
  match l with
  | a :: ((b :: _) as l') => String.eqb (sp_id a) (sp_id b) || has_adjacent_equal l'
  | _ => false
  end.

(** Read, sort, and refuse duplicates. *)
Definition policy_sources (items : list JsonValue) : Refusal + list SourcePolicy :=
  let+ sources := with_detail "source policy rejected" (read_all read_source_policy items) in
  let sources := sort_by sp_id sources in
  if negb (is_sorted_by sp_id sources) || has_adjacent_equal sources
  then refuse RejectedDuplicateKey "policy sources are not unique" else inr sources.

(** The flags, modes, durations and name of a policy, in the order of the checks. *)
Definition policy_fields (policy : JsonValue)
  : Refusal + (bool * bool * BootPolicy * ClockMode * Tick * Tick * Tick * string) :=
  let field {A} (r : ReasonCode + A) := with_detail "policy field rejected" r in
  let+ require := field (read_bool policy "require_configured_source") in
  let+ refuse_untrusted := field (read_bool policy "refuse_untrusted_sources") in
  let+ boot := field (read_enum policy "boot_policy" parse_boot_policy) in
  let+ clock := field (read_enum policy "clock_mode" parse_clock_mode) in
  let+ horizon := field (read_integer policy "retention_horizon") in
  let+ skew := field (read_integer policy "max_future_skew") in
  let+ age := field (read_integer policy "default_max_age") in
  if (horizon <? 0) || (skew <? 0) || (age <? 0)
  then refuse RejectedMalformedDocument "negative policy duration"
  else
  let+ name := field (read_string policy "policy_name") in
  inr (require, refuse_untrusted, boot, clock, horizon, skew, age, name).

(** One bound of the limits table. *)
Definition limit_field (limits : JsonValue) (key : string) : Refusal + Z :=
  let+ raw := with_detail "limits field rejected" (read_integer limits key) in
  if raw <? 0 then refuse RejectedOversizedInput "negative limit bound" else inr raw.

Definition import_limits (limits : JsonValue) : Refusal + RegistryLimits :=
  let+ x0 := limit_field limits "max_devices" in
  let+ x1 := limit_field limits "max_incarnations_per_device" in
  let+ x2 := limit_field limits "max_streams" in
  let+ x3 := limit_field limits "max_records" in
  let+ x4 := limit_field limits "max_records_per_stream" in
  let+ x5 := limit_field limits "max_tombstones" in
  let+ x6 := limit_field limits "max_conflict_groups" in
  let+ x7 := limit_field limits "max_resolutions" in
  let+ x8 := limit_field limits "max_eviction_ledger" in
  let+ x9 := limit_field limits "max_sources" in
  let+ x10 := limit_field limits "max_decisions" in
  let+ x11 := limit_field limits "max_features_per_record" in
  let+ x12 := limit_field limits "max_limits_per_record" in
  let+ x13 := limit_field limits "max_limits_per_requirement" in
  let+ x14 := limit_field limits "max_required_features" in
  inr (mkLimits x0 x1 x2 x3 x4 x5 x6 x7 x8 x9 x10 x11 x12 x13 x14).

Definition import_policy (root : JsonValue) : Refusal + RegistryPolicy :=
  match json_find "policy" root with
  | Some ((JObject _) as policy) =>
      let+ items := with_detail "missing policy sources" (read_array policy "sources" RejectedMissingField) in
      let+ sources := policy_sources items in
      let+ (require, refuse_untrusted, boot, clock, horizon, skew, age, name) := policy_fields policy in
      match json_find "limits" policy with
      | Some ((JObject _) as limits) =>
          let+ limits := import_limits limits in
          let+ rule := with_detail "policy field rejected" (read_integer policy "rule_generation") in
          if rule <=? 0
          then refuse RejectedRuleGenerationOutOfRange "policy rule generation must be non-zero"
          else inr (mkPolicy sources require refuse_untrusted boot clock horizon skew age limits rule name)
      | _ => refuse RejectedMissingField "missing limits"
      end
  | _ => refuse RejectedMissingField "missing policy object"
  end.

(** A collection of the document: an array whose every element is read. *)
Definition import_collection {A} (root : JsonValue) (key missing rejected : string)
    (read : JsonValue -> ReasonCode + A) : Refusal + list A :=
  let+ items := with_detail missing (read_array root key RejectedMissingField) in
  with_detail rejected (read_all read items).

Definition import_records (root : JsonValue) (limits : RegistryLimits) : Refusal + list StoredEvidence :=
  let+ items := with_detail "missing evidence" (read_array root "evidence" RejectedMissingField) in
  if Z.of_nat (length items) >? max_records limits
  then refuse RejectedRecordBudgetExhausted "document exceeds the record bound"
  else with_detail "evidence record rejected" (read_all read_stored_evidence items).

(** The first entry of the record's device lists its incarnation. *)
Definition incarnation_listed (incarnations : list DeviceIncarnationEntry) (d : DeviceIncarnationRef) : bool :=
  match find (fun e => bool_decide (ie_device e = dr_device d)) incarnations with
  | Some e => bool_decide (dr_incarnation d ∈ ie_history e)
  | None => false
  end.

Record ImportResult := mkImportResult {
  im_state : RegistryState;
  im_reason : ReasonCode;
  im_records_read : Z;
  im_tombstones_read : Z;
  im_conflicts_read : Z;
  im_evictions_read : Z }.

Definition import_state (root : JsonValue) : Refusal + RegistryState :=
  let+ _ := import_header root in
  let+ (epoch, rule, revision, boot, store, tick, next) := import_scalars root in
  let+ policy := import_policy root in
  let+ records := import_records root (rp_limits policy) in
  let+ tombstones := import_collection root "tombstones" "missing tombstones" "tombstone rejected" read_tombstone in
  let+ conflicts := import_collection root "conflicts" "missing conflicts" "conflict group rejected" read_conflict in
  let+ resolutions := import_collection root "resolutions" "missing resolutions" "conflict resolution rejected"
                        read_resolution in
  let+ evictions := import_collection root "evictions" "missing evictions" "eviction entry rejected" read_eviction in
  let+ devices := import_collection root "devices" "missing devices" "device entry rejected"
                    read_incarnation_entry in
  let devices := sort_by ie_device devices in
  match json_find "counters" root with
  | None => refuse RejectedMissingField "missing counters"
  | Some counters =>
      let+ counters := with_detail "counters rejected" (read_counters counters) in
      if negb (forallb (fun r => incarnation_listed devices (ek_device (ce_key (se_evidence r)))) records)
      then refuse RejectedDeviceIncarnationFenced
             "evidence references a device incarnation the document does not register"
      else
      let+ declared := with_detail "missing state_digest" (read_digest root "state_digest") in
      let s := mkState policy epoch rule revision boot store tick next devices records tombstones conflicts
                 resolutions evictions counters in
      if negb (bool_decide (declared = state_digest s))
      then refuse StorePayloadCorrupt "declared state digest does not match the reconstructed state"
      else inr s
  end.

Definition import_document (document : string) : Outcome ImportResult :=
  match parse_document default_json_limits document with
  | inl reason => outcome_failure reason "canonical JSON rejected"
  | inr root =>
      if negb (is_object root)
      then outcome_failure RejectedMalformedDocument "document root must be an object"
      else outcome_of
        (let+ s := import_state root in
         inr (mkImportResult s Ok_ (Z.of_nat (length (s_records s))) (Z.of_nat (length (s_tombstones s)))
                (Z.of_nat (length (s_conflicts s))) (Z.of_nat (length (s_evictions s)))))
  end.

(** ** [parse_policy_document] *)

(** A bound that keeps its default when absent. *)
Definition limit_field_or (limits : JsonValue) (key : string) (default : Z) : Refusal + Z :=
  let+ raw := with_detail "limits field rejected" (optional as_integer limits key) in
  match raw with
  | None => inr default
  | Some raw => if raw <? 0 then refuse RejectedOversizedInput "negative limit bound" else inr raw
  end.

Definition policy_limits (limits : JsonValue) : Refusal + RegistryLimits :=
  let d := default_limits in
  let+ x0 := limit_field_or limits "max_devices" (max_devices d) in
  let+ x1 := limit_field_or limits "max_incarnations_per_device" (max_incarnations_per_device d) in
  let+ x2 := limit_field_or limits "max_streams" (max_streams d) in
  let+ x3 := limit_field_or limits "max_records" (max_records d) in
  let+ x4 := limit_field_or limits "max_records_per_stream" (max_records_per_stream d) in
  let+ x5 := limit_field_or limits "max_tombstones" (max_tombstones d) in
  let+ x6 := limit_field_or limits "max_conflict_groups" (max_conflict_groups d) in
  let+ x7 := limit_field_or limits "max_resolutions" (max_resolutions d) in
  let+ x8 := limit_field_or limits "max_eviction_ledger" (max_eviction_ledger d) in
  let+ x9 := limit_field_or limits "max_sources" (max_sources d) in
  let+ x10 := limit_field_or limits "max_decisions" (max_decisions d) in
  let+ x11 := limit_field_or limits "max_features_per_record" (max_features_per_record d) in
  let+ x12 := limit_field_or limits "max_limits_per_record" (max_limits_per_record d) in
  let+ x13 := limit_field_or limits "max_limits_per_requirement" (max_limits_per_requirement d) in
  let+ x14 := limit_field_or limits "max_required_features" (max_required_features d) in
  inr (mkLimits x0 x1 x2 x3 x4 x5 x6 x7 x8 x9 x10 x11 x12 x13 x14).

Definition policy_of (policy : JsonValue) : Refusal + RegistryPolicy :=
  let+ items := with_detail "policy sources are required" (read_array policy "sources" RejectedMissingField) in
  if 1024 <? Z.of_nat (length items) then refuse RejectedOversizedInput "too many policy sources"
  else
  let+ sources := policy_sources items in
  let+ (require, refuse_untrusted, boot, clock, horizon, skew, age, name) := policy_fields policy in
  let+ rule := with_detail "policy field rejected" (read_integer policy "rule_generation") in
  if rule <=? 0 then refuse RejectedRuleGenerationOutOfRange "rule generation must be non-zero"
  else
  let+ limits := match json_find "limits" policy with
                 | None => inr default_limits
                 | Some ((JObject _) as limits) => policy_limits limits
                 | Some _ => refuse RejectedMalformedDocument "limits must be an object"
                 end in
  inr (mkPolicy sources require refuse_untrusted boot clock horizon skew age limits rule name).

Definition parse_policy_document (document : string) : Outcome RegistryPolicy :=
  match parse_document default_json_limits document with
  | inl reason => outcome_failure reason "canonical JSON rejected"
  | inr root =>
      if negb (is_object root)
      then outcome_failure RejectedMalformedDocument "policy document root must be an object"
      else match json_find "policy" root with
           | None => outcome_of (policy_of root)
           | Some nested =>
               if negb (is_object nested)
               then outcome_failure RejectedMalformedDocument "policy member must be an object"
               else outcome_of (policy_of nested)
           end
  end.

(** ** [parse_requirement_document] *)

Definition read_limit_requirement (kind : CapabilityKind) (item : JsonValue) : Refusal + LimitRequirement :=
  if negb (is_object item) then refuse RejectedMalformedLimit "limit entry must be an object"
  else
  let+ code_text := with_detail "limit code rejected" (read_string item "code") in
  match parse_limit_code code_text with
  | None => refuse RejectedUnknownLimitCode code_text
  | Some code =>
      let+ unit := with_detail "limit unit rejected" (read_unit item "unit") in
      let+ raw := with_detail "limit value rejected" (read_integer item "value") in
      if raw <? 0 then refuse RejectedNegativeLimit "limit value must be non-negative"
      else match limit_info code with
           | None => refuse RejectedUnknownLimitCode code_text
           | Some info =>
               if negb (bool_decide (unit_code unit = li_unit info))
               then refuse RejectedLimitUnitInvalid code_text
               else if negb (unit_valid_for_limit code unit)
               then refuse RejectedLimitScaleNotPermitted code_text
               else if negb (limit_allowed_for code kind) then refuse RejectedLimitNotInKind code_text
               else inr (mkLimitRequirement code unit raw)
           end
  end.

Definition requirement_limits (kind : CapabilityKind) (node : JsonValue) : Refusal + list LimitRequirement :=
  match json_find "required_limits" node with
  | None => inr []
  | Some (JArray items) =>
      if 64 <? Z.of_nat (length items) then refuse RejectedLimitBudgetExceeded "too many required limits"
      else
      let+ limits := read_all (read_limit_requirement kind) items in
      let limits := sort_by lr_code limits in
      if negb (strictly_increasing lr_code limits)
      then refuse RejectedDuplicateKey "duplicate required limit" else inr limits
  | Some _ => refuse RejectedMalformedDocument "required_limits must be an array"
  end.

(** A version, or a non-negative number, that may be absent. *)
Definition version_opt (node : JsonValue) (key detail : string) : Refusal + option SemVer :=
  with_detail detail (read_semver_opt node key).
Definition number_opt (node : JsonValue) (key detail : string) : Refusal + option Z :=
  match json_find key node with
  | None => inr None
  | Some v =>
      match as_integer v with
      | inr raw => if raw <? 0 then refuse RejectedMalformedDocument detail else inr (Some raw)
      | inl _ => refuse RejectedMalformedDocument detail
      end
  end.

Definition requirement_of (node : JsonValue) : Refusal + CapabilityRequirement :=
  match json_find "device" node with
  | None => refuse RejectedMissingField "requirement device is required"
  | Some device =>
      let+ device := with_detail "requirement device rejected" (read_device_ref device) in
      let+ kind := with_detail "capability kind rejected" (read_enum node "capability_kind" parse_capability_kind) in
      match json_find "version" node with
      | Some ((JObject _) as version) =>
          let+ minimum := with_detail "minimum version rejected" (read_semver version "minimum") in
          let+ maximum := version_opt version "maximum_exclusive" "maximum version rejected" in
          let+ features := with_detail "required features rejected"
                             (match json_find "required_features" node with
                              | None => inr []
                              | Some v => read_features kind v
                              end) in
          let+ limits := requirement_limits kind node in
          let+ firmware := version_opt node "minimum_firmware_version" "firmware version rejected" in
          let+ firmware_generation := number_opt node "minimum_firmware_generation" "firmware generation rejected" in
          let+ runtime := version_opt node "minimum_runtime_version" "runtime version rejected" in
          let+ runtime_generation := number_opt node "minimum_runtime_generation" "runtime generation rejected" in
          let+ age := number_opt node "max_evidence_age" "max_evidence_age rejected" in
          inr (mkRequirement device kind (mkVersionRequirement minimum maximum) features limits firmware
                 firmware_generation runtime runtime_generation (match age with Some a => a | None => 0 end))
      | _ => refuse RejectedMissingField "requirement version is required"
      end
  end.

Definition parse_requirement_document (document : string) : Outcome CapabilityRequirement :=
  match parse_document default_json_limits document with
  | inl reason => outcome_failure reason "canonical JSON rejected"
  | inr root =>
      if negb (is_object root)
      then outcome_failure RejectedMalformedDocument "requirement root must be an object"
      else
        let node := match json_find "requirement" root with Some nested => nested | None => root end in
        if negb (is_object node)
        then outcome_failure RejectedMalformedDocument "requirement must be an object"
        else outcome_of (requirement_of node)
  end.

Definition export_digest (s : RegistryState) : Digest256 := state_digest s.
