(* ===== verification/ImportThms.v ===== *)
(** * Documents are read back

    For every exported type the reader returns what the writer wrote, so a
    complete export is imported to the state it was made from. *)

From Stdlib Require Import ZArith Lia ZifyBool Ascii String Sorted Permutation.
From stdpp Require Import base tactics list strings.
From S2P Require Import Prelude OrdMap Checked Reason Text Units Name SemVer Hash Catalog Evidence State.
From S2P Require Import Codec CodecTypes CodecThms Registry RegistryOps Persist PersistFormat Protocol.
From S2P Require Import Json JsonThms Export Import.

#[local] Open Scope string_scope.
#[local] Open Scope Z_scope.
#[local] Open Scope list_scope.
#[local] Opaque digest_of crc32c catalog_fingerprint reason_table_fingerprint.

(** ** Finding a field of a written object *)

(** The value set last under a key. *)
Fixpoint field_of (k : string) (l : list (string * JsonValue)) : option JsonValue :=
  match l with
  | [] => None
  | (k', v) :: l' =>
      match field_of k l' with Some x => Some x | None => if String.eqb k k' then Some v else None end
  end.

Lemma field_of_app k a b :
  field_of k (a ++ b) = match field_of k b with Some x => Some x | None => field_of k a end.
Proof.
  induction a as [|[k' v] a IH]; simpl; [by destruct (field_of k b)|]. rewrite IH. by destruct (field_of k b).
Qed.

Lemma field_of_opt {A} k key (f : A -> JsonValue) o :
  field_of k (opt_field key f o) = if String.eqb k key then f <$> o else None.
Proof. destruct o; simpl; [done|]. by destruct (String.eqb k key). Qed.

Lemma find_obj k l : json_find k (obj l) = field_of k l.
Proof.
  unfold obj. assert (forall m, json_find k (fold_left (fun o e => json_set (fst e) (snd e) o) l (JObject m)) =
    match field_of k l with Some x => Some x | None => om_find k m end) as H; [|by rewrite H; destruct (field_of k l)].
  induction l as [|[k' v] l IH]; intros m; [done|]. cbn [fold_left fst snd json_set]. rewrite IH. cbn [field_of].
  destruct (field_of k l); [done|]. destruct (String.eqb_spec k k') as [->|Hn].
  - by rewrite om_find_set_eq.
  - by rewrite om_find_set_ne.
Qed.

Lemma obj_object l : exists m, obj l = JObject m /\ om_sorted m.
Proof.
  unfold obj. assert (forall m, om_sorted m -> exists m', fold_left (fun o e => json_set (fst e) (snd e) o) l (JObject m) = JObject m' /\ om_sorted m') as H.
  { induction l as [|[k v] l IH]; intros m Hm; [by exists m|]. cbn [fold_left fst snd json_set]. by apply IH, om_set_sorted. }
  apply H. constructor.
Qed.

Lemma obj_is_object l : is_object (obj l) = true.
Proof. by destruct (obj_object l) as (m & -> & _). Qed.
Lemma expect_obj l : expect_object (obj l) = inr tt.
Proof. unfold expect_object. by rewrite obj_is_object. Qed.

Lemma option_match_id {A} (o : option A) : match o with Some x => Some x | None => None end = o.
Proof. by destruct o. Qed.

(** Looking up a literal key in a list of literal keys. *)
Ltac field_tac :=
  rewrite ?field_of_app, ?field_of_opt; cbn [field_of String.eqb Ascii.eqb Bool.eqb app];
  rewrite ?option_match_id; reflexivity.

(** ** Reading a field *)

(** Numbers a document can carry. *)
Definition doc_num (n : Z) : Prop := 0 <= n <= i64_max.
Definition doc_pos (n : Z) : Prop := 1 <= n <= i64_max.

Lemma signed64_small n : n <= i64_max -> signed64 n = n.
Proof. intros H. unfold signed64. by replace (n >? i64_max) with false by lia. Qed.

Section fields.
Context (l : list (string * JsonValue)) (k : string).

Lemma required_field {A} (read : JsonValue -> ReasonCode + A) v :
  field_of k l = Some v -> required read (obj l) k = read v.
Proof. intros H. unfold required. by rewrite find_obj, H. Qed.

Lemma read_integer_field n : field_of k l = Some (jint n) -> n <= i64_max -> read_integer (obj l) k = inr n.
Proof. intros H Hn. unfold read_integer. rewrite (required_field _ _ H). cbn. by rewrite signed64_small. Qed.

Lemma read_at_least_field low reason n :
  field_of k l = Some (jint n) -> low <= n <= i64_max -> read_at_least low reason (obj l) k = inr n.
Proof.
  intros H Hn. unfold read_at_least. rewrite (read_integer_field n H) by lia. by replace (n <? low) with false by lia.
Qed.

Lemma read_bool_field b : field_of k l = Some (JBool b) -> read_bool (obj l) k = inr b.
Proof. intros H. unfold read_bool. by rewrite (required_field _ _ H). Qed.

Lemma read_string_field s : field_of k l = Some (JString s) -> read_string (obj l) k = inr s.
Proof. intros H. unfold read_string. by rewrite (required_field _ _ H). Qed.

Lemma read_text_field {A} (parse : string -> option A) reason s x :
  field_of k l = Some (JString s) -> parse s = Some x -> read_text parse reason (obj l) k = inr x.
Proof. intros H Hp. unfold read_text. by rewrite (read_string_field s H), Hp. Qed.

Lemma read_tick_opt_field o :
  field_of k l = jint <$> o -> opt_wf doc_num o -> read_tick_opt (obj l) k = inr o.
Proof.
  intros H Ho. unfold read_tick_opt, optional. rewrite find_obj, H. destruct o as [n|]; [|done]. cbn.
  specialize (Ho n eq_refl). unfold doc_num in Ho. rewrite signed64_small by lia. by replace (n <? 0) with false by lia.
Qed.

Lemma read_semver_opt_field o :
  field_of k l = json_of_semver <$> o -> opt_wf semver_valid o -> read_semver_opt (obj l) k = inr o.
Proof.
  intros H Ho. unfold read_semver_opt, value_missing. rewrite find_obj, H. destruct o as [v|]; [|done]. cbn.
  unfold read_semver. erewrite read_text_field; [done|exact H|]. apply semver_parse_spec. split; [by apply Ho|done].
Qed.

Lemma read_array_field {A} (f : A -> JsonValue) xs reason :
  field_of k l = Some (arr f xs) -> read_array (obj l) k reason = inr (map f xs).
Proof. intros H. unfold read_array. by rewrite find_obj, H. Qed.
End fields.

(** A type whose reader inverts its writer. *)
Class Document {A} (write : A -> JsonValue) (read : JsonValue -> ReasonCode + A) (ok : A -> Prop) : Prop :=
  document_read : forall x, ok x -> read (write x) = inr x.

Lemma read_all_map {A} (write : A -> JsonValue) read ok l :
  Document write read ok -> Forall ok l -> read_all read (map write l) = inr l.
Proof.
  intros Hd. induction 1 as [|x l Hx Hl IH]; [done|]. cbn. by rewrite (document_read x Hx), IH.
Qed.

Lemma required_document {A} (write : A -> JsonValue) read ok l k x :
  Document write read ok -> field_of k l = Some (write x) -> ok x -> required read (obj l) k = inr x.
Proof. intros Hd H Hx. rewrite (required_field _ _ _ _ H). by apply document_read. Qed.

(** ** Spellings *)

Lemma digest_spelled d : digest_wf d -> digest_parse (digest_hex d) = Some d.
Proof. intros [H1 H2]. by apply digest_hex_roundtrip. Qed.

Lemma semver_spelled v : semver_valid v -> semver_parse (semver_str v) = Some v.
Proof. intros H. by apply semver_parse_spec. Qed.

Lemma unit_spelled u : unit_wf u -> parse_unit (unit_to_string u) = Some u.
Proof. intros [H1 H2]. apply parse_unit_roundtrip; [unfold in_u in H2; lia|done]. Qed.

Lemma name_spelled n : name_ok n -> name_parse n = Some n.
Proof. done. Qed.

Lemma kind_spelled k : parse_capability_kind (capability_kind_to_string k) = Some k.
Proof. by destruct k. Qed.
Lemma source_kind_spelled x : parse_source_kind (source_kind_to_string x) = Some x.
Proof. by destruct x. Qed.
Lemma authority_spelled x : parse_authority_rank (authority_rank_to_string x) = Some x.
Proof. by destruct x. Qed.
Lemma trust_spelled x : parse_source_trust_state (source_trust_state_to_string x) = Some x.
Proof. by destruct x. Qed.
Lemma lifecycle_spelled x : parse_evidence_lifecycle (evidence_lifecycle_to_string x) = Some x.
Proof. by destruct x. Qed.
Lemma state_spelled x : parse_evidence_state (evidence_state_to_string x) = Some x.
Proof. by destruct x. Qed.
Lemma boot_policy_spelled x : parse_boot_policy (boot_policy_to_string x) = Some x.
Proof. by destruct x. Qed.
Lemma clock_mode_spelled x : parse_clock_mode (clock_mode_to_string x) = Some x.
Proof. by destruct x. Qed.
Lemma reason_spelled r : parse_reason_code (reason_to_string r) = Some r.
Proof. destruct r; vm_compute; reflexivity. Qed.

Lemma feature_spelled c : feature_from_code c = Some c -> parse_feature_code (feature_to_string c) = Some c.
Proof.
  unfold feature_from_code. destruct (List.find _ kFeatures) as [i|] eqn:E; [|done]. intros [= <-].
  apply find_some_spec in E as [_ Hi%list_elem_of_In]. revert i Hi.
  assert (forallb (fun i => bool_decide (parse_feature_code (feature_to_string (fi_code i)) = Some (fi_code i)))
            kFeatures = true) as H by (vm_compute; reflexivity).
  rewrite forallb_forall in H. intros i Hi. specialize (H i Hi). by apply bool_decide_eq_true in H.
Qed.

Lemma limit_spelled c : limit_from_code c = Some c -> parse_limit_code (limit_to_string c) = Some c.
Proof.
  unfold limit_from_code. destruct (List.find _ kLimits) as [i|] eqn:E; [|done]. intros [= <-].
  apply find_some_spec in E as [_ Hi%list_elem_of_In]. revert i Hi.
  assert (forallb (fun i => bool_decide (parse_limit_code (limit_to_string (li_code i)) = Some (li_code i)))
            kLimits = true) as H by (vm_compute; reflexivity).
  rewrite forallb_forall in H. intros i Hi. specialize (H i Hi). by apply bool_decide_eq_true in H.
Qed.

#[local] Hint Resolve name_spelled digest_spelled semver_spelled unit_spelled kind_spelled source_kind_spelled
  authority_spelled trust_spelled lifecycle_spelled state_spelled boot_policy_spelled clock_mode_spelled
  reason_spelled : spelled.

(** One field of a reader on the object its writer made. *)
Ltac doc_num_tac := unfold doc_num, doc_pos in *; lia.
Ltac doc_field :=
  first
    [ rewrite expect_obj
    | erewrite read_at_least_field by first [field_tac | doc_num_tac]
    | erewrite read_integer_field by first [field_tac | doc_num_tac]
    | erewrite read_bool_field by field_tac
    | erewrite read_text_field by first [field_tac | eauto with spelled]
    | erewrite read_tick_opt_field by first [field_tac | assumption]
    | erewrite read_semver_opt_field by first [field_tac | assumption]
    | erewrite read_string_field by field_tac
    | erewrite required_document by first [apply _ | field_tac | eassumption] ].
Ltac doc_unfold :=
  unfold read_name, read_digest, read_semver, read_unit, read_enum, read_u64 in *.

Ltac document write read :=
  let x := fresh "x" in let Hx := fresh "Hx" in
  intros x Hx; hnf in Hx; destruct_and? Hx; unfold write, read; doc_unfold; repeat doc_field; by destruct x.

Definition doc_device (d : DeviceIdentity) : Prop :=
  name_ok (di_provider d) /\ name_ok (di_model d) /\ 0 <= di_unit_index d <= kMaxDeviceUnitIndex /\
  opt_wf name_ok (di_serial d).
#[export] Instance device_document : Document json_of_device read_device doc_device.
Proof.
  intros [p m u s] (Hp & Hm & Hu & Hs). cbn [di_provider di_model di_unit_index di_serial] in *.
  unfold json_of_device, read_device. cbn [di_provider di_model di_unit_index di_serial]. doc_unfold.
  rewrite expect_obj. do 2 (erewrite read_text_field by first [field_tac | eauto with spelled]).
  unfold read_integer. erewrite required_field by field_tac. cbn [as_integer].
  replace ((u <? 0) || (u >? kMaxDeviceUnitIndex)) with false by lia.
  unfold read_serial, optional. rewrite find_obj, field_of_app, field_of_opt.
  cbn [field_of String.eqb Ascii.eqb Bool.eqb]. destruct s as [n|]; [|done]. cbn. specialize (Hs n eq_refl).
  unfold name_ok in Hs. by rewrite Hs.
Qed.

Definition doc_ref (d : DeviceIncarnationRef) : Prop := doc_device (dr_device d) /\ doc_pos (dr_incarnation d).
#[export] Instance device_ref_document : Document json_of_device_ref read_device_ref doc_ref.
Proof. document json_of_device_ref read_device_ref. Qed.

Definition doc_source_incarnation (s : SourceIncarnation) : Prop :=
  name_ok (si_source s) /\ doc_num (si_counter s).
#[export] Instance source_incarnation_document :
  Document json_of_source_incarnation read_source_incarnation doc_source_incarnation.
Proof. document json_of_source_incarnation read_source_incarnation. Qed.

Definition doc_source_policy (s : SourcePolicy) : Prop := name_ok (sp_id s) /\ doc_num (sp_max_age s).
#[export] Instance source_policy_document : Document json_of_source_policy read_source_policy doc_source_policy.
Proof. document json_of_source_policy read_source_policy. Qed.

(** ** Sets *)

Lemma feature_make_loop_id kind prev s :
  ordered_from (fun c => c) prev s = true -> forallb (fun c => feature_allowed_for c kind) s = true ->
  feature_make_loop kind prev s = Ok_.
Proof.
  revert prev. induction s as [|c s IH]; intros prev; [done|]. cbn [ordered_from forallb feature_make_loop].
  intros [H1 H2]%andb_prop [H3 H4]%andb_prop. rewrite bool_decide_false; [|intros ->; cbn in H1; lia].
  rewrite H3. cbn [negb]. by apply IH.
Qed.

Lemma feature_set_make_id kind s :
  features_wf s -> forallb (fun c => feature_allowed_for c kind) s = true -> feature_set_make s kind = inr s.
Proof.
  intros (_ & Ho & Hb & _) Ha. unfold feature_set_make. replace (_ >? _) with false by lia.
  rewrite sort_by_id by by apply strict_sorted_le, strictly_increasing_sorted.
  by rewrite feature_make_loop_id by by rewrite ?ordered_from_increasing.
Qed.

Lemma read_features_written kind s :
  features_wf s -> forallb (fun c => feature_allowed_for c kind) s = true ->
  read_features kind (json_of_features s) = inr s.
Proof.
  intros Hw Ha. unfold read_features, json_of_features, arr. rewrite length_map.
  pose proof Hw as (Hf & _ & Hb & _). replace (_ >? _) with false by lia.
  assert (read_all read_feature (map (fun c => JString (feature_to_string c)) s) = inr s) as ->.
  { apply (read_all_map _ _ feature_wf); [|done]. intros c [_ Hc]. cbv beta. unfold read_feature. by rewrite feature_spelled. }
  by apply feature_set_make_id.
Qed.

Lemma limit_make_loop_id kind prev s :
  ordered_from lv_code prev s = true -> Forall limit_value_wf s ->
  forallb (fun v => limit_allowed_for (lv_code v) kind) s = true -> limit_make_loop kind prev s = Ok_.
Proof.
  revert prev. induction s as [|v s IH]; intros prev; [done|]. cbn [ordered_from forallb limit_make_loop].
  intros [H1 H2]%andb_prop [(Hc & [Hu _] & Hv & Hval) Hs]%Forall_cons [H3 H4]%andb_prop.
  rewrite bool_decide_false; [|intros ->; cbn in H1; lia].
  unfold limit_check. destruct (limit_info_from_code _ Hc) as [i Hi]. rewrite Hi, H3. cbn [negb].
  replace (lv_value v <? 0) with false by lia. rewrite (unit_valid_code _ _ _ Hi Hval), Hu, Hval. cbn [negb].
  by apply IH.
Qed.

#[export] Instance limit_document : Document json_of_limit read_limit limit_value_wf.
Proof.
  intros [c u v] ([_ Hc] & Hu & Hv & Hval). cbn [lv_code lv_unit lv_value] in *.
  unfold json_of_limit, read_limit. doc_unfold. cbn [lv_code lv_unit lv_value]. rewrite obj_is_object. cbn [negb].
  erewrite read_text_field by first [field_tac | by apply limit_spelled].
  erewrite read_text_field by first [field_tac | by apply unit_spelled].
  unfold read_at_least, read_integer. erewrite required_field by field_tac. cbn [as_integer].
  by replace (v <? 0) with false by lia.
Qed.

Lemma read_limits_written kind s :
  limits_wf s -> forallb (fun v => limit_allowed_for (lv_code v) kind) s = true ->
  read_limits kind (json_of_limits s) = inr s.
Proof.
  intros (Hf & Ho & Hb & _) Ha. unfold read_limits, json_of_limits, arr. rewrite length_map.
  replace (_ >? _) with false by lia. rewrite (read_all_map json_of_limit read_limit limit_value_wf s limit_document Hf).
  unfold limit_set_make. replace (_ >? _) with false by lia.
  rewrite sort_by_id by by apply strict_sorted_le, strictly_increasing_sorted.
  by rewrite limit_make_loop_id by by rewrite ?ordered_from_increasing.
Qed.

(** ** Records *)

(** Evidence as a document carries it: numbers below two to the sixty-third, the
    key's source that of the source incarnation, the identifier the digest of
    the content. *)
Definition doc_stored (s : StoredEvidence) : Prop :=
  let e := se_evidence s in
  doc_ref (ek_device (ce_key e)) /\ ek_source (ce_key e) = si_source (ce_source_incarnation e) /\
  doc_source_incarnation (ce_source_incarnation e) /\ semver_valid (ce_capability_version e) /\
  features_wf (ce_features e) /\
  forallb (fun c => feature_allowed_for c (ek_kind (ce_key e))) (ce_features e) = true /\
  limits_wf (ce_limits e) /\
  forallb (fun v => limit_allowed_for (lv_code v) (ek_kind (ce_key e))) (ce_limits e) = true /\
  opt_wf semver_valid (ce_firmware_version e) /\ doc_num (ce_firmware_generation e) /\
  opt_wf semver_valid (ce_runtime_version e) /\ doc_num (ce_runtime_generation e) /\
  doc_num (ce_observed_at e) /\ opt_wf doc_num (ce_valid_until e) /\ doc_pos (ce_generation e) /\
  doc_num (ce_epoch_at_ingest e) /\ doc_num (ce_boot_at_ingest e) /\ doc_num (ce_policy_revision e) /\
  doc_num (se_admitted_at s) /\ opt_wf doc_num (se_retired_at s) /\
  (se_lifecycle s = LcRetired -> se_retired_at s <> None) /\
  ce_id_cache e = compute_digest e /\ digest_wf (ce_id_cache e).

#[export] Instance stored_document : Document json_of_stored read_stored_evidence doc_stored.
Proof.
  intros x Hx. hnf in Hx. cbv zeta in Hx. destruct_and? Hx.
  unfold json_of_stored, read_stored_evidence. doc_unfold. cbv zeta.
  rewrite expect_obj.
  erewrite required_document by first [apply _ | field_tac | eassumption].
  erewrite read_text_field by first [field_tac | eauto with spelled].
  erewrite required_document by first [apply _ | field_tac | eassumption].
  erewrite read_text_field by first [field_tac | eauto with spelled].
  erewrite (required_field _ _ (read_features _)) by field_tac.
  rewrite read_features_written by assumption.
  erewrite (required_field _ _ (read_limits _)) by field_tac.
  rewrite read_limits_written by assumption. repeat doc_field.
  match goal with |- context [if ?b then inl RejectedMissingField else _] => assert (b = false) as -> end.
  { case_bool_decide as E; [|done]. destruct (se_retired_at x); [done|]. naive_solver. }
  cbv iota. unfold evidence_id. destruct x as [[[dev kind src] [so ct] ver fe li fv fg rv rg ob vu ge au ep bo pr id] lc ar at_ ra rr].
  cbn [se_evidence ce_key ce_source_incarnation ek_source si_source ce_id_cache] in *. subst src.
  match goal with E : id = compute_digest _ |- _ => rename E into Hid end.
  match goal with |- context [refresh_id ?e] => assert (compute_digest (refresh_id e) = id) as Hd by (by rewrite Hid) end.
  rewrite Hd. cbn [ce_id_cache]. rewrite bool_decide_true by done. cbn [negb].
  do 2 f_equal. unfold refresh_id, with_id_cache. cbn. f_equal. by rewrite Hid.
Qed.

Definition doc_key (k : EvidenceKey) : Prop := doc_ref (ek_device k) /\ name_ok (ek_source k).

Definition doc_retirement (r : RetirementRecord) : Prop :=
  doc_key (rr_key r) /\ doc_pos (rr_generation r) /\ doc_num (rr_retired_at r) /\ doc_num (rr_epoch r) /\
  doc_num (rr_policy_revision r).
#[export] Instance retirement_document : Document json_of_retirement read_tombstone doc_retirement.
Proof.
  intros x ([Hd Hs] & Hg & Hr & He & Hp). unfold json_of_retirement, read_tombstone. doc_unfold. repeat doc_field.
  by destruct x as [[] ? ? ? ? ? ?].
Qed.

Lemma read_ids l : Forall digest_wf l -> read_all read_id (map json_of_digest l) = inr l.
Proof.
  apply (read_all_map json_of_digest read_id digest_wf). intros d Hd. unfold read_id, json_of_digest.
  by rewrite digest_spelled.
Qed.

Lemma read_positives reason l : Forall doc_pos l -> read_all (read_positive reason) (map jint l) = inr l.
Proof.
  apply (read_all_map jint (read_positive reason) doc_pos). intros n Hn. unfold doc_pos in Hn.
  unfold read_positive, jint. rewrite signed64_small by lia. by replace (n <=? 0) with false by lia.
Qed.

Definition doc_conflict (g : ConflictGroup) : Prop :=
  digest_wf (cg_id g) /\ doc_ref (cg_device g) /\ Forall digest_wf (cg_members g) /\
  Forall doc_pos (cg_generations g) /\ length (cg_generations g) = length (cg_members g) /\
  is_sorted_by (fun x => x) (cg_members g) = true /\
  0 <= cg_observed_first g <= cg_observed_last g /\ cg_observed_last g <= i64_max.
#[export] Instance conflict_document : Document json_of_conflict read_conflict doc_conflict.
Proof.
  intros x (Hi & Hd & Hm & Hg & Hl & Hs & Ho & Hb). unfold json_of_conflict, read_conflict. doc_unfold.
  unfold json_of_digest at 1. repeat doc_field.
  erewrite !read_array_field by field_tac. rewrite read_ids, length_map, Hl, Nat.eqb_refl by done. cbn [negb].
  rewrite read_positives, Hs by done. cbn [negb]. repeat doc_field.
  replace ((cg_observed_first x <? 0) || (cg_observed_last x <? cg_observed_first x)) with false by lia.
  by destruct x.
Qed.

Definition doc_resolution (r : ConflictResolution) : Prop :=
  digest_wf (cr_id r) /\ digest_wf (cr_conflict r) /\ digest_wf (cr_chosen r) /\
  Forall digest_wf (cr_rejected_members r) /\ name_ok (cr_resolver r) /\ doc_num (cr_resolved_at r) /\
  doc_num (cr_epoch r).
#[export] Instance resolution_document : Document json_of_resolution read_resolution doc_resolution.
Proof.
  intros x (Hi & Hc & Ho & Hm & Hr & Ht & He). unfold json_of_resolution, read_resolution. doc_unfold.
  unfold json_of_digest at 1 2 3. repeat doc_field. erewrite read_array_field by field_tac.
  rewrite read_ids by done. repeat doc_field. by destruct x.
Qed.

Definition doc_eviction (e : EvictionEntry) : Prop :=
  digest_wf (ev_id e) /\ doc_key (ev_key e) /\ doc_pos (ev_generation e) /\ doc_num (ev_evicted_at e).
#[export] Instance eviction_document : Document json_of_eviction read_eviction doc_eviction.
Proof.
  intros x (Hi & [Hd Hs] & Hg & He). unfold json_of_eviction, read_eviction. doc_unfold.
  unfold json_of_digest. repeat doc_field. by destruct x as [? [] ? ? ? ?].
Qed.

Definition doc_incarnation (e : DeviceIncarnationEntry) : Prop :=
  doc_device (ie_device e) /\ doc_pos (ie_current e) /\ Forall doc_pos (ie_history e) /\
  is_sorted_by (fun x => x) (ie_history e) = true /\ ie_current e ∈ ie_history e.
#[export] Instance incarnation_document :
  Document json_of_incarnation_entry read_incarnation_entry doc_incarnation.
Proof.
  intros x (Hd & Hc & Hh & Hs & Hin). unfold json_of_incarnation_entry, read_incarnation_entry. doc_unfold.
  repeat doc_field. erewrite read_array_field by field_tac. rewrite length_map.
  destruct (length (ie_history x) =? 0)%nat eqn:E.
  { apply Nat.eqb_eq, length_zero_iff_nil in E. rewrite E in Hin. by apply elem_of_nil in Hin. }
  rewrite read_positives, Hs by done. cbn [negb]. rewrite bool_decide_true by done. by destruct x.
Qed.

Definition doc_counters (c : RegistryCounters) : Prop :=
  doc_num (c_admissions_accepted c) /\ doc_num (c_admissions_idempotent c) /\
  doc_num (c_admissions_rejected c) /\ doc_num (c_retirements_accepted c) /\
  doc_num (c_retirements_rejected c) /\ doc_num (c_decisions_emitted c) /\
  doc_num (c_decisions_evicted c) /\ doc_num (c_conflicts_resolved c) /\
  doc_num (c_evictions_total c) /\ doc_num (c_eviction_ledger_dropped c) /\
  doc_num (c_conflicts_dropped c) /\ doc_num (c_resolutions_dropped c) /\ doc_num (c_tombstones_dropped c).
#[export] Instance counters_document : Document json_of_counters read_counters doc_counters.
Proof. document json_of_counters read_counters. Qed.

(** ** Policies *)

Definition doc_limits (l : RegistryLimits) : Prop :=
  doc_num (max_devices l) /\ doc_num (max_incarnations_per_device l) /\ doc_num (max_streams l) /\
  doc_num (max_records l) /\ doc_num (max_records_per_stream l) /\ doc_num (max_tombstones l) /\
  doc_num (max_conflict_groups l) /\ doc_num (max_resolutions l) /\ doc_num (max_eviction_ledger l) /\
  doc_num (max_sources l) /\ doc_num (max_decisions l) /\ doc_num (max_features_per_record l) /\
  doc_num (max_limits_per_record l) /\ doc_num (max_limits_per_requirement l) /\
  doc_num (max_required_features l).

Definition doc_policy (p : RegistryPolicy) : Prop :=
  Forall doc_source_policy (rp_sources p) /\ strictly_increasing sp_id (rp_sources p) = true /\
  doc_num (rp_retention_horizon p) /\ doc_num (rp_max_future_skew p) /\ doc_num (rp_default_max_age p) /\
  doc_limits (rp_limits p) /\ doc_pos (rp_rule_generation p) /\ text_ok default_json_limits (rp_policy_name p).

Lemma limit_field_written l k n :
  field_of k l = Some (jint n) -> doc_num n -> limit_field (obj l) k = inr n.
Proof.
  intros H Hn. unfold doc_num in Hn. unfold limit_field. rewrite (read_integer_field l k n H) by lia. cbn.
  by replace (n <? 0) with false by lia.
Qed.

Lemma import_limits_written l : doc_limits l -> import_limits (json_of_registry_limits l) = inr l.
Proof.
  intros Hl. hnf in Hl. destruct_and? Hl. unfold import_limits, json_of_registry_limits.
  repeat (erewrite limit_field_written by first [field_tac | assumption]). by destruct l.
Qed.

Lemma strict_is_sorted {A K} `{CmpLaws K} (key : A -> K) l :
  strictly_increasing key l = true -> is_sorted_by key l = true.
Proof.
  induction l as [|x [|y l] IH]; [done..|].
  change (clt (key x) (key y) && strictly_increasing key (y :: l) = true ->
          negb (clt (key y) (key x)) && is_sorted_by key (y :: l) = true).
  intros [H1 H2]%andb_prop. rewrite IH by done. rewrite andb_true_r. apply clt_true in H1.
  unfold clt. by rewrite (cmp_flip (key x) (key y)), H1.
Qed.

Lemma strict_no_adjacent l : strictly_increasing sp_id l = true -> has_adjacent_equal l = false.
Proof.
  induction l as [|x [|y l] IH]; [done..|].
  change (clt (sp_id x) (sp_id y) && strictly_increasing sp_id (y :: l) = true ->
          String.eqb (sp_id x) (sp_id y) || has_adjacent_equal (y :: l) = false).
  intros [H1 H2]%andb_prop. rewrite IH by done. rewrite orb_false_r. apply clt_true in H1.
  destruct (String.eqb_spec (sp_id x) (sp_id y)) as [E|]; [|done]. rewrite E, cmp_refl in H1. done.
Qed.

Lemma policy_sources_written l :
  Forall doc_source_policy l -> strictly_increasing sp_id l = true ->
  policy_sources (map json_of_source_policy l) = inr l.
Proof.
  intros Hl Hs. unfold policy_sources.
  rewrite (read_all_map json_of_source_policy read_source_policy doc_source_policy l source_policy_document Hl).
  cbn [with_detail]. rewrite sort_by_id by by apply strict_sorted_le, strictly_increasing_sorted.
  by rewrite strict_is_sorted, strict_no_adjacent.
Qed.

Lemma policy_fields_written p :
  doc_policy p ->
  policy_fields (json_of_policy p) =
  inr (rp_require_configured_source p, rp_refuse_untrusted_sources p, rp_boot_policy p, rp_clock_mode p,
       rp_retention_horizon p, rp_max_future_skew p, rp_default_max_age p, rp_policy_name p).
Proof.
  intros (_ & _ & H1 & H2 & H3 & _). unfold policy_fields, json_of_policy. doc_unfold. cbv zeta.
  repeat (doc_field; cbn [with_detail]). unfold doc_num in *.
  by replace ((rp_retention_horizon p <? 0) || (rp_max_future_skew p <? 0) || (rp_default_max_age p <? 0))
    with false by lia.
Qed.

Lemma find_policy_limits p : json_find "limits" (json_of_policy p) = Some (json_of_registry_limits (rp_limits p)).
Proof. unfold json_of_policy. rewrite find_obj. field_tac. Qed.

Lemma registry_limits_object l : is_object (json_of_registry_limits l) = true.
Proof. apply obj_is_object. Qed.

Lemma import_policy_written l p :
  field_of "policy" l = Some (json_of_policy p) -> doc_policy p -> import_policy (obj l) = inr p.
Proof.
  intros Hf Hp. pose proof Hp as (Hs & Hi & _ & _ & _ & Hl & Hr & _). unfold import_policy.
  rewrite find_obj, Hf.
  assert (is_object (json_of_policy p) = true) as Ho by apply obj_is_object.
  pose proof (policy_fields_written p Hp) as Hfields. pose proof (find_policy_limits p) as Hlim.
  assert (read_array (json_of_policy p) "sources" RejectedMissingField = inr (map json_of_source_policy (rp_sources p))) as Hsrc
    by (unfold json_of_policy; erewrite read_array_field by field_tac; done).
  assert (read_integer (json_of_policy p) "rule_generation" = inr (rp_rule_generation p)) as Hrule
    by (unfold json_of_policy; erewrite read_integer_field by first [field_tac | unfold doc_pos in Hr; lia]; done).
  destruct (json_of_policy p) as [| | | | |m]; try done.
  rewrite Hsrc. cbn [with_detail]. rewrite policy_sources_written by done. rewrite Hfields, Hlim.
  pose proof (registry_limits_object (rp_limits p)) as Hlo. pose proof (import_limits_written _ Hl) as Hiw.
  destruct (json_of_registry_limits (rp_limits p)) as [| | | | |m']; try done.
  rewrite Hiw, Hrule. cbn [with_detail]. unfold doc_pos in Hr.
  replace (rp_rule_generation p <=? 0) with false by lia. by destruct p.
Qed.
