(* ===== verification/Printable.v ===== *)
(** * Written documents are canonical JSON

    Every text a writer puts in a document is ASCII of bounded length, every
    number fits, and the nesting is bounded; so the parser reads the printed
    document back. *)

From Stdlib Require Import ZArith Lia ZifyBool Ascii String Sorted Permutation.
From stdpp Require Import base tactics list strings.
From S2P Require Import Prelude OrdMap Checked Reason Text Units Name SemVer Hash Catalog Evidence State.
From S2P Require Import Codec CodecTypes CodecThms Registry RegistryOps Persist PersistFormat Protocol.
From S2P Require Import Json JsonThms Export Import ImportThms.

#[local] Open Scope string_scope.
#[local] Open Scope Z_scope.
#[local] Open Scope list_scope.
#[local] Opaque digest_of crc32c catalog_fingerprint reason_table_fingerprint.

#[local] Notation L := default_json_limits.

(** ** Texts *)

(** Short ASCII text. *)
Definition plain (s : string) : Prop := str_all is_ascii s = true /\ (String.length s <= 128)%nat.

Lemma plain_text s : plain s -> text_ok L s.
Proof.
  intros [H1 H2]. split; [|cbn; lia]. rewrite <- (str_app_nil s). by rewrite valid_utf8_ascii.
Qed.

Lemma plain_check s : str_all is_ascii s && (String.length s <=? 128)%nat = true -> plain s.
Proof. intros [H1 H2]%andb_prop. split; [done|lia]. Qed.

Lemma name_plain n : name_ok n -> plain n.
Proof.
  intros H. pose proof (name_ok_length n H). split; [|lia]. unfold name_ok, name_parse in H.
  destruct (_ || _); [done|]. destruct (negb (is_lower_alnum _)); [done|].
  destruct (str_all is_continuation n) eqn:E; [|done]. revert E. apply str_all_impl.
  intros c. destruct c as [[|] [|] [|] [|] [|] [|] [|] [|]]; vm_compute; by intros.
Qed.

Lemma identifiers_ascii s b : s = "" \/ parse_identifiers s b = true -> str_all is_ascii s = true.
Proof.
  intros [->|H]; [done|]. unfold parse_identifiers in H. destruct (_ || _); [done|].
  apply str_all_impl with (p := fun x => is_alnum_dash x || char_is "." x).
  - intros c. destruct c as [[|] [|] [|] [|] [|] [|] [|] [|]]; vm_compute; by intros.
  - apply str_split_all. rewrite forallb_forall in H |- *. intros x Hx. specialize (H x Hx).
    unfold identifier_ok in H. by destruct (str_empty x), (str_all is_alnum_dash x).
Qed.

Lemma semver_plain v : semver_valid v -> plain (semver_str v).
Proof.
  intros Hv. split.
  - destruct Hv as [(H1 & H2 & H3) Hp Hb]. unfold semver_str.
    assert (forall n, in_u 32 n -> str_all is_ascii (dec_str n) = true) as Hd.
    { intros n Hn. eapply str_all_impl; [|by apply dec_str_digits]. unfold is_digit, is_ascii, byte_of_char. lia. }
    apply identifiers_ascii in Hp, Hb. rewrite !str_all_app, !Hd by done.
    destruct (str_empty (sv_prerelease v)), (str_empty (sv_build v)); rewrite ?str_all_app, ?Hp, ?Hb; done.
  - assert (semver_parse (semver_str v) = Some v) as E by by apply semver_parse_spec.
    unfold semver_parse in E. destruct (_ || _) eqn:El; [done|]. lia.
Qed.

Lemma unit_plain u : unit_wf u -> plain (unit_to_string u).
Proof.
  intros [Hw He]. pose proof (well_formed_exponent u Hw) as H6. unfold in_u in He.
  destruct u as [c s e]; cbn [unit_exponent] in *.
  assert (e = 0 \/ e = 1 \/ e = 2 \/ e = 3 \/ e = 4 \/ e = 5 \/ e = 6) as Hcase by lia.
  apply plain_check. destruct Hcase as [->|[->|[->|[->|[->|[->| ->]]]]]]; destruct s; destruct c; by vm_compute.
Qed.

Lemma digest_plain d : digest_wf d -> plain (digest_hex d).
Proof.
  intros [Hl Hb]. split; [|rewrite digest_hex_length, Hl; unfold kDigestBytes; lia].
  clear Hl. induction Hb as [|b d Hb Hd IH]; [done|]. cbn [digest_hex str_all]. rewrite IH, andb_true_r.
  assert (forall x, 0 <= x < 16 -> is_ascii (kHexDigits x) = true) as Hx.
  { intros x Hx. assert (x = 0 \/ x = 1 \/ x = 2 \/ x = 3 \/ x = 4 \/ x = 5 \/ x = 6 \/ x = 7 \/ x = 8 \/ x = 9 \/
      x = 10 \/ x = 11 \/ x = 12 \/ x = 13 \/ x = 14 \/ x = 15) as Hc by lia.
    repeat destruct Hc as [->|Hc]; subst; by vm_compute. }
  change 15 with (Z.ones 4). rewrite !Z.land_ones by lia.
  by rewrite !Hx by (apply Z.mod_pos_bound; lia).
Qed.

Lemma kind_plain k : plain (capability_kind_to_string k).
Proof. apply plain_check. by destruct k. Qed.
Lemma source_kind_plain x : plain (source_kind_to_string x).
Proof. apply plain_check. by destruct x. Qed.
Lemma authority_plain x : plain (authority_rank_to_string x).
Proof. apply plain_check. by destruct x. Qed.
Lemma trust_plain x : plain (source_trust_state_to_string x).
Proof. apply plain_check. by destruct x. Qed.
Lemma lifecycle_plain x : plain (evidence_lifecycle_to_string x).
Proof. apply plain_check. by destruct x. Qed.
Lemma state_plain x : plain (evidence_state_to_string x).
Proof. apply plain_check. by destruct x. Qed.
Lemma boot_policy_plain x : plain (boot_policy_to_string x).
Proof. apply plain_check. by destruct x. Qed.
Lemma clock_mode_plain x : plain (clock_mode_to_string x).
Proof. apply plain_check. by destruct x. Qed.
Lemma reason_plain r : plain (reason_to_string r).
Proof. apply plain_check. destruct r; vm_compute; reflexivity. Qed.

Lemma feature_plain c : plain (feature_to_string c).
Proof.
  unfold feature_to_string. destruct (feature_info c) as [i|] eqn:E; [|by apply plain_check].
  unfold feature_info in E. apply find_some_spec in E as [_ Hi%list_elem_of_In]. apply plain_check.
  revert i Hi. apply forallb_forall. vm_compute. reflexivity.
Qed.
Lemma limit_plain c : plain (limit_to_string c).
Proof.
  unfold limit_to_string. destruct (limit_info c) as [i|] eqn:E; [|by apply plain_check].
  unfold limit_info in E. apply find_some_spec in E as [_ Hi%list_elem_of_In]. apply plain_check.
  revert i Hi. apply forallb_forall. vm_compute. reflexivity.
Qed.

Create HintDb printable discriminated.
#[export] Hint Resolve name_plain semver_plain unit_plain digest_plain kind_plain source_kind_plain
  authority_plain trust_plain lifecycle_plain state_plain boot_policy_plain clock_mode_plain reason_plain
  feature_plain limit_plain plain_text : printable.

(** ** Values *)

(** Canonical, and nested at most [n] deep. *)
Definition printable (n : Z) (v : JsonValue) : Prop := json_canonical L v /\ json_height v <= n.

Lemma printable_mono n n' v : n <= n' -> printable n v -> printable n' v.
Proof. intros H [H1 H2]. split; [done|lia]. Qed.

Lemma printable_string n s : text_ok L s -> 0 <= n -> printable n (JString s).
Proof. intros Hs Hn. split; [by constructor|cbn; lia]. Qed.
Lemma printable_bool n b : 0 <= n -> printable n (JBool b).
Proof. intros Hn. split; [by constructor|cbn; lia]. Qed.
Lemma printable_int n v : i64_min <= v <= i64_max -> 0 <= n -> printable n (JInteger v).
Proof. intros Hv Hn. split; [by constructor|cbn; lia]. Qed.
Lemma printable_num n v : doc_num v -> 0 <= n -> printable n (jint v).
Proof.
  intros Hv Hn. unfold doc_num in Hv. unfold jint. rewrite signed64_small by lia. apply printable_int; [|done].
  unfold i64_min, i64_max in *. lia.
Qed.
Lemma printable_pos n v : doc_pos v -> 0 <= n -> printable n (jint v).
Proof. intros Hv. apply printable_num. unfold doc_pos, doc_num in *. lia. Qed.

Lemma height_bound {A} (f : A -> JsonValue) l n :
  0 <= n -> Forall (fun x => json_height (f x) <= n) l -> max_of (fun x => json_height (f x)) l <= n.
Proof. intros Hn. induction 1 as [|x l Hx Hl IH]; [done|]. rewrite max_of_cons. lia. Qed.

Lemma printable_arr {A} n (f : A -> JsonValue) l :
  0 <= n -> Forall (fun x => printable n (f x)) l -> printable (n + 1) (arr f l).
Proof.
  intros Hn Hl. unfold arr. split.
  - constructor. apply Forall_map. eapply Forall_impl; [exact Hl|]. by intros x [? _].
  - destruct l as [|x l]; [cbn; lia|]. cbn [map json_height].
    assert (max_of json_height (map f (x :: l)) <= n) as H; [|cbn [map] in H; lia].
    apply (height_bound id); [done|]. apply Forall_map. eapply Forall_impl; [exact Hl|]. by intros y [_ ?].
Qed.

Definition entry_ok (n : Z) (e : string * JsonValue) : Prop := plain (fst e) /\ printable n (snd e).

Lemma printable_obj n l : 0 <= n -> Forall (entry_ok n) l -> printable (n + 1) (obj l).
Proof.
  intros Hn Hl.
  assert (exists m, obj l = JObject m /\ om_sorted m /\ om_all (fun k v => plain k /\ printable n v) m) as (m & -> & Hs & Hm).
  { unfold obj. assert (forall m0, om_sorted m0 -> om_all (fun k v => plain k /\ printable n v) m0 ->
      exists m, fold_left (fun o e => json_set (fst e) (snd e) o) l (JObject m0) = JObject m /\ om_sorted m /\
                om_all (fun k v => plain k /\ printable n v) m) as H; [|apply H; constructor].
    induction Hl as [|[k v] l [Hk Hv] Hl IH]; intros m0 Hs0 Hm0; [by exists m0|].
    cbn [fold_left fst snd json_set] in *. apply IH; [by apply om_set_sorted|by apply om_set_all]. }
  unfold om_all in Hm. split.
  - constructor; [done| |].
    + eapply Forall_impl; [exact Hm|]. intros e [_ [? _]]. done.
    + eapply Forall_impl; [exact Hm|]. intros e [Hk _]. split; [by apply plain_text|]. destruct Hk. cbn. lia.
  - destruct m as [|e m]; [cbn; lia|]. cbn [json_height].
    assert (max_of (fun e => json_height (snd e)) (e :: m) <= n); [|lia].
    apply height_bound; [done|]. eapply Forall_impl; [exact Hm|]. by intros x [_ [_ ?]].
Qed.

Lemma opt_entries {A} n key (f : A -> JsonValue) o :
  (forall x, o = Some x -> entry_ok n (key, f x)) -> Forall (entry_ok n) (opt_field key f o).
Proof. intros H. destruct o as [x|]; constructor; [by apply H|constructor]. Qed.

(** ** Writers *)

Ltac key_plain := apply plain_check; reflexivity.
(** The entries of an object, one by one; what is left are the nested values. *)
Ltac leaf :=
  first
    [ apply printable_bool; lia
    | apply printable_num; [assumption|lia]
    | apply printable_pos; [assumption|lia]
    | apply printable_string; [apply plain_text; solve [auto with printable]|lia] ].
Ltac entries :=
  repeat match goal with
  | |- Forall (entry_ok _) (_ ++ _) => apply Forall_app; split
  | |- Forall (entry_ok _) (opt_field _ _ _) => apply opt_entries; intros ? ?
  | |- Forall (entry_ok _) (_ :: _) => apply Forall_cons; split
  | |- Forall (entry_ok _) [] => constructor
  | |- entry_ok _ _ => split; [key_plain|cbn [snd]]
  end; try leaf.

Lemma device_printable n d : doc_device d -> 1 <= n -> printable n (json_of_device d).
Proof.
  intros (H1 & H2 & H3 & H4) Hn. eapply printable_mono; [exact Hn|]. apply (printable_obj 0); [done|]. entries.
  apply printable_int; [unfold i64_min, i64_max, kMaxDeviceUnitIndex in *; lia|lia].
Qed.

Lemma device_ref_printable n d : doc_ref d -> 2 <= n -> printable n (json_of_device_ref d).
Proof.
  intros [H1 H2] Hn. eapply printable_mono; [exact Hn|]. apply (printable_obj 1); [done|]. entries.
  apply device_printable; [done|lia].
Qed.

Lemma source_incarnation_printable n s :
  doc_source_incarnation s -> 1 <= n -> printable n (json_of_source_incarnation s).
Proof. intros [H1 H2] Hn. eapply printable_mono; [exact Hn|]. apply (printable_obj 0); [done|]. entries. Qed.

Lemma source_policy_printable n s : doc_source_policy s -> 1 <= n -> printable n (json_of_source_policy s).
Proof. intros [H1 H2] Hn. eapply printable_mono; [exact Hn|]. apply (printable_obj 0); [done|]. entries. Qed.

Lemma registry_limits_printable n l : doc_limits l -> 1 <= n -> printable n (json_of_registry_limits l).
Proof.
  intros Hl Hn. hnf in Hl. destruct_and? Hl. eapply printable_mono; [exact Hn|]. apply (printable_obj 0); [done|]. entries.
Qed.

Lemma arr_printable {A} n (f : A -> JsonValue) (ok : A -> Prop) l :
  1 <= n -> (forall x, ok x -> printable (n - 1) (f x)) -> Forall ok l -> printable n (arr f l).
Proof.
  intros Hn Hf Hl. replace n with (n - 1 + 1) by lia. apply printable_arr; [lia|]. eapply Forall_impl; [exact Hl|done].
Qed.

Lemma policy_printable n p : doc_policy p -> 3 <= n -> printable n (json_of_policy p).
Proof.
  intros (H1 & _ & H2 & H3 & H4 & H5 & H6 & H7) Hn. eapply printable_mono; [exact Hn|].
  apply (printable_obj 2); [done|]. entries.
  - eapply arr_printable; [lia| |exact H1]. intros x Hx. apply source_policy_printable; [done|lia].
  - apply registry_limits_printable; [done|lia].
  - by apply printable_string.
Qed.

Lemma features_printable n s : 1 <= n -> printable n (json_of_features s).
Proof.
  intros Hn. apply (arr_printable n _ (fun _ => True)); [done| |by apply Forall_true]. intros x _. leaf.
Qed.

Lemma limits_printable n s : Forall limit_value_wf s -> 2 <= n -> printable n (json_of_limits s).
Proof.
  intros Hs Hn. eapply arr_printable; [lia| |exact Hs]. intros x (_ & Hu & Hv & _).
  eapply printable_mono; [|apply (printable_obj 0); [done|]]; [lia|]. entries.
  apply printable_int; [unfold i64_min, i64_max in *; lia|lia].
Qed.

Lemma stored_printable n s : doc_stored s -> 3 <= n -> printable n (json_of_stored s).
Proof.
  intros Hs Hn. hnf in Hs. cbv zeta in Hs. destruct_and? Hs. eapply printable_mono; [exact Hn|].
  apply (printable_obj 2); [done|]. entries.
  all: try (apply device_ref_printable; [assumption|lia]).
  all: try (apply source_incarnation_printable; [assumption|lia]).
  all: try (apply features_printable; lia).
  all: try (unfold json_of_semver; apply printable_string; [|lia]; apply plain_text, semver_plain; eauto).
  - apply limits_printable; [|lia]. by match goal with Hl : limits_wf _ |- _ => apply Hl end.
  - match goal with Hv : opt_wf doc_num (ce_valid_until _) |- _ => specialize (Hv _ ltac:(eassumption)) end. leaf.
  - match goal with Hv : opt_wf doc_num (se_retired_at _) |- _ => specialize (Hv _ ltac:(eassumption)) end. leaf.
Qed.

Lemma digests_printable n l : Forall digest_wf l -> 1 <= n -> printable n (arr json_of_digest l).
Proof. intros Hl Hn. eapply arr_printable; [done| |exact Hl]. intros d Hd. unfold json_of_digest. leaf. Qed.

Lemma numbers_printable n l : Forall doc_pos l -> 1 <= n -> printable n (arr jint l).
Proof. intros Hl Hn. eapply arr_printable; [done| |exact Hl]. intros d Hd. leaf. Qed.

Ltac nested :=
  first
    [ apply device_printable; [assumption|lia]
    | apply device_ref_printable; [assumption|lia]
    | apply digests_printable; [assumption|lia]
    | apply numbers_printable; [assumption|lia]
    | unfold json_of_digest; leaf ].

Lemma retirement_printable n r : doc_retirement r -> 3 <= n -> printable n (json_of_retirement r).
Proof.
  intros ([Hd Hs] & Hg & Hr & He & Hp) Hn. eapply printable_mono; [exact Hn|].
  apply (printable_obj 2); [done|]. entries; nested.
Qed.

Lemma conflict_printable n g : doc_conflict g -> 3 <= n -> printable n (json_of_conflict g).
Proof.
  intros (Hi & Hd & Hm & Hg & _ & _ & Ho & Hb) Hn. eapply printable_mono; [exact Hn|].
  assert (doc_num (cg_observed_first g)) by (unfold doc_num; lia).
  assert (doc_num (cg_observed_last g)) by (unfold doc_num; lia).
  apply (printable_obj 2); [done|]. entries; nested.
Qed.

Lemma resolution_printable n r : doc_resolution r -> 2 <= n -> printable n (json_of_resolution r).
Proof.
  intros (Hi & Hc & Ho & Hm & Hr & Ht & He) Hn. eapply printable_mono; [exact Hn|].
  apply (printable_obj 1); [done|]. entries; nested.
Qed.

Lemma eviction_printable n e : doc_eviction e -> 3 <= n -> printable n (json_of_eviction e).
Proof.
  intros (Hi & [Hd Hs] & Hg & He) Hn. eapply printable_mono; [exact Hn|].
  apply (printable_obj 2); [done|]. entries; nested.
Qed.

Lemma incarnation_printable n e : doc_incarnation e -> 2 <= n -> printable n (json_of_incarnation_entry e).
Proof.
  intros (Hd & Hc & Hh & _ & _) Hn. eapply printable_mono; [exact Hn|].
  apply (printable_obj 1); [done|]. entries; nested.
Qed.

Lemma counters_printable n c : doc_counters c -> 1 <= n -> printable n (json_of_counters c).
Proof.
  intros Hc Hn. hnf in Hc. destruct_and? Hc. eapply printable_mono; [exact Hn|].
  apply (printable_obj 0); [done|]. entries.
Qed.

(** A printed document of bounded size is parsed back. *)
Lemma printable_read_back n v pretty :
  printable n v -> n <= jl_max_depth L -> Z.of_nat (String.length (dump pretty v)) <= jl_max_bytes L ->
  json_items v <= jl_max_items L -> parse_document L (dump pretty v) = inr v.
Proof. intros [Hc Hh] Hn Hl Hi. apply parse_dump; auto; lia. Qed.

Lemma printable_line_back n v pretty :
  printable n v -> n <= jl_max_depth L -> Z.of_nat (String.length (dump pretty v)) < jl_max_bytes L ->
  json_items v <= jl_max_items L -> parse_document L (dump pretty v ++ String newline "") = inr v.
Proof.
  intros [Hc Hh] Hn Hl Hi. apply parse_dump_then; auto; try lia.
  rewrite str_app_length. cbn [String.length]. lia.
Qed.

(** ** The size of a compact document *)

(** A bound on the compact spelling: an escaped byte takes at most six, a
    number at most twenty-one. *)
Fixpoint json_weight (v : JsonValue) : Z :=
  match v with
  | JNull | JBool _ => 5
  | JInteger _ => 21
  | JString s => 6 * Z.of_nat (String.length s) + 2
  | JArray l => 2 + sum_of (fun x => 1 + json_weight x) l
  | JObject m => 2 + sum_of (fun e => 4 + 6 * Z.of_nat (String.length (fst e)) + json_weight (snd e)) m
  end.

Lemma dec_loop_length fuel n acc :
  (String.length (dec_loop fuel n acc) <= fuel + String.length acc)%nat.
Proof.
  revert n acc. induction fuel as [|fuel IH]; intros n acc; cbn [dec_loop]; [lia|].
  case_match; [cbn; lia|]. etransitivity; [apply IH|]. cbn. lia.
Qed.

Lemma int_str_length n : (String.length (int_str n) <= 21)%nat.
Proof.
  unfold int_str, dec_str. pose proof (dec_loop_length 20 (- n) "") as H1. pose proof (dec_loop_length 20 n "") as H2.
  cbn [String.length] in H1, H2. destruct (n <? 0); cbn [String.length]; lia.
Qed.

Lemma escape_length s : Z.of_nat (String.length (json_escape s)) <= 6 * Z.of_nat (String.length s) + 2.
Proof.
  unfold json_escape. cbn [String.length]. rewrite str_app_length. cbn [String.length].
  enough (String.length (escape_body s) <= 6 * String.length s)%nat by lia.
  induction s as [|c s IH]; [done|]. cbn [escape_body String.length]. rewrite str_app_length.
  assert (String.length (escape_char c) <= 6)%nat; [|lia]. unfold escape_char. repeat case_match; cbn; lia.
Qed.

Lemma items_length {A} (one : A -> string) (w : A -> Z) depth first l :
  Forall (fun x => Z.of_nat (String.length (one x)) <= w x) l ->
  Z.of_nat (String.length (dump_items false depth one first l)) <= sum_of (fun x => 1 + w x) l.
Proof.
  intros Hl. revert first. induction Hl as [|x l Hx Hl IH]; intros first; [done|].
  cbn [dump_items line]. rewrite !str_app_length, sum_of_cons. specialize (IH false).
  destruct first; cbn [String.length]; lia.
Qed.

Lemma dump_length v depth : Z.of_nat (String.length (dump_to false depth v)) <= json_weight v.
Proof.
  revert depth. induction v as [|b|n|s|l IH|m IH] using json_nested_ind; intros depth.
  - done.
  - by destruct b.
  - cbn [dump_to json_weight]. pose proof (int_str_length n). lia.
  - apply escape_length.
  - cbn [json_weight]. assert (Z.of_nat (String.length (dump_items false depth (dump_to false (depth + 1)) true l)) <=
      sum_of (fun x => 1 + json_weight x) l) as H.
    { apply items_length. eapply Forall_impl; [exact IH|]. done. }
    destruct l; [done|]. cbn [dump_to line]. rewrite !str_app_length. cbn [String.length] in *. lia.
  - cbn [json_weight]. assert (Z.of_nat (String.length (dump_items false depth
      (fun e => json_escape (fst e) ++ ":" ++ dump_to false (depth + 1) (snd e))%string true m)) <=
      sum_of (fun e => 4 + 6 * Z.of_nat (String.length (fst e)) + json_weight (snd e)) m) as H.
    { etransitivity; [apply (items_length _ (fun e => 3 + 6 * Z.of_nat (String.length (fst e)) + json_weight (snd e)))|].
      - eapply Forall_impl; [exact IH|]. intros e He. cbv beta in He. rewrite !str_app_length.
        pose proof (escape_length (fst e)). specialize (He (depth + 1)%nat). cbn [String.length]. lia.
      - clear. induction m as [|e m IH]; [done|]. rewrite !sum_of_cons. lia. }
    destruct m; [done|]. cbn [dump_to line]. rewrite !str_app_length. cbn [String.length] in *. lia.
Qed.
