(* ===== verification/ExportThms.v ===== *)
(** * Export and import

    A complete export is imported to the state it was made from, policy and
    requirement documents are read back, and what an import accepts is a state
    with the declared digest. *)

From Stdlib Require Import ZArith Lia ZifyBool Ascii String Sorted Permutation.
From stdpp Require Import base tactics list strings.
From S2P Require Import Prelude OrdMap Checked Reason Text Units Name SemVer Hash Catalog Evidence State.
From S2P Require Import Codec CodecTypes CodecThms Registry RegistryOps Persist PersistFormat Protocol.
From S2P Require Import RegistryThms.
From S2P Require Import Json JsonThms Export Import ImportThms Printable.

#[local] Open Scope string_scope.
#[local] Open Scope Z_scope.
#[local] Open Scope list_scope.
#[local] Opaque digest_of crc32c catalog_fingerprint reason_table_fingerprint.

(** ** What can be exported *)

(** Every record belongs to a listed incarnation of a listed device. *)
Definition records_listed (s : RegistryState) : Prop :=
  forallb (fun r => incarnation_listed (s_incarnations s) (ek_device (ce_key (se_evidence r)))) (s_records s) = true.

Definition doc_state (s : RegistryState) : Prop :=
  doc_policy (s_policy s) /\ doc_num (s_epoch s) /\ doc_pos (s_rule_generation s) /\
  doc_num (s_policy_revision s) /\ doc_num (s_boot_epoch s) /\ doc_num (s_store_generation s) /\
  doc_num (s_logical_tick s) /\ doc_pos (s_next_incarnation s) /\
  Forall doc_incarnation (s_incarnations s) /\ strictly_increasing ie_device (s_incarnations s) = true /\
  Forall doc_stored (s_records s) /\
  Z.of_nat (length (s_records s)) <= max_records (rp_limits (s_policy s)) /\ records_listed s /\
  Forall doc_retirement (s_tombstones s) /\ Forall doc_conflict (s_conflicts s) /\
  Forall doc_resolution (s_resolutions s) /\ Forall doc_eviction (s_evictions s) /\
  doc_counters (s_counters s).

(** Options under which nothing is left out. *)
Definition complete_options (o : ExportOptions) (s : RegistryState) : Prop :=
  eo_include_history o = true /\ eo_include_rejected o = true /\ eo_include_evictions o = true /\
  eo_include_policy o = true /\ Z.of_nat (length (s_records s)) <= eo_max_records o.

Lemma export_records_all o written l :
  eo_include_history o = true -> eo_include_rejected o = true ->
  written + Z.of_nat (length l) <= eo_max_records o -> export_records o written l = (l, false).
Proof.
  intros Hh Hr. revert written. induction l as [|r l IH]; intros written Hl; [done|].
  cbn [export_records]. unfold export_skips. rewrite Hh, Hr. cbn [negb andb orb]. rewrite andb_false_r. cbn [orb andb].
  simpl length in Hl. replace (written >=? eo_max_records o) with false by lia. rewrite IH by lia. done.
Qed.

(** ** Import of an export *)

Section import.
Context (s : RegistryState) (o : ExportOptions) (now : Tick).
Context (Hs : doc_state s) (Ho : complete_options o s) (Hnow : doc_num now).

(** The fields of a complete document. *)
Definition document_fields : list (string * JsonValue) :=
  [("format", JString kFormatName); ("format_version", jint kExportFormatVersion);
   ("api_generation", jint kApiGeneration); ("catalog_fingerprint", jint catalog_fingerprint);
   ("reason_table_fingerprint", jint reason_table_fingerprint); ("registry_epoch", jint (s_epoch s));
   ("rule_generation", jint (s_rule_generation s)); ("policy_revision", jint (s_policy_revision s));
   ("boot_epoch", jint (s_boot_epoch s)); ("store_generation", jint (s_store_generation s));
   ("logical_tick", jint (s_logical_tick s)); ("exported_at", jint now);
   ("next_incarnation", jint (s_next_incarnation s)); ("policy", json_of_policy (s_policy s));
   ("devices", arr json_of_incarnation_entry (s_incarnations s));
   ("evidence", arr json_of_stored (s_records s)); ("tombstones", arr json_of_retirement (s_tombstones s));
   ("conflicts", arr json_of_conflict (s_conflicts s));
   ("resolutions", arr json_of_resolution (s_resolutions s));
   ("evictions", arr json_of_eviction (s_evictions s)); ("counters", json_of_counters (s_counters s));
   ("state_digest", json_of_digest (state_digest s)); ("truncated", JBool false); ("notes", JArray [])].

Lemma complete_records : export_records o 0 (s_records s) = (s_records s, false).
Proof. destruct Ho as (H1 & H2 & _ & _ & H3). by apply export_records_all. Qed.

Lemma complete_document : export_document s o now = obj document_fields.
Proof.
  unfold export_document. rewrite complete_records. destruct Ho as (_ & _ & He & Hp & _). by rewrite He, Hp.
Qed.

Lemma fingerprint_read k f :
  field_of k document_fields = Some (jint f) -> in_u 32 f ->
  read_integer (obj document_fields) k = inr f /\ (cast_u32 f =? f) = true.
Proof.
  intros Hf Hr. unfold in_u in Hr. split; [apply read_integer_field; [done|unfold i64_max; lia]|].
  unfold cast_u32. rewrite Z.mod_small by lia. lia.
Qed.

Lemma import_header_written : import_header (obj document_fields) = inr tt.
Proof.
  pose proof fingerprints_fit as [F1 F2].
  destruct (fingerprint_read "catalog_fingerprint" catalog_fingerprint ltac:(field_tac) F1) as [C1 C2].
  destruct (fingerprint_read "reason_table_fingerprint" reason_table_fingerprint ltac:(field_tac) F2) as [R1 R2].
  unfold import_header. rewrite C1, R1. clear C1 R1. revert C2 R2.
  generalize catalog_fingerprint reason_table_fingerprint. intros cf rf C2 R2.
  unfold document_fields. doc_field. cbn [with_detail].
  do 2 (erewrite read_integer_field by first [field_tac | by vm_compute]; cbn [with_detail]).
  change (String.eqb kFormatName kFormatName) with true. cbn [negb Z.eqb kExportFormatVersion kApiGeneration].
  rewrite C2, R2. cbn [negb]. doc_field. done.
Qed.

Lemma import_scalars_written :
  import_scalars (obj document_fields) =
  inr (s_epoch s, s_rule_generation s, s_policy_revision s, s_boot_epoch s, s_store_generation s,
       s_logical_tick s, s_next_incarnation s).
Proof.
  destruct Hs as (_ & H1 & H2 & H3 & H4 & H5 & H6 & H7 & _). unfold import_scalars, document_fields.
  repeat (doc_field; cbn [with_detail]). unfold doc_num, doc_pos in *.
  match goal with |- (if ?b then _ else _) = _ => replace b with false by lia end. done.
Qed.

Lemma import_collection_written {A} key missing rejected (write : A -> JsonValue) read ok l :
  Document write read ok -> field_of key document_fields = Some (arr write l) -> Forall ok l ->
  import_collection (obj document_fields) key missing rejected read = inr l.
Proof.
  intros Hd Hf Hl. unfold import_collection. rewrite (read_array_field _ _ _ _ _ Hf). cbn [with_detail].
  by rewrite (read_all_map write read ok l Hd Hl).
Qed.

Lemma import_state_written : import_state (obj document_fields) = inr s.
Proof.
  pose proof Hs as (Hp & _ & _ & _ & _ & _ & _ & _ & Hi & Hord & Hr & Hn & Hlist & Ht & Hc & Hres & He & Hct).
  unfold import_state. rewrite import_header_written, import_scalars_written.
  rewrite (import_policy_written document_fields (s_policy s) ltac:(field_tac) Hp).
  unfold import_records. rewrite (read_array_field document_fields "evidence" json_of_stored (s_records s) _ ltac:(field_tac)).
  cbn [with_detail]. rewrite length_map. replace (_ >? _) with false by lia.
  rewrite (read_all_map _ _ _ _ stored_document Hr). cbn [with_detail].
  rewrite (import_collection_written "tombstones" _ _ _ _ _ _ retirement_document ltac:(field_tac) Ht).
  rewrite (import_collection_written "conflicts" _ _ _ _ _ _ conflict_document ltac:(field_tac) Hc).
  rewrite (import_collection_written "resolutions" _ _ _ _ _ _ resolution_document ltac:(field_tac) Hres).
  rewrite (import_collection_written "evictions" _ _ _ _ _ _ eviction_document ltac:(field_tac) He).
  rewrite (import_collection_written "devices" _ _ _ _ _ _ incarnation_document ltac:(field_tac) Hi).
  cbv zeta. rewrite sort_by_id by by apply strict_sorted_le, strictly_increasing_sorted.
  rewrite find_obj. replace (field_of "counters" document_fields) with (Some (json_of_counters (s_counters s))) by field_tac.
  rewrite (document_read (s_counters s) Hct). cbn [with_detail]. unfold records_listed in Hlist. rewrite Hlist. cbn [negb].
  unfold read_digest. erewrite read_text_field; [|unfold document_fields, json_of_digest; field_tac|
    apply digest_spelled, digest_of_wf]. cbn [with_detail].
  rewrite bool_decide_true by by destruct s. by destruct s.
Qed.

Lemma document_printable : printable 5 (obj document_fields).
Proof.
  pose proof Hs as (Hp & H1 & H2 & H3 & H4 & H5 & H6 & H7 & Hi & _ & Hr & _ & _ & Ht & Hc & Hres & He & Hct).
  pose proof fingerprints_fit as [F1 F2].
  assert (doc_num catalog_fingerprint) by (unfold doc_num, in_u, i64_max in *; lia).
  assert (doc_num reason_table_fingerprint) by (unfold doc_num, in_u, i64_max in *; lia).
  assert (digest_wf (state_digest s)) by apply digest_of_wf.
  apply (printable_obj 4); [done|]. unfold document_fields. generalize dependent catalog_fingerprint.
  generalize dependent reason_table_fingerprint. intros. entries.
  all: try (eapply arr_printable; [lia| |eassumption]; intros; eauto using incarnation_printable,
    stored_printable, retirement_printable, conflict_printable, resolution_printable, eviction_printable with lia).
  all: try (unfold json_of_digest; leaf).
  all: first [apply policy_printable; [done|lia] | apply counters_printable; [done|lia] | idtac].
  - apply printable_string; [apply plain_text; key_plain|lia].
  - by apply printable_num.
  - by apply printable_num.
  - apply (printable_arr 3 jint []); [lia|constructor].
Qed.
End import.

(** ** The round trip *)

Definition import_result (s : RegistryState) : ImportResult :=
  mkImportResult s Ok_ (Z.of_nat (length (s_records s))) (Z.of_nat (length (s_tombstones s)))
    (Z.of_nat (length (s_conflicts s))) (Z.of_nat (length (s_evictions s))).

Lemma import_document_of text root s :
  parse_document default_json_limits text = inr root -> is_object root = true -> import_state root = inr s ->
  import_document text = outcome_value (import_result s).
Proof. intros E1 E2 E3. unfold import_document. rewrite E1, E2. cbn [negb]. by rewrite E3. Qed.

(** C21: export and import are inverse, for the states a document can carry: every
    number below 2^63, every record of a listed device incarnation and within the
    policy's bound, the policy's sources and the devices in order.  When every
    record, tombstone, conflict, resolution and eviction is written and the policy
    is included, the document the registry exports, in either layout, is imported
    to exactly the state it was made from (policy, epochs, device incarnations,
    evidence, ledgers and counters), with the counts of what it holds, provided the
    document is within the parser's 8 MiB and 262144 values. *)
Theorem export_import_roundtrip x o now r :
  doc_state (to_state x) -> complete_options o (to_state x) -> doc_num now ->
  export_registry x o now = outcome_value r ->
  Z.of_nat (String.length (er_document r)) <= jl_max_bytes default_json_limits ->
  json_items (export_document (to_state x) o now) <= jl_max_items default_json_limits ->
  import_document (er_document r) = outcome_value (import_result (to_state x)) /\
  er_digest r = state_digest (to_state x) /\ er_truncated r = false.
Proof.
  intros Hs Ho Hnow He Hb Hi. unfold export_registry in He. rewrite (complete_records _ o Ho) in He.
  destruct (_ >? _); [done|]. apply (f_equal oc_value) in He. cbn [outcome_value oc_value] in He.
  apply (inj Some) in He. subst r. cbn [er_document er_digest er_truncated] in *. split; [|done].
  rewrite (complete_document _ o now Ho) in *. eapply import_document_of; [|apply obj_is_object|by eapply import_state_written].
  eapply printable_read_back; [by apply document_printable|cbn; lia|done|done].
Qed.

(** A concrete state can be exported, and its document is small. *)
Ltac exportable :=
  vm_compute to_state;
  repeat match goal with
  | |- _ /\ _ => split
  | |- Forall ?P ?l => let l' := eval hnf in l in change (Forall P l'); first [apply Forall_cons; split | constructor]
  | |- opt_wf ?P ?o => let o' := eval hnf in o in change (opt_wf P o'); unfold opt_wf; intros ? [=]
  | |- _ = _ => vm_compute; reflexivity
  | |- _ <= _ => vm_compute; congruence
  | |- semver_valid _ => constructor; cbn
  | |- _ = _ \/ _ => first [left; solve [vm_compute; reflexivity] | right]
  | |- _ ∈ _ => apply list_elem_of_In; left; reflexivity
  | |- _ => progress hnf
  end;
  by vm_compute.

Ltac small_document x :=
  rewrite complete_document by (split_and!; [done..|vm_compute; congruence]);
  let Hd := fresh in
  assert (String.length (digest_hex (state_digest (to_state x))) = 64%nat) as Hd
    by (rewrite digest_hex_length; unfold state_digest; by rewrite digest_of_length);
  unfold document_fields, json_of_digest at 1; revert Hd;
  generalize catalog_fingerprint reason_table_fingerprint (digest_hex (state_digest (to_state x)));
  let d := fresh "d" in intros ? ? d ?;
  do 64 (destruct d as [|? d]; [done|]); destruct d; [|done]; split; vm_compute; congruence.

Lemma sample_doc_state : doc_state (to_state Sample.superseded).
Proof. exportable. Qed.

Lemma sample_fits :
  json_weight (export_document (to_state Sample.superseded) default_export_options 20) <= 65536 /\
  json_items (export_document (to_state Sample.superseded) default_export_options 20) <= 262144.
Proof. small_document Sample.superseded. Qed.

Lemma export_complete x o now :
  complete_options o (to_state x) ->
  Z.of_nat (String.length (dump (eo_pretty o) (export_document (to_state x) o now))) <= eo_max_bytes o ->
  exists r, export_registry x o now = outcome_value r /\
            er_document r = dump (eo_pretty o) (export_document (to_state x) o now).
Proof.
  intros Ho Hl. unfold export_registry. rewrite (complete_records _ o Ho).
  replace (_ >? _) with false by lia. by eexists.
Qed.

Lemma export_import_roundtrip_witness :
  exists r, export_registry Sample.superseded default_export_options 20 = outcome_value r /\
    import_document (er_document r) = outcome_value (import_result (to_state Sample.superseded)).
Proof.
  assert (complete_options default_export_options (to_state Sample.superseded)) as Ho
    by (split_and!; [done..|vm_compute; congruence]).
  assert (doc_num 20) as Hn by by split.
  assert (65536 <= jl_max_bytes default_json_limits) as Hm by by vm_compute.
  destruct sample_fits as [Hw Hi].
  pose proof (dump_length (export_document (to_state Sample.superseded) default_export_options 20) 0) as Hl.
  destruct (export_complete Sample.superseded default_export_options 20 Ho) as (r & Hr & Hd);
    [change (64 * 1024 * 1024) with 67108864; unfold dump; cbn [eo_pretty default_export_options eo_max_bytes]; lia|].
  exists r. split; [exact Hr|].
  refine (proj1 (export_import_roundtrip Sample.superseded default_export_options 20 r sample_doc_state Ho Hn Hr _ Hi)).
  rewrite Hd. exact (Z.le_trans _ _ _ Hl (Z.le_trans _ _ _ Hw Hm)).
Defined.

(** ** What an import accepts *)

(** The successful run of a chain of readers, one equation a step. *)
Ltac read_steps H :=
  repeat match type of H with
  | (match ?e with _ => _ end) = inr _ => let E := fresh "E" in destruct e eqn:E; try discriminate H
  end.

Lemma with_detail_inr {A} detail (r : ReasonCode + A) x : with_detail detail r = inr x -> r = inr x.
Proof. by destruct r as [|]; intros [=]; subst. Qed.

(** A record whose declared identifier is the digest of its content. *)
Definition record_authentic (v : JsonValue) (r : StoredEvidence) : Prop :=
  read_digest v "id" = inr (compute_digest (se_evidence r)) /\
  evidence_id (se_evidence r) = compute_digest (se_evidence r).

Lemma read_stored_authentic v r : read_stored_evidence v = inr r -> record_authentic v r.
Proof.
  unfold read_stored_evidence. intros H. cbv zeta in H. read_steps H. injection H as <-.
  match goal with E : negb (bool_decide _) = false |- _ =>
    apply negb_false_iff, bool_decide_eq_true in E; rewrite E in * end.
  split; [assumption|]. done.
Qed.

Lemma read_all_Forall2 {A E} (read : JsonValue -> E + A) (P : JsonValue -> A -> Prop) l xs :
  (forall v x, read v = inr x -> P v x) -> read_all read l = inr xs -> Forall2 P l xs.
Proof.
  intros HP. revert xs. induction l as [|v l IH]; intros xs H; cbn [read_all] in H.
  - injection H as <-. constructor.
  - read_steps H. injection H as <-. constructor; auto.
Qed.

(** What holds of a state read from a document. *)
Definition import_sound_for (root : JsonValue) (s : RegistryState) : Prop :=
  import_header root = inr tt /\ read_digest root "state_digest" = inr (state_digest s) /\
  (exists items, read_array root "evidence" RejectedMissingField = inr items /\
                 Forall2 record_authentic items (s_records s)) /\
  records_listed s /\ Z.of_nat (length (s_records s)) <= max_records (rp_limits (s_policy s)) /\
  sort_by ie_device (s_incarnations s) = s_incarnations s.

Lemma imported_records_sound root limits l :
  import_records root limits = inr l ->
  (exists items, read_array root "evidence" RejectedMissingField = inr items /\ Forall2 record_authentic items l) /\
  Z.of_nat (length l) <= max_records limits.
Proof.
  unfold import_records. intros H. read_steps H. apply with_detail_inr in E, H.
  apply (read_all_Forall2 _ record_authentic) in H; [|apply read_stored_authentic].
  split; [eauto|]. rewrite <- (Forall2_length _ _ _ H). lia.
Qed.

Lemma imported_state_sound root s : import_state root = inr s -> import_sound_for root s.
Proof.
  unfold import_state. intros H. cbv zeta in H. read_steps H. injection H as <-.
  repeat match goal with E : negb _ = false |- _ => apply negb_false_iff in E end.
  match goal with E : bool_decide (_ = state_digest _) = true |- _ => apply bool_decide_eq_true in E end.
  match goal with E : import_records _ _ = inr _ |- _ => apply imported_records_sound in E as [? ?] end.
  match goal with E : with_detail _ (read_digest _ _) = inr _ |- _ => apply with_detail_inr in E end.
  unfold import_sound_for. rewrite <- E18. destruct u. split_and!; auto.
  cbn [s_incarnations]. apply sort_by_id, sort_by_sorted.
Qed.

(** C22: an import never accepts a document that does not certify its content:
    for every text, either it is refused with a failing status, or it is a JSON
    object with this library's format, version, catalogue and reason table, the
    state it declares has exactly the digest of the reconstructed state, the
    declared identifier of each evidence record is the digest of the record
    read, every record belongs to a listed incarnation of a listed device, and
    the records are within the bound of the imported policy. *)
Theorem import_sound text :
  match oc_value (import_document text) with
  | Some r => exists root, parse_document default_json_limits text = inr root /\ is_object root = true /\
                import_sound_for root (im_state r) /\ r = import_result (im_state r)
  | None => outcome_ok (import_document text) = false
  end.
Proof.
  unfold import_document. destruct (parse_document _ text) as [|root]; [done|].
  destruct (is_object root) eqn:Eo; [|done]. cbn [negb].
  destruct (import_state root) as [[reason detail]|s] eqn:E; [done|]. exists root.
  split_and!; [done..| |done]. by apply imported_state_sound.
Qed.
