(* ===== verification/DocumentThms.v ===== *)
(** * Policy and requirement documents (src/export.cpp)

    [render_policy_document] and [render_requirement_document] write what
    [parse_policy_document] and [parse_requirement_document] read back. *)

From Stdlib Require Import ZArith Lia ZifyBool Ascii String.
From stdpp Require Import base tactics list strings.
From S2P Require Import Prelude OrdMap Text Reason Units Name SemVer Hash Catalog Evidence State.
From S2P Require Import Codec CodecTypes CodecThms Registry RegistryOps RegistryInv RegistryThms.
From S2P Require Import Protocol Json JsonThms JsonSound Export Import ImportThms Printable ExportThms.

#[local] Open Scope string_scope.
#[local] Open Scope Z_scope.
#[local] Open Scope list_scope.

(** ** Policies *)

Lemma limit_field_or_written l k d n :
  field_of k l = Some (jint n) -> doc_num n -> limit_field_or (obj l) k d = inr n.
Proof.
  intros H Hn. unfold doc_num in Hn. unfold limit_field_or, optional. rewrite find_obj, H. cbn.
  rewrite signed64_small by lia. by replace (n <? 0) with false by lia.
Qed.

Lemma policy_limits_written l : doc_limits l -> policy_limits (json_of_registry_limits l) = inr l.
Proof.
  intros Hl. hnf in Hl. destruct_and? Hl. unfold policy_limits, json_of_registry_limits. cbv zeta.
  repeat (erewrite limit_field_or_written by first [field_tac | assumption]). by destruct l.
Qed.

Lemma policy_of_written p :
  doc_policy p -> Z.of_nat (length (rp_sources p)) <= 1024 -> policy_of (json_of_policy p) = inr p.
Proof.
  intros Hp Hn. pose proof Hp as (Hs & Hi & _ & _ & _ & Hl & Hr & _). unfold policy_of.
  assert (read_array (json_of_policy p) "sources" RejectedMissingField = inr (map json_of_source_policy (rp_sources p))) as ->
    by (unfold json_of_policy; erewrite read_array_field by field_tac; done).
  cbn [with_detail]. rewrite length_map. replace (1024 <? _) with false by lia.
  rewrite (policy_sources_written _ Hs Hi), (policy_fields_written p Hp).
  assert (read_integer (json_of_policy p) "rule_generation" = inr (rp_rule_generation p)) as ->
    by (unfold json_of_policy; erewrite read_integer_field by first [field_tac | unfold doc_pos in Hr; lia]; done).
  cbn [with_detail]. unfold doc_pos in Hr. replace (rp_rule_generation p <=? 0) with false by lia.
  rewrite find_policy_limits. pose proof (registry_limits_object (rp_limits p)) as Hlo.
  pose proof (policy_limits_written _ Hl) as Hw. destruct (json_of_registry_limits (rp_limits p)); try done.
  rewrite Hw. by destruct p.
Qed.

(** ** Requirements *)

Definition doc_requirement (r : CapabilityRequirement) : Prop :=
  doc_ref (rq_device r) /\ semver_valid (vr_minimum (rq_version r)) /\
  opt_wf semver_valid (vr_maximum_exclusive (rq_version r)) /\
  features_wf (rq_required_features r) /\
  ordered_wf limit_requirement_wf lr_code kMaxLimitsPerRecord (rq_required_limits r) /\
  opt_wf semver_valid (rq_minimum_firmware_version r) /\ opt_wf doc_num (rq_minimum_firmware_generation r) /\
  opt_wf semver_valid (rq_minimum_runtime_version r) /\ opt_wf doc_num (rq_minimum_runtime_generation r) /\
  doc_num (rq_max_evidence_age r) /\
  forallb (fun c => feature_allowed_for c (rq_capability r)) (rq_required_features r) = true /\
  forallb (fun v => limit_allowed_for (lr_code v) (rq_capability r)) (rq_required_limits r) = true.

Lemma limit_requirement_written kind v :
  limit_requirement_wf v -> limit_allowed_for (lr_code v) kind = true ->
  read_limit_requirement kind (json_of_limit_requirement v) = inr v.
Proof.
  destruct v as [c u m]. intros ([Hc1 Hc] & Hu & Hv & Hval) Ha. cbn [lr_code lr_unit lr_minimum] in *.
  unfold json_of_limit_requirement, read_limit_requirement. doc_unfold. cbn [lr_code lr_unit lr_minimum].
  rewrite obj_is_object. cbn [negb]. erewrite read_string_field by field_tac. cbn [with_detail].
  rewrite limit_spelled by done. erewrite read_text_field by first [field_tac | by apply unit_spelled]. cbn [with_detail].
  unfold read_integer. erewrite required_field by field_tac. cbn [as_integer with_detail].
  replace (m <? 0) with false by lia. destruct (limit_info_from_code c (conj Hc1 Hc)) as [i Hi].
  rewrite Hi, (unit_valid_code _ _ _ Hi Hval), Hval, Ha. done.
Qed.

Lemma requirement_limits_written kind l node :
  field_of "required_limits" node = Some (arr json_of_limit_requirement l) ->
  ordered_wf limit_requirement_wf lr_code kMaxLimitsPerRecord l ->
  forallb (fun v => limit_allowed_for (lr_code v) kind) l = true ->
  requirement_limits kind (obj node) = inr l.
Proof.
  intros Hf (Hw & Ho & Hb & _) Ha. unfold requirement_limits. rewrite find_obj, Hf. unfold arr.
  unfold kMaxLimitsPerRecord in Hb. rewrite length_map. replace (64 <? _) with false by lia.
  assert (read_all (read_limit_requirement kind) (map json_of_limit_requirement l) = inr l) as ->.
  { clear Hf Ho Hb. induction Hw as [|v l Hv Hw IH]; [done|]. cbn [forallb] in Ha. apply andb_prop in Ha as [Ha1 Ha2].
    cbn [map read_all]. by rewrite limit_requirement_written, IH. }
  rewrite sort_by_id by by apply strict_sorted_le, strictly_increasing_sorted. by rewrite Ho.
Qed.

Lemma number_opt_written l k d o : field_of k l = jint <$> o -> opt_wf doc_num o -> number_opt (obj l) k d = inr o.
Proof.
  intros H Ho. unfold number_opt. rewrite find_obj, H. destruct o as [n|]; [|done]. cbn.
  specialize (Ho n eq_refl). unfold doc_num in Ho. rewrite signed64_small by lia. by replace (n <? 0) with false by lia.
Qed.

Lemma version_opt_written l k d o :
  field_of k l = json_of_semver <$> o -> opt_wf semver_valid o -> version_opt (obj l) k d = inr o.
Proof. intros H Ho. unfold version_opt. by rewrite (read_semver_opt_field _ _ o H Ho). Qed.

Lemma some_num n : doc_num n -> opt_wf doc_num (Some n).
Proof. by intros H ? [= <-]. Qed.

Lemma version_written v :
  semver_valid (vr_minimum v) -> opt_wf semver_valid (vr_maximum_exclusive v) ->
  let l := [("minimum", json_of_semver (vr_minimum v))] ++
           opt_field "maximum_exclusive" json_of_semver (vr_maximum_exclusive v) in
  read_semver (obj l) "minimum" = inr (vr_minimum v) /\
  version_opt (obj l) "maximum_exclusive" "maximum version rejected" = inr (vr_maximum_exclusive v).
Proof.
  intros H1 H2. cbv zeta. split.
  - unfold read_semver, json_of_semver. by erewrite read_text_field by first [field_tac | by apply semver_spelled].
  - apply version_opt_written; [field_tac|done].
Qed.

Definition version_fields (v : VersionRequirement) : list (string * JsonValue) :=
  [("minimum", json_of_semver (vr_minimum v))] ++ opt_field "maximum_exclusive" json_of_semver (vr_maximum_exclusive v).

Definition requirement_fields (r : CapabilityRequirement) : list (string * JsonValue) :=
  [("device", json_of_device_ref (rq_device r));
   ("capability_kind", JString (capability_kind_to_string (rq_capability r)));
   ("version", obj (version_fields (rq_version r)));
   ("required_features", json_of_features (rq_required_features r));
   ("required_limits", arr json_of_limit_requirement (rq_required_limits r))] ++
  opt_field "minimum_firmware_version" json_of_semver (rq_minimum_firmware_version r) ++
  opt_field "minimum_firmware_generation" jint (rq_minimum_firmware_generation r) ++
  opt_field "minimum_runtime_version" json_of_semver (rq_minimum_runtime_version r) ++
  opt_field "minimum_runtime_generation" jint (rq_minimum_runtime_generation r) ++
  [("max_evidence_age", jint (rq_max_evidence_age r))].

Lemma requirement_of_written r : doc_requirement r -> requirement_of (json_of_requirement r) = inr r.
Proof.
  intros (Hd & Hmin & Hmax & Hf & Hl & Hfv & Hfg & Hrv & Hrg & Hage & Haf & Hal).
  change (json_of_requirement r) with (obj (requirement_fields r)). unfold requirement_of.
  rewrite find_obj. replace (field_of "device" (requirement_fields r)) with (Some (json_of_device_ref (rq_device r)))
    by (unfold requirement_fields; field_tac).
  rewrite (document_read (rq_device r)) by done. cbn [with_detail]. unfold read_enum.
  erewrite read_text_field by first [unfold requirement_fields; field_tac | apply kind_spelled]. cbn [with_detail].
  rewrite find_obj. replace (field_of "version" (requirement_fields r)) with (Some (obj (version_fields (rq_version r))))
    by (unfold requirement_fields; field_tac).
  destruct (version_written (rq_version r) Hmin Hmax) as [V1 V2]. fold (version_fields (rq_version r)) in V1, V2.
  pose proof (obj_is_object (version_fields (rq_version r))) as Ho.
  destruct (obj (version_fields (rq_version r))) as [| | | | |m]; try done.
  rewrite V1. cbn [with_detail]. rewrite V2, find_obj.
  replace (field_of "required_features" (requirement_fields r)) with (Some (json_of_features (rq_required_features r)))
    by (unfold requirement_fields; field_tac).
  rewrite read_features_written by done. cbn [with_detail].
  rewrite (requirement_limits_written _ (rq_required_limits r)) by first [done | unfold requirement_fields; field_tac].
  rewrite (version_opt_written _ "minimum_firmware_version" _ (rq_minimum_firmware_version r)) by first [done | unfold requirement_fields; field_tac].
  rewrite (number_opt_written _ "minimum_firmware_generation" _ (rq_minimum_firmware_generation r)) by first [done | unfold requirement_fields; field_tac].
  rewrite (version_opt_written _ "minimum_runtime_version" _ (rq_minimum_runtime_version r)) by first [done | unfold requirement_fields; field_tac].
  rewrite (number_opt_written _ "minimum_runtime_generation" _ (rq_minimum_runtime_generation r)) by first [done | unfold requirement_fields; field_tac].
  rewrite (number_opt_written _ "max_evidence_age" _ (Some (rq_max_evidence_age r)))
    by first [by apply some_num | unfold requirement_fields; field_tac].
  by destruct r as [? ? []].
Qed.

(** ** The documents *)

Definition policy_document (p : RegistryPolicy) : JsonValue :=
  obj [("format", JString "ocreg.policy"); ("format_version", jint kExportFormatVersion); ("policy", json_of_policy p)].
Definition requirement_document (r : CapabilityRequirement) : JsonValue :=
  obj [("format", JString "ocreg.requirement"); ("format_version", jint kExportFormatVersion);
       ("requirement", json_of_requirement r)].

Lemma policy_document_printable p : doc_policy p -> printable 4 (policy_document p).
Proof.
  intros Hp. apply (printable_obj 3); [done|]. entries.
  - apply printable_string; [apply plain_text; key_plain|lia].
  - apply printable_num; [by split|lia].
  - by apply policy_printable.
Qed.

Lemma limit_requirements_printable n l : Forall limit_requirement_wf l -> 2 <= n -> printable n (arr json_of_limit_requirement l).
Proof.
  intros Hs Hn. eapply arr_printable; [lia| |exact Hs]. intros x (_ & Hu & Hv & _).
  eapply printable_mono; [|apply (printable_obj 0); [done|]]; [lia|]. entries.
  apply printable_int; [unfold i64_min, i64_max in *; lia|lia].
Qed.

Lemma requirement_printable r : doc_requirement r -> printable 3 (json_of_requirement r).
Proof.
  intros (Hd & Hmin & Hmax & Hf & [Hl _] & Hfv & Hfg & Hrv & Hrg & Hage & _).
  apply (printable_obj 2); [done|]. entries.
  all: try (unfold json_of_semver; apply printable_string; [|lia]; apply plain_text, semver_plain; eauto).
  - apply device_ref_printable; [done|lia].
  - eapply printable_mono; [|apply (printable_obj 0); [done|]]; [lia|]. entries.
    all: unfold json_of_semver; apply printable_string; [|lia]; apply plain_text, semver_plain; eauto.
  - apply features_printable. lia.
  - apply limit_requirements_printable; [done|lia].
  - apply printable_num; [by apply Hfg|lia].
  - apply printable_num; [by apply Hrg|lia].
Qed.

Lemma requirement_document_printable r : doc_requirement r -> printable 4 (requirement_document r).
Proof.
  intros Hr. apply (printable_obj 3); [done|]. entries.
  - apply printable_string; [apply plain_text; key_plain|lia].
  - apply printable_num; [by split|lia].
  - by apply requirement_printable.
Qed.

(** The document is within the parser's bounds. *)
Definition parseable (v : JsonValue) (pretty : bool) : Prop :=
  Z.of_nat (String.length (dump pretty v)) <= jl_max_bytes default_json_limits /\
  json_items v <= jl_max_items default_json_limits.

(** C25: policies and requirements survive their documents, when all their numbers
    are below 2^63: what the program renders of a policy with at most 1024 sources,
    strictly ordered, or of a requirement whose features and limits are strictly
    ordered and allowed for its kind, in either layout, is parsed back to exactly
    that policy or requirement, provided the document is within the parser's
    bounds on size and items. *)
Theorem documents_roundtrip pretty :
  (forall p, doc_policy p -> Z.of_nat (length (rp_sources p)) <= 1024 -> parseable (policy_document p) pretty ->
     parse_policy_document (render_policy_document p pretty) = outcome_value p) /\
  (forall r, doc_requirement r -> parseable (requirement_document r) pretty ->
     parse_requirement_document (render_requirement_document r pretty) = outcome_value r).
Proof.
  split.
  - intros p Hp Hn [Hb Hi]. unfold parse_policy_document, render_policy_document. fold (policy_document p).
    rewrite (printable_read_back 4 _ pretty (policy_document_printable p Hp) ltac:(by vm_compute) Hb Hi).
    unfold policy_document. rewrite obj_is_object, find_obj. cbn [negb].
    replace (field_of "policy" _) with (Some (json_of_policy p)) by field_tac.
    unfold json_of_policy at 1. rewrite obj_is_object. cbn [negb]. by rewrite policy_of_written.
  - intros r Hr [Hb Hi]. unfold parse_requirement_document, render_requirement_document. fold (requirement_document r).
    rewrite (printable_read_back 4 _ pretty (requirement_document_printable r Hr) ltac:(by vm_compute) Hb Hi).
    unfold requirement_document. rewrite obj_is_object, find_obj. cbn [negb]. cbv zeta.
    replace (field_of "requirement" _) with (Some (json_of_requirement r)) by field_tac.
    unfold json_of_requirement at 1. rewrite obj_is_object. cbn [negb]. by rewrite requirement_of_written.
Qed.

Lemma lab_policy_document : doc_policy make_lab_policy.
Proof. exportable. Qed.

Lemma sample_requirement_document : doc_requirement Sample.requirement.
Proof. exportable. Qed.

Lemma documents_roundtrip_witness :
  parse_policy_document (render_policy_document make_lab_policy true) = outcome_value make_lab_policy /\
  parse_requirement_document (render_requirement_document Sample.requirement false) = outcome_value Sample.requirement.
Proof.
  split.
  - apply (proj1 (documents_roundtrip true)); [exact lab_policy_document|vm_compute; discriminate|].
    split; vm_compute; discriminate.
  - apply (proj2 (documents_roundtrip false)); [exact sample_requirement_document|]. split; vm_compute; discriminate.
Defined.
