(* ===== verification/Net.v ===== *)
(** * Blocking socket reads and writes (src/net.hpp, src/net.cpp)

    [recv] and [send] belong to the operating system: what each call returns is
    a script. An inbound script lists the segments that arrive, interruptions
    and failures, and ends when the peer closes the stream; an outbound script
    says how much each call accepts, and an exhausted one accepts the rest.  A
    call may also wait for a peer that does nothing more: it returns only when
    the socket is closed on this side, and then with a failure; [recv_waits] and
    [send_waits] say whether a read or a write gets that far. *)

From Stdlib Require Import ZArith Lia.
From stdpp Require Import base tactics list.
From S2P Require Import Prelude.

#[local] Open Scope Z_scope.
#[local] Open Scope list_scope.

Inductive IoResult := RecvOk | RecvClosed | RecvError.

#[export] Instance io_result_eq_dec : EqDecision IoResult.
Proof. solve_decision. Defined.

(** What one call of [recv] finds: at most the requested length of a segment is
    taken and the rest stays for the next call. *)
Inductive RecvEvent := Arrives (segment : list Z) | RecvInterrupted | RecvFailed | RecvWaits.
(** What one call of [send] does. *)
Inductive SendEvent := Accepts (n : nat) | SendInterrupted | SendFailed | SendWaits.

(** The result, the bytes stored and the events left. *)
Fixpoint recv_exact (want : nat) (events : list RecvEvent) : IoResult * list Z * list RecvEvent :=
  match want with
  | O => (RecvOk, [], events)
  | _ =>
      match events with
      | [] => (RecvClosed, [], [])
      | RecvInterrupted :: events' => recv_exact want events'
      | RecvFailed :: events' => (RecvError, [], events')
      | RecvWaits :: _ => (RecvError, [], [])
      | Arrives segment :: events' =>
          if (length segment =? 0)%nat then (RecvClosed, [], events')
          else if (length segment <=? want)%nat
          then let '(result, bytes, rest) := recv_exact (want - length segment) events' in
               (result, segment ++ bytes, rest)
          else (RecvOk, take want segment, Arrives (drop want segment) :: events')
      end
  end.

(** Whether everything was sent, the bytes that were and the events left. *)
Fixpoint send_all (buffer : list Z) (events : list SendEvent) : bool * list Z * list SendEvent :=
  match buffer with
  | [] => (true, [], events)
  | _ =>
      match events with
      | [] => (true, buffer, [])
      | SendInterrupted :: events' => send_all buffer events'
      | SendFailed :: events' => (false, [], events')
      | SendWaits :: _ => (false, [], [])
      | Accepts n :: events' =>
          if (n =? 0)%nat then (false, [], events')
          else let '(ok, sent, rest) := send_all (drop n buffer) events' in (ok, take n buffer ++ sent, rest)
      end
  end.

(** Whether a call of the loop waits. *)
Fixpoint recv_waits (want : nat) (events : list RecvEvent) : bool :=
  match events with
  | [] => false
  | e :: events' =>
      if (want =? 0)%nat then false
      else match e with
           | RecvInterrupted => recv_waits want events'
           | RecvFailed => false
           | RecvWaits => true
           | Arrives segment =>
               negb (length segment =? 0)%nat && (length segment <=? want)%nat &&
               recv_waits (want - length segment) events'
           end
  end.
Fixpoint send_waits (buffer : list Z) (events : list SendEvent) : bool :=
  match events with
  | [] => false
  | e :: events' =>
      if (length buffer =? 0)%nat then false
      else match e with
           | SendInterrupted => send_waits buffer events'
           | SendFailed => false
           | SendWaits => true
           | Accepts n => negb (n =? 0)%nat && send_waits (drop n buffer) events'
           end
  end.

(** ** Segmentation does not matter *)

(** The bytes a script delivers. *)
Fixpoint delivered (events : list RecvEvent) : list Z :=
  match events with
  | [] => []
  | Arrives segment :: events' => segment ++ delivered events'
  | RecvWaits :: _ => []
  | _ :: events' => delivered events'
  end.

(** A connection that is never cut: no failure and no empty segment. *)
Definition steady_event (e : RecvEvent) : Prop :=
  match e with Arrives segment => segment <> [] | RecvInterrupted => True | RecvFailed | RecvWaits => False end.
Definition steady (events : list RecvEvent) : Prop := Forall steady_event events.

Definition sends_event (e : SendEvent) : Prop :=
  match e with Accepts n => n <> 0%nat | SendInterrupted => True | SendFailed | SendWaits => False end.
Definition sends (events : list SendEvent) : Prop := Forall sends_event events.

(** However the stream is cut into segments, and however often it is
    interrupted, exactly the next bytes are read and the others are kept. *)
Lemma recv_exact_steady want events :
  steady events -> (want <= length (delivered events))%nat ->
  exists rest, recv_exact want events = (RecvOk, take want (delivered events), rest) /\
    steady rest /\ delivered rest = drop want (delivered events).
Proof.
  intros Hs. revert want. induction Hs as [|e events He Hs IH]; intros want Hw.
  - destruct want; [exists []; split_and!; [done|constructor|done]|]. cbn in Hw. lia.
  - destruct want as [|want].
    { exists (e :: events). cbn [recv_exact]. split_and!; [by destruct (delivered _)|by constructor|by rewrite drop_0]. }
    destruct e as [segment| | |]; [|apply IH; exact Hw|done|done]. cbn [recv_exact delivered] in *.
    destruct (length segment =? 0)%nat eqn:E0; [destruct segment; cbn in E0; done|].
    rewrite length_app in Hw. destruct (length segment <=? S want)%nat eqn:El.
    + apply Nat.leb_le in El. destruct (IH (S want - length segment)%nat) as (rest & -> & Hr & Hd); [lia|].
      exists rest. split_and!; [|done|].
      * by rewrite take_app_ge by lia.
      * rewrite Hd. by rewrite drop_app_ge by lia.
    + apply Nat.leb_gt in El. exists (Arrives (drop (S want) segment) :: events). split_and!.
      * by rewrite take_app_le by lia.
      * constructor; [|done]. cbn. intros E%(f_equal length). rewrite length_drop in E. cbn in E. lia.
      * cbn [delivered]. by rewrite drop_app_le by lia.
Qed.

Lemma recv_exact_closed want events :
  steady events -> (length (delivered events) < want)%nat ->
  exists bytes, recv_exact want events = (RecvClosed, bytes, []).
Proof.
  intros Hs. revert want. induction Hs as [|e events He Hs IH]; intros want Hw.
  - destruct want; [cbn in Hw; lia|by exists []].
  - destruct want as [|want]; [lia|]. destruct e as [segment| | |]; [|apply IH; exact Hw|done|done].
    cbn [recv_exact delivered] in *. rewrite length_app in Hw.
    destruct (length segment =? 0)%nat eqn:E0; [destruct segment; cbn in E0; done|].
    replace (length segment <=? S want)%nat with true by (symmetry; apply Nat.leb_le; lia).
    destruct (IH (S want - length segment)%nat) as (bytes & ->); [lia|]. by eexists.
Qed.

Lemma send_all_sends buffer events :
  sends events -> exists rest, send_all buffer events = (true, buffer, rest) /\ sends rest.
Proof.
  intros Hs. revert buffer. induction Hs as [|e events He Hs IH]; intros buffer.
  - exists []. split; [by destruct buffer|constructor].
  - destruct buffer as [|b buffer]; [exists (e :: events); split; [done|by constructor]|].
    destruct e as [n| | |]; [|apply IH|done|done]. cbn [send_all]. cbn in He.
    destruct (n =? 0)%nat eqn:En; [apply Nat.eqb_eq in En; done|].
    destruct (IH (drop n (b :: buffer))) as (rest & -> & Hr). exists rest. by rewrite take_drop.
Qed.

(** Whatever happens, what was read is a prefix of the stream, and the bytes
    left are no more than what remains of it. *)
Lemma recv_exact_progress want events result bytes rest :
  recv_exact want events = (result, bytes, rest) ->
  (result = RecvOk -> length bytes = want) /\
  (length bytes + length (delivered rest) <= length (delivered events))%nat /\
  (Forall (in_u 8) (delivered events) -> Forall (in_u 8) bytes /\ Forall (in_u 8) (delivered rest)).
Proof.
  revert want result bytes rest. induction events as [|e events IH]; intros want result bytes rest H.
  - destruct want; injection H as <- <- <-; split_and!; cbn; auto; lia || done.
  - destruct want as [|want]; [injection H as <- <- <-; split_and!; cbn; auto; lia|].
    destruct e as [segment| | |]; cbn [recv_exact delivered] in *.
    2: by apply IH.
    2: injection H as <- <- <-; split_and!; [done|cbn; lia|auto].
    2: injection H as <- <- <-; split_and!; [done|cbn; lia|auto].
    rewrite length_app, Forall_app. destruct (length segment =? 0)%nat.
    { injection H as <- <- <-. split_and!; [done|cbn; lia|]. intros [_ ?]. auto. }
    destruct (length segment <=? S want)%nat eqn:El.
    + apply Nat.leb_le in El.
      destruct (recv_exact (S want - length segment) events) as [[result' bytes'] rest'] eqn:E.
      injection H as <- <- <-. destruct (IH _ _ _ _ E) as (H1 & H2 & H3). rewrite length_app. split_and!.
      * intros Hr. rewrite H1 by done. lia.
      * lia.
      * intros [Hs He]. destruct (H3 He) as [? ?]. split; [|done]. by apply Forall_app.
    + apply Nat.leb_gt in El. injection H as <- <- <-. cbn [delivered].
      rewrite length_take, !length_app, length_drop. split_and!; [intros _; lia|lia|].
      intros [Hs He]. split; [by apply Forall_take|]. apply Forall_app. split; [by apply Forall_drop|done].
Qed.

(** A successful read takes the bytes off the front of the stream. *)
Lemma recv_exact_split want events bytes rest :
  recv_exact want events = (RecvOk, bytes, rest) -> delivered events = bytes ++ delivered rest.
Proof.
  revert want bytes rest. induction events as [|e events IH]; intros want bytes rest H.
  - destruct want; [by injection H as <- <-|done].
  - destruct want as [|want]; [by injection H as <- <-|]. destruct e as [segment| | |]; cbn [recv_exact delivered] in *.
    2: by apply (IH (S want)).
    2: done.
    2: done.
    destruct (length segment =? 0)%nat; [done|]. destruct (length segment <=? S want)%nat.
    + destruct (recv_exact (S want - length segment) events) as [[result' bytes'] rest'] eqn:E.
      injection H as -> <- <-. by rewrite (IH _ _ _ E), app_assoc.
    + injection H as <- <-. cbn [delivered]. by rewrite app_assoc, take_drop.
Qed.

(** What was sent is a prefix of the buffer, and all of it on success. *)
Lemma send_all_prefix buffer events ok sent rest :
  send_all buffer events = (ok, sent, rest) -> sent `prefix_of` buffer /\ (ok = true -> sent = buffer).
Proof.
  revert buffer ok sent rest. induction events as [|e events IH]; intros buffer ok sent rest H.
  - destruct buffer; by injection H as <- <- <-.
  - destruct buffer as [|b buffer]; [by injection H as <- <- <-|].
    destruct e as [n| | |]; cbn [send_all] in H;
      [|by eapply IH|injection H as <- <- <-; split; [apply prefix_nil|done]..].
    destruct (n =? 0)%nat; [injection H as <- <- <-; split; [apply prefix_nil|done]|].
    destruct (send_all (drop n (b :: buffer)) events) as [[ok' sent'] rest'] eqn:E. injection H as <- <- <-.
    destruct (IH _ _ _ _ E) as [Hp Hok]. rewrite <- (take_drop n (b :: buffer)) at 2 4. split.
    + by apply prefix_app.
    + intros Ht. by rewrite Hok.
Qed.
