(* ===== verification/Service.v ===== *)
(** * The service (src/service.cpp, include/ocreg/service.hpp)

    Request dispatch, the loop that serves one connection, and the threads
    around it: the acceptor with its bounded queue, the workers and [stop], as a
    step relation whose steps are the critical sections of the code. *)

From Stdlib Require Import ZArith Lia String.
From stdpp Require Import base tactics list strings relations.
From S2P Require Import Prelude Checked Reason Text Hash Catalog Evidence State Codec CodecTypes.
From S2P Require Import Registry RegistryOps Persist Protocol Export Net.

#[local] Open Scope string_scope.
#[local] Open Scope Z_scope.
#[local] Open Scope list_scope.

(** ** Options *)

Record ServerOptions := mkServerOptions {
  so_bind_address : string;
  so_port : Z;
  so_max_connections : Z;
  so_max_workers : Z;
  so_max_frame_payload : Z;
  so_max_queued_requests : Z;
  so_max_requests_per_connection : Z;
  so_max_export_bytes : Z;
  so_reuse_address : bool }.

Definition default_server_options : ServerOptions :=
  mkServerOptions "127.0.0.1" 0 16 4 kMaxFramePayload 256 0 (32 * 1024 * 1024) true.

(** ** Dispatch *)

Definition failure_envelope (reason : ReasonCode) (detail : string) : ResponseEnvelope :=
  mkEnvelope reason detail [].
Definition success_envelope {T} (reason : ReasonCode) (value : T) (encode : T -> list Z) : ResponseEnvelope :=
  mkEnvelope reason "" (encode value).

(** [if (!decode(reader, request) || !reader.at_end()) return failure]. *)
Definition handle {Req} (decode : Reader Req) (detail : string)
    (run : Req -> Impl -> ResponseEnvelope * Impl) (payload : list Z) (x : Impl) : ResponseEnvelope * Impl :=
  match decode payload with
  | inr (request, []) => run request x
  | _ => (failure_envelope ProtocolFrameMalformed detail, x)
  end.

(** [if (!outcome.ok()) return failure_envelope(...)], then [answer] of the value. *)
Definition reply_outcome {T} (o : Outcome T) (answer : T -> ResponseEnvelope) : ResponseEnvelope :=
  match outcome_ok o, oc_value o with
  | true, Some v => answer v
  | _, _ => failure_envelope (outcome_reason o) (st_detail (oc_status o))
  end.

Definition reply_bool (o : Outcome bool) : ResponseEnvelope :=
  reply_outcome o (fun v => success_envelope Ok_ (mkBoolResponse v (st_code (oc_status o))) enc_bool_response).

(** A read-only operation leaves the registry as it is. *)
Definition unchanged {Req} (f : Req -> Impl -> ResponseEnvelope) (q : Req) (x : Impl) : ResponseEnvelope * Impl :=
  (f q x, x).
(** An operation that changes it. *)
Definition updating {Req T} (op : Req -> Impl -> T * Impl) (reply : T -> ResponseEnvelope) (q : Req) (x : Impl)
  : ResponseEnvelope * Impl :=
  let '(o, y) := op q x in (reply o, y).

Definition export_reply (q : ExportOptions * Tick) (x : Impl) : ResponseEnvelope :=
  let o := fst q in
  let options := mkExportOptions (eo_include_history o) (eo_include_rejected o) (eo_include_evictions o)
                   (eo_include_policy o) (eo_pretty o) (eo_max_records o)
                   (if eo_max_bytes o =? 0 then kMaxFramePayload else eo_max_bytes o) in
  reply_outcome (export_registry x options (snd q))
    (fun r => success_envelope Ok_ (mkExportResponse (er_document r) (er_digest r) (er_truncated r) (er_notes r))
                enc_export_response).

Definition affirmative : ResponseEnvelope := success_envelope Ok_ (mkBoolResponse true Ok_) enc_bool_response.

Definition dispatch (opcode : OpCode) : list Z -> Impl -> ResponseEnvelope * Impl :=
  match opcode with
  | OpPing => handle dec_now "ping payload rejected" (unchanged (fun _ _ => affirmative))
  | OpStats => handle dec_now "stats payload rejected"
      (unchanged (fun now x => success_envelope Ok_ (stats now x) enc_stats_response))
  | OpAdmit => handle dec_admission "admission payload rejected"
      (updating (fun q => registry_admit q (aq_observed_at q))
         (fun o => reply_outcome o (fun v => success_envelope (ao_reason v) v enc_admission_outcome)))
  | OpRetire => handle dec_retire_request "retirement payload rejected"
      (updating (fun q => retire q (rt_retired_at q))
         (fun o => reply_outcome o (fun v => success_envelope (ro_reason v) v enc_retirement_outcome)))
  | OpQuery => handle dec_query_request "query payload rejected"
      (unchanged (fun q x => reply_outcome (query (fst q) (snd q) x)
                               (fun v => success_envelope Ok_ v enc_query_result)))
  | OpEvaluate => handle dec_evaluate_request "evaluation payload rejected"
      (updating (fun q => evaluate (fst q) (snd q)) (fun d => success_envelope Ok_ d enc_decision))
  | OpExplain => handle dec_explain_request "explain payload rejected"
      (unchanged (fun id x => reply_outcome (explain id x) (fun v => success_envelope Ok_ v enc_explanation)))
  | OpExport => handle dec_export_request "export payload rejected" (unchanged export_reply)
  | OpRevokeSource => handle dec_source_request "revoke payload rejected"
      (updating (fun q => revoke_source (fst q) (snd q)) reply_bool)
  | OpRestoreSource => handle dec_source_request "restore payload rejected"
      (updating (fun q => restore_source (fst q) (snd q)) reply_bool)
  | OpSetSourceAuthority => handle dec_authority_request "authority payload rejected"
      (updating (fun q => set_source_authority (fst (fst q)) (snd (fst q)) (snd q)) reply_bool)
  | OpUpsertSourcePolicy => handle dec_policy_request "policy payload rejected"
      (updating (fun q => upsert_source_policy (fst q) (snd q))
         (fun o => reply_outcome o (fun v => success_envelope Ok_ v enc_source_policy)))
  | OpBeginDeviceIncarnation => handle dec_incarnation_request "incarnation payload rejected"
      (updating (fun q => begin_device_incarnation (fst q) (snd q))
         (fun o => reply_outcome o (fun v => success_envelope Ok_ (mkIdResponse v AcceptedNew) enc_id_response)))
  | OpCurrentIncarnation => handle dec_incarnation_request "incarnation payload rejected"
      (unchanged (fun q x => reply_outcome (current_incarnation (fst q) x)
                               (fun v => success_envelope Ok_ (mkIdResponse v Ok_) enc_id_response)))
  | OpResolveConflict => handle dec_resolve_request "resolution payload rejected"
      (updating (fun q => resolve_conflict (rc_conflict q) (rc_chosen q) (rc_resolver q) (rc_now q))
         (fun o => reply_outcome o (fun v => success_envelope Ok_ v enc_resolution)))
  | OpEvictionLedger => handle dec_now "ledger payload rejected"
      (unchanged (fun _ x => success_envelope Ok_ (mkLedgerResponse (i_evictions x) false) enc_ledger_response))
  | OpSnapshot => handle dec_now "snapshot payload rejected"
      (unchanged (fun _ x => success_envelope Ok_ (state_digest (to_state x)) w_digest))
  | OpShutdown => handle dec_now "shutdown payload rejected" (unchanged (fun _ _ => affirmative))
  end.

(** The shutdown handler ran. *)
Definition requests_shutdown (opcode : OpCode) (payload : list Z) : bool :=
  match opcode, dec_now payload with OpShutdown, inr (_, []) => true | _, _ => false end.

(** ** One connection *)

Record Counters := mkCounters {
  requests_served : Z;
  connections_accepted : Z;
  connections_refused : Z;
  frames_rejected : Z;
  bytes_read : Z;
  bytes_written : Z;
  shutdown_requests : Z }.

(** What the handlers share. *)
Record Core := mkCore { sc_registry : Impl; sc_shutdown_flag : bool; sc_counters : Counters }.

Definition count_rejected (c : Core) : Core :=
  let n := sc_counters c in
  mkCore (sc_registry c) (sc_shutdown_flag c)
    (mkCounters (requests_served n) (connections_accepted n) (connections_refused n)
       (u64 (frames_rejected n + 1)) (bytes_read n) (bytes_written n) (shutdown_requests n)).
Definition count_read (k : Z) (c : Core) : Core :=
  let n := sc_counters c in
  mkCore (sc_registry c) (sc_shutdown_flag c)
    (mkCounters (requests_served n) (connections_accepted n) (connections_refused n)
       (frames_rejected n) (u64 (bytes_read n + k)) (bytes_written n) (shutdown_requests n)).
Definition count_served (k : Z) (c : Core) : Core :=
  let n := sc_counters c in
  mkCore (sc_registry c) (sc_shutdown_flag c)
    (mkCounters (u64 (requests_served n + 1)) (connections_accepted n) (connections_refused n)
       (frames_rejected n) (bytes_read n) (u64 (bytes_written n + k)) (shutdown_requests n)).

(** [dispatch] on the shared state: the registry, and the flag and counter the
    shutdown handler sets. *)
Definition dispatch_core (header : FrameHeader) (payload : list Z) (c : Core) : ResponseEnvelope * Core :=
  let '(envelope, x) := dispatch (fh_opcode header) payload (sc_registry c) in
  let n := sc_counters c in
  (envelope,
   if requests_shutdown (fh_opcode header) payload
   then mkCore x true
          (mkCounters (requests_served n) (connections_accepted n) (connections_refused n)
             (frames_rejected n) (bytes_read n) (bytes_written n) (u64 (shutdown_requests n + 1)))
   else mkCore x (sc_shutdown_flag c) n).

(** A socket: what will arrive, what the peer accepts, what was sent. *)
Record Socket := mkSocket {
  sk_inbound : list RecvEvent;
  sk_outbound : list SendEvent;
  sk_sent : list Z }.

Definition socket_send (buffer : list Z) (k : Socket) : bool * Socket :=
  let '(ok, sent, rest) := send_all buffer (sk_outbound k) in
  (ok, mkSocket (sk_inbound k) rest (sk_sent k ++ sent)).
Definition socket_recv (want : nat) (k : Socket) : IoResult * list Z * Socket :=
  let '(result, bytes, rest) := recv_exact want (sk_inbound k) in
  (result, bytes, mkSocket rest (sk_outbound k) (sk_sent k)).

(** A reply to [header], which the payload and the flags complete. *)
Definition reply_frame (header : FrameHeader) (flags : Z) (payload : list Z) : Frame :=
  mkFrame (mkFrameHeader kProtocolVersion flags (fh_opcode header) 0 (fh_request_id header) 0 digest_zero 0)
    payload.
Definition failure_flags : Z := Z.lor (Z.lor flag_response flag_failure) flag_final.

Definition refusal_frame (header : FrameHeader) (reason : ReasonCode) (detail : string) : Frame :=
  reply_frame header failure_flags (enc_envelope (failure_envelope reason detail)).

(** The reply to a dispatched request, and whether it replaces one too large to
    send. *)
Definition response_frame (max_frame_payload : Z) (header : FrameHeader) (envelope : ResponseEnvelope)
  : Frame * bool :=
  let flags := Z.lor flag_response flag_final in
  let flags := if is_failure (re_reason envelope) then Z.lor flags flag_failure else flags in
  let payload := enc_envelope envelope in
  if Z.of_nat (length payload) >? max_frame_payload
  then (reply_frame header (Z.lor flags flag_failure)
          (enc_envelope (failure_envelope ProtocolFrameTooLarge "response exceeds the frame bound")), true)
  else (reply_frame header flags payload, false).

(** The requests served on this connection and whether the loop goes on. *)
Definition serve_request (options : ServerOptions) (header : FrameHeader) (payload : list Z) (served : Z)
    (c : Core) (k : Socket) : Core * Socket * Z * bool :=
  let '(envelope, c) := dispatch_core header payload c in
  let '(reply, too_large) := response_frame (so_max_frame_payload options) header envelope in
  let c := if too_large then count_rejected c else c in
  let bytes := serialize_frame reply in
  let '(ok, k) := socket_send bytes k in
  if negb ok then (c, k, served, false)
  else
  let c := count_served (Z.of_nat (length bytes)) c in
  let served := u64 (served + 1) in
  let limit := so_max_requests_per_connection options in
  (c, k, served, negb (negb (limit =? 0) && (served >=? limit))).

(** One turn of the loop of [serve_connection]. *)
Definition serve_round (options : ServerOptions) (stopping : bool) (served : Z) (c : Core) (k : Socket)
  : Core * Socket * Z * bool :=
  if stopping then (c, k, served, false)
  else
  let '(result, header_bytes, k) := socket_recv kFrameHeaderSize k in
  if negb (bool_decide (result = RecvOk)) then (c, k, served, false)
  else
  let c := count_read (Z.of_nat kFrameHeaderSize) c in
  match decode_frame_header header_bytes with
  | inl reason =>
      let c := count_rejected c in
      let '(_, k) := socket_send (serialize_frame (refusal_frame default_frame_header reason "frame header rejected")) k in
      (c, k, served, false)
  | inr header =>
      if fh_payload_len header >? so_max_frame_payload options then (count_rejected c, k, served, false)
      else
      let '(result, payload, k) := socket_recv (Z.to_nat (fh_payload_len header)) k in
      if negb (bool_decide (result = RecvOk)) then (c, k, served, false)
      else
      let c := if (length payload =? 0)%nat then c else count_read (Z.of_nat (length payload)) c in
      if negb (bool_decide (digest_of payload = fh_payload_digest header)) then
        let c := count_rejected c in
        let '(_, k) := socket_send
          (serialize_frame (refusal_frame header ProtocolChecksumMismatch "payload digest mismatch")) k in
        (c, k, served, false)
      else serve_request options header payload served c k
  end.

(** Whether the turn, started with a clear flag, gets to a call that waits. *)
Definition round_waits (options : ServerOptions) (c : Core) (k : Socket) : bool :=
  recv_waits kFrameHeaderSize (sk_inbound k) ||
  match socket_recv kFrameHeaderSize k with
  | (RecvOk, header_bytes, k) =>
      match decode_frame_header header_bytes with
      | inl reason =>
          send_waits (serialize_frame (refusal_frame default_frame_header reason "frame header rejected")) (sk_outbound k)
      | inr header =>
          if fh_payload_len header >? so_max_frame_payload options then false
          else
            let want := Z.to_nat (fh_payload_len header) in
            recv_waits want (sk_inbound k) ||
            match socket_recv want k with
            | (RecvOk, payload, k) =>
                let reply :=
                  if negb (bool_decide (digest_of payload = fh_payload_digest header))
                  then refusal_frame header ProtocolChecksumMismatch "payload digest mismatch"
                  else fst (response_frame (so_max_frame_payload options) header (fst (dispatch_core header payload c))) in
                send_waits (serialize_frame reply) (sk_outbound k)
            | _ => false
            end
      end
  | _ => false
  end.

(** The whole loop; [stopping i] is what the flag reads at turn [i], and [None]
    means the fuel ran out. *)
Fixpoint serve_connection (fuel : nat) (options : ServerOptions) (stopping : nat -> bool) (turn : nat)
    (served : Z) (c : Core) (k : Socket) : option (Core * Socket * Z) :=
  match fuel with
  | O => None
  | S fuel' =>
      let '(c, k, served, continues) := serve_round options (stopping turn) served c k in
      if continues then serve_connection fuel' options stopping (S turn) served c k
      else Some (c, k, served)
  end.
