(* ===== verification/ServiceThreads.v ===== *)
(** * The threads of the service (src/service.cpp)

    The acceptor, the workers and [stop] share the queue of accepted sockets,
    the list of active connections and the stop flag under one mutex. A step is
    one critical section, or one turn of a connection's loop (the registry
    serialises the requests dispatched from several connections).

    Threads block where the code does: the acceptor in [accept] until a client or
    [stop] itself connects, a worker without a socket in the wait for the
    condition variable until it is notified (or wakes spuriously), a worker that
    reads from or writes to a silent peer until [stop] closes its socket, and
    [stop] in the two joins. *)

From Stdlib Require Import ZArith Lia String.
From stdpp Require Import base tactics list strings relations.
From S2P Require Import Prelude Checked Reason Text Hash Catalog Evidence State Codec CodecTypes.
From S2P Require Import Registry RegistryOps Persist Protocol Export Net Service.

#[local] Open Scope string_scope.
#[local] Open Scope Z_scope.
#[local] Open Scope list_scope.

(** ** State *)

(** A connection: its loop runs, it waits in a read or a write for a peer that
    does nothing more, or the loop was left and it is closed and still listed. *)
Inductive ConnectionPhase := Serving | Blocked | Left.
Record Connection := mkConnection {
  cn_socket : Socket;
  cn_served : Z;
  cn_phase : ConnectionPhase }.

(** The acceptor waits in [accept], holds a socket for which it has read the
    stop flag, or has left its loop. *)
Inductive Acceptor := AcceptWaiting | AcceptHolding (k : Socket) | AcceptLeft.

(** How far [stop] is: not called; the flag is set; the threads are notified and
    the acceptor woken up; the acceptor is joined, the connections are closed and
    the queue is empty; all threads are joined. *)
Inductive StopPhase := NotStopped | StopRequested | StopWoken | StopClosed | Stopped.

(** Of the workers that serve no connection, [sv_waiting] are awake, about to
    test the condition, [sv_asleep] are in the wait, and [sv_exited] have left. *)

Record Service := mkService {
  sv_core : Core;
  sv_running : bool;
  sv_stopping : bool;
  sv_acceptor : Acceptor;
  sv_queue : list Socket;
  sv_active : list Connection;
  sv_waiting : nat;
  sv_asleep : nat;
  sv_exited : nat;
  sv_stop : StopPhase }.

Definition zero_service_counters : Counters := mkCounters 0 0 0 0 0 0 0.
Definition new_service (x : Impl) : Service :=
  mkService (mkCore x false zero_service_counters) false false AcceptLeft [] [] 0 0 0 NotStopped.

Definition worker_count (options : ServerOptions) : nat :=
  if so_max_workers options =? 0 then 1%nat else Z.to_nat (so_max_workers options).

(** [Service::start]; [listener] is the outcome of binding and listening. *)
Definition service_start (options : ServerOptions) (listener : Outcome Z) (s : Service) : Outcome Z * Service :=
  if sv_running s then (outcome_failure AlreadyPresent "service is already running", s)
  else
  let c := mkCore (sc_registry (sv_core s)) false (sc_counters (sv_core s)) in
  match outcome_ok listener, oc_value listener with
  | true, Some port =>
      (outcome_value port,
       mkService c true false AcceptWaiting (sv_queue s) (sv_active s) (worker_count options) 0 0
         NotStopped)
  | _, _ =>
      (outcome_failure (outcome_reason listener) (st_detail (oc_status listener)),
       mkService c (sv_running s) false (sv_acceptor s) (sv_queue s) (sv_active s) (sv_waiting s)
         (sv_asleep s) (sv_exited s) NotStopped)
  end.

(** ** The acceptor *)

Definition count_accepted (c : Core) : Core :=
  let n := sc_counters c in
  mkCore (sc_registry c) (sc_shutdown_flag c)
    (mkCounters (requests_served n) (u64 (connections_accepted n + 1)) (connections_refused n)
       (frames_rejected n) (bytes_read n) (bytes_written n) (shutdown_requests n)).
Definition count_refused (c : Core) : Core :=
  let n := sc_counters c in
  mkCore (sc_registry c) (sc_shutdown_flag c)
    (mkCounters (requests_served n) (connections_accepted n) (u64 (connections_refused n + 1))
       (frames_rejected n) (bytes_read n) (bytes_written n) (shutdown_requests n)).

(** [notify_one] and [notify_all]. *)
Definition notify_one (s : Service) : Service :=
  match sv_asleep s with
  | O => s
  | S asleep => mkService (sv_core s) (sv_running s) (sv_stopping s) (sv_acceptor s) (sv_queue s) (sv_active s)
                  (S (sv_waiting s)) asleep (sv_exited s) (sv_stop s)
  end.
Definition notify_all (s : Service) : Service :=
  mkService (sv_core s) (sv_running s) (sv_stopping s) (sv_acceptor s) (sv_queue s) (sv_active s)
    (sv_waiting s + sv_asleep s) 0 (sv_exited s) (sv_stop s).

(** The rest of the turn for a socket that passed the check of the flag. *)
Definition accept_socket (options : ServerOptions) (k : Socket) (s : Service) : Service :=
  if Z.of_nat (length (sv_active s) + length (sv_queue s)) <? so_max_connections options
  then notify_one
         (mkService (count_accepted (sv_core s)) (sv_running s) (sv_stopping s) AcceptWaiting
            (sv_queue s ++ [k]) (sv_active s) (sv_waiting s) (sv_asleep s) (sv_exited s) (sv_stop s))
  else mkService (count_refused (sv_core s)) (sv_running s) (sv_stopping s) AcceptWaiting
         (sv_queue s) (sv_active s) (sv_waiting s) (sv_asleep s) (sv_exited s) (sv_stop s).

Definition set_acceptor (a : Acceptor) (s : Service) : Service :=
  mkService (sv_core s) (sv_running s) (sv_stopping s) a (sv_queue s) (sv_active s) (sv_waiting s)
    (sv_asleep s) (sv_exited s) (sv_stop s).

(** ** The workers *)

(** The critical section of [worker_loop] for a worker that is awake: take a
    socket, take and drop it when stopping, leave when stopping and there is
    none; with nothing to do it goes to sleep. *)
Definition worker_turn (s : Service) : option Service :=
  match sv_waiting s, sv_queue s with
  | S waiting, k :: queue =>
      Some (if sv_stopping s
            then mkService (sv_core s) (sv_running s) (sv_stopping s) (sv_acceptor s) queue (sv_active s)
                   waiting (sv_asleep s) (S (sv_exited s)) (sv_stop s)
            else mkService (sv_core s) (sv_running s) (sv_stopping s) (sv_acceptor s) queue
                   (sv_active s ++ [mkConnection k 0 Serving]) waiting (sv_asleep s) (sv_exited s) (sv_stop s))
  | S waiting, [] =>
      Some (if sv_stopping s
            then mkService (sv_core s) (sv_running s) (sv_stopping s) (sv_acceptor s) [] (sv_active s)
                   waiting (sv_asleep s) (S (sv_exited s)) (sv_stop s)
            else mkService (sv_core s) (sv_running s) (sv_stopping s) (sv_acceptor s) [] (sv_active s)
                   waiting (S (sv_asleep s)) (sv_exited s) (sv_stop s))
  | O, _ => None
  end.

(** Closing a socket cancels the pending read and refuses writes; a worker that
    waited in it is released and leaves its loop. *)
Definition close_socket (k : Socket) : Socket := mkSocket [] [SendFailed] (sk_sent k).
Definition close_connection (n : Connection) : Connection :=
  mkConnection (close_socket (cn_socket n)) (cn_served n)
    (match cn_phase n with Serving => Serving | _ => Left end).

(** The connection after its turn: a loop that ends closes it, unless it is one
    that waits. *)
Definition after_turn (waits : bool) (k : Socket) (served : Z) (continues : bool) : Connection :=
  if waits then mkConnection k served Blocked
  else if continues then mkConnection k served Serving
  else mkConnection (close_socket k) served Left.

(** One turn of the loop of connection [i]; [seen] is the value of the stop flag
    the turn started with. *)
Definition connection_turn (options : ServerOptions) (i : nat) (seen : bool) (s : Service) : option Service :=
  match sv_active s !! i with
  | Some (mkConnection k served Serving) =>
      let waits := negb seen && round_waits options (sv_core s) k in
      let '(c, k, served, continues) := serve_round options seen served (sv_core s) k in
      Some (mkService c (sv_running s) (sv_stopping s) (sv_acceptor s) (sv_queue s)
              (<[i := after_turn waits k served continues]> (sv_active s))
              (sv_waiting s) (sv_asleep s) (sv_exited s) (sv_stop s))
  | _ => None
  end.

(** The end of [serve_connection]: the connection leaves the list, and the
    worker tests the condition again or, when stopping with an empty queue,
    leaves. *)
Definition erase_connection (i : nat) (leaves : bool) (s : Service) : option Service :=
  match sv_active s !! i with
  | Some (mkConnection _ _ Left) =>
      if leaves && negb (sv_stopping s && (length (sv_queue s) =? 0)%nat) then None
      else Some (mkService (sv_core s) (sv_running s) (sv_stopping s) (sv_acceptor s) (sv_queue s)
                   (delete i (sv_active s))
                   (if leaves then sv_waiting s else S (sv_waiting s)) (sv_asleep s)
                   (if leaves then S (sv_exited s) else sv_exited s) (sv_stop s))
  | _ => None
  end.

(** ** [stop] *)

(** The flag, set under the mutex. *)
Definition stop_request (s : Service) : Service :=
  if sv_stopping s then s
  else mkService (sv_core s) false true (sv_acceptor s) (sv_queue s) (sv_active s) (sv_waiting s)
         (sv_asleep s) (sv_exited s) StopRequested.

Definition set_stop (p : StopPhase) (s : Service) : Service :=
  mkService (sv_core s) (sv_running s) (sv_stopping s) (sv_acceptor s) (sv_queue s) (sv_active s) (sv_waiting s)
    (sv_asleep s) (sv_exited s) p.

(** The workers are notified, and the connection of [stop] to the service itself,
    or the shut listener, makes [accept] return. *)
Definition stop_wake (s : Service) : Service := set_stop StopWoken (notify_all s).

(** After the acceptor is joined; the workers are notified again. *)
Definition stop_close (s : Service) : Service :=
  notify_all
    (mkService (sv_core s) (sv_running s) (sv_stopping s) (sv_acceptor s) [] (map close_connection (sv_active s))
       (sv_waiting s) (sv_asleep s) (sv_exited s) StopClosed).

(** After the workers are joined. *)
Definition stop_finish (s : Service) : Service :=
  mkService (sv_core s) (sv_running s) (sv_stopping s) (sv_acceptor s) (sv_queue s) [] (sv_waiting s)
    (sv_asleep s) (sv_exited s) Stopped.

(** The condition [wait_for_shutdown] waits for. *)
Definition shutdown_barrier_open (s : Service) : bool := sc_shutdown_flag (sv_core s) || sv_stopping s.

(** ** Steps *)

(** What happens to the service: a client connects, which [accept] reports with
    the flag clear or set (then the socket is closed), or a sleeping worker wakes
    up without having been notified. *)
Inductive outside_step : Service -> Service -> Prop :=
| accept_arrival k s :
    sv_acceptor s = AcceptWaiting -> sv_stopping s = false -> bytes (delivered (sk_inbound k)) ->
    sk_sent k = [] -> outside_step s (set_acceptor (AcceptHolding k) s)
| accept_turned_away s :
    sv_acceptor s = AcceptWaiting -> sv_stopping s = true -> outside_step s (set_acceptor AcceptLeft s)
| spurious_wakeup s : (0 < sv_asleep s)%nat -> outside_step s (notify_one s).

(** What its own threads do. *)
Inductive own_step (options : ServerOptions) : Service -> Service -> Prop :=
| accept_decide k s :
    sv_acceptor s = AcceptHolding k -> own_step options s (accept_socket options k s)
| accept_woken s :
    sv_acceptor s = AcceptWaiting -> sv_stop s = StopWoken -> own_step options s (set_acceptor AcceptLeft s)
| worker_step s t : worker_turn s = Some t -> own_step options s t
| connection_step i seen s t :
    (seen = true -> sv_stopping s = true) -> connection_turn options i seen s = Some t ->
    own_step options s t
| erase_step i leaves s t : erase_connection i leaves s = Some t -> own_step options s t
| stop_request_step s : sv_stop s = NotStopped -> own_step options s (stop_request s)
| stop_wake_step s : sv_stop s = StopRequested -> own_step options s (stop_wake s)
| stop_close_step s :
    sv_stop s = StopWoken -> sv_acceptor s = AcceptLeft -> own_step options s (stop_close s)
| stop_finish_step s :
    sv_stop s = StopClosed -> sv_exited s = worker_count options -> own_step options s (stop_finish s).

Inductive service_step (options : ServerOptions) (s t : Service) : Prop :=
| from_outside : outside_step s t -> service_step options s t
| by_itself : own_step options s t -> service_step options s t.

(** A service started on a registry the library can produce. *)
Definition started (options : ServerOptions) (x : Impl) : Service :=
  snd (service_start options (outcome_value (so_port options)) (new_service x)).
