(* ===== verification/ServiceThms.v ===== *)
(** * The service's promises

    Requests reach the registry only as its operations; the threads keep the
    bounds of the options and the registry well formed in every interleaving;
    and [stop], once called, ends in every schedule with nothing left open. *)

From Stdlib Require Import ZArith Lia String.
From stdpp Require Import base tactics list strings relations.
From S2P Require Import Prelude Checked Reason Text Hash Catalog Evidence State Codec CodecTypes CodecThms.
From S2P Require Import Registry RegistryOps RegistryInv RegistryThms Persist Protocol ProtocolThms Export Net.
From S2P Require Import Service ServiceThreads.

#[local] Open Scope string_scope.
#[local] Open Scope Z_scope.
#[local] Open Scope list_scope.
#[local] Opaque digest_of crc32c catalog_fingerprint reason_table_fingerprint.

(** ** Dispatch *)

Lemma handle_preserves {Req} (decode : Reader Req) detail run payload x (P : Impl -> Prop) :
  P x -> (forall q, decode payload = inr (q, []) -> P (snd (run q x))) ->
  P (snd (handle decode detail run payload x)).
Proof.
  intros Hx Hr. unfold handle. destruct (decode payload) as [|[q [|]]] eqn:E; [done| |done]. by apply Hr.
Qed.

Lemma unchanged_snd {Req} (f : Req -> Impl -> ResponseEnvelope) q x : snd (unchanged f q x) = x.
Proof. done. Qed.
Lemma updating_snd {Req T} (op : Req -> Impl -> T * Impl) reply q x :
  snd (updating op reply q x) = snd (op q x).
Proof. unfold updating. by destruct (op q x). Qed.

Create HintDb service discriminated.
#[export] Hint Constructors step : service.

(** Every request is one operation of the registry, or changes nothing. *)
Lemma dispatch_reachable opcode payload x :
  bytes payload -> reachable x -> reachable (snd (dispatch opcode payload x)).
Proof.
  intros Hb Hx. destruct opcode; cbn [dispatch]; apply handle_preserves; try done; intros q Hq;
    rewrite ?unchanged_snd, ?updating_snd; try done; eapply reach_step; eauto with service.
  apply step_admit. apply codec_dec_wf in Hq as [Hw _]; [|done]. unfold admission_ok. apply Hw.
Qed.

(** ** One turn of a connection *)

(** What a turn keeps: a registry the library can reach, and bytes to come. *)
Definition sound_core (c : Core) : Prop := reachable (sc_registry c).
Definition sound_socket (k : Socket) : Prop := bytes (delivered (sk_inbound k)).
(** The bytes still to come. *)
Definition pending (k : Socket) : nat := length (delivered (sk_inbound k)).

Lemma socket_send_inbound buffer k : sk_inbound (snd (socket_send buffer k)) = sk_inbound k.
Proof. unfold socket_send. by destruct (send_all _ _) as [[ok sent] rest]. Qed.

Lemma socket_recv_spec want k result b k' :
  socket_recv want k = (result, b, k') ->
  (result = RecvOk -> length b = want) /\ (length b + pending k' <= pending k)%nat /\
  (sound_socket k -> bytes b /\ sound_socket k').
Proof.
  unfold socket_recv. destruct (recv_exact want (sk_inbound k)) as [[r b'] rest] eqn:E. intros [= <- <- <-].
  by apply recv_exact_progress in E.
Qed.

Lemma serve_request_spec options header payload served c k c' k' served' continues :
  serve_request options header payload served c k = (c', k', served', continues) ->
  sk_inbound k' = sk_inbound k /\ (bytes payload -> sound_core c -> sound_core c').
Proof.
  unfold serve_request, dispatch_core. intros H.
  destruct (dispatch (fh_opcode header) payload (sc_registry c)) as [envelope x] eqn:Ed.
  destruct (response_frame _ _ _) as [reply too_large].
  destruct (socket_send _ _) as [ok k1] eqn:Es.
  pose proof (socket_send_inbound (serialize_frame reply) k) as Hi. rewrite Es in Hi. cbn [snd] in Hi.
  assert (bytes payload -> sound_core c -> reachable x) as Hx.
  { intros Hb Hc. pose proof (dispatch_reachable (fh_opcode header) payload _ Hb Hc) as Hr. by rewrite Ed in Hr. }
  destruct ok; cbn [negb] in H; injection H as <- <- <- <-; (split; [done|]); intros Hb Hc; specialize (Hx Hb Hc);
    destruct too_large, (requests_shutdown _ _); exact Hx.
Qed.

(** A turn that goes on has consumed a header; any turn keeps what it should. *)
Lemma serve_round_spec options stopping served c k c' k' served' continues :
  serve_round options stopping served c k = (c', k', served', continues) ->
  (continues = true -> stopping = false /\ (pending k' < pending k)%nat) /\ (pending k' <= pending k)%nat /\
  (sound_core c -> sound_socket k -> sound_core c' /\ sound_socket k').
Proof.
  unfold serve_round. destruct stopping; [by intros [= <- <- <- <-]|].
  destruct (socket_recv kFrameHeaderSize k) as [[r1 hb] k1] eqn:E1.
  apply socket_recv_spec in E1 as (Hl & Hp & Hs). unfold sound_core in *.
  destruct (bool_decide_reflect (r1 = RecvOk)) as [->|]; cbn [negb];
    [|intros [= <- <- <- <-]; split_and!; [done|lia|]; intros Hc Hk; split; [done|by apply Hs]].
  specialize (Hl eq_refl). unfold kFrameHeaderSize in Hl.
  destruct (decode_frame_header hb) as [reason|header].
  { pose proof (socket_send_inbound (serialize_frame (refusal_frame default_frame_header reason "frame header rejected")) k1) as Hi.
    destruct (socket_send _ _) as [ok k2]. cbn [snd] in Hi. intros [= <- <- <- <-].
    unfold pending, sound_socket in *. rewrite Hi. split_and!; [done|lia|]. intros Hc Hk. split; [done|by apply Hs]. }
  destruct (_ >? _); [intros [= <- <- <- <-]; split_and!; [done|lia|]; intros Hc Hk; split; [done|by apply Hs]|].
  destruct (socket_recv (Z.to_nat (fh_payload_len header)) k1) as [[r2 payload] k2] eqn:E2.
  apply socket_recv_spec in E2 as (_ & Hp2 & Hs2).
  assert (sound_socket k -> bytes payload /\ sound_socket k2) as Hsound by (intros Hk; apply Hs2, Hs, Hk).
  destruct (bool_decide (r2 = RecvOk)); cbn [negb];
    [|intros [= <- <- <- <-]; split_and!; [done|lia|]; intros Hc Hk; split; [done|by apply Hsound]].
  destruct (bool_decide (digest_of payload = _)); cbn [negb].
  - intros H. apply serve_request_spec in H as [Hi Hc]. unfold pending, sound_socket in *. rewrite Hi.
    split_and!; [intros _; split; [done|lia]|lia|]. intros Hr Hk. split; [|by apply Hsound].
    apply Hc; [by apply Hsound|]. by destruct (length payload =? 0)%nat.
  - match goal with |- context [socket_send ?b k2] => pose proof (socket_send_inbound b k2) as Hi;
      destruct (socket_send b k2) as [ok k3] end.
    cbn [snd] in Hi. intros [= <- <- <- <-]. unfold pending, sound_socket in *. rewrite Hi.
    split_and!; [done|lia|]. intros Hc Hk. split; [by destruct (length payload =? 0)%nat|by apply Hsound].
Qed.

(** The loop of a connection ends, whatever arrives: one turn per byte to come
    is more than enough. *)
Lemma serve_connection_ends fuel options stopping turn served c k :
  (pending k < fuel)%nat -> exists r, serve_connection fuel options stopping turn served c k = Some r.
Proof.
  revert turn served c k. induction fuel as [|fuel IH]; intros turn served c k Hf; [lia|].
  cbn [serve_connection].
  destruct (serve_round options (stopping turn) served c k) as [[[c' k'] served'] continues] eqn:E.
  apply serve_round_spec in E as (Hc & _ & _). destruct continues; [|by eexists].
  apply IH. destruct (Hc eq_refl). lia.
Qed.

(** ** Every interleaving *)

(** A closed connection: no worker waits in it, and nothing more arrives. *)
Definition sealed (n : Connection) : Prop := cn_phase n <> Blocked /\ sk_inbound (cn_socket n) = [].

(** The phases agree with the flag, the acceptor, the queue, the sleeping workers
    and the connections. *)
Definition phase_ok (s : Service) : Prop :=
  match sv_stop s with
  | NotStopped => sv_stopping s = false /\ sv_acceptor s <> AcceptLeft
  | StopRequested => sv_stopping s = true
  | StopWoken => sv_stopping s = true /\ sv_asleep s = 0%nat
  | StopClosed => sv_stopping s = true /\ sv_acceptor s = AcceptLeft /\ sv_queue s = [] /\ sv_asleep s = 0%nat /\
                  Forall sealed (sv_active s)
  | Stopped => sv_stopping s = true /\ sv_acceptor s = AcceptLeft /\ sv_queue s = [] /\ sv_active s = [] /\
               sv_waiting s = 0%nat /\ sv_asleep s = 0%nat
  end.

Definition held (a : Acceptor) : list Socket := match a with AcceptHolding k => [k] | _ => [] end.

Record service_ok (options : ServerOptions) (s : Service) : Prop := {
  so_registry : sound_core (sv_core s);
  so_bounded : Z.of_nat (length (sv_active s) + length (sv_queue s)) <= Z.max 0 (so_max_connections options);
  so_workers : (sv_waiting s + sv_asleep s + length (sv_active s) + sv_exited s)%nat = worker_count options;
  so_exited : sv_stopping s = false -> sv_exited s = 0%nat;
  so_sockets : Forall sound_socket (held (sv_acceptor s) ++ sv_queue s ++ map cn_socket (sv_active s));
  so_phase : phase_ok s }.

Ltac sockets := repeat first [assumption | apply Forall_app; split | constructor].
Ltac phases H := unfold phase_ok in *; cbn in *; destruct (sv_stop _); intuition (try congruence; try lia).

Lemma notify_one_ok options s : service_ok options s -> service_ok options (notify_one s).
Proof.
  intros Hs. unfold notify_one. destruct (sv_asleep s) as [|n] eqn:E; [done|]. destruct Hs as [H1 H2 H3 H4 H5 H6].
  unfold phase_ok in H6. rewrite E in H3, H6. split; cbn; auto; [lia|phases H6].
Qed.

Lemma notify_all_ok options s :
  service_ok options s -> sv_stop s <> Stopped -> service_ok options (notify_all s).
Proof.
  intros [H1 H2 H3 H4 H5 H6] Hn. unfold phase_ok in H6. split; cbn; auto; [lia|]. phases H6.
Qed.

Lemma accept_socket_ok options k s :
  service_ok options s -> sv_acceptor s = AcceptHolding k -> service_ok options (accept_socket options k s).
Proof.
  intros [H1 H2 H3 H4 H5 H6] Ha. rewrite Ha in H5. cbn [held app] in H5. apply Forall_cons in H5 as [Hk H5].
  apply Forall_app in H5 as [Hq Hs]. unfold phase_ok in H6. rewrite Ha in H6.
  unfold accept_socket. destruct (_ <? _) eqn:E.
  - apply Z.ltb_lt in E. apply notify_one_ok. split; cbn; auto; [rewrite length_app; cbn; lia|sockets|phases H6].
  - split; cbn; auto; [sockets|phases H6].
Qed.

Lemma worker_turn_ok options s t : service_ok options s -> worker_turn s = Some t -> service_ok options t.
Proof.
  intros [H1 H2 H3 H4 H5 H6] H. unfold worker_turn in H. apply Forall_app in H5 as [Ha H5]. apply Forall_app in H5 as [Hq Hs].
  unfold phase_ok in H6. destruct (sv_waiting s) as [|waiting] eqn:Ew; [done|].
  destruct (sv_queue s) as [|k queue] eqn:Eq.
  - destruct (sv_stopping s) eqn:Et; injection H as <-.
    + split; cbn; auto; [lia|done|sockets|phases H6].
    + split; cbn; auto; [lia|sockets|phases H6].
  - apply Forall_cons in Hq as [Hk Hq]. cbn [length] in *. destruct (sv_stopping s) eqn:Et; injection H as <-.
    + split; cbn; auto; [lia|lia|done|sockets|phases H6].
    + split; cbn; auto; rewrite ?length_app, ?map_app; cbn; [lia|lia|sockets|phases H6].
Qed.

Lemma serving_not_stopped options s i n :
  service_ok options s -> sv_active s !! i = Some n -> sv_stop s <> Stopped.
Proof.
  intros [_ _ _ _ _ H6] Hi E. unfold phase_ok in H6. rewrite E in H6. destruct H6 as (_ & _ & _ & Ha & _).
  by rewrite Ha in Hi.
Qed.

Lemma close_socket_sound k : sound_socket (close_socket k).
Proof. constructor. Qed.

(** A turn of a closed connection waits for nothing and ends the loop. *)
Lemma sealed_round options seen served c k :
  sk_inbound k = [] -> round_waits options c k = false /\ snd (serve_round options seen served c k) = false.
Proof.
  intros E. unfold round_waits, serve_round, socket_recv. rewrite E. split; [done|]. by destruct seen.
Qed.

Lemma connection_turn_ok options i seen s t :
  service_ok options s -> connection_turn options i seen s = Some t -> service_ok options t.
Proof.
  intros Hs H. unfold connection_turn in H. destruct (sv_active s !! i) as [[k served ph]|] eqn:Ei; [|done].
  pose proof (serving_not_stopped _ _ _ _ Hs Ei) as Hn. destruct Hs as [H1 H2 H3 H4 H5 H6].
  destruct ph; [|done..]. pose proof (sealed_round options seen served (sv_core s) k) as Hseal.
  destruct (serve_round options seen served (sv_core s) k) as [[[c' k'] served'] continues] eqn:E.
  apply serve_round_spec in E as (_ & _ & Hk). injection H as <-.
  apply Forall_app in H5 as [Ha H5]. apply Forall_app in H5 as [Hq Hact].
  rewrite Forall_map in Hact. pose proof (proj1 (Forall_lookup _ _) Hact i _ Ei) as Hsk. cbn in Hsk.
  destruct (Hk H1 Hsk) as [Hc' Hk']. split; cbn; auto; rewrite ?length_insert; try done.
  - sockets. apply Forall_map. apply Forall_insert; [done|]. unfold after_turn.
    destruct (_ && _); [done|]. destruct continues; [done|apply close_socket_sound].
  - unfold phase_ok in *. cbn. destruct (sv_stop s); try done. destruct H6 as (G1 & G2 & G3 & G4 & G5).
    split_and!; try done. apply Forall_insert; [done|].
    pose proof (proj1 (Forall_lookup _ _) G5 i _ Ei) as [_ Hin]. cbn in Hin. destruct (Hseal Hin) as [-> Hcont].
    cbn in Hcont. rewrite Hcont, andb_false_r. done.
Qed.

Lemma erase_connection_ok options i leaves s t :
  service_ok options s -> erase_connection i leaves s = Some t -> service_ok options t.
Proof.
  intros Hs H. unfold erase_connection in H. destruct (sv_active s !! i) as [[k served ph]|] eqn:Ei; [|done].
  pose proof (serving_not_stopped _ _ _ _ Hs Ei) as Hn. destruct Hs as [H1 H2 H3 H4 H5 H6].
  destruct ph; [done..|]. destruct (leaves && _) eqn:El; [done|]. injection H as <-.
  apply Forall_app in H5 as [Ha H5]. apply Forall_app in H5 as [Hq Hact].
  pose proof (lookup_lt_Some _ _ _ Ei) as Hlt.
  assert (Forall sound_socket (map cn_socket (delete i (sv_active s)))) as Hdel.
  { rewrite Forall_map in Hact |- *. by apply Forall_delete. }
  assert (leaves = true -> sv_stopping s = true) as Hleave.
  { intros ->. by destruct (sv_stopping s). }
  split; cbn.
  - done.
  - rewrite length_delete by done. lia.
  - rewrite length_delete by done. destruct leaves; lia.
  - destruct leaves; [|done]. by rewrite Hleave.
  - sockets.
  - unfold phase_ok in *. cbn. destruct (sv_stop s); try done. destruct H6 as (G1 & G2 & G3 & G4 & G5).
    split_and!; try done. by apply Forall_delete.
Qed.

Lemma stop_ok options s :
  service_ok options s ->
  (sv_stop s = NotStopped -> service_ok options (stop_request s)) /\
  (sv_stop s = StopRequested -> service_ok options (stop_wake s)) /\
  (sv_stop s = StopWoken -> sv_acceptor s = AcceptLeft -> service_ok options (stop_close s)) /\
  (sv_stop s = StopClosed -> sv_exited s = worker_count options -> service_ok options (stop_finish s)).
Proof.
  intros [H1 H2 H3 H4 H5 H6]. apply Forall_app in H5 as [Ha H5]. apply Forall_app in H5 as [Hq Hact].
  unfold phase_ok in H6. split_and!; intros E; rewrite E in H6.
  - unfold stop_request. destruct H6 as [Et _]. rewrite Et. split; cbn; auto; try done; sockets.
  - split; cbn; auto; [lia|sockets].
  - intros El. destruct H6 as [Et Es]. apply notify_all_ok; [|done]. split; cbn; auto; rewrite ?length_map; try done; try lia.
    + rewrite El. sockets. rewrite Forall_map, Forall_map. apply Forall_true. intros n. apply close_socket_sound.
    + split_and!; try done. rewrite Forall_map. apply Forall_true. intros [k served ph]. by destruct ph.
  - intros Ex. assert (sv_active s = []) as En by (apply nil_length_inv; lia).
    destruct H6 as (Et & El & Eq & Es & _). split; cbn; auto; try done.
    + rewrite En in H2. done.
    + rewrite En in H3. cbn in H3. lia.
    + sockets.
    + split_and!; try done; lia.
Qed.

Lemma outside_step_ok options s t : outside_step s t -> service_ok options s -> service_ok options t.
Proof.
  intros [k s' Ha Ht Hk _|s' Ha Ht|s' _] Hs; [| |by apply notify_one_ok]; destruct Hs as [H1 H2 H3 H4 H5 H6];
    (split; cbn; auto; [rewrite Ha in H5; cbn in *; by try constructor|phases H6]).
Qed.

Lemma own_step_ok options s t : own_step options s t -> service_ok options s -> service_ok options t.
Proof.
  intros Hst Hs. destruct Hst as [k s Ha|s Ha Ep|s t H|i seen s t _ H|i leaves s t H|s E|s E|s E El|s E Ex];
    [by apply accept_socket_ok| |by eapply worker_turn_ok|by eapply connection_turn_ok|by eapply erase_connection_ok
    |by apply stop_ok..].
  destruct Hs as [H1 H2 H3 H4 H5 H6]. split; cbn; auto; [|phases H6]. rewrite Ha in H5. done.
Qed.

Lemma service_step_ok options s t : service_step options s t -> service_ok options s -> service_ok options t.
Proof. intros [H|H]; [by apply outside_step_ok|by apply own_step_ok]. Qed.

Lemma started_ok options x : reachable x -> service_ok options (started options x).
Proof.
  intros Hx. split; cbn; try done; try lia.
Qed.

Lemma service_steps_ok options s t : rtc (service_step options) s t -> service_ok options s -> service_ok options t.
Proof. induction 1 as [|s u t Hst _ IH]; intros Hs; [done|]. apply IH. by eapply service_step_ok. Qed.

Lemma service_reachable_ok options x s :
  reachable x -> rtc (service_step options) (started options x) s -> service_ok options s.
Proof. intros Hx Hr. eapply service_steps_ok; [done|]. by apply started_ok. Qed.

(** ** Stopping *)

(** What is left to do once [stop] was called. *)
Definition acceptor_work (a : Acceptor) : nat :=
  match a with AcceptWaiting => 1 | AcceptHolding k => 7 + pending k | AcceptLeft => 0 end.
Definition connection_work (n : Connection) : nat :=
  match cn_phase n with Serving => 4 + pending (cn_socket n) | Blocked => 3 | Left => 2 end.
Definition stop_work (p : StopPhase) : nat :=
  match p with NotStopped => 4 | StopRequested => 3 | StopWoken => 2 | StopClosed => 1 | Stopped => 0 end.
Definition work_left (s : Service) : nat :=
  (acceptor_work (sv_acceptor s) + sum_list_with (fun k => 5 + pending k) (sv_queue s) +
   sum_list_with connection_work (sv_active s) + sv_waiting s + 2 * sv_asleep s + stop_work (sv_stop s))%nat.

Lemma sum_insert {A} (f : A -> nat) l i x y :
  l !! i = Some x -> (f y < f x)%nat -> (sum_list_with f (<[i := y]> l) < sum_list_with f l)%nat.
Proof.
  revert i. induction l as [|z l IH]; intros [|i] Hi Hf; try done.
  - injection Hi as ->. cbn. lia.
  - change (<[S i := y]> (z :: l)) with (z :: <[i := y]> l). specialize (IH i Hi Hf). cbn [sum_list_with]. lia.
Qed.
Lemma sum_delete {A} (f : A -> nat) l i x :
  l !! i = Some x -> sum_list_with f l = (f x + sum_list_with f (delete i l))%nat.
Proof.
  revert i. induction l as [|z l IH]; intros [|i] Hi; try done.
  - by injection Hi as ->.
  - change (delete (S i) (z :: l)) with (z :: delete i l). cbn [sum_list_with]. rewrite (IH i Hi). lia.
Qed.

Lemma closed_work l : (sum_list_with connection_work (map close_connection l) <= sum_list_with connection_work l)%nat.
Proof.
  induction l as [|n l IH]; [done|]. cbn [map sum_list_with].
  enough (connection_work (close_connection n) <= connection_work n)%nat by lia.
  destruct n as [k served []]; unfold connection_work, pending; cbn; lia.
Qed.

Lemma notify_one_work s :
  (work_left (notify_one s) <= work_left s)%nat /\
  ((0 < sv_asleep s)%nat -> (work_left (notify_one s) < work_left s)%nat).
Proof.
  unfold notify_one. destruct (sv_asleep s) as [|n] eqn:E; [lia|]. unfold work_left. rewrite E.
  cbn [sv_acceptor sv_queue sv_active sv_waiting sv_asleep sv_stop]. lia.
Qed.

(** Every step after [stop] was called leaves less to do. *)
Lemma outside_stopping s t : outside_step s t -> sv_stopping s = true -> (work_left t < work_left s)%nat.
Proof.
  intros [k s' Ha Hf _ _|s' Ha _|s' Hz] Ht; [congruence| |by apply notify_one_work].
  unfold work_left. rewrite Ha. cbn. lia.
Qed.

Lemma own_stopping options s t :
  own_step options s t -> sv_stop s <> NotStopped -> sv_stopping s = true -> (work_left t < work_left s)%nat.
Proof.
  intros Hst Hn Ht. destruct Hst as [k s Ha|s Ha Ep|s t H|i seen s t _ H|i leaves s t H|s E|s E|s E El|s E Ex].
  - unfold accept_socket. case_match; [eapply Nat.le_lt_trans; [apply notify_one_work|]|];
      unfold work_left; rewrite Ha; cbn; rewrite ?sum_list_with_app; cbn; lia.
  - unfold work_left. rewrite Ha. cbn. lia.
  - unfold worker_turn in H. rewrite Ht in H. unfold work_left. destruct (sv_waiting s), (sv_queue s); try done;
      injection H as <-; cbn; lia.
  - unfold connection_turn in H. destruct (sv_active s !! i) as [[k served []]|] eqn:Ei; try done.
    destruct (serve_round options seen served (sv_core s) k) as [[[c' k'] served'] continues] eqn:E.
    apply serve_round_spec in E as (Hc & _ & _). injection H as <-. unfold work_left. cbn.
    match goal with |- context [<[i := ?n]> _] => pose proof (sum_insert connection_work _ i _ n Ei) as Hw end.
    unfold after_turn in *. destruct (_ && _); [cbn in Hw; lia|].
    destruct continues; cbn in Hw; [destruct (Hc eq_refl)|]; lia.
  - unfold erase_connection in H. destruct (sv_active s !! i) as [[k served []]|] eqn:Ei; try done.
    destruct (leaves && _); [done|]. injection H as <-. unfold work_left. cbn.
    rewrite (sum_delete connection_work _ i _ Ei). cbn. destruct leaves; lia.
  - done.
  - unfold work_left. cbn. rewrite E. cbn. lia.
  - unfold work_left. cbn. rewrite El, E. pose proof (closed_work (sv_active s)). cbn. lia.
  - unfold work_left. cbn. rewrite E. cbn. lia.
Qed.

Lemma stopping_phase options s : service_ok options s -> sv_stopping s = true -> sv_stop s <> NotStopped.
Proof. intros [_ _ _ _ _ H6] Ht E. unfold phase_ok in H6. rewrite E in H6. destruct H6. congruence. Qed.

Lemma stopping_step options s t :
  service_step options s t -> service_ok options s -> sv_stopping s = true -> (work_left t < work_left s)%nat.
Proof.
  intros [H|H] Hs Ht; [by apply outside_stopping|]. eapply own_stopping; [exact H| |done]. by eapply stopping_phase.
Qed.

(** The flag stays set. *)
Lemma notify_one_stopping s : sv_stopping (notify_one s) = sv_stopping s.
Proof. unfold notify_one. by destruct (sv_asleep s). Qed.

Lemma stopping_kept options s t : service_step options s t -> sv_stopping s = true -> sv_stopping t = true.
Proof.
  intros [[k s' Ha Hf _ _|s' Ha _|s' _]|Hst] Ht; [done|done|by rewrite notify_one_stopping|].
  destruct Hst as [k s Ha|s Ha Ep|s t H|i seen s t _ H|i leaves s t H|s E|s E|s E El|s E Ex]; try done.
  - unfold accept_socket. case_match; [by rewrite notify_one_stopping|done].
  - unfold worker_turn in H. rewrite Ht in H. by destruct (sv_waiting s), (sv_queue s); try done; injection H as <-.
  - unfold connection_turn in H. destruct (sv_active s !! i) as [[k served []]|]; try done.
    destruct (serve_round _ _ _ _ _) as [[[c' k'] served'] continues]. by injection H as <-.
  - unfold erase_connection in H. destruct (sv_active s !! i) as [[k served []]|]; try done.
    destruct (leaves && _); [done|]. by injection H as <-.
  - unfold stop_request. by rewrite Ht.
Qed.

(** Until it is finished there is always a step of its own to take. *)
Lemma stopping_progress options s :
  service_ok options s -> sv_stopping s = true -> sv_stop s <> Stopped -> exists t, own_step options s t.
Proof.
  intros [_ _ H3 _ _ H6] Ht Hn. unfold phase_ok in H6. destruct (sv_stop s) eqn:Ep; try done.
  - destruct H6. congruence.
  - eexists. by apply stop_wake_step.
  - destruct (sv_acceptor s) as [|k|] eqn:Ea; [by eexists; apply accept_woken|by eexists; eapply accept_decide|].
    eexists. by apply stop_close_step.
  - destruct H6 as (_ & _ & Hq & Hz & Hs). destruct (sv_waiting s) as [|w] eqn:Ew.
    2: { eexists. eapply worker_step. unfold worker_turn. by rewrite Ew, Hq, Ht. }
    destruct (sv_active s) as [|[k served ph] l] eqn:Ea.
    + eexists. apply stop_finish_step; [done|]. cbn in H3. lia.
    + apply Forall_cons in Hs as [[Hb _] _]. destruct ph; [| |]; [|by destruct Hb|].
      * eexists. eapply (connection_step _ 0 true); [done|]. unfold connection_turn. by rewrite Ea.
      * eexists. eapply (erase_step _ 0 false). unfold erase_connection. by rewrite Ea.
Qed.

(** ** The theorems *)

(** C12: in every interleaving of the acceptor, the workers, the connections they
    serve and [stop], whatever bytes the peers send, the registry behind the
    service is one its own operations can produce (so it satisfies the
    registry's invariant and can be snapshotted), the accepted connections never
    exceed the configured number, no more connections are served at once than
    there are workers, and once [stop] has finished no socket is queued or open
    and every thread has ended. *)
Theorem service_invariant options x s :
  reachable x -> 0 <= so_max_connections options -> rtc (service_step options) (started options x) s ->
  let registry := sc_registry (sv_core s) in
  (reachable registry /\ Inv registry /\ state_ok (to_state registry)) /\
  Z.of_nat (length (sv_active s) + length (sv_queue s)) <= so_max_connections options /\
  (length (sv_active s) <= worker_count options)%nat /\
  (sv_stop s = Stopped ->
     sv_queue s = [] /\ sv_active s = [] /\ sv_acceptor s = AcceptLeft /\ sv_exited s = worker_count options).
Proof.
  intros Hx Hm Hr registry. destruct (service_reachable_ok options x s Hx Hr) as [H1 H2 H3 _ _ H6].
  split_and!; [done|by apply reachable_inv|by apply to_state_ok, reachable_inv|lia|lia|].
  intros E. unfold phase_ok in H6. rewrite E in H6. destruct H6 as (_ & Ha & Hq & Hact & Hw & Hz).
  rewrite Hact in H3. cbn in H3. split_and!; try done. lia.
Qed.

(** A service with one connection, taken by a worker. *)
Module Hall.
Definition options : ServerOptions := mkServerOptions "127.0.0.1" 0 1 1 4096 256 0 65536 true.
Definition visitor : Socket := mkSocket [Arrives [1; 2; 3]; RecvInterrupted] [] [].
Definition opened : Service := started options Sample.observed.
Definition busy : Service :=
  mkService (count_accepted (sv_core opened)) true false AcceptWaiting [] [mkConnection visitor 0 Serving] 0 0 0
    NotStopped.

Lemma busy_reachable : rtc (service_step options) opened busy.
Proof.
  eapply rtc_l; [apply from_outside, (accept_arrival visitor); [done|done| |done]|].
  { cbn. repeat (apply Forall_cons; split; [unfold in_u; lia|]). constructor. }
  eapply rtc_l; [by apply by_itself, (accept_decide _ visitor)|].
  eapply rtc_l; [by apply by_itself, worker_step|]. apply rtc_refl.
Qed.
End Hall.

Lemma service_invariant_witness :
  Z.of_nat (length (sv_active Hall.busy) + length (sv_queue Hall.busy)) <= 1 /\
  Inv (sc_registry (sv_core Hall.busy)).
Proof.
  destruct (service_invariant Hall.options Sample.observed Hall.busy Sample.observed_reachable
              ltac:(done) Hall.busy_reachable) as ((_ & H & _) & H' & _). split; [exact H'|exact H].
Defined.

(** C15: [stop] always completes: from any state the service can be in after
    [stop] was called, in every schedule of its threads and whatever the clients
    still do, only a bounded number of steps can follow (at most the work left in
    that state), and it never gets stuck before it has finished: where none of
    its own threads can go on, without the help of a client or a spurious wakeup,
    [stop] has returned.  So the acceptor blocked in [accept], the workers asleep
    and those that wait in a read or a write for a silent peer are all released.
    It is assumed that the connection of [stop] to the service, or the shut
    listener, makes [accept] return, and that closing a socket makes a pending
    read or write return. *)
Theorem stop_terminates options x s :
  reachable x -> rtc (service_step options) (started options x) s -> sv_stopping s = true ->
  (forall n t, nsteps (service_step options) n s t -> (n <= work_left s)%nat) /\
  (forall t, rtc (service_step options) s t -> (forall u, ~ own_step options t u) -> sv_stop t = Stopped).
Proof.
  intros Hx Hr Ht. pose proof (service_reachable_ok options x s Hx Hr) as Hs. split.
  - intros n t Hn. revert Hs Ht. clear Hr. induction Hn as [s|n s u t Hst Hn IH]; intros Hs Ht; [lia|].
    pose proof (service_step_ok _ _ _ Hst Hs) as Hu. pose proof (stopping_kept _ _ _ Hst Ht) as Hut.
    specialize (IH Hu Hut). pose proof (stopping_step _ _ _ Hst Hs Ht). lia.
  - intros t Hst Hend. pose proof (service_steps_ok _ _ _ Hst Hs) as Hok.
    assert (sv_stopping t = true) as Htt.
    { clear -Hst Ht. induction Hst as [|s u t H _ IH]; [done|]. apply IH. by eapply stopping_kept. }
    destruct (sv_stop t) eqn:Ep; [| | | |done]; exfalso;
      (destruct (stopping_progress options t Hok Htt) as [u Hu]; [by rewrite Ep|]); by apply (Hend u).
Qed.

(** A worker is blocked in a read, the acceptor in [accept], when [stop] is
    called. *)
Module Silent.
Definition visitor : Socket := mkSocket [Arrives [1; 2; 3]; RecvWaits] [] [].
Definition reading : Service :=
  mkService (count_accepted (sv_core Hall.opened)) true false AcceptWaiting []
    [mkConnection (mkSocket [] [] []) 0 Blocked] 0 0 0 NotStopped.

Lemma reading_reachable : rtc (service_step Hall.options) Hall.opened reading.
Proof.
  eapply rtc_l; [apply from_outside, (accept_arrival visitor); [done|done| |done]|].
  { cbn. repeat (apply Forall_cons; split; [unfold in_u; lia|]). constructor. }
  eapply rtc_l; [by apply by_itself, (accept_decide _ visitor)|].
  eapply rtc_l; [by apply by_itself, worker_step|].
  eapply rtc_l; [by apply by_itself, (connection_step _ 0 false)|]. apply rtc_refl.
Qed.
End Silent.

Lemma stop_terminates_witness :
  let s := stop_request Silent.reading in
  (forall n t, nsteps (service_step Hall.options) n s t -> (n <= work_left s)%nat) /\ work_left s = 7%nat.
Proof.
  intros s.
  assert (rtc (service_step Hall.options) Hall.opened s) as Hr.
  { eapply rtc_r; [apply Silent.reading_reachable|]. by apply by_itself, stop_request_step. }
  destruct (stop_terminates Hall.options Sample.observed s Sample.observed_reachable Hr eq_refl) as [H _].
  split; [exact H|reflexivity].
Defined.

(** ** Two gaps *)

(** A frame larger than the service accepts is refused without a reply. *)
Lemma oversized_frame_silent options served c k hdr k1 header :
  socket_recv kFrameHeaderSize k = (RecvOk, hdr, k1) -> decode_frame_header hdr = inr header ->
  fh_payload_len header > so_max_frame_payload options ->
  exists c', serve_round options false served c k = (c', k1, served, false) /\ sk_sent k1 = sk_sent k.
Proof.
  intros E1 E2 Hl. unfold serve_round. rewrite E1, bool_decide_true by done. cbn [negb]. rewrite E2.
  replace (_ >? _) with true by lia. eexists. split; [reflexivity|].
  unfold socket_recv in E1. destruct (recv_exact _ _) as [[r b] rest]. by injection E1 as _ _ <-.
Qed.

(** A service configured above the protocol's frame bound drops a reply between
    the two: the frame is not representable and nothing is sent. *)
Lemma unrepresentable_reply_dropped header flags payload :
  kMaxFramePayload < Z.of_nat (length payload) < 2 ^ 32 -> serialize_frame (reply_frame header flags payload) = [].
Proof.
  intros Hl. unfold serialize_frame, encode_frame_header, reply_frame, seal_header. cbn [fr_header fr_payload fh_payload_len].
  unfold u32. rewrite wrap_small by (unfold in_u, kMaxFramePayload in *; lia). by replace (_ >? _) with true by lia.
Qed.
