(* ===== verification/HistoryThms.v ===== *)
(** * The service as one registry shared by its connections

    Whatever the threads do, there is one order of the requests served, in which
    each was answered by the registry the previous one left; every connection got
    the answers to its own requests, in the order it sent them.  The order is
    kept in a [Book] beside the run: each step makes at most one entry in it, and
    only for what that step did. *)

From Stdlib Require Import ZArith Lia String.
From stdpp Require Import base tactics list strings relations.
From S2P Require Import Prelude Checked Reason Text Hash Catalog Evidence State Codec CodecTypes CodecThms.
From S2P Require Import Registry RegistryOps RegistryInv RegistryThms Persist Protocol ProtocolThms Export Net.
From S2P Require Import Service ServiceThreads ServiceThms.

#[local] Open Scope string_scope.
#[local] Open Scope Z_scope.
#[local] Open Scope list_scope.
#[local] Opaque digest_of crc32c catalog_fingerprint reason_table_fingerprint.

(** ** Exchanges *)

(** A request as it arrived: the bytes of its header, the header, the payload. *)
Record Exchange := mkExchange { ex_bytes : list Z; ex_header : FrameHeader; ex_payload : list Z }.
Definition raw (e : Exchange) : list Z := ex_bytes e ++ ex_payload e.

(** The checks it passed. *)
Definition passes (options : ServerOptions) (e : Exchange) : Prop :=
  length (ex_bytes e) = kFrameHeaderSize /\ decode_frame_header (ex_bytes e) = inr (ex_header e) /\
  fh_payload_len (ex_header e) <= so_max_frame_payload options /\
  length (ex_payload e) = Z.to_nat (fh_payload_len (ex_header e)) /\
  digest_of (ex_payload e) = fh_payload_digest (ex_header e).

(** Its effect on the registry, and the bytes of the answer. *)
Definition executed (e : Exchange) (x : Impl) : Impl :=
  snd (dispatch (fh_opcode (ex_header e)) (ex_payload e) x).
Definition answer (options : ServerOptions) (e : Exchange) (x : Impl) : list Z :=
  serialize_frame (fst (response_frame (so_max_frame_payload options) (ex_header e)
    (fst (dispatch (fh_opcode (ex_header e)) (ex_payload e) x)))).

(** The beginning of a refusal, which closes the connection. *)
Definition refusal_part (part : list Z) : Prop :=
  exists header reason detail, part `prefix_of` serialize_frame (refusal_frame header reason detail).

(** What one turn did: it served a request, or it ends the connection. *)
Inductive turn (options : ServerOptions) (c : Core) (k : Socket) (c' : Core) (k' : Socket) : bool -> Prop :=
| turn_served e part continues :
    passes options e -> delivered (sk_inbound k) = raw e ++ delivered (sk_inbound k') ->
    sc_registry c' = executed e (sc_registry c) -> sk_sent k' = sk_sent k ++ part ->
    part `prefix_of` answer options e (sc_registry c) ->
    (continues = true -> part = answer options e (sc_registry c)) -> turn options c k c' k' continues
| turn_ended part :
    sc_registry c' = sc_registry c -> sk_sent k' = sk_sent k ++ part -> refusal_part part ->
    turn options c k c' k' false.

Lemma refusal_nil : refusal_part [].
Proof. exists default_frame_header, Ok_, "". apply prefix_nil. Qed.

Lemma socket_send_split buffer k :
  exists part, sk_sent (snd (socket_send buffer k)) = sk_sent k ++ part /\ part `prefix_of` buffer /\
    (fst (socket_send buffer k) = true -> part = buffer).
Proof.
  unfold socket_send. destruct (send_all buffer (sk_outbound k)) as [[ok sent] rest] eqn:E.
  destruct (send_all_prefix _ _ _ _ _ E) as [Hp Hok]. by exists sent.
Qed.

Lemma socket_recv_split want k result b k' :
  socket_recv want k = (result, b, k') ->
  sk_sent k' = sk_sent k /\
  (result = RecvOk -> length b = want /\ delivered (sk_inbound k) = b ++ delivered (sk_inbound k')).
Proof.
  intros H. pose proof (socket_recv_spec _ _ _ _ _ H) as (Hl & _). unfold socket_recv in H.
  destruct (recv_exact want (sk_inbound k)) as [[r b'] rest] eqn:E. injection H as <- <- <-.
  split; [done|]. intros ->. split; [by apply Hl|]. by apply recv_exact_split in E.
Qed.

Lemma ended_turn options c k c' k' :
  sc_registry c' = sc_registry c -> sk_sent k' = sk_sent k -> turn options c k c' k' false.
Proof. intros Hc Hk. apply (turn_ended _ _ _ _ _ []); [done|by rewrite app_nil_r|apply refusal_nil]. Qed.

Lemma refused_turn options c k c' k1 header reason detail :
  sc_registry c' = sc_registry c -> sk_sent k1 = sk_sent k ->
  turn options c k c' (snd (socket_send (serialize_frame (refusal_frame header reason detail)) k1)) false.
Proof.
  intros Hc Hk. destruct (socket_send_split (serialize_frame (refusal_frame header reason detail)) k1) as (part & Hs & Hp & _).
  apply (turn_ended _ _ _ _ _ part); [done|by rewrite Hs, Hk|by exists header, reason, detail].
Qed.

Lemma serve_request_turn options e served c c0 k k1 c' k' served' continues :
  passes options e -> delivered (sk_inbound k) = raw e ++ delivered (sk_inbound k1) ->
  sc_registry c0 = sc_registry c -> sk_sent k1 = sk_sent k ->
  serve_request options (ex_header e) (ex_payload e) served c0 k1 = (c', k', served', continues) ->
  turn options c k c' k' continues.
Proof.
  intros He Hd Hc Hk. unfold serve_request, dispatch_core. rewrite Hc.
  destruct (dispatch (fh_opcode (ex_header e)) (ex_payload e) (sc_registry c)) as [envelope x] eqn:Ed.
  destruct (response_frame _ (ex_header e) envelope) as [reply too_large] eqn:Er.
  destruct (socket_send_split (serialize_frame reply) k1) as (part & Hs & Hp & Hok).
  pose proof (socket_send_inbound (serialize_frame reply) k1) as Hi.
  destruct (socket_send (serialize_frame reply) k1) as [ok k2]. cbn [fst snd] in *.
  assert (answer options e (sc_registry c) = serialize_frame reply) as Ea by (unfold answer; by rewrite Ed; cbn [fst]; rewrite Er).
  assert (executed e (sc_registry c) = x) as Ex by (unfold executed; by rewrite Ed).
  destruct ok; cbn [negb]; intros [= <- <- <- <-];
    (apply (turn_served _ _ _ _ _ e part); [done|by rewrite Hi|rewrite Ex; by destruct too_large, (requests_shutdown _ _)
      |by rewrite Hs, Hk|by rewrite Ea|rewrite Ea]); [intros _; by apply Hok|done].
Qed.

Lemma serve_round_turn options stopping served c k c' k' served' continues :
  serve_round options stopping served c k = (c', k', served', continues) -> turn options c k c' k' continues.
Proof.
  unfold serve_round. destruct stopping; [intros [= <- <- _ <-]; by apply ended_turn|].
  destruct (socket_recv kFrameHeaderSize k) as [[r1 hb] k1] eqn:E1. apply socket_recv_split in E1 as (Hk1 & Hd1).
  destruct (bool_decide_reflect (r1 = RecvOk)) as [->|]; cbn [negb]; [|intros [= <- <- _ <-]; by apply ended_turn].
  destruct (Hd1 eq_refl) as [Hl1 Hd]. clear Hd1. destruct (decode_frame_header hb) as [reason|header] eqn:Eh.
  { pose proof (refused_turn options c k (count_rejected (count_read (Z.of_nat kFrameHeaderSize) c)) k1
      default_frame_header reason "frame header rejected" eq_refl Hk1) as Ht.
    destruct (socket_send _ k1) as [ok k2]. intros [= <- <- _ <-]. exact Ht. }
  destruct (_ >? _) eqn:Em; [intros [= <- <- _ <-]; by apply ended_turn|].
  destruct (socket_recv (Z.to_nat (fh_payload_len header)) k1) as [[r2 payload] k2] eqn:E2.
  apply socket_recv_split in E2 as (Hk2 & Hd2). rewrite Hk1 in Hk2.
  destruct (bool_decide_reflect (r2 = RecvOk)) as [->|]; cbn [negb]; [|intros [= <- <- _ <-]; by apply ended_turn].
  destruct (Hd2 eq_refl) as [Hl2 Hd2']. clear Hd2. set (c0 := if (length payload =? 0)%nat then _ else _).
  assert (sc_registry c0 = sc_registry c) as Hc0 by (unfold c0; by destruct (length payload =? 0)%nat).
  destruct (bool_decide_reflect (digest_of payload = fh_payload_digest header)) as [Hg|]; cbn [negb].
  - apply (serve_request_turn options (mkExchange hb header payload) served c c0 k k2); [split_and!; cbn; try done; lia| |done|done].
    unfold raw. cbn. by rewrite Hd, Hd2', app_assoc.
  - pose proof (refused_turn options c k (count_rejected c0) k2 header ProtocolChecksumMismatch "payload digest mismatch" Hc0 Hk2) as Ht.
    destruct (socket_send _ k2) as [ok k3]. intros [= <- <- _ <-]. exact Ht.
Qed.

(** ** The book *)

(** The requests served so far, each with the connection it came from; the bytes
    that arrive on each connection, numbered as the workers took them; and the
    numbers of the connections in the list. *)
Record Book := mkBook {
  bk_history : list (nat * Exchange);
  bk_streams : list (list Z);
  bk_listed : list nat }.

(** The registry after the history. *)
Definition replay (history : list (nat * Exchange)) (x : Impl) : Impl :=
  fold_left (fun y p => executed (snd p) y) history x.

(** What connection [o] asked, and the answers to it. *)
Fixpoint asked (o : nat) (history : list (nat * Exchange)) : list Z :=
  match history with
  | [] => []
  | (o', e) :: history' => (if (o' =? o)%nat then raw e else []) ++ asked o history'
  end.
Fixpoint answers (options : ServerOptions) (o : nat) (history : list (nat * Exchange)) (x : Impl) : list Z :=
  match history with
  | [] => []
  | (o', e) :: history' =>
      (if (o' =? o)%nat then answer options e x else []) ++ answers options o history' (executed e x)
  end.

(** A connection whose loop has ended, or waits, may have got the start of an
    answer or of a refusal last. *)
Definition sent_of (phase : ConnectionPhase) (sent replies : list Z) : Prop :=
  match phase with
  | Serving => sent = replies
  | _ => sent `prefix_of` replies \/ exists part, sent = replies ++ part /\ refusal_part part
  end.
(** Nothing else is to come than what the stream still holds. *)
Definition rest_of (n : Connection) (rest : list Z) : Prop :=
  cn_phase n = Serving -> sk_inbound (cn_socket n) = [] \/ delivered (sk_inbound (cn_socket n)) = rest.

Definition explained (options : ServerOptions) (x : Impl) (b : Book) (o : nat) (n : Connection) : Prop :=
  exists rest, bk_streams b !! o = Some (asked o (bk_history b) ++ rest) /\ rest_of n rest /\
    sent_of (cn_phase n) (sk_sent (cn_socket n)) (answers options o (bk_history b) x).

(** The book accounts for the state of a service started on registry [x]. *)
Record explains (options : ServerOptions) (x : Impl) (b : Book) (s : Service) : Prop := mkExplains {
  bk_passes : Forall (fun p => passes options (snd p) /\ (fst p < length (bk_streams b))%nat) (bk_history b);
  bk_registry : sc_registry (sv_core s) = replay (bk_history b) x;
  bk_distinct : NoDup (bk_listed b);
  bk_connections : Forall2 (explained options x b) (bk_listed b) (sv_active s);
  bk_fresh : Forall (fun k => sk_sent k = []) (held (sv_acceptor s) ++ sv_queue s) }.

(** What one step from [s] to [t] writes in the book: nothing, when it leaves the
    registry alone; the stream of the connection a worker took from the queue; the
    one request it executed, which was next on the stream of a listed connection;
    or that a connection, or at the end of [stop] all of them, left the list. *)
Inductive entry (options : ServerOptions) (b : Book) (s t : Service) : Book -> Prop :=
| entry_none : sc_registry (sv_core t) = sc_registry (sv_core s) -> entry options b s t b
| entry_taken k queue :
    sc_registry (sv_core t) = sc_registry (sv_core s) -> sv_queue s = k :: queue ->
    sv_active t = sv_active s ++ [mkConnection k 0 Serving] ->
    entry options b s t (mkBook (bk_history b) (bk_streams b ++ [delivered (sk_inbound k)])
                           (bk_listed b ++ [length (bk_streams b)]))
| entry_served i o e k served n rest :
    bk_listed b !! i = Some o -> sv_active s !! i = Some (mkConnection k served Serving) ->
    delivered (sk_inbound k) = raw e ++ rest -> passes options e ->
    sc_registry (sv_core t) = executed e (sc_registry (sv_core s)) -> sv_active t = <[i := n]> (sv_active s) ->
    entry options b s t (mkBook (bk_history b ++ [(o, e)]) (bk_streams b) (bk_listed b))
| entry_left i :
    sc_registry (sv_core t) = sc_registry (sv_core s) -> sv_active t = delete i (sv_active s) ->
    entry options b s t (mkBook (bk_history b) (bk_streams b) (delete i (bk_listed b)))
| entry_stopped :
    sc_registry (sv_core t) = sc_registry (sv_core s) -> sv_active t = [] ->
    entry options b s t (mkBook (bk_history b) (bk_streams b) []).

(** A step of the service and of its book. *)
Inductive booked (options : ServerOptions) : Book * Service -> Book * Service -> Prop :=
| booked_step b s b' t : service_step options s t -> entry options b s t b' -> booked options (b, s) (b', t).

Lemma replay_app h1 h2 x : replay (h1 ++ h2) x = replay h2 (replay h1 x).
Proof. apply fold_left_app. Qed.
Lemma asked_app o h1 h2 : asked o (h1 ++ h2) = asked o h1 ++ asked o h2.
Proof. induction h1 as [|[o' e] h1 IH]; [done|]. cbn. by rewrite IH, app_assoc. Qed.
Lemma answers_app options o h1 h2 x :
  answers options o (h1 ++ h2) x = answers options o h1 x ++ answers options o h2 (replay h1 x).
Proof. revert x. induction h1 as [|[o' e] h1 IH]; intros x; [done|]. cbn. by rewrite IH, app_assoc. Qed.

(** A number that is not in the history asked nothing. *)
Lemma unknown_asked options o (h : list (nat * Exchange)) x :
  Forall (fun p => fst p <> o) h -> asked o h = [] /\ answers options o h x = [].
Proof.
  intros Hf. revert x. induction Hf as [|[o' e] h Hne Hf IH]; intros x; [done|]. cbn in *.
  replace (o' =? o)%nat with false by (symmetry; by apply Nat.eqb_neq). by apply IH.
Qed.

(** One more exchange leaves the other connections as they were. *)
Lemma other_asked options o o' e h x :
  o' <> o -> asked o (h ++ [(o', e)]) = asked o h /\ answers options o (h ++ [(o', e)]) x = answers options o h x.
Proof.
  intros Hne. rewrite asked_app, answers_app.
  destruct (unknown_asked options o [(o', e)] (replay h x)) as [-> ->]; [by repeat constructor|]. by rewrite !app_nil_r.
Qed.
Lemma own_asked options o e h x :
  asked o (h ++ [(o, e)]) = asked o h ++ raw e /\
  answers options o (h ++ [(o, e)]) x = answers options o h x ++ answer options e (replay h x).
Proof. rewrite asked_app, answers_app. cbn. by rewrite Nat.eqb_refl, !app_nil_r. Qed.

(** ** Each step is at most one exchange *)

Section run.
Context (options : ServerOptions) (x : Impl).

Lemma explains_core b s t :
  explains options x b s -> sc_registry (sv_core t) = sc_registry (sv_core s) -> sv_active t = sv_active s ->
  Forall (fun k => sk_sent k = []) (held (sv_acceptor t) ++ sv_queue t) -> explains options x b t.
Proof. intros [H1 H2 H3 H4 _] Ec Ea Hf. split; [done|by rewrite Ec|done|by rewrite Ea|done]. Qed.

Lemma notify_explained b s : explains options x b s -> explains options x b (notify_one s).
Proof.
  intros Hb. unfold notify_one. destruct (sv_asleep s); [done|]. apply (explains_core b s); [done..|]. apply Hb.
Qed.
Lemma notify_registry s : sc_registry (sv_core (notify_one s)) = sc_registry (sv_core s).
Proof. unfold notify_one. by destruct (sv_asleep s). Qed.

Lemma accept_explained b s k :
  explains options x b s -> sv_acceptor s = AcceptHolding k -> explains options x b (accept_socket options k s).
Proof.
  intros Hb Ha. pose proof (bk_fresh _ _ _ _ Hb) as Hf. rewrite Ha in Hf. cbn [held app] in Hf.
  apply Forall_cons in Hf as [Hk Hq]. unfold accept_socket. case_match; [apply notify_explained|];
    apply (explains_core b s); try done.
  cbn. apply Forall_app. split; [done|by constructor].
Qed.

Lemma worker_explained b s t :
  explains options x b s -> worker_turn s = Some t -> exists b', entry options b s t b' /\ explains options x b' t.
Proof.
  intros Hb Hw. pose proof Hb as [H1 H2 H3 H4 H5]. unfold worker_turn in Hw.
  apply Forall_app in H5 as [Hh Hq].
  destruct (sv_waiting s) as [|waiting]; [done|]. destruct (sv_queue s) as [|k queue] eqn:Eq.
  { destruct (sv_stopping s); injection Hw as <-; (exists b; split; [by constructor|]);
      (apply (explains_core b s); [done..|]); cbn; by rewrite app_nil_r. }
  apply Forall_cons in Hq as [Hk Hq]. destruct (sv_stopping s); injection Hw as <-.
  { exists b. split; [by constructor|]. apply (explains_core b s); [done..|]. cbn. by apply Forall_app. }
  set (o := length (bk_streams b)).
  exists (mkBook (bk_history b) (bk_streams b ++ [delivered (sk_inbound k)]) (bk_listed b ++ [o])).
  split; [by eapply entry_taken|].
  assert (forall o' n, explained options x b o' n -> (o' < o)%nat) as Hlt.
  { intros o' n (rest & Ho & _). unfold o. by eapply lookup_lt_Some. }
  split; cbn; try done.
  - eapply Forall_impl; [exact H1|]. intros [o' e]. cbn. rewrite length_app. cbn. intros [? ?]. split; [done|lia].
  - apply NoDup_app. split_and!; [done| |by apply NoDup_singleton].
    intros o' Ho' ->%list_elem_of_singleton. apply list_elem_of_lookup in Ho' as [i Hi].
    destruct (Forall2_lookup_l _ _ _ _ _ H4 Hi) as (n & _ & Hn). apply Hlt in Hn. lia.
  - apply Forall2_app.
    + eapply Forall2_impl; [exact H4|]. intros o' n Hn. pose proof (Hlt _ _ Hn) as Ho'.
      destruct Hn as (rest & Hs & Hr & Hsent). exists rest. cbn. split_and!; try done. by rewrite lookup_app_l.
    + constructor; [|constructor]. exists (delivered (sk_inbound k)). cbn.
      destruct (unknown_asked options o (bk_history b) x) as [-> ->].
      { eapply Forall_impl; [exact H1|]. cbn. unfold o. intros p [_ ?]. lia. }
      split_and!; [|by right|exact Hk]. cbn. unfold o. by rewrite lookup_app_r, Nat.sub_diag by lia.
  - by apply Forall_app.
Qed.

Lemma served_explained b c k k' served served' waits continues o e part :
  explained options x b o (mkConnection k served Serving) -> sc_registry c = replay (bk_history b) x ->
  passes options e -> delivered (sk_inbound k) = raw e ++ delivered (sk_inbound k') ->
  sk_sent k' = sk_sent k ++ part -> part `prefix_of` answer options e (sc_registry c) ->
  (continues = true -> part = answer options e (sc_registry c)) ->
  explained options x (mkBook (bk_history b ++ [(o, e)]) (bk_streams b) (bk_listed b)) o
    (after_turn waits k' served' continues).
Proof.
  intros (rest & Hs & Hr & Hsent) Hc He Hd Hk Hp Hall. unfold rest_of in Hr. cbn in Hr, Hsent.
  assert (rest = raw e ++ delivered (sk_inbound k')) as ->.
  { destruct (Hr eq_refl) as [Hi|<-]; [|done]. rewrite Hi in Hd. cbn in Hd. exfalso. destruct He as [Hl _].
    apply (f_equal length) in Hd. unfold raw in Hd. rewrite !length_app, Hl in Hd. unfold kFrameHeaderSize in Hd. cbn in Hd. lia. }
  destruct (own_asked options o e (bk_history b) x) as [Ea Ean].
  exists (delivered (sk_inbound k')). cbn [bk_history bk_streams]. rewrite Ea, Ean, <- app_assoc, <- Hc.
  assert (sk_sent k' `prefix_of` answers options o (bk_history b) x ++ answer options e (sc_registry c)) as Hpre
    by (rewrite Hk, Hsent; by apply prefix_app).
  unfold after_turn. destruct waits; [|destruct continues]; cbn; (split_and!; [exact Hs| |]); try done; try (by left).
  - by right.
  - by rewrite Hk, Hsent, Hall.
Qed.

Lemma ended_explained b k k' served served' waits o part :
  explained options x b o (mkConnection k served Serving) -> sk_sent k' = sk_sent k ++ part -> refusal_part part ->
  explained options x b o (after_turn waits k' served' false).
Proof.
  intros (rest & Hs & _ & Hsent) Hk Hp. cbn in Hsent. exists rest. unfold after_turn.
  destruct waits; (split_and!; [done|done|]); cbn; right; exists part; by rewrite Hk, Hsent.
Qed.

Lemma explained_other b o o' e n :
  o <> o' -> explained options x b o n ->
  explained options x (mkBook (bk_history b ++ [(o', e)]) (bk_streams b) (bk_listed b)) o n.
Proof.
  intros Hne (rest & Hs & Hr & Hsent). exists rest. cbn.
  destruct (other_asked options o o' e (bk_history b) x) as [-> ->]; [done|]. done.
Qed.

Lemma turn_explained b i seen s t :
  explains options x b s -> connection_turn options i seen s = Some t ->
  exists b', entry options b s t b' /\ explains options x b' t.
Proof.
  intros [H1 H2 H3 H4 H5] H. unfold connection_turn in H.
  destruct (sv_active s !! i) as [[k served []]|] eqn:Ei; try done.
  set (waits := negb seen && round_waits options (sv_core s) k) in *.
  destruct (serve_round options seen served (sv_core s) k) as [[[c' k'] served'] continues] eqn:Er.
  injection H as <-. destruct (Forall2_lookup_r _ _ _ _ _ H4 Ei) as (o & Ho & Hn).
  apply serve_round_turn in Er. destruct Er as [e part continues He Hd Hc Hk Hp Hall|part Hc Hk Hp].
  - exists (mkBook (bk_history b ++ [(o, e)]) (bk_streams b) (bk_listed b)).
    split; [by eapply (entry_served _ _ _ _ i o e k)|]. split; cbn; try done.
    + apply Forall_app. split; [done|]. apply Forall_singleton. split; [done|]. cbn.
      destruct Hn as (rest & Hs & _). by eapply lookup_lt_Some.
    + rewrite replay_app, <- H2. exact Hc.
    + apply Forall2_same_length_lookup. rewrite length_insert. split; [by eapply Forall2_length|].
      intros j o' n Hj Hnj. apply list_lookup_insert_Some in Hnj as [(<- & <- & _)|(Hne & Hnj)].
      * rewrite Ho in Hj. injection Hj as <-. by eapply served_explained.
      * apply explained_other; [|by eapply Forall2_lookup_lr].
        intros ->. apply Hne. by eapply NoDup_lookup.
  - exists b. split; [by constructor|]. split; cbn; [done|by rewrite Hc|done| |done].
    rewrite <- (list_insert_id (bk_listed b) i o Ho). apply Forall2_insert; [done|]. by eapply ended_explained.
Qed.

Lemma erase_explained b i leaves s t :
  explains options x b s -> erase_connection i leaves s = Some t ->
  exists b', entry options b s t b' /\ explains options x b' t.
Proof.
  intros [H1 H2 H3 H4 H5] H. unfold erase_connection in H. destruct (sv_active s !! i) as [[k served []]|] eqn:Ei; try done.
  destruct (leaves && _); [done|]. injection H as <-.
  exists (mkBook (bk_history b) (bk_streams b) (delete i (bk_listed b))). split; [by apply entry_left|]. split; cbn; try done.
  - eapply sublist_NoDup; [exact H3|apply sublist_delete].
  - by apply Forall2_delete.
Qed.

Lemma close_explained b o n : explained options x b o n -> explained options x b o (close_connection n).
Proof.
  intros (rest & Hs & Hr & Hsent). exists rest. split_and!; [done|by left|]. by destruct n as [k served []].
Qed.

Lemma outside_explained b s t : explains options x b s -> outside_step s t -> explains options x b t /\
  sc_registry (sv_core t) = sc_registry (sv_core s).
Proof.
  intros Hb Hst. pose proof (bk_fresh _ _ _ _ Hb) as Hf. apply Forall_app in Hf as [Hh Hq].
  destruct Hst as [k s Ha Ht _ Hk|s Ha Ht|s _]; (split; [|try done; apply notify_registry]).
  - apply (explains_core b s); [done..|]. by constructor.
  - by apply (explains_core b s).
  - by apply notify_explained.
Qed.

Lemma own_explained b s t :
  explains options x b s -> own_step options s t -> exists b', entry options b s t b' /\ explains options x b' t.
Proof.
  intros Hb Hst. pose proof (bk_fresh _ _ _ _ Hb) as Hf. apply Forall_app in Hf as [Hh Hq].
  assert (explains options x b t -> sc_registry (sv_core t) = sc_registry (sv_core s) ->
          exists b', entry options b s t b' /\ explains options x b' t) as Hsame by (intros; exists b; by split; [constructor|]).
  destruct Hst as [k s Ha|s Ha Ep|s t H|i seen s t _ H|i leaves s t H|s E|s E|s E El|s E Ex].
  - apply Hsame; [by apply accept_explained|]. unfold accept_socket. case_match; [by rewrite notify_registry|done].
  - apply Hsame; [|done]. by apply (explains_core b s).
  - by eapply worker_explained.
  - by eapply turn_explained.
  - by eapply erase_explained.
  - apply Hsame; unfold stop_request; (destruct (sv_stopping s); [done|]); [|done]. apply (explains_core b s); [done..|].
    by apply Forall_app.
  - apply Hsame; [|done]. apply (explains_core b s); [done..|]. by apply Forall_app.
  - apply Hsame; [|done]. destruct Hb as [H1 H2 H3 H4 _]. split; cbn; try done.
    + apply Forall2_fmap_r. eapply Forall2_impl; [exact H4|]. intros o n. apply close_explained.
    + by rewrite app_nil_r.
  - destruct Hb as [H1 H2 _ _ H5]. exists (mkBook (bk_history b) (bk_streams b) []). split; [by apply entry_stopped|].
    split; cbn; try done. constructor.
Qed.

Lemma step_explained b s t :
  explains options x b s -> service_step options s t -> exists b', entry options b s t b' /\ explains options x b' t.
Proof.
  intros Hb [H|H]; [|by apply own_explained]. destruct (outside_explained b s t Hb H) as [Ht Hr].
  exists b. split; [by constructor|done].
Qed.
End run.

(** C11: the service behaves as one registry that serves one request at a time.
    A book is kept along every run, whatever the clients send and however the
    acceptor, the workers, the connections and [stop] interleave.  A step that
    changes the registry does so by executing exactly one request, once: the next
    one on the stream of a connection in the list, which passed the checks of the
    protocol; and that request is entered at the end of the history.  No other
    step enters a request.  By the book, at any moment, the registry is the one
    that the requests of the history produce one after the other; the requests
    entered for a connection are the beginning of what arrived on it, in order;
    and what was sent on an open connection is exactly the answers to its own
    requests, each given by the registry at its place in the history.  A
    connection whose loop has ended or waits may have got the start of an answer
    or of a refusal last. *)
Theorem service_linearizable options x :
  explains options x (mkBook [] [] []) (started options x) /\
  forall b s t, explains options x b s -> rtc (service_step options) s t ->
    exists b', rtc (booked options) (b, s) (b', t) /\ explains options x b' t.
Proof.
  split; [by split; constructor|]. intros b s t Hb Hst. revert b Hb.
  induction Hst as [s|s u t Hst _ IH]; intros b Hb; [by exists b|].
  destruct (step_explained options x b s u Hb Hst) as (b1 & He1 & Hb1). destruct (IH b1 Hb1) as (b2 & He2 & Hb2).
  exists b2. split; [|done]. eapply rtc_l; [by constructor|done].
Qed.

(** A visitor that asks whether the service is there and gets its answer. *)
Module Asked.
Definition query : Frame :=
  mkFrame (mkFrameHeader kProtocolVersion flag_final OpPing 0 7 0 digest_zero 0) (enc_now 5).
Definition visitor : Socket := mkSocket [Arrives (serialize_frame query)] [] [].
Definition opened : Service := started Hall.options Sample.observed.
Definition busy : Service :=
  mkService (count_accepted (sv_core opened)) true false AcceptWaiting [] [mkConnection visitor 0 Serving] 0 0 0
    NotStopped.
Definition answered : Service :=
  match connection_turn Hall.options 0 false busy with Some s => s | None => busy end.

Lemma visitor_bytes : bytes (delivered (sk_inbound visitor)).
Proof. apply bytes_check. by vm_compute. Qed.

Lemma turn_taken : connection_turn Hall.options 0 false busy = Some answered.
Proof. reflexivity. Qed.

Lemma answered_run : rtc (service_step Hall.options) opened answered.
Proof.
  eapply rtc_l; [apply from_outside, (accept_arrival visitor); [done|done|apply visitor_bytes|done]|].
  eapply rtc_l; [by apply by_itself, (accept_decide _ visitor)|]. eapply rtc_l; [by apply by_itself, worker_step|].
  eapply rtc_once, by_itself, connection_step, turn_taken. done.
Qed.
End Asked.

Lemma service_linearizable_witness :
  map (fun n => (length (sk_sent (cn_socket n)) =? 0)%nat) (sv_active Asked.answered) = [false] /\
  exists b, rtc (booked Hall.options) (mkBook [] [] [], Asked.opened) (b, Asked.answered) /\
    explains Hall.options Sample.observed b Asked.answered.
Proof.
  split; [vm_compute; reflexivity|].
  destruct (service_linearizable Hall.options Sample.observed) as [H0 Hstep].
  destruct (Hstep _ _ _ H0 Asked.answered_run) as (b & Hrun & Hb). exists b. split; [exact Hrun|exact Hb].
Defined.
