(* ===== verification/Client.v ===== *)
(** * The client (src/client.cpp, include/ocreg/client.hpp)

    One request in flight at a time: a frame is sent, the matching reply is
    read, its envelope opened and its body decoded. *)

From Stdlib Require Import ZArith Lia String.
From stdpp Require Import base tactics list strings.
From S2P Require Import Prelude Checked Reason Text Hash Catalog Evidence State Codec CodecTypes.
From S2P Require Import Registry RegistryOps Persist Protocol Net Service.

#[local] Open Scope string_scope.
#[local] Open Scope Z_scope.
#[local] Open Scope list_scope.

Record ClientOptions := mkClientOptions { co_host : string; co_port : Z; co_max_frame_payload : Z }.

(** The socket is absent when it is invalid. *)
Record Client := mkClient {
  cl_socket : option Socket;
  cl_max_frame_payload : Z;
  cl_next_request_id : Z }.

(** [connected] is the outcome of [net::connect_to]. *)
Definition client_connect (options : ClientOptions) (connected : Outcome Socket) : Outcome Client :=
  if co_port options =? 0 then outcome_failure TransportUnavailable "port must be non-zero"
  else match outcome_ok connected, oc_value connected with
       | true, Some k => outcome_value (mkClient (Some k) (co_max_frame_payload options) 1)
       | _, _ => outcome_failure (outcome_reason connected) (st_detail (oc_status connected))
       end.

Definition read_frame (k : Socket) (max_payload : Z) (request : FrameHeader) : Outcome (list Z) * Socket :=
  let '(result, header_bytes, k) := socket_recv kFrameHeaderSize k in
  match result with
  | RecvClosed => (outcome_failure TransportClosed "peer closed before replying", k)
  | RecvError => (outcome_failure TransportClosed "header read failed", k)
  | RecvOk =>
      match decode_frame_header header_bytes with
      | inl reason => (outcome_failure reason "response header rejected", k)
      | inr header =>
          if Z.land (fh_flags header) flag_response =? 0
          then (outcome_failure ProtocolSequenceViolation "reply is not a response", k)
          else if negb (fh_request_id header =? fh_request_id request)
          then (outcome_failure ProtocolSequenceViolation "reply carries another request id", k)
          else if negb (bool_decide (fh_opcode header = fh_opcode request))
          then (outcome_failure ProtocolSequenceViolation "reply carries another opcode", k)
          else if fh_payload_len header >? max_payload
          then (outcome_failure ProtocolFrameTooLarge "reply payload exceeds the bound", k)
          else
          let '(result, payload, k) := socket_recv (Z.to_nat (fh_payload_len header)) k in
          if negb (bool_decide (result = RecvOk))
          then (outcome_failure TransportClosed "reply body could not be read", k)
          else if negb (bool_decide (digest_of payload = fh_payload_digest header))
          then (outcome_failure ProtocolChecksumMismatch "reply payload digest mismatch", k)
          else (outcome_value payload, k)
      end
  end.

(** The reason a reader leaves, or [otherwise] when it stopped early. *)
Definition decode_whole {T} (decode : Reader T) (otherwise : ReasonCode) (data : list Z) : ReasonCode + T :=
  match decode data with
  | inl reason => inl reason
  | inr (v, []) => inr v
  | inr (_, _ :: _) => inl otherwise
  end.

Definition open_envelope (payload : list Z) : Outcome (list Z) :=
  match decode_whole dec_envelope ProtocolFrameMalformed payload with
  | inl reason => outcome_failure reason "response envelope rejected"
  | inr envelope =>
      if is_failure (re_reason envelope) then outcome_failure (re_reason envelope) (re_detail envelope)
      else outcome_value (re_body envelope)
  end.

Definition request_frame (opcode : OpCode) (id : Z) (payload : list Z) : Frame :=
  mkFrame (mkFrameHeader kProtocolVersion 0 opcode 0 id 0 digest_zero 0) payload.

Definition client_call (opcode : OpCode) (payload : list Z) (cl : Client) : Outcome (list Z) * Client :=
  match cl_socket cl with
  | None => (outcome_failure TransportClosed "client is not connected", cl)
  | Some k =>
      if Z.of_nat (length payload) >? cl_max_frame_payload cl
      then (outcome_failure ProtocolFrameTooLarge "request payload exceeds the bound", cl)
      else
      let request := request_frame opcode (cl_next_request_id cl) payload in
      let after k := mkClient (Some k) (cl_max_frame_payload cl) (u64 (cl_next_request_id cl + 1)) in
      let bytes := serialize_frame request in
      if (length bytes =? 0)%nat
      then (outcome_failure ProtocolFrameMalformed "request frame is not representable", after k)
      else
      let '(ok, k) := socket_send bytes k in
      if negb ok then (outcome_failure TransportClosed "request could not be sent", after k)
      else
      let '(reply, k) := read_frame k (cl_max_frame_payload cl) (fr_header request) in
      match outcome_ok reply, oc_value reply with
      | true, Some payload => (open_envelope payload, after k)
      | _, _ => (reply, after k)
      end
  end.

Definition decode_body {T} (body : Outcome (list Z)) (decode : Reader T) (failure_reason : ReasonCode) : Outcome T :=
  match outcome_ok body, oc_value body with
  | true, Some data =>
      match decode_whole decode failure_reason data with
      | inl reason => outcome_failure reason "response body rejected"
      | inr v => outcome_value v
      end
  | _, _ => outcome_failure (outcome_reason body) (st_detail (oc_status body))
  end.

(** A typed call: encode, call, decode. *)
Definition remote {Req Resp} (opcode : OpCode) (encode : Req -> list Z) (decode : Reader Resp) (q : Req)
    (cl : Client) : Outcome Resp * Client :=
  let '(body, cl) := client_call opcode (encode q) cl in (decode_body body decode ProtocolFrameMalformed, cl).

Record ExplanationResponse := mkExplanationResponse {
  xp_explanation : Explanation; xp_available : bool; xp_reason : ReasonCode }.
Definition dec_explanation_response : Reader ExplanationResponse :=
  fun b => match dec_explanation b with
           | inl reason => inl reason
           | inr (e, rest) => inr (mkExplanationResponse e true Ok_, rest)
           end.

Definition client_ping := remote OpPing enc_now dec_bool_response.
Definition client_stats := remote OpStats enc_now dec_stats_response.
(** The tick given to [admit] and [retire] is not sent. *)
Definition client_admit (q : AdmissionRequest) (now : Tick) := remote OpAdmit enc_admission dec_admission_outcome q.
Definition client_retire (q : RetirementRequest) (now : Tick) :=
  remote OpRetire enc_retire_request dec_retirement_outcome q.
Definition client_query (q : CapabilityQuery) (now : Tick) := remote OpQuery enc_query_request dec_query_result (q, now).
Definition client_evaluate (q : CapabilityRequirement) (now : Tick) :=
  remote OpEvaluate enc_evaluate_request dec_decision (q, now).
Definition client_explain := remote OpExplain enc_explain_request dec_explanation_response.
Definition client_export (o : ExportOptions) (now : Tick) :=
  remote OpExport enc_export_request dec_export_response (o, now).
Definition client_revoke_source (s : SourceId) (now : Tick) :=
  remote OpRevokeSource enc_source_request dec_bool_response (s, now).
Definition client_restore_source (s : SourceId) (now : Tick) :=
  remote OpRestoreSource enc_source_request dec_bool_response (s, now).
Definition client_set_source_authority (s : SourceId) (a : AuthorityRank) (now : Tick) :=
  remote OpSetSourceAuthority enc_authority_request dec_bool_response (s, a, now).
Definition client_upsert_source_policy (p : SourcePolicy) (now : Tick) :=
  remote OpUpsertSourcePolicy enc_policy_request dec_source_policy (p, now).
Definition client_begin_device_incarnation (d : DeviceIdentity) (now : Tick) :=
  remote OpBeginDeviceIncarnation enc_incarnation_request dec_id_response (d, now).
Definition client_current_incarnation (d : DeviceIdentity) (now : Tick) :=
  remote OpCurrentIncarnation enc_incarnation_request dec_id_response (d, now).
Definition client_resolve_conflict := remote OpResolveConflict enc_resolve_request dec_resolution.
Definition client_eviction_ledger := remote OpEvictionLedger enc_now dec_ledger_response.
Definition client_shutdown := remote OpShutdown enc_now dec_bool_response.
