(* ===== verification/ClientThms.v ===== *)
(** * Client and service together

    A call of the client, carried by a network that cuts the streams at will,
    served by the service on its registry and carried back, returns what the
    registry answers. *)

From Stdlib Require Import ZArith Lia String.
From stdpp Require Import base tactics list strings.
From S2P Require Import Prelude Checked Reason Text Hash Catalog Evidence State Codec CodecTypes CodecThms.
From S2P Require Import Registry RegistryOps RegistryInv RegistryThms Persist Protocol ProtocolThms Export Net.
From S2P Require Import Service Client.

#[local] Open Scope string_scope.
#[local] Open Scope Z_scope.
#[local] Open Scope list_scope.
#[local] Opaque digest_of crc32c catalog_fingerprint reason_table_fingerprint.

(** ** Receiving a frame *)

Lemma socket_recv_steady want k :
  steady (sk_inbound k) -> (want <= length (delivered (sk_inbound k)))%nat ->
  exists rest, socket_recv want k =
    (RecvOk, take want (delivered (sk_inbound k)), mkSocket rest (sk_outbound k) (sk_sent k)) /\
    steady rest /\ delivered rest = drop want (delivered (sk_inbound k)).
Proof.
  intros Hs Hw. destruct (recv_exact_steady want _ Hs Hw) as (rest & E & Hr & Hd). exists rest.
  unfold socket_recv. by rewrite E.
Qed.

Lemma received_len f : frame_ok f -> fh_payload_len (received_header f) = Z.of_nat (length (fr_payload f)).
Proof.
  intros Hf. by destruct (serialize_frame_bytes f Hf) as (hdr & _ & _ & _ & H).
Qed.

(** A frame that starts the stream is read in two parts, however it is cut. *)
Lemma receive_frame f rest k :
  frame_ok f -> steady (sk_inbound k) -> delivered (sk_inbound k) = serialize_frame f ++ rest ->
  exists hdr k1 inbound,
    socket_recv kFrameHeaderSize k = (RecvOk, hdr, k1) /\ decode_frame_header hdr = inr (received_header f) /\
    socket_recv (Z.to_nat (fh_payload_len (received_header f))) k1 =
      (RecvOk, fr_payload f, mkSocket inbound (sk_outbound k) (sk_sent k)) /\
    steady inbound /\ delivered inbound = rest.
Proof.
  intros Hf Hs Hd. destruct (serialize_frame_bytes f Hf) as (hdr & Ef & Hl & Hdec & _).
  rewrite Ef, <- app_assoc in Hd. destruct (socket_recv_steady kFrameHeaderSize k Hs) as (r1 & E1 & Hs1 & Hd1).
  { rewrite Hd, length_app. lia. }
  rewrite Hd, <- Hl, take_app_length in E1. rewrite Hd, <- Hl, drop_app_length in Hd1.
  destruct (socket_recv_steady (length (fr_payload f)) (mkSocket r1 (sk_outbound k) (sk_sent k)) Hs1)
    as (r2 & E2 & Hs2 & Hd2).
  { cbn. rewrite Hd1, length_app. lia. }
  cbn [sk_inbound sk_outbound sk_sent] in E2, Hd2. rewrite Hd1, take_app_length in E2. rewrite Hd1, drop_app_length in Hd2.
  exists hdr, (mkSocket r1 (sk_outbound k) (sk_sent k)), r2. rewrite <- Hl, received_len, Nat2Z.id by done.
  by split_and!.
Qed.

Lemma socket_send_free b inbound sent :
  socket_send b (mkSocket inbound [] sent) = (true, mkSocket inbound [] (sent ++ b)).
Proof. unfold socket_send. by destruct b. Qed.

Lemma serialize_nonempty f : frame_ok f -> (length (serialize_frame f) =? 0)%nat = false.
Proof.
  intros Hf. destruct (serialize_frame_bytes f Hf) as (hdr & -> & Hl & _). rewrite length_app, Hl. done.
Qed.

(** ** The exchange *)

(** A network carries a stream whole and in order; how it cuts it is its own
    affair. *)
Definition carries (net : list Z -> list RecvEvent) : Prop :=
  forall b, steady (net b) /\ delivered (net b) = b.

Section exchange.
Context (options : ServerOptions) (to_server to_client : list Z -> list RecvEvent).

(** The client's request as the service receives it, the turn of the service,
    and the client's call over the reply. *)
Definition served_request (opcode : OpCode) (payload : list Z) (id : Z) (c : Core) : Core * Socket :=
  let '(c', k, _, _) := serve_round options false 0 c
    (mkSocket (to_server (serialize_frame (request_frame opcode id payload))) [] []) in (c', k).
Definition exchange {T} (call : Client -> Outcome T * Client) (opcode : OpCode) (payload : list Z)
    (max_payload id : Z) (c : Core) : Outcome T * Core :=
  let '(c', k) := served_request opcode payload id c in
  (fst (call (mkClient (Some (mkSocket (to_client (sk_sent k)) [] [])) max_payload id)), c').

Context (Hto : carries to_server) (Hfrom : carries to_client).

(** What both ends accept. *)
Definition fits (max_payload : Z) (data : list Z) : Prop :=
  Z.of_nat (length data) <= so_max_frame_payload options /\ Z.of_nat (length data) <= max_payload /\
  Z.of_nat (length data) <= kMaxFramePayload.

Lemma response_frame_fits header max_payload envelope :
  fits max_payload (enc_envelope envelope) ->
  exists flags, response_frame (so_max_frame_payload options) header envelope =
    (reply_frame header flags (enc_envelope envelope), false) /\ in_u 16 flags /\
    (Z.land flags flag_response =? 0) = false.
Proof.
  intros (Hf & _). unfold response_frame. replace (_ >? _) with false by lia.
  destruct (is_failure (re_reason envelope)); eexists; (split; [reflexivity|]); split; vm_compute; done.
Qed.

Lemma request_frame_ok opcode id payload :
  in_u 64 id -> Z.of_nat (length payload) <= kMaxFramePayload -> frame_ok (request_frame opcode id payload).
Proof. intros Hi Hl. repeat split; try done; apply Hi. Qed.

Lemma reply_frame_ok header flags payload :
  in_u 16 flags -> in_u 64 (fh_request_id header) -> Z.of_nat (length payload) <= kMaxFramePayload ->
  frame_ok (reply_frame header flags payload).
Proof. intros Hf Hi Hl. repeat split; try done; (apply Hf || apply Hi). Qed.

(** The service answers with the frame of the dispatched envelope, and its
    registry is the one the operation leaves. *)
Lemma served_request_spec opcode payload max_payload id c envelope x :
  in_u 64 id -> fits max_payload payload ->
  dispatch opcode payload (sc_registry c) = (envelope, x) -> fits max_payload (enc_envelope envelope) ->
  exists c' k flags,
    served_request opcode payload id c = (c', k) /\ sc_registry c' = x /\ in_u 16 flags /\
    (Z.land flags flag_response =? 0) = false /\
    sk_sent k = serialize_frame (reply_frame (received_header (request_frame opcode id payload)) flags
                                   (enc_envelope envelope)).
Proof.
  intros Hi Hp Hd He. set (f := request_frame opcode id payload).
  assert (frame_ok f) as Hf by (apply request_frame_ok; [done|apply Hp]).
  destruct (Hto (serialize_frame f)) as [Hs Hb]. rewrite <- (app_nil_r (serialize_frame f)) in Hb at 2.
  destruct (receive_frame f [] (mkSocket (to_server (serialize_frame f)) [] []) Hf Hs Hb)
    as (hdr & k1 & inbound & E1 & E2 & E3 & _).
  destruct (response_frame_fits (received_header f) max_payload envelope He) as (flags & Er & Hfl & Hfr).
  unfold served_request. fold f. unfold serve_round. rewrite E1, E2. cbn [bool_decide negb].
  rewrite bool_decide_true by done. cbn [negb].
  replace (fh_payload_len (received_header f) >? so_max_frame_payload options) with false
    by (rewrite received_len by done; change (fr_payload f) with payload; destruct Hp; lia).
  rewrite E3. rewrite !bool_decide_true by done. cbn [negb]. unfold serve_request, dispatch_core.
  change (fh_opcode (received_header f)) with opcode. change (fr_payload f) with payload.
  destruct (length payload =? 0)%nat; cbn [count_read sc_registry]; rewrite Hd, Er, socket_send_free; cbn [negb];
    (eexists _, _, flags; split; [reflexivity|]); destruct (requests_shutdown opcode payload); by split_and!.
Qed.

(** What an envelope says to the caller. *)
Definition envelope_outcome (envelope : ResponseEnvelope) : Outcome (list Z) :=
  if is_failure (re_reason envelope) then outcome_failure (re_reason envelope) (re_detail envelope)
  else outcome_value (re_body envelope).

Lemma open_envelope_of envelope : envelope_wf envelope -> open_envelope (enc_envelope envelope) = envelope_outcome envelope.
Proof.
  intros Hw. unfold open_envelope, decode_whole. rewrite <- (app_nil_r (enc_envelope envelope)).
  by rewrite (codec_dec_enc (Codec := canonical_codec _ _ _ envelope_codec) envelope [] Hw).
Qed.

(** The client accepts the reply to its request and opens it. *)
Lemma call_answered opcode payload max_payload id flags envelope k :
  in_u 64 id -> fits max_payload payload -> fits max_payload (enc_envelope envelope) -> envelope_wf envelope ->
  in_u 16 flags -> (Z.land flags flag_response =? 0) = false ->
  steady (sk_inbound k) -> sk_outbound k = [] ->
  delivered (sk_inbound k) =
    serialize_frame (reply_frame (received_header (request_frame opcode id payload)) flags (enc_envelope envelope)) ->
  fst (client_call opcode payload (mkClient (Some k) max_payload id)) = envelope_outcome envelope.
Proof.
  intros Hi Hp He Hw Hfl Hfr Hs Ho Hd. destruct k as [inb outb sent]; cbn [sk_inbound sk_outbound] in *. subst outb.
  set (f := request_frame opcode id payload) in *.
  assert (frame_ok f) as Hf by (apply request_frame_ok; [done|apply Hp]).
  set (g := reply_frame (received_header f) flags (enc_envelope envelope)) in *.
  assert (frame_ok g) as Hg by (apply reply_frame_ok; [done|done|apply He]).
  rewrite <- (app_nil_r (serialize_frame g)) in Hd.
  set (k' := mkSocket inb [] (sent ++ serialize_frame f)).
  destruct (receive_frame g [] k' Hg Hs Hd) as (hdr & k1 & inbound & E1 & E2 & E3 & _).
  unfold client_call. cbn [cl_socket cl_max_frame_payload cl_next_request_id].
  replace (_ >? max_payload) with false by (destruct Hp as (_ & ? & _); lia).
  fold f. rewrite serialize_nonempty by done.
  rewrite socket_send_free. fold k'. cbn [negb]. unfold read_frame. rewrite E1, E2.
  change (fh_flags (received_header g)) with flags. rewrite Hfr.
  change (fh_request_id (received_header g)) with id. change (fh_request_id (fr_header f)) with id.
  change (fh_opcode (received_header g)) with opcode. change (fh_opcode (fr_header f)) with opcode.
  rewrite Z.eqb_refl, bool_decide_true by done. cbn [negb].
  replace (fh_payload_len (received_header g) >? max_payload) with false
    by (rewrite received_len by done; change (fr_payload g) with (enc_envelope envelope); destruct He as (_ & ? & _); lia).
  rewrite E3, !bool_decide_true by done. cbn [negb outcome_ok outcome_value oc_value oc_status st_failed fst].
  change (fr_payload g) with (enc_envelope envelope). by apply open_envelope_of.
Qed.

(** One call and its effect on the registry. *)
Lemma call_exchanged opcode payload max_payload id c envelope x :
  in_u 64 id -> fits max_payload payload ->
  dispatch opcode payload (sc_registry c) = (envelope, x) ->
  envelope_wf envelope -> fits max_payload (enc_envelope envelope) ->
  exists c', exchange (client_call opcode payload) opcode payload max_payload id c =
             (envelope_outcome envelope, c') /\ sc_registry c' = x.
Proof.
  intros Hi Hp Hd Hw He.
  destruct (served_request_spec opcode payload max_payload id c envelope x Hi Hp Hd He)
    as (c' & k & flags & E & Hx & Hfl & Hfr & Hk).
  exists c'. split; [|done]. unfold exchange. rewrite E. f_equal. rewrite Hk.
  destruct (Hfrom (serialize_frame (reply_frame (received_header (request_frame opcode id payload)) flags
                                      (enc_envelope envelope)))) as [Hs Hdel].
  by apply (call_answered opcode payload max_payload id flags envelope).
Qed.
End exchange.

(** ** Methods *)

Definition outcome_map {A B} (f : A -> B) (o : Outcome A) : Outcome B :=
  mkOutcome (match oc_value o with Some v => Some (f v) | None => None end) (oc_status o).

(** What the service promises for one operation code, and the client relies on:
    a request is dispatched to [run], whose answer travels as the body of the
    envelope under the reason [code], and the client's decoder reads that body
    back; an empty body is refused. *)
Class Served {Req Resp} (opcode : OpCode) (encq : Req -> list Z) (wfq : Req -> Prop)
    (run : Req -> Impl -> Outcome Resp * Impl) (code : Resp -> ReasonCode)
    (encr : Resp -> list Z) (decr : Reader Resp) (wfr : Resp -> Prop) : Prop := {
  served_dispatch : forall q x, wfq q ->
    dispatch opcode (encq q) x =
    (reply_outcome (fst (run q x)) (fun v => success_envelope (code v) v encr), snd (run q x));
  served_decode : forall v, wfr v -> decr (encr v) = inr (v, []);
  served_empty : decr [] = inl RejectedTruncatedInput }.

(** What the caller sees of an outcome: a refusal under a failing reason and an
    answer under any other reason arrive as they are; an answer under a failing
    reason arrives as that failure, without its content; and a refusal under a
    reason that is not a failure has an empty body, which is refused. *)
Definition remote_view {T} (code : T -> ReasonCode) (o : Outcome T) : Outcome T :=
  match outcome_ok o, oc_value o with
  | true, Some v => if is_failure (code v) then outcome_failure (code v) "" else outcome_value v
  | _, _ => if is_failure (outcome_reason o) then outcome_failure (outcome_reason o) (st_detail (oc_status o))
            else outcome_failure RejectedTruncatedInput "response body rejected"
  end.

Definition reply_envelope {T} (code : T -> ReasonCode) (encr : T -> list Z) (o : Outcome T) : ResponseEnvelope :=
  reply_outcome o (fun v => success_envelope (code v) v encr).

(** The answer can be carried: it is well formed, and its envelope within the
    bounds of both ends. *)
Definition sendable {T} (options : ServerOptions) (max_payload : Z) (wfr : T -> Prop) (code : T -> ReasonCode)
    (encr : T -> list Z) (o : Outcome T) : Prop :=
  (forall v, oc_value o = Some v -> wfr v) /\ envelope_wf (reply_envelope code encr o) /\
  fits options max_payload (enc_envelope (reply_envelope code encr o)).

Lemma decode_reply {T} (code : T -> ReasonCode) (encr : T -> list Z) (decr : Reader T) (o : Outcome T) (wfr : T -> Prop) :
  (forall v, wfr v -> decr (encr v) = inr (v, [])) -> decr [] = inl RejectedTruncatedInput ->
  (forall v, oc_value o = Some v -> wfr v) ->
  decode_body (envelope_outcome (reply_envelope code encr o)) decr ProtocolFrameMalformed = remote_view code o.
Proof.
  intros Hd He Hw. unfold reply_envelope, reply_outcome, remote_view, envelope_outcome, decode_body, decode_whole.
  destruct (outcome_ok o); [destruct (oc_value o) as [v|] eqn:Ev|]; cbn [success_envelope failure_envelope re_reason re_detail re_body].
  - destruct (is_failure (code v)); [done|]. cbn. by rewrite (Hd v (Hw v eq_refl)).
  - destruct (is_failure _); [done|]. cbn. by rewrite He.
  - destruct (is_failure _); [done|]. cbn. by rewrite He.
Qed.

Section methods.
Context (options : ServerOptions) (to_server to_client : list Z -> list RecvEvent).
Context (Hto : carries to_server) (Hfrom : carries to_client).

Lemma remote_exchanged {Req Resp} opcode (encq : Req -> list Z) wfq run code (encr : Resp -> list Z) decr wfr
    `{!Served opcode encq wfq run code encr decr wfr} q max_payload id c :
  in_u 64 id -> wfq q -> fits options max_payload (encq q) ->
  sendable options max_payload wfr code encr (fst (run q (sc_registry c))) ->
  exists c', exchange options to_server to_client (remote opcode encq decr q) opcode (encq q) max_payload id c =
             (remote_view code (fst (run q (sc_registry c))), c') /\
             sc_registry c' = snd (run q (sc_registry c)).
Proof.
  intros Hi Hq Hf (Hw & He & Hfe).
  destruct (call_exchanged options to_server to_client Hto Hfrom opcode (encq q) max_payload id c _ _ Hi Hf
              (served_dispatch q (sc_registry c) Hq) He Hfe) as (c' & E & Hc).
  exists c'. split; [|done]. unfold exchange in *.
  destruct (served_request options to_server opcode (encq q) id c) as [c1 k]. injection E as E1 E2. subst c1. f_equal.
  unfold remote. destruct (client_call opcode (encq q) _) as [body cl]. cbn [fst] in *. subst body.
  apply decode_reply with wfr; [apply served_decode|apply (served_empty (Served := Served0))|done].
Qed.
End methods.

(** ** The service implements the interface *)

Definition always_ok {T} (v : T) : ReasonCode := Ok_.
Definition reading {Req T} (f : Req -> Impl -> Outcome T) (q : Req) (x : Impl) : Outcome T * Impl := (f q x, x).
Definition writing {Req A B} (f : Outcome A -> Outcome B) (op : Req -> Impl -> Outcome A * Impl) (q : Req) (x : Impl)
  : Outcome B * Impl := (f (fst (op q x)), snd (op q x)).
Definition bool_response (o : Outcome bool) : Outcome BoolResponse :=
  outcome_map (fun v => mkBoolResponse v (st_code (oc_status o))) o.
Definition id_response (reason : ReasonCode) : Outcome Z -> Outcome IdResponse := outcome_map (fun v => mkIdResponse v reason).
Definition explanation_response : Outcome Explanation -> Outcome ExplanationResponse :=
  outcome_map (fun e => mkExplanationResponse e true Ok_).
Definition export_answer (q : ExportOptions * Tick) (x : Impl) : Outcome ExportResponse :=
  let o := fst q in
  outcome_map (fun r => mkExportResponse (er_document r) (er_digest r) (er_truncated r) (er_notes r))
    (export_registry x (mkExportOptions (eo_include_history o) (eo_include_rejected o) (eo_include_evictions o)
       (eo_include_policy o) (eo_pretty o) (eo_max_records o)
       (if eo_max_bytes o =? 0 then kMaxFramePayload else eo_max_bytes o)) (snd q)).

Lemma reply_outcome_map {A B} (f : A -> B) (o : Outcome A) answer :
  reply_outcome (outcome_map f o) answer = reply_outcome o (fun v => answer (f v)).
Proof. unfold reply_outcome, outcome_map, outcome_ok, outcome_reason. cbn. by destruct (negb _), (oc_value o). Qed.

Lemma handle_encoded {Req} (encq : Req -> list Z) decq wfq `{!Codec encq decq wfq} detail run q x :
  wfq q -> handle decq detail run (encq q) x = run q x.
Proof.
  intros Hq. unfold handle. rewrite <- (app_nil_r (encq q)). by rewrite (codec_dec_enc q [] Hq).
Qed.

Lemma decode_encoded {A} (enc : A -> list Z) dec wf `{!Codec enc dec wf} v : wf v -> dec (enc v) = inr (v, []).
Proof. intros Hv. rewrite <- (app_nil_r (enc v)). by apply codec_dec_enc. Qed.

Ltac served :=
  split;
  [ intros q x Hq; cbn [dispatch]; erewrite handle_encoded by (exact Hq || apply _);
    unfold unchanged, updating, reading, writing, reply_bool, bool_response, id_response, export_reply, export_answer,
      explanation_response;
    cbn [fst snd]; rewrite ?reply_outcome_map; try reflexivity
  | intros v Hv; eapply decode_encoded; [apply _|exact Hv]
  | vm_compute; reflexivity ].

#[export] Instance served_ping :
  Served OpPing enc_now (in_u 64) (reading (fun _ _ => outcome_value (mkBoolResponse true Ok_))) always_ok
    enc_bool_response dec_bool_response any.
Proof. served. Qed.
#[export] Instance served_stats :
  Served OpStats enc_now (in_u 64) (reading (fun now x => outcome_value (stats now x))) always_ok
    enc_stats_response dec_stats_response stats_wf.
Proof. served. Qed.
#[export] Instance served_admit :
  Served OpAdmit enc_admission admission_wf (fun q => registry_admit q (aq_observed_at q)) ao_reason
    enc_admission_outcome dec_admission_outcome admission_outcome_wf.
Proof. served. by destruct (registry_admit _ _ _). Qed.
#[export] Instance served_retire :
  Served OpRetire enc_retire_request retire_request_wf (fun q => retire q (rt_retired_at q)) ro_reason
    enc_retirement_outcome dec_retirement_outcome retirement_outcome_wf.
Proof. served. by destruct (retire _ _ _). Qed.
#[export] Instance served_query :
  Served OpQuery enc_query_request query_request_wf (reading (fun q => query (fst q) (snd q))) always_ok
    enc_query_result dec_query_result query_result_wf.
Proof. served. Qed.
#[export] Instance served_evaluate :
  Served OpEvaluate enc_evaluate_request (stamped_wf requirement_wf)
    (fun q x => (outcome_value (fst (evaluate (fst q) (snd q) x)), snd (evaluate (fst q) (snd q) x))) always_ok
    enc_decision dec_decision decision_wf.
Proof. served. Qed.

Definition explanation_response_wf (v : ExplanationResponse) : Prop :=
  explanation_wf (xp_explanation v) /\ xp_available v = true /\ xp_reason v = Ok_.
#[export] Instance served_explain :
  Served OpExplain enc_explain_request digest_wf (reading (fun id x => explanation_response (explain id x))) always_ok
    (fun v => enc_explanation (xp_explanation v)) dec_explanation_response explanation_response_wf.
Proof.
  split; [|intros [e a r] (He & Ha & Hr)|vm_compute; reflexivity].
  - intros q x Hq. cbn [dispatch]. erewrite handle_encoded by (exact Hq || apply _). unfold unchanged, reading.
    unfold explanation_response. cbn [fst snd]. by rewrite reply_outcome_map.
  - cbn in *. subst. unfold dec_explanation_response. by erewrite decode_encoded by (exact He || apply _).
Qed.
#[export] Instance served_export :
  Served OpExport enc_export_request export_request_wf (reading export_answer) always_ok
    enc_export_response dec_export_response export_response_wf.
Proof. served. Qed.
#[export] Instance served_revoke :
  Served OpRevokeSource enc_source_request (stamped_wf name_ok)
    (writing bool_response (fun q => revoke_source (fst q) (snd q))) always_ok enc_bool_response dec_bool_response any.
Proof. served. by destruct (revoke_source _ _ _). Qed.
#[export] Instance served_restore :
  Served OpRestoreSource enc_source_request (stamped_wf name_ok)
    (writing bool_response (fun q => restore_source (fst q) (snd q))) always_ok enc_bool_response dec_bool_response any.
Proof. served. by destruct (restore_source _ _ _). Qed.
#[export] Instance served_authority :
  Served OpSetSourceAuthority enc_authority_request authority_request_wf
    (writing bool_response (fun q => set_source_authority (fst (fst q)) (snd (fst q)) (snd q))) always_ok
    enc_bool_response dec_bool_response any.
Proof. served. by destruct (set_source_authority _ _ _ _). Qed.
#[export] Instance served_policy :
  Served OpUpsertSourcePolicy enc_policy_request (stamped_wf source_policy_wf)
    (fun q => upsert_source_policy (fst q) (snd q)) always_ok enc_source_policy dec_source_policy source_policy_wf.
Proof. served. by destruct (upsert_source_policy _ _ _). Qed.
#[export] Instance served_begin :
  Served OpBeginDeviceIncarnation enc_incarnation_request (stamped_wf device_identity_wf)
    (writing (id_response AcceptedNew) (fun q => begin_device_incarnation (fst q) (snd q))) always_ok
    enc_id_response dec_id_response id_response_wf.
Proof. served. by destruct (begin_device_incarnation _ _ _). Qed.
#[export] Instance served_current :
  Served OpCurrentIncarnation enc_incarnation_request (stamped_wf device_identity_wf)
    (reading (fun q x => id_response Ok_ (current_incarnation (fst q) x))) always_ok
    enc_id_response dec_id_response id_response_wf.
Proof. served. Qed.
#[export] Instance served_resolve :
  Served OpResolveConflict enc_resolve_request resolve_request_wf
    (fun q => resolve_conflict (rc_conflict q) (rc_chosen q) (rc_resolver q) (rc_now q)) always_ok
    enc_resolution dec_resolution resolution_wf.
Proof. served. by destruct (resolve_conflict _ _ _ _ _). Qed.
#[export] Instance served_ledger :
  Served OpEvictionLedger enc_now (in_u 64) (reading (fun _ x => outcome_value (mkLedgerResponse (i_evictions x) false)))
    always_ok enc_ledger_response dec_ledger_response ledger_response_wf.
Proof. served. Qed.
#[export] Instance served_shutdown :
  Served OpShutdown enc_now (in_u 64) (reading (fun _ _ => outcome_value (mkBoolResponse true Ok_))) always_ok
    enc_bool_response dec_bool_response any.
Proof. served. Qed.

(** ** The theorem *)

(** Whenever the request and the answer fit, the caller sees the answer [run]
    gives on the service's registry, and the registry becomes the one [run]
    leaves. *)
Definition agrees {Resp} (options : ServerOptions) (to_server to_client : list Z -> list RecvEvent)
    (opcode : OpCode) (call : Client -> Outcome Resp * Client) (payload : list Z)
    (run : Impl -> Outcome Resp * Impl) (code : Resp -> ReasonCode) (encr : Resp -> list Z)
    (wfr : Resp -> Prop) : Prop :=
  forall max_payload id c,
    in_u 64 id -> fits options max_payload payload ->
    sendable options max_payload wfr code encr (fst (run (sc_registry c))) ->
    exists c', exchange options to_server to_client call opcode payload max_payload id c =
               (remote_view code (fst (run (sc_registry c))), c') /\
               sc_registry c' = snd (run (sc_registry c)).

(** C13: a call through the client is a call on the service's registry.  For each
    operation, whatever the network does to the segmentation of the two streams,
    and whatever the state of the registry: if the request is well formed, the
    answer is a value of the format, and both fit the frame bounds, the service is
    left with the registry that operation leaves, and the client gets the
    [remote_view] of its answer.  That is the answer itself, except that a value
    whose reason is a failure arrives as that failure, without the value, and a
    refusal whose reason is not a failure as one of the response body.  Admissions
    and retirements are judged at the tick the request itself carries, not at the
    caller's. *)
Theorem remote_calls_agree options to_server to_client :
  carries to_server -> carries to_client ->
  let agrees {Resp} := @agrees Resp options to_server to_client in
  (forall q now, admission_wf q ->
     agrees OpAdmit (client_admit q now) (enc_admission q) (registry_admit q (aq_observed_at q))
       ao_reason enc_admission_outcome admission_outcome_wf) /\
  (forall q now, retire_request_wf q ->
     agrees OpRetire (client_retire q now) (enc_retire_request q) (retire q (rt_retired_at q))
       ro_reason enc_retirement_outcome retirement_outcome_wf) /\
  (forall q now, query_request_wf (q, now) ->
     agrees OpQuery (client_query q now) (enc_query_request (q, now)) (fun x => (query q now x, x))
       always_ok enc_query_result query_result_wf) /\
  (forall r now, stamped_wf requirement_wf (r, now) ->
     agrees OpEvaluate (client_evaluate r now) (enc_evaluate_request (r, now))
       (fun x => (outcome_value (fst (evaluate r now x)), snd (evaluate r now x)))
       always_ok enc_decision decision_wf) /\
  (forall id, digest_wf id ->
     agrees OpExplain (client_explain id) (enc_explain_request id) (fun x => (explanation_response (explain id x), x))
       always_ok (fun v => enc_explanation (xp_explanation v)) explanation_response_wf) /\
  (forall now, in_u 64 now ->
     agrees OpStats (client_stats now) (enc_now now) (fun x => (outcome_value (stats now x), x))
       always_ok enc_stats_response stats_wf) /\
  (forall o now, export_request_wf (o, now) ->
     agrees OpExport (client_export o now) (enc_export_request (o, now)) (fun x => (export_answer (o, now) x, x))
       always_ok enc_export_response export_response_wf) /\
  (forall s now, stamped_wf name_ok (s, now) ->
     agrees OpRevokeSource (client_revoke_source s now) (enc_source_request (s, now))
       (fun x => (bool_response (fst (revoke_source s now x)), snd (revoke_source s now x)))
       always_ok enc_bool_response any /\
     agrees OpRestoreSource (client_restore_source s now) (enc_source_request (s, now))
       (fun x => (bool_response (fst (restore_source s now x)), snd (restore_source s now x)))
       always_ok enc_bool_response any) /\
  (forall s a now, authority_request_wf (s, a, now) ->
     agrees OpSetSourceAuthority (client_set_source_authority s a now) (enc_authority_request (s, a, now))
       (fun x => (bool_response (fst (set_source_authority s a now x)), snd (set_source_authority s a now x)))
       always_ok enc_bool_response any) /\
  (forall p now, stamped_wf source_policy_wf (p, now) ->
     agrees OpUpsertSourcePolicy (client_upsert_source_policy p now) (enc_policy_request (p, now))
       (upsert_source_policy p now) always_ok enc_source_policy source_policy_wf) /\
  (forall d now, stamped_wf device_identity_wf (d, now) ->
     agrees OpBeginDeviceIncarnation (client_begin_device_incarnation d now) (enc_incarnation_request (d, now))
       (fun x => (id_response AcceptedNew (fst (begin_device_incarnation d now x)),
                  snd (begin_device_incarnation d now x)))
       always_ok enc_id_response id_response_wf /\
     agrees OpCurrentIncarnation (client_current_incarnation d now) (enc_incarnation_request (d, now))
       (fun x => (id_response Ok_ (current_incarnation d x), x)) always_ok enc_id_response id_response_wf) /\
  (forall r, resolve_request_wf r ->
     agrees OpResolveConflict (client_resolve_conflict r) (enc_resolve_request r)
       (resolve_conflict (rc_conflict r) (rc_chosen r) (rc_resolver r) (rc_now r))
       always_ok enc_resolution resolution_wf) /\
  (forall now, in_u 64 now ->
     agrees OpEvictionLedger (client_eviction_ledger now) (enc_now now)
       (fun x => (outcome_value (mkLedgerResponse (i_evictions x) false), x))
       always_ok enc_ledger_response ledger_response_wf).
Proof.
  intros Hto Hfrom agrees.
  pose proof (@remote_exchanged options to_server to_client Hto Hfrom) as Hr.
  split_and!; intros; try match goal with |- _ /\ _ => split end; intros max_payload i c Hi Hf Hs.
  - by apply (Hr _ _ _ _ _ _ _ _ _ _ served_admit q).
  - by apply (Hr _ _ _ _ _ _ _ _ _ _ served_retire q).
  - by apply (Hr _ _ _ _ _ _ _ _ _ _ served_query (q, now)).
  - by apply (Hr _ _ _ _ _ _ _ _ _ _ served_evaluate (r, now)).
  - by apply (Hr _ _ _ _ _ _ _ _ _ _ served_explain id).
  - by apply (Hr _ _ _ _ _ _ _ _ _ _ served_stats now).
  - by apply (Hr _ _ _ _ _ _ _ _ _ _ served_export (o, now)).
  - by apply (Hr _ _ _ _ _ _ _ _ _ _ served_revoke (s, now)).
  - by apply (Hr _ _ _ _ _ _ _ _ _ _ served_restore (s, now)).
  - by apply (Hr _ _ _ _ _ _ _ _ _ _ served_authority (s, a, now)).
  - by apply (Hr _ _ _ _ _ _ _ _ _ _ served_policy (p, now)).
  - by apply (Hr _ _ _ _ _ _ _ _ _ _ served_begin (d, now)).
  - by apply (Hr _ _ _ _ _ _ _ _ _ _ served_current (d, now)).
  - by apply (Hr _ _ _ _ _ _ _ _ _ _ served_resolve r).
  - by apply (Hr _ _ _ _ _ _ _ _ _ _ served_ledger now).
Qed.

(** A network that interrupts every read once and cuts each stream in two. *)
Definition split_network (b : list Z) : list RecvEvent :=
  match b with
  | [] => [RecvInterrupted]
  | [z] => [RecvInterrupted; Arrives [z]]
  | z :: z' :: b' => [RecvInterrupted; Arrives [z]; RecvInterrupted; Arrives (z' :: b')]
  end.
Lemma split_network_carries : carries split_network.
Proof. intros [|z [|z' b]]; (split; [|cbn; by rewrite ?app_nil_r]); unfold steady; by repeat (apply Forall_cons_2; [done|]). Qed.

Definition idle_stats : RegistryStats := Eval vm_compute in stats 20 Sample.start.
Lemma idle_stats_eq : stats 20 Sample.start = idle_stats.
Proof. vm_compute. reflexivity. Qed.

Lemma stats_sendable :
  sendable default_server_options kMaxFramePayload stats_wf always_ok enc_stats_response
    (outcome_value (stats 20 Sample.start)).
Proof.
  rewrite idle_stats_eq.
  assert (envelope_wf (reply_envelope always_ok enc_stats_response (outcome_value idle_stats))) as Hw.
  { split_and!; [done..|]. split; [apply bytes_check; vm_compute; reflexivity|split; vm_compute; congruence]. }
  assert (stats_wf idle_stats) as Hs by (repeat split; vm_compute; congruence).
  split; [by intros v [= <-]|]. split; [exact Hw|]. unfold fits. repeat split; vm_compute; discriminate.
Qed.

Lemma remote_calls_agree_witness :
  exists c', exchange default_server_options split_network split_network (client_stats 20) OpStats (enc_now 20)
               kMaxFramePayload 1 (mkCore Sample.start false (mkCounters 0 0 0 0 0 0 0)) =
             (outcome_value (stats 20 Sample.start), c') /\ sc_registry c' = Sample.start.
Proof.
  destruct (remote_calls_agree default_server_options split_network split_network split_network_carries
              split_network_carries) as (_ & _ & _ & _ & _ & H & _).
  exact (H 20 ltac:(done) kMaxFramePayload 1 (mkCore Sample.start false (mkCounters 0 0 0 0 0 0 0))
           ltac:(done) ltac:(split_and!; vm_compute; congruence) stats_sendable).
Defined.

(** ** What the caller does not see *)

(** A refusal whose reason the table does not count as a failure loses its
    reason on the way: asking about an unregistered device is answered with a
    decoding error. *)
Lemma unknown_device_garbled q now x :
  find_device x (dr_device (cq_device q)) = None ->
  outcome_reason (query q now x) = UnknownDeviceNotRegistered /\
  remote_view always_ok (query q now x) = outcome_failure RejectedTruncatedInput "response body rejected".
Proof. intros H. unfold query. rewrite H. split; [done|]. vm_compute. reflexivity. Qed.

(** A retirement that gives a failing reason is carried out, and reported to
    the caller as that failure. *)
Lemma retirement_reported_failed (o : Outcome RetirementOutcome) v :
  o = outcome_value v -> is_failure (ro_reason v) = true ->
  outcome_ok o = true /\ remote_view ro_reason o = outcome_failure (ro_reason v) "".
Proof. intros -> Hf. split; [done|]. unfold remote_view. cbn. by rewrite Hf. Qed.

(** A refused admission is an answer of the registry; the caller sees its
    reason and not its content. *)
Lemma refused_admission_content_lost (o : Outcome AdmissionOutcome) v :
  o = outcome_value v -> ao_reason v = RejectedGenerationCollision ->
  remote_view ao_reason o = outcome_failure RejectedGenerationCollision "".
Proof. intros -> Hr. unfold remote_view. cbn. rewrite Hr. vm_compute. reflexivity. Qed.

(** Through the service an observation is judged at its own tick, so it is
    never ahead of the clock and never outside the retention horizon. *)
Lemma own_tick_never_refused q x r detail :
  0 <= rp_retention_horizon (i_policy x) ->
  admit_guard q (aq_observed_at q) x = Some (r, detail) ->
  r <> RejectedFutureObservation /\ r <> RejectedBeyondRetentionHorizon.
Proof.
  intros Hh. unfold admit_guard. destruct (is_unset _); [by intros [= <- <-]|].
  destruct (match aq_valid_until q with Some t => t <? aq_observed_at q | None => false end); [by intros [= <- <-]|].
  replace (aq_observed_at q >? aq_observed_at q) with false by lia. cbn [andb].
  assert (observed_age (aq_observed_at q) (aq_observed_at q) = 0) as -> by (unfold observed_age; case_match; lia).
  replace (0 >? rp_retention_horizon (i_policy x)) with false by lia. rewrite andb_false_r.
  destruct (find_source _ _) as [s|]; [destruct (bool_decide _); [|destruct (_ && _)]|destruct (rp_require_configured_source _)];
    by intros [= <- <-].
Qed.
