(* ===== verification/ConnectionThms.v ===== *)
(** * One connection

    Requests sent back to back on one stream are answered one after the other,
    in order, each on the registry the previous one left. *)

From Stdlib Require Import ZArith Lia String.
From stdpp Require Import base tactics list strings.
From S2P Require Import Prelude Checked Reason Text Hash Catalog Evidence State Codec CodecTypes CodecThms.
From S2P Require Import Registry RegistryOps RegistryInv RegistryThms Persist Protocol ProtocolThms Export Net.
From S2P Require Import Service ServiceThreads ServiceThms Client ClientThms.

#[local] Open Scope string_scope.
#[local] Open Scope Z_scope.
#[local] Open Scope list_scope.
#[local] Opaque digest_of crc32c catalog_fingerprint reason_table_fingerprint.

(** A request: operation, number and payload. *)
Record Request := mkRequest { req_opcode : OpCode; req_id : Z; req_payload : list Z }.
Definition request_bytes (r : Request) : list Z :=
  serialize_frame (request_frame (req_opcode r) (req_id r) (req_payload r)).

(** What a sequential server would do: the frames it answers with and the
    registry it ends with. *)
Definition reply (options : ServerOptions) (r : Request) (x : Impl) : Frame :=
  fst (response_frame (so_max_frame_payload options)
    (received_header (request_frame (req_opcode r) (req_id r) (req_payload r)))
    (fst (dispatch (req_opcode r) (req_payload r) x))).
Fixpoint conversation (options : ServerOptions) (requests : list Request) (x : Impl) : list Frame * Impl :=
  match requests with
  | [] => ([], x)
  | r :: requests' =>
      let '(replies, y) := conversation options requests' (snd (dispatch (req_opcode r) (req_payload r) x)) in
      (reply options r x :: replies, y)
  end.
Definition frames_bytes (l : list Frame) : list Z := concat (map serialize_frame l).

(** The requests a connection answers that has answered [served] already: as many
    as its quota has left, all of them without one. *)
Definition answered (options : ServerOptions) (served : Z) (requests : list Request) : list Request :=
  let limit := so_max_requests_per_connection options in
  if limit =? 0 then requests else take (Z.to_nat (limit - served)) requests.
Definition within_quota (options : ServerOptions) (served : Z) : Prop :=
  let limit := so_max_requests_per_connection options in limit = 0 \/ 0 <= served < limit.

(** One whole frame, to that request. *)
Definition replies_to (r : Request) (f : Frame) : Prop :=
  frame_ok f /\ fh_opcode (fr_header f) = req_opcode r /\ fh_request_id (fr_header f) = req_id r /\
  (Z.land (fh_flags (fr_header f)) flag_response =? 0) = false.

(** A request the service accepts. *)
Definition acceptable (options : ServerOptions) (r : Request) : Prop :=
  in_u 64 (req_id r) /\ Z.of_nat (length (req_payload r)) <= kMaxFramePayload /\
  Z.of_nat (length (req_payload r)) <= so_max_frame_payload options.

Section connection.
Context (options : ServerOptions) (Hlimit : in_u 64 (so_max_requests_per_connection options)).

(** Whether the loop goes on after one more answer. *)
Definition goes_on (served : Z) : bool :=
  let limit := so_max_requests_per_connection options in
  negb (negb (limit =? 0) && (u64 (served + 1) >=? limit)).

Lemma goes_on_quota served : within_quota options served -> goes_on served = true ->
  within_quota options (u64 (served + 1)) /\
  forall r requests, answered options served (r :: requests) = r :: answered options (u64 (served + 1)) requests.
Proof.
  unfold within_quota, goes_on, answered. intros Hq Hg.
  destruct (so_max_requests_per_connection options =? 0) eqn:E; [split; [left; lia|done]|].
  assert (u64 (served + 1) = served + 1) as Hu by (apply wrap_small; unfold in_u in *; lia). rewrite Hu in Hg |- *.
  split; [right; lia|]. intros r requests.
  replace (Z.to_nat (so_max_requests_per_connection options - served))
    with (S (Z.to_nat (so_max_requests_per_connection options - (served + 1)))) by lia. done.
Qed.

Lemma stops_quota served : within_quota options served -> goes_on served = false ->
  forall r requests, answered options served (r :: requests) = [r].
Proof.
  unfold within_quota, goes_on, answered. intros Hq Hg r requests.
  destruct (so_max_requests_per_connection options =? 0) eqn:E; [done|].
  assert (u64 (served + 1) = served + 1) as Hu by (apply wrap_small; unfold in_u in *; lia). rewrite Hu in Hg.
  by replace (Z.to_nat (so_max_requests_per_connection options - served)) with 1%nat by lia.
Qed.

Lemma answered_nil served : answered options served [] = [].
Proof. unfold answered. case_if; [done|apply take_nil]. Qed.

(** Within the protocol's frame bound every reply is representable. *)
Lemma reply_replies r x : so_max_frame_payload options <= kMaxFramePayload -> acceptable options r ->
  replies_to r (reply options r x).
Proof.
  intros Hb (Hi & _). unfold reply, response_frame. set (envelope := fst (dispatch _ _ _)).
  destruct (_ >? _) eqn:E; cbn [fst]; (split; [apply reply_frame_ok; [|exact Hi|]|]).
  1, 4: by destruct (is_failure (re_reason envelope)).
  1: by vm_compute.
  2: lia.
  all: split_and!; [done|done|]; by destruct (is_failure (re_reason envelope)).
Qed.

Lemma socket_send_sends b k :
  sends (sk_outbound k) ->
  exists outbound, socket_send b k = (true, mkSocket (sk_inbound k) outbound (sk_sent k ++ b)) /\ sends outbound.
Proof.
  intros Hs. destruct (send_all_sends b _ Hs) as (rest & E & Hr). exists rest. unfold socket_send. by rewrite E.
Qed.

(** One request at the head of the stream: one turn, one reply. *)
Lemma round_answers r rest served c k :
  acceptable options r -> steady (sk_inbound k) -> sends (sk_outbound k) ->
  delivered (sk_inbound k) = request_bytes r ++ rest ->
  exists c' k',
    serve_round options false served c k = (c', k', u64 (served + 1), goes_on served) /\
    sc_registry c' = snd (dispatch (req_opcode r) (req_payload r) (sc_registry c)) /\
    sk_sent k' = sk_sent k ++ serialize_frame (reply options r (sc_registry c)) /\
    steady (sk_inbound k') /\ sends (sk_outbound k') /\ delivered (sk_inbound k') = rest.
Proof.
  intros (Hi & Hl & Hm) Hs Ho Hd. set (f := request_frame (req_opcode r) (req_id r) (req_payload r)) in *.
  assert (frame_ok f) as Hf by by apply request_frame_ok.
  destruct (receive_frame f rest k Hf Hs Hd) as (hdr & k1 & inbound & E1 & E2 & E3 & Hs' & Hd').
  destruct (socket_send_sends (serialize_frame (reply options r (sc_registry c))) (mkSocket inbound (sk_outbound k) (sk_sent k)) Ho)
    as (outbound & Es & Ho').
  unfold serve_round. rewrite E1, E2, bool_decide_true by done. cbn [negb].
  replace (fh_payload_len (received_header f) >? so_max_frame_payload options) with false
    by (rewrite received_len by done; change (fr_payload f) with (req_payload r); lia).
  rewrite E3, !bool_decide_true by done. cbn [negb]. unfold serve_request, dispatch_core.
  change (fh_opcode (received_header f)) with (req_opcode r). change (fr_payload f) with (req_payload r).
  unfold reply in *. fold f in Es |- *.
  assert (sc_registry (if (length (req_payload r) =? 0)%nat then count_read (Z.of_nat kFrameHeaderSize) c
            else count_read (Z.of_nat (length (req_payload r))) (count_read (Z.of_nat kFrameHeaderSize) c)) = sc_registry c)
    as -> by by destruct (length (req_payload r) =? 0)%nat.
  destruct (dispatch (req_opcode r) (req_payload r) (sc_registry c)) as [envelope x]. cbn [fst snd] in *.
  destruct (response_frame _ _ _) as [reply too_large]. cbn [fst] in *. rewrite Es. cbn [negb].
  eexists _, _. split; [reflexivity|].
  split_and!; try done. by destruct too_large, (requests_shutdown _ _).
Qed.

Lemma round_closed served c k :
  steady (sk_inbound k) -> delivered (sk_inbound k) = [] ->
  exists k', serve_round options false served c k = (c, k', served, false) /\ sk_sent k' = sk_sent k.
Proof.
  intros Hs Hd. destruct (recv_exact_closed kFrameHeaderSize _ Hs) as (b & E).
  { rewrite Hd. unfold kFrameHeaderSize. cbn. lia. }
  unfold serve_round, socket_recv. rewrite E. eexists. split; reflexivity.
Qed.

Lemma connection_answers requests fuel turn served c k :
  Forall (acceptable options) requests -> steady (sk_inbound k) -> sends (sk_outbound k) ->
  delivered (sk_inbound k) = concat (map request_bytes requests) -> (length requests < fuel)%nat ->
  within_quota options served ->
  let '(replies, y) := conversation options (answered options served requests) (sc_registry c) in
  exists c' k' served',
    serve_connection fuel options (fun _ => false) turn served c k = Some (c', k', served') /\
    sk_sent k' = sk_sent k ++ frames_bytes replies /\ sc_registry c' = y.
Proof.
  intros Hr. revert fuel turn served c k. induction Hr as [|r requests Hr Hrs IH];
    intros fuel turn served c k Hs Ho Hd Hf Hq; (destruct fuel as [|fuel]; [lia|]); cbn [serve_connection].
  - rewrite answered_nil. destruct (round_closed served c k Hs Hd) as (k' & -> & Hk). exists c, k', served.
    split_and!; [done| |done]. by rewrite app_nil_r.
  - cbn [map concat] in Hd. destruct (round_answers r _ served c k Hr Hs Ho Hd) as (c1 & k1 & -> & Hx & Hk & Hs1 & Ho1 & Hd1).
    destruct (goes_on served) eqn:Eg; cbn [length] in Hf.
    + destruct (goes_on_quota served Hq Eg) as [Hq' ->]. cbn [conversation]. rewrite <- Hx.
      specialize (IH fuel (S turn) _ c1 k1 Hs1 Ho1 Hd1 ltac:(lia) Hq').
      destruct (conversation options _ _) as [replies y]. destruct IH as (c' & k' & served' & E & Hk' & Hc').
      exists c', k', served'. split_and!; [done| |done]. rewrite Hk', Hk. unfold frames_bytes. cbn. by rewrite <- app_assoc.
    + rewrite (stops_quota served Hq Eg). cbn [conversation]. eexists _, _, _. split_and!; [done| |done].
      rewrite Hk. unfold frames_bytes. cbn. by rewrite app_nil_r.
Qed.

Lemma conversation_replies requests x :
  so_max_frame_payload options <= kMaxFramePayload -> Forall (acceptable options) requests ->
  Forall2 replies_to requests (fst (conversation options requests x)).
Proof.
  intros Hb Hr. revert x. induction Hr as [|r requests Hr Hrs IH]; intros x; [constructor|]. cbn.
  specialize (IH (snd (dispatch (req_opcode r) (req_payload r) x))).
  destruct (conversation options requests _) as [replies y]. constructor; [by apply reply_replies|exact IH].
Qed.

Lemma answered_acceptable served requests :
  Forall (acceptable options) requests -> Forall (acceptable options) (answered options served requests).
Proof. intros Hr. unfold answered. case_if; [done|by apply Forall_take]. Qed.
End connection.

(** C14: requests sent back to back on one connection are answered in order, like
    a sequential server would.  Take a frame bound within the protocol's, requests
    that fit it, a stream in both directions that does not fail (however it is cut
    into segments and interrupted), no stop meanwhile, and any quota of requests
    per connection.  Then the loop ends, when the quota is used up or the peer
    closes; what it sent is the concatenation of one frame per answered request,
    which are all of them without a quota and otherwise the first ones up to it.
    Each frame is representable, so the peer can read it, is a response with the
    request's operation and number, and was computed on the registry the previous
    request left; the registry the loop leaves is the last one. *)
Theorem connection_in_order options requests c k :
  in_u 64 (so_max_requests_per_connection options) -> so_max_frame_payload options <= kMaxFramePayload ->
  Forall (acceptable options) requests -> steady (sk_inbound k) -> sends (sk_outbound k) ->
  delivered (sk_inbound k) = concat (map request_bytes requests) ->
  let served := answered options 0 requests in
  let '(replies, y) := conversation options served (sc_registry c) in
  Forall2 replies_to served replies /\
  exists c' k' served',
    serve_connection (S (pending k)) options (fun _ => false) 0 0 c k = Some (c', k', served') /\
    sk_sent k' = sk_sent k ++ frames_bytes replies /\ sc_registry c' = y.
Proof.
  intros Hl Hb Hr Hs Ho Hd served.
  pose proof (conversation_replies options served (sc_registry c) Hb (answered_acceptable options 0 requests Hr)) as Hreplies.
  pose proof (connection_answers options Hl requests (S (pending k)) 0 0 c k Hr Hs Ho Hd) as H. fold served in H.
  destruct (conversation options served (sc_registry c)) as [replies y]. split; [done|]. apply H.
  - enough (length requests <= pending k)%nat by lia. unfold pending. rewrite Hd. clear - Hr.
    induction Hr as [|r requests (Hi & Hp & _) Hrs IH]; [done|]. cbn [map concat length]. rewrite length_app.
    destruct (serialize_frame_bytes (request_frame (req_opcode r) (req_id r) (req_payload r)))
      as (hdr & E & Hh & _); [by apply request_frame_ok|].
    unfold request_bytes at 1. rewrite E, length_app, Hh. unfold kFrameHeaderSize. lia.
  - unfold within_quota, in_u in *. lia.
Qed.

(** Three requests and a quota of two: the first two are answered. *)
Lemma connection_in_order_witness :
  let options := mkServerOptions "127.0.0.1" 0 16 4 kMaxFramePayload 256 2 kMaxFramePayload true in
  let requests := [mkRequest OpPing 1 (enc_now 5); mkRequest OpStats 2 (enc_now 6); mkRequest OpPing 3 (enc_now 7)] in
  let k := mkSocket (split_network (concat (map request_bytes requests))) [Accepts 3; SendInterrupted] [] in
  let c := mkCore Sample.start false (mkCounters 0 0 0 0 0 0 0) in
  let replies := fst (conversation options (answered options 0 requests) (sc_registry c)) in
  length replies = 2%nat /\
  exists c' k' served',
    serve_connection (S (pending k)) options (fun _ => false) 0 0 c k = Some (c', k', served') /\
    sk_sent k' = sk_sent k ++ frames_bytes replies.
Proof.
  intros options requests k c replies.
  assert (Forall (acceptable options) requests) as Hr.
  { repeat (apply Forall_cons_2; [split_and!; done|]). constructor. }
  destruct (split_network_carries (concat (map request_bytes requests))) as [Hs Hd].
  assert (in_u 64 (so_max_requests_per_connection options)) as Hl by (split; vm_compute; done).
  assert (sends (sk_outbound k)) as Ho by (repeat constructor; done).
  pose proof (connection_in_order options requests c k Hl ltac:(vm_compute; done) Hr Hs Ho Hd) as H.
  revert H. subst replies. set (served := answered options 0 requests). change (length served) with 2%nat.
  cbv zeta. destruct (conversation options served (sc_registry c)) as [replies y]. cbn [fst].
  intros (Hf & c' & k' & served' & E & Hk & _).
  split; [by apply Forall2_length in Hf as <-|]. exists c', k', served'. split; [exact E|exact Hk].
Defined.
