(* ===== verification/Sockets.v ===== *)
(** * Setting sockets up and down (src/net.hpp, src/net.cpp)

    Connecting, listening and accepting, down to the calls of the operating
    system, with the table of descriptors that are open and the number of address
    lists that were not freed.  What each call answers is a script, and an
    exhausted script answers that the call failed.  The client's connection, from
    [Client::connect] to its destructor, and the service's sockets, from
    [Service::start] to the end of [Service::stop], are built on them: the
    listener, the queue, and the connections the workers serve. *)

From Stdlib Require Import ZArith Lia String.
From stdpp Require Import base tactics list strings.
From S2P Require Import Prelude Text Reason State Protocol Service Client.

#[local] Open Scope string_scope.
#[local] Open Scope Z_scope.
#[local] Open Scope list_scope.

Definition kInvalidSocket : Z := -1.

(** An entry of an address list; what it holds belongs to the system. *)
Definition Address := Z.

(** What a call answers: [getaddrinfo] a list, [socket] and [accept] a
    descriptor, [getsockname] a port, the others success. *)
Inductive Answer :=
| Addresses (entries : list Address) | Descriptor (fd : Z) | Port (port : Z) | Done | Failed.

Record Os := mkOs {
  os_open : list Z;
  os_lists : nat;
  os_script : list Answer }.

(** ** The calls *)

Definition next (k : Os) : Answer * Os :=
  match os_script k with
  | [] => (Failed, k)
  | a :: rest => (a, mkOs (os_open k) (os_lists k) rest)
  end.

(** The entries of the list, [None] on failure or when the list is null. *)
Definition getaddrinfo (node : option string) (service : string) (k : Os) : option (list Address) * Os :=
  let '(a, k) := next k in
  match a with
  | Addresses (e :: entries) => (Some (e :: entries), mkOs (os_open k) (S (os_lists k)) (os_script k))
  | _ => (None, k)
  end.
Definition freeaddrinfo (k : Os) : Os := mkOs (os_open k) (pred (os_lists k)) (os_script k).

(** A new descriptor enters the table. *)
Definition os_descriptor (k : Os) : Z * Os :=
  let '(a, k) := next k in
  match a with
  | Descriptor fd =>
      if fd =? kInvalidSocket then (kInvalidSocket, k)
      else (fd, mkOs (fd :: os_open k) (os_lists k) (os_script k))
  | _ => (kInvalidSocket, k)
  end.
Definition os_socket (entry : Address) : Os -> Z * Os := os_descriptor.
Definition os_accept (listener : Z) : Os -> Z * Os := os_descriptor.

(** Whether a call that changes no table returned zero. *)
Definition os_call (k : Os) : bool * Os :=
  let '(a, k) := next k in (match a with Done => true | _ => false end, k).
Definition os_connect (fd : Z) (entry : Address) : Os -> bool * Os := os_call.
Definition os_bind (fd : Z) (entry : Address) : Os -> bool * Os := os_call.
Definition os_listen (fd : Z) (backlog : Z) : Os -> bool * Os := os_call.

Definition getsockname (fd : Z) (k : Os) : option Z * Os :=
  let '(a, k) := next k in (match a with Port p => Some (u16 p) | _ => None end, k).

(** The descriptor leaves the table. *)
Fixpoint remove_first (fd : Z) (l : list Z) : list Z :=
  match l with [] => [] | a :: l' => if a =? fd then l' else a :: remove_first fd l' end.
Definition close_socket (fd : Z) (k : Os) : Os :=
  if fd =? kInvalidSocket then k else mkOs (remove_first fd (os_open k)) (os_lists k) (os_script k).

(** Calls whose result is ignored and that leave the table alone:
    [setsockopt] and [shutdown]. *)
Definition os_ignored (k : Os) : Os := snd (next k).
Definition set_no_delay (fd : Z) (k : Os) : Os := os_ignored k.
Definition shutdown_both (fd : Z) (k : Os) : Os := if fd =? kInvalidSocket then k else os_ignored k.

(** ** The functions of src/net.cpp *)

(** The loop over the entries: the socket connected, or none and the reason. *)
Fixpoint connect_loop (entries : list Address) (failure : ReasonCode) (k : Os) : Z * ReasonCode * Os :=
  match entries with
  | [] => (kInvalidSocket, failure, k)
  | entry :: entries' =>
      let '(candidate, k) := os_socket entry k in
      if candidate =? kInvalidSocket then connect_loop entries' failure k
      else
        let '(connected, k) := os_connect candidate entry k in
        if connected then (candidate, failure, k)
        else connect_loop entries' TransportClosed (close_socket candidate k)
  end.

Definition connect_to (host : string) (port : Z) (k : Os) : Outcome Z * Os :=
  match getaddrinfo (Some host) (dec_str port) k with
  | (None, k) => (outcome_failure TransportUnavailable "address lookup failed", k)
  | (Some results, k) =>
      let '(socket, failure, k) := connect_loop results TransportUnavailable k in
      let k := freeaddrinfo k in
      if socket =? kInvalidSocket then (outcome_failure failure "connect failed", k)
      else (outcome_value socket, set_no_delay socket k)
  end.

(** The listener and the port it is bound to. *)
Definition listen_on (address : string) (port : Z) (backlog : Z) (reuse_address : bool) (k : Os)
  : Outcome (Z * Z) * Os :=
  match getaddrinfo (if str_empty address then None else Some address) (dec_str port) k with
  | (None, k) => (outcome_failure TransportUnavailable "bind lookup failed", k)
  | (Some results, k) =>
      let '(listener, k) := os_socket (hd 0 results) k in
      if listener =? kInvalidSocket
      then (outcome_failure TransportUnavailable "socket creation failed", freeaddrinfo k)
      else
        let k := if reuse_address then os_ignored k else k in
        let '(bound, k) := os_bind listener (hd 0 results) k in
        if negb bound
        then (outcome_failure TransportUnavailable "bind failed", close_socket listener (freeaddrinfo k))
        else
          let '(listening, k) := os_listen listener backlog (freeaddrinfo k) in
          if negb listening
          then (outcome_failure TransportUnavailable "listen failed", close_socket listener k)
          else match getsockname listener k with
               | (None, k) => (outcome_failure TransportUnavailable "getsockname failed", close_socket listener k)
               | (Some port, k) => (outcome_value (listener, port), k)
               end
  end.

Definition accept_one (listener : Z) (k : Os) : Outcome Z * Os :=
  let '(accepted, k) := os_accept listener k in
  if accepted =? kInvalidSocket then (outcome_failure TransportClosed "accept failed", k)
  else (outcome_value accepted, set_no_delay accepted k).

(** ** Their use *)

(** [Client::connect]: the socket the client holds. *)
Definition client_open (options : ClientOptions) (k : Os) : Outcome Z * Os :=
  if co_port options =? 0 then (outcome_failure TransportUnavailable "port must be non-zero", k)
  else connect_to (co_host options) (co_port options) k.

(** [Client::~Client]. *)
Definition client_close (socket : Z) (k : Os) : Os := close_socket socket k.

(** The part of [Service::start] that opens the listener. *)
Definition open_listener (options : ServerOptions) (k : Os) : Outcome (Z * Z) * Os :=
  listen_on (so_bind_address options) (so_port options) (Z.max (so_max_connections options) 8)
    (so_reuse_address options) k.

(** A connection being served, and its guard against a second closing. *)
Record Handle := mkHandle { hd_socket : Z; hd_closed : bool }.
Definition close_once (h : Handle) (k : Os) : Handle * Os :=
  if hd_closed h then (h, k)
  else (mkHandle (hd_socket h) true, close_socket (hd_socket h) (shutdown_both (hd_socket h) k)).

(** What the threads hold: the queue and the active connections, and whether the
    acceptor is still in its loop. *)
Record Held := mkHeld { he_accepting : bool; he_queue : list Z; he_active : list Handle; he_os : Os }.

(** One turn of [accept_loop]; [stopping] is what the flag reads. *)
Definition accept_turn (options : ServerOptions) (listener : Z) (stopping : bool) (s : Held) : Held :=
  if negb (he_accepting s) then s
  else
    let '(accepted, k) := accept_one listener (he_os s) in
    match outcome_ok accepted, oc_value accepted with
    | true, Some socket =>
        if stopping then mkHeld false (he_queue s) (he_active s) (close_socket socket k)
        else if Z.of_nat (length (he_active s) + length (he_queue s)) <? so_max_connections options
        then mkHeld true (he_queue s ++ [socket]) (he_active s) k
        else mkHeld true (he_queue s) (he_active s) (close_socket socket (shutdown_both socket k))
    | _, _ => mkHeld (negb stopping) (he_queue s) (he_active s) k
    end.

(** The critical section of [worker_loop]: the head of the queue becomes an active
    connection, or is closed at once when the service is stopping. *)
Definition take_turn (stopping : bool) (s : Held) : Held :=
  match he_queue s with
  | [] => s
  | socket :: queue =>
      if stopping
      then mkHeld (he_accepting s) queue (he_active s) (snd (close_once (mkHandle socket false) (he_os s)))
      else mkHeld (he_accepting s) queue (he_active s ++ [mkHandle socket false]) (he_os s)
  end.

(** The end of [serve_connection]: the connection is closed, and then leaves the
    list. *)
Definition leave_turn (i : nat) (s : Held) : Held :=
  match he_active s !! i with
  | Some h => let '(h, k) := close_once h (he_os s) in mkHeld (he_accepting s) (he_queue s) (<[i := h]> (he_active s)) k
  | None => s
  end.
Definition erase_turn (i : nat) (s : Held) : Held :=
  match he_active s !! i with
  | Some (mkHandle _ true) => mkHeld (he_accepting s) (he_queue s) (delete i (he_active s)) (he_os s)
  | _ => s
  end.

(** The threads' turns, in any order. *)
Inductive Turn := AcceptTurn (stopping : bool) | TakeTurn (stopping : bool) | LeaveTurn (i : nat) | EraseTurn (i : nat).
Definition take_a_turn (options : ServerOptions) (listener : Z) (s : Held) (t : Turn) : Held :=
  match t with
  | AcceptTurn stopping => accept_turn options listener stopping s
  | TakeTurn stopping => take_turn stopping s
  | LeaveTurn i => leave_turn i s
  | EraseTurn i => erase_turn i s
  end.
Definition threads (options : ServerOptions) (listener : Z) (turns : list Turn) (s : Held) : Held :=
  fold_left (take_a_turn options listener) turns s.

(** [Service::stop]: a connection to the service itself wakes the acceptor up;
    when it is joined the listener is closed, then the active connections and what
    is still queued; when the workers are joined, the connections that are left. *)
Definition wake_acceptor (options : ServerOptions) (listener port : Z) (k : Os) : Os :=
  if listener =? kInvalidSocket then k
  else
    let address := if str_empty (so_bind_address options) then "127.0.0.1" else so_bind_address options in
    let '(wake, k) := connect_to address port k in
    let k := match outcome_ok wake, oc_value wake with true, Some socket => close_socket socket k | _, _ => k end in
    shutdown_both listener k.
Definition close_queue (queue : list Z) (k : Os) : Os :=
  fold_left (fun k socket => close_socket socket (shutdown_both socket k)) queue k.
Fixpoint close_active (active : list Handle) (k : Os) : list Handle * Os :=
  match active with
  | [] => ([], k)
  | h :: active' => let '(h, k) := close_once h k in let '(active', k) := close_active active' k in (h :: active', k)
  end.
Definition stop_joined (listener : Z) (s : Held) : Held :=
  let '(active, k) := close_active (he_active s) (close_socket listener (he_os s)) in
  mkHeld false [] active (close_queue (he_queue s) k).
Definition stop_last (s : Held) : Held :=
  let '(_, k) := close_active (he_active s) (he_os s) in mkHeld (he_accepting s) (he_queue s) [] k.

(** A whole run: start, the threads, [stop] wakes the acceptor up, the threads,
    the acceptor is joined, the workers, they are joined. *)
Definition service_sockets (options : ServerOptions) (turns1 turns2 turns3 : list Turn) (k : Os) : Os :=
  let '(started, k) := open_listener options k in
  match outcome_ok started, oc_value started with
  | true, Some (listener, port) =>
      let s := threads options listener turns1 (mkHeld true [] [] k) in
      let s := mkHeld (he_accepting s) (he_queue s) (he_active s) (wake_acceptor options listener port (he_os s)) in
      let s := threads options listener turns2 s in
      he_os (stop_last (threads options listener turns3 (stop_joined listener s)))
  | _, _ => k
  end.

(** ** Nothing leaks *)

(** The tables are the same. *)
Definition balanced (k k' : Os) : Prop := os_open k' = os_open k /\ os_lists k' = os_lists k.
(** One more descriptor is open. *)
Definition opened (fd : Z) (k k' : Os) : Prop :=
  fd <> kInvalidSocket /\ os_open k' = fd :: os_open k /\ os_lists k' = os_lists k.

Lemma next_balanced k : balanced k (snd (next k)).
Proof. unfold next. by destruct (os_script k). Qed.

Lemma balanced_trans k1 k2 k3 : balanced k1 k2 -> balanced k2 k3 -> balanced k1 k3.
Proof. intros [] []. split; congruence. Qed.
Lemma balanced_opened fd k1 k2 k3 : balanced k1 k2 -> opened fd k2 k3 -> opened fd k1 k3.
Proof. intros [] (? & ? & ?). split_and!; congruence. Qed.
Lemma opened_balanced fd k1 k2 k3 : opened fd k1 k2 -> balanced k2 k3 -> opened fd k1 k3.
Proof. intros (? & ? & ?) []. split_and!; congruence. Qed.

Lemma ignored_balanced k : balanced k (os_ignored k).
Proof. apply next_balanced. Qed.
Lemma shutdown_balanced fd k : balanced k (shutdown_both fd k).
Proof. unfold shutdown_both. case_match; [done|apply ignored_balanced]. Qed.
Lemma call_balanced k : balanced k (snd (os_call k)).
Proof. unfold os_call. pose proof (next_balanced k). by destruct (next k). Qed.
Lemma getsockname_balanced fd k : balanced k (snd (getsockname fd k)).
Proof. unfold getsockname. pose proof (next_balanced k). by destruct (next k). Qed.

Lemma close_opened fd k k' : opened fd k k' -> balanced k (close_socket fd k').
Proof.
  intros (Hn & Ho & Hl). unfold close_socket. replace (fd =? kInvalidSocket) with false by lia.
  split; cbn; [|done]. rewrite Ho. cbn. by rewrite Z.eqb_refl.
Qed.

(** A new descriptor, or none and nothing else happened. *)
Definition may_open (r : Z * Os) (k : Os) : Prop :=
  (fst r = kInvalidSocket /\ balanced k (snd r)) \/ opened (fst r) k (snd r).

Lemma descriptor_may_open k : may_open (os_descriptor k) k.
Proof.
  unfold os_descriptor, may_open. pose proof (next_balanced k) as [Ho Hl]. destruct (next k) as [a k']. cbn in *.
  destruct a as [|fd| | |]; try by left. destruct (fd =? kInvalidSocket) eqn:E; [by left|].
  right. split; cbn; [lia|]. by rewrite Ho.
Qed.

Lemma getaddrinfo_lists node service k :
  match getaddrinfo node service k with
  | (None, k') => balanced k k'
  | (Some _, k') => os_open k' = os_open k /\ os_lists k' = S (os_lists k)
  end.
Proof.
  unfold getaddrinfo. pose proof (next_balanced k) as [Ho Hl]. destruct (next k) as [[[|e entries]| | | |] k']; cbn in *;
    try (by split). by rewrite Hl.
Qed.

Lemma connect_loop_may_open entries failure k :
  let r := connect_loop entries failure k in may_open (fst (fst r), snd r) k.
Proof.
  revert failure k. induction entries as [|entry entries IH]; intros failure k; [by left|]. cbn.
  unfold os_socket, os_connect. pose proof (descriptor_may_open k) as [[E Hb]|Ho];
    destruct (os_descriptor k) as [fd k1]; cbn [fst snd] in *.
  - subst fd. cbn. destruct (IH failure k1) as [[E1 H1]|H1];
      [left; split; [done|by eapply balanced_trans]|right; by eapply balanced_opened].
  - replace (fd =? kInvalidSocket) with false by (destruct Ho; lia).
    pose proof (call_balanced k1) as Hb. destruct (os_call k1) as [[|] k2]; cbn [fst snd] in *.
    + right. by eapply opened_balanced.
    + pose proof (close_opened _ _ _ (opened_balanced _ _ _ _ Ho Hb)) as Hc.
      destruct (IH TransportClosed (close_socket fd k2)) as [[E1 H1]|H1];
        [left; split; [done|by eapply balanced_trans]|right; by eapply balanced_opened].
Qed.

(** The descriptor of a result, and what the call did to the tables. *)
Definition yields {A} (fd : A -> Z) (r : Outcome A * Os) (k : Os) : Prop :=
  match oc_value (fst r) with
  | Some v => outcome_ok (fst r) = true /\ opened (fd v) k (snd r)
  | None => outcome_ok (fst r) = false /\ balanced k (snd r)
  end.

(** The reasons of the failures are failures in the table. *)
Lemma failure_yields {A} (fd : A -> Z) reason detail k k' :
  outcome_ok (T := A) (outcome_failure reason detail) = false -> balanced k k' ->
  yields fd (outcome_failure reason detail, k') k.
Proof. by split. Qed.

Lemma free_list k k1 k2 :
  os_open k1 = os_open k /\ os_lists k1 = S (os_lists k) -> balanced k1 k2 -> balanced k (freeaddrinfo k2).
Proof. intros [H1 H2] [H3 H4]. split; cbn; [congruence|]. by rewrite H4, H2. Qed.
Lemma free_opened fd k k1 k2 :
  os_open k1 = os_open k /\ os_lists k1 = S (os_lists k) -> opened fd k1 k2 -> opened fd k (freeaddrinfo k2).
Proof. intros [H1 H2] (H3 & H4 & H5). split_and!; cbn; [done|congruence|]. by rewrite H5, H2. Qed.

Lemma connect_loop_failure entries failure k :
  failure = TransportUnavailable \/ failure = TransportClosed ->
  let r := snd (fst (connect_loop entries failure k)) in r = TransportUnavailable \/ r = TransportClosed.
Proof.
  revert failure k. induction entries as [|entry entries IH]; intros failure k Hf; [done|]. cbn.
  destruct (os_socket entry k) as [fd k1]. case_match; [by apply IH|].
  destruct (os_connect fd entry k1) as [[|] k2]; [done|]. apply IH. by right.
Qed.

Lemma connect_to_yields host port k : yields (fun fd => fd) (connect_to host port k) k.
Proof.
  unfold connect_to. pose proof (getaddrinfo_lists (Some host) (dec_str port) k) as Hg.
  destruct (getaddrinfo _ _ k) as [[results|] k1]; [|by apply failure_yields].
  pose proof (connect_loop_may_open results TransportUnavailable k1) as Hc.
  pose proof (connect_loop_failure results TransportUnavailable k1 (or_introl eq_refl)) as Hf.
  destruct (connect_loop results TransportUnavailable k1) as [[fd failure] k2]. cbn [fst snd] in *.
  destruct Hc as [[E Hb]|Ho]; cbn [fst snd] in *.
  - subst fd. cbn [Z.eqb kInvalidSocket]. apply failure_yields; [by destruct Hf as [-> | ->]|]. by eapply free_list.
  - replace (fd =? kInvalidSocket) with false by (destruct Ho; lia). split; [done|]. cbn [snd outcome_value oc_value].
    eapply opened_balanced; [by eapply free_opened|apply ignored_balanced].
Qed.

Lemma listen_on_yields address port backlog reuse k : yields fst (listen_on address port backlog reuse k) k.
Proof.
  unfold listen_on. set (node := if str_empty address then None else Some address).
  pose proof (getaddrinfo_lists node (dec_str port) k) as Hg.
  destruct (getaddrinfo node (dec_str port) k) as [[results|] k1]; [|by apply failure_yields].
  unfold os_socket, os_bind, os_listen.
  pose proof (descriptor_may_open k1) as Hd. destruct (os_descriptor k1) as [fd k2].
  destruct Hd as [[E Hb]|Ho]; cbn [fst snd] in *; [subst fd; apply failure_yields; [done|by eapply free_list]|].
  replace (fd =? kInvalidSocket) with false by (destruct Ho; lia).
  set (k3 := if reuse then os_ignored k2 else k2).
  assert (opened fd k1 k3) as H3 by (subst k3; destruct reuse; [eapply opened_balanced; [exact Ho|apply ignored_balanced]|done]).
  pose proof (call_balanced k3) as Hb. destruct (os_call k3) as [bound k4]. cbn [fst snd] in *.
  assert (opened fd k (freeaddrinfo k4)) as H4 by (eapply free_opened; [exact Hg|by eapply opened_balanced]).
  destruct bound; cbn [negb]; [|apply failure_yields; [done|by apply close_opened]].
  pose proof (call_balanced (freeaddrinfo k4)) as Hl. destruct (os_call (freeaddrinfo k4)) as [listening k5]. cbn [fst snd] in *.
  pose proof (opened_balanced _ _ _ _ H4 Hl) as H5.
  destruct listening; cbn [negb]; [|apply failure_yields; [done|by apply close_opened]].
  pose proof (getsockname_balanced fd k5) as Hn. destruct (getsockname fd k5) as [[p|] k6]; cbn [fst snd] in *.
  - split; [done|]. by eapply opened_balanced.
  - apply failure_yields; [done|]. apply close_opened. by eapply opened_balanced.
Qed.

Lemma accept_one_yields listener k : yields (fun fd => fd) (accept_one listener k) k.
Proof.
  unfold accept_one, os_accept. pose proof (descriptor_may_open k) as Hd. destruct (os_descriptor k) as [fd k1].
  destruct Hd as [[E Hb]|Ho]; cbn [fst snd] in *; [subst fd; by apply failure_yields|].
  replace (fd =? kInvalidSocket) with false by (destruct Ho; lia). split; [done|].
  eapply opened_balanced; [exact Ho|apply ignored_balanced].
Qed.

(** ** Lifetimes *)

(** Exactly the descriptors of [held] are open beyond those of [k]. *)
Definition holds (held : list Z) (k k' : Os) : Prop :=
  os_open k' ≡ₚ held ++ os_open k /\ os_lists k' = os_lists k /\ Forall (fun fd => fd <> kInvalidSocket) held.

Lemma holds_balanced held k k1 k2 : holds held k k1 -> balanced k1 k2 -> holds held k k2.
Proof. intros (H1 & H2 & H3) [H4 H5]. split_and!; [by rewrite H4|congruence|done]. Qed.

Lemma holds_opened held fd k k1 k2 : holds held k k1 -> opened fd k1 k2 -> holds (held ++ [fd]) k k2.
Proof.
  intros (H1 & H2 & H3) (H4 & H5 & H6). split_and!; [|congruence|by apply Forall_app; auto].
  rewrite H5, H1, <- app_assoc. apply Permutation_middle.
Qed.

Lemma remove_first_perm fd l l' : l ≡ₚ fd :: l' -> remove_first fd l ≡ₚ l'.
Proof.
  revert l'. induction l as [|a l IH]; intros l' H; [by apply Permutation_nil_cons in H|]. cbn.
  destruct (a =? fd) eqn:E; [apply Z.eqb_eq in E as ->; by eapply Permutation_cons_inv|].
  apply Z.eqb_neq in E. assert (a ∈ fd :: l') as Ha by (rewrite <- H; by left).
  apply elem_of_cons in Ha as [|Ha]; [done|]. apply list_elem_of_split in Ha as (l1 & l2 & ->).
  rewrite <- Permutation_middle in H |- *. rewrite Permutation_swap in H. constructor. apply IH. by eapply Permutation_cons_inv.
Qed.

Lemma holds_close fd held k k' : holds (fd :: held) k k' -> holds held k (close_socket fd k').
Proof.
  intros (H1 & H2 & H3). inversion H3; subst. unfold close_socket.
  replace (fd =? kInvalidSocket) with false by lia. split_and!; cbn; [by apply remove_first_perm|done|done].
Qed.

Lemma holds_perm held held' k k' : held ≡ₚ held' -> holds held k k' -> holds held' k k'.
Proof. intros E (H1 & H2 & H3). split_and!; [by rewrite <- E|done|by rewrite <- E]. Qed.

(** The connections that are still open. *)
Definition still_open (active : list Handle) : list Z :=
  omap (fun h => if hd_closed h then None else Some (hd_socket h)) active.

(** [base], the queue and the open connections are what is held. *)
Definition holding (base : list Z) (k : Os) (s : Held) : Prop :=
  holds (base ++ he_queue s ++ still_open (he_active s)) k (he_os s).

Lemma close_both fd held k0 k : holds (fd :: held) k0 k -> holds held k0 (close_socket fd (shutdown_both fd k)).
Proof. intros Hk. apply holds_close. eapply holds_balanced; [exact Hk|apply shutdown_balanced]. Qed.

Lemma close_once_holds h held k0 k : holds (still_open [h] ++ held) k0 k ->
  let r := close_once h k in holds held k0 (snd r) /\ hd_closed (fst r) = true.
Proof.
  destruct h as [fd closed]. unfold close_once, still_open. cbn. destruct closed; cbn; [done|].
  intros Hk. split; [by apply close_both|done].
Qed.

Lemma accept_turn_holds options listener stopping base k0 s :
  holding base k0 s -> holding base k0 (accept_turn options listener stopping s).
Proof.
  unfold holding. intros Hk. unfold accept_turn. destruct (negb (he_accepting s)); [done|].
  pose proof (accept_one_yields listener (he_os s)) as Ha. destruct (accept_one listener (he_os s)) as [o k1].
  unfold yields in Ha. cbn [fst snd] in Ha. destruct (oc_value o) as [fd|]; destruct Ha as [-> Ha].
  - destruct stopping; [cbn [he_os he_queue he_active]; eapply holds_balanced; [exact Hk|by apply close_opened]|].
    case_if; cbn [he_os he_queue he_active].
    + eapply holds_perm; [|exact (holds_opened _ _ _ _ _ Hk Ha)]. solve_Permutation.
    + eapply holds_balanced; [exact Hk|]. apply close_opened. eapply opened_balanced; [exact Ha|apply shutdown_balanced].
  - by eapply holds_balanced.
Qed.

Lemma take_turn_holds stopping base k0 s : holding base k0 s -> holding base k0 (take_turn stopping s).
Proof.
  unfold holding, take_turn. destruct (he_queue s) as [|fd queue] eqn:Eq; [by rewrite Eq|].
  intros Hk. destruct stopping; cbn [he_os he_queue he_active].
  - apply (close_once_holds (mkHandle fd false) (base ++ queue ++ still_open (he_active s))). cbn.
    eapply holds_perm; [|exact Hk]. solve_Permutation.
  - unfold still_open. rewrite omap_app. cbn. eapply holds_perm; [|exact Hk]. fold (still_open (he_active s)).
    solve_Permutation.
Qed.

Lemma still_open_split active i h : active !! i = Some h ->
  still_open active = still_open (take i active) ++ still_open [h] ++ still_open (drop (S i) active).
Proof.
  intros Hi. rewrite <- (take_drop_middle active i h Hi) at 1. rewrite (cons_middle h). unfold still_open.
  by rewrite !omap_app.
Qed.

Lemma leave_turn_holds i base k0 s : holding base k0 s -> holding base k0 (leave_turn i s).
Proof.
  unfold holding, leave_turn. destruct (he_active s !! i) as [h|] eqn:Ei; [|done].
  rewrite (still_open_split _ _ _ Ei). intros Hk.
  pose proof (close_once_holds h (base ++ he_queue s ++ still_open (take i (he_active s)) ++
    still_open (drop (S i) (he_active s))) k0 (he_os s)) as Hc.
  destruct Hc as [H1 H2]; [eapply holds_perm; [|exact Hk]; solve_Permutation|].
  destruct (close_once h (he_os s)) as [h' k]. cbn [he_os he_queue he_active fst snd] in *.
  apply lookup_lt_Some in Ei as Hl. rewrite insert_take_drop by done. unfold still_open at 1.
  rewrite omap_app. cbn. by rewrite H2.
Qed.

Lemma erase_turn_holds i base k0 s : holding base k0 s -> holding base k0 (erase_turn i s).
Proof.
  unfold holding, erase_turn. destruct (he_active s !! i) as [[fd [|]]|] eqn:Ei; [|done|done].
  rewrite (still_open_split _ _ _ Ei). cbn [he_os he_queue he_active]. rewrite delete_take_drop.
  unfold still_open at 4. by rewrite omap_app.
Qed.

Lemma threads_holds options listener turns base k0 : forall s,
  holding base k0 s -> holding base k0 (threads options listener turns s).
Proof.
  induction turns as [|t turns IH]; intros s Hs; [done|]. apply IH.
  destruct t; [by apply accept_turn_holds|by apply take_turn_holds|by apply leave_turn_holds|by apply erase_turn_holds].
Qed.

(** When the acceptor has left its loop nothing enters the queue any more. *)
Lemma threads_accepting options listener turns : forall s,
  he_accepting s = false -> he_queue s = [] ->
  he_accepting (threads options listener turns s) = false /\ he_queue (threads options listener turns s) = [].
Proof.
  induction turns as [|t turns IH]; intros s Ha Hq; [done|]. apply IH; destruct t; cbn;
    unfold accept_turn, take_turn, leave_turn, erase_turn; rewrite ?Ha, ?Hq; cbn; try done;
    (destruct (he_active s !! _) as [[fd [|]]|]; done).
Qed.

Lemma close_active_holds active held k0 : forall k, holds (still_open active ++ held) k0 k ->
  let r := close_active active k in holds held k0 (snd r) /\ still_open (fst r) = [].
Proof.
  induction active as [|h active IH]; intros k Hk; [done|]. cbn.
  destruct (close_once_holds h (still_open active ++ held) k0 k) as [H1 H2].
  { rewrite app_assoc. unfold still_open in *. by rewrite <- omap_app. }
  destruct (close_once h k) as [h' k1]. cbn [fst snd] in *. destruct (IH k1 H1) as [H3 H4].
  destruct (close_active active k1) as [active' k2]. cbn [fst snd] in *. split; [done|]. cbn. by rewrite H2.
Qed.

Lemma wake_balanced options listener port k : balanced k (wake_acceptor options listener port k).
Proof.
  unfold wake_acceptor. case_if; [done|]. cbv zeta. set (address := if str_empty _ then _ else _).
  pose proof (connect_to_yields address port k) as Hy. destruct (connect_to address port k) as [o k1]. unfold yields in Hy.
  cbn [fst snd] in Hy. eapply balanced_trans; [|apply shutdown_balanced].
  destruct (oc_value o); destruct Hy as [-> Hy]; [by apply close_opened|done].
Qed.

Lemma close_queue_holds queue held k0 : forall k, holds (queue ++ held) k0 k -> holds held k0 (close_queue queue k).
Proof. induction queue as [|fd queue IH]; intros k Hk; [done|]. apply IH, close_both, Hk. Qed.

Lemma stop_joined_holds listener k0 s : holding [listener] k0 s -> holding [] k0 (stop_joined listener s).
Proof.
  unfold holding, stop_joined. intros Hk. apply holds_close in Hk.
  destruct (close_active_holds (he_active s) (he_queue s) k0 (close_socket listener (he_os s))) as [H1 H2];
    [eapply holds_perm; [|exact Hk]; solve_Permutation|].
  destruct (close_active _ _) as [active k]. cbn [he_os he_queue he_active fst snd] in *. rewrite H2. cbn.
  apply close_queue_holds. by rewrite app_nil_r.
Qed.

Lemma stop_last_holds k0 s : he_queue s = [] -> holding [] k0 s -> holds [] k0 (he_os (stop_last s)).
Proof.
  unfold holding, stop_last. intros -> Hk. cbn [app] in Hk. rewrite <- (app_nil_r (still_open _)) in Hk.
  apply close_active_holds in Hk as [Hk _]. by destruct (close_active _ _).
Qed.

(** C16: sockets and address lists do not leak, whatever every call of the operating
    system answers.  A client that fails to connect leaves nothing open; one that
    connects holds exactly one descriptor, which its destructor closes.  A
    service that fails to start leaves nothing open.  While it runs, whatever the
    order of the turns of its acceptor and of its workers, exactly the listener,
    the queued sockets and the connections that are not closed are open; a
    connection that a worker and [stop] both close is closed once.  When [stop]
    is over nothing is open, whatever the threads did before it, between its
    waking the acceptor up and the join, and between the joins, and whether or not
    the connection that wakes the acceptor could be made. *)
Theorem sockets_balanced options client turns1 turns2 turns3 k :
  (let r := client_open client k in
   match oc_value (fst r) with
   | None => outcome_ok (fst r) = false /\ balanced k (snd r)
   | Some socket => opened socket k (snd r) /\
       forall k', balanced (snd r) k' -> balanced k (client_close socket k')
   end) /\
  (let r := open_listener options k in
   match oc_value (fst r) with
   | None => outcome_ok (fst r) = false /\ balanced k (snd r)
   | Some (listener, port) =>
       let s := threads options listener turns1 (mkHeld true [] [] (snd r)) in
       holds (listener :: he_queue s ++ still_open (he_active s)) k (he_os s)
   end) /\
  holds [] k (service_sockets options turns1 turns2 turns3 k).
Proof.
  assert (forall listener k1, opened listener k k1 -> holding [listener] k (mkHeld true [] [] k1)) as Hstart.
  { intros listener k1 (H1 & H2 & H3). split_and!; cbn; [by rewrite H2|exact H3|by constructor]. }
  pose proof (listen_on_yields (so_bind_address options) (so_port options)
    (Z.max (so_max_connections options) 8) (so_reuse_address options) k) as Hl.
  split; [|split].
  - unfold client_open. destruct (co_port client =? 0); [by split|]. cbn zeta.
    pose proof (connect_to_yields (co_host client) (co_port client) k) as Hy. unfold yields in Hy.
    destruct (oc_value _); [|exact Hy]. destruct Hy as [_ Hy]. split; [done|]. intros k' Hk'.
    apply close_opened. by eapply opened_balanced.
  - unfold open_listener, yields in *. cbn zeta. destruct (oc_value _) as [[listener port]|]; [|exact Hl].
    destruct Hl as [_ Hl]. apply (threads_holds options listener turns1 [listener] k _ (Hstart _ _ Hl)).
  - unfold service_sockets, yields, open_listener in *.
    destruct (listen_on _ _ _ _ k) as [o k1]. cbn [fst snd] in Hl.
    destruct (oc_value o) as [[listener port]|]; destruct Hl as [-> Hl];
      [|destruct Hl as [H1 H2]; split_and!; [by rewrite H1|done|constructor]].
    cbn zeta. set (s1 := threads options listener turns1 _).
    set (s2 := mkHeld (he_accepting s1) _ _ _).
    assert (holding [listener] k s2) as H2.
    { eapply holds_balanced; [apply (threads_holds options listener turns1 [listener] k _ (Hstart _ _ Hl))|].
      apply wake_balanced. }
    apply stop_last_holds; [|by apply threads_holds, stop_joined_holds, threads_holds].
    apply threads_accepting; unfold stop_joined; by destruct (close_active _ _).
Qed.
