(* ===== verification/Tools.v ===== *)
(** * The command line tool (tools/tool_support.hpp, tools/ocreg_cli.cpp)

    Argument parsing, the helpers the tools share, and every command of
    [ocreg].  A command is a computation over the files of the store that
    [--store] names; it ends with the text on the two output streams and the
    exit code, or not at all when the process is interrupted.

    Two things are outside the repository and are parameters: the text files
    that [--document], [--requirement] and [--policy] name, and the outcome of
    connecting to a service. *)

From Stdlib Require Import ZArith Lia Ascii String.
From stdpp Require Import base tactics list strings.
From S2P Require Import Prelude OrdMap Checked Reason Text Name SemVer Hash Catalog Evidence State Codec CodecTypes.
From S2P Require Import Compat Registry RegistryOps Persist Protocol Json Export Import Net Service Client.

#[local] Open Scope string_scope.
#[local] Open Scope Z_scope.
#[local] Open Scope list_scope.
#[local] Open Scope io_scope.

(** ** Arguments *)

Record Arguments := mkArguments {
  ar_command : string;
  ar_options : list (string * string);
  ar_positional : list string }.

Definition no_arguments : Arguments := mkArguments "" [] [].

Definition get (a : Arguments) (name : string) : option string :=
  snd <$> find (fun '(key, _) => String.eqb key name) (ar_options a).
Definition get_or (a : Arguments) (name fallback : string) : string := default fallback (get a name).
Definition flag (a : Arguments) (name : string) : bool :=
  match get a name with Some _ => true | None => false end.

Definition add_option (key value : string) (a : Arguments) : Arguments :=
  mkArguments (ar_command a) (ar_options a ++ [(key, value)]) (ar_positional a).
Definition add_word (token : string) (a : Arguments) : Arguments :=
  if str_empty (ar_command a) then mkArguments token (ar_options a) (ar_positional a)
  else mkArguments (ar_command a) (ar_options a) (ar_positional a ++ [token]).

Definition is_option (token : string) : bool := String.prefix "--" token.

(** [token.substr(2)]. *)
Definition option_name (token : string) : string := str_tail (str_tail token).

(** The loop of [parse_arguments] over the arguments after the program's name. *)
Fixpoint parse_tokens (argv : list string) (a : Arguments) : Arguments :=
  match argv with
  | [] => a
  | token :: argv' =>
      if is_option token then
        match str_break "=" token with
        | Some (key, value) => parse_tokens argv' (add_option (option_name key) value a)
        | None =>
            match argv' with
            | next :: argv'' =>
                if is_option next then parse_tokens argv' (add_option (option_name token) "" a)
                else parse_tokens argv'' (add_option (option_name token) next a)
            | [] => add_option (option_name token) "" a
            end
        end
      else parse_tokens argv' (add_word token a)
  end.
Definition parse_arguments (argv : list string) : Arguments := parse_tokens argv no_arguments.

(** The digits, accumulated in 64 bits; [None] is [ok = false]. *)
Fixpoint unsigned_loop (value : Z) (text : string) : option Z :=
  match text with
  | EmptyString => Some value
  | String c text' =>
      if (byte_of_char c <? 48) || (byte_of_char c >? 57) then None
      else unsigned_loop (u64 (u64 (value * 10) + digit_val c)) text'
  end.
Definition parse_unsigned (text : string) : option Z :=
  if str_empty text || (20 <? String.length text)%nat then None else unsigned_loop 0 text.

(** ** Results of a process *)

Record Exit := mkExit { ex_stdout : string; ex_stderr : string; ex_code : Z }.

Definition kExitOk : Z := 0.
Definition kExitUsage : Z := 2.
Definition kExitFailure : Z := 1.

Definition endl (text : string) : string := text +:+ String newline "".

Definition print_error (reason : ReasonCode) (detail : string) : string :=
  endl ("error: " +:+ reason_to_string reason +:+ (if str_empty detail then "" else ": " +:+ detail)).

Definition complains (code : Z) (message : string) : Exit := mkExit "" (endl message) code.
Definition refuses {T} (o : Outcome T) : Exit :=
  mkExit "" (print_error (outcome_reason o) (st_detail (oc_status o))) kExitFailure.
Definition prints (root : JsonValue) (code : Z) : Exit := mkExit (endl (dump true root)) "" code.

(** [if (!reply.ok()) { print_error(...); return kExitFailure; }], then the value. *)
Definition show_reply {T} (reply : Outcome T) (show : T -> Exit) : Exit :=
  match outcome_ok reply, oc_value reply with
  | true, Some v => show v
  | _, _ => refuses reply
  end.

Definition usage_lines : list string :=
  ["ocreg - Offload Capability Registry inspection tool"; "";
   "usage: ocreg <command> [options]"; "";
   "commands:";
   "  verify   --store PATH                          validate a store and report recovery";
   "  stats    --store PATH [--tick N]               print registry statistics";
   "  export   --store PATH [--pretty]               print the canonical state document";
   "  import   --store PATH --document FILE          create or replace a store from a document";
   "  ingest   --store PATH --document FILE          admit each record through the registry";
   "  query    --store PATH --provider P --model M --unit N --incarnation I --kind K";
   "                                                  [--tick N] [--history]";
   "  evaluate --store PATH --requirement FILE [--tick N]";
   "  explain  --store PATH --decision HEX           reprint a retained decision";
   "  remote-ping   --host H --port P";
   "  remote-stats  --host H --port P [--tick N]";
   "  remote-export --host H --port P [--pretty] [--tick N]"; "";
   "Every command writes canonical JSON to stdout and exits non-zero on refusal."].
Definition print_usage : string := String.concat "" (map endl usage_lines).

(** ** JSON of the reports *)

Definition reason_array (reasons : list ReasonCode) : JsonValue :=
  arr (fun r => JString (reason_to_string r)) reasons.

Definition stats_to_json (s : RegistryStats) : JsonValue :=
  obj [("admissions_accepted", jint (rs_admissions_accepted s));
       ("admissions_idempotent", jint (rs_admissions_idempotent s));
       ("admissions_rejected", jint (rs_admissions_rejected s));
       ("retirements_accepted", jint (rs_retirements_accepted s));
       ("retirements_rejected", jint (rs_retirements_rejected s));
       ("devices", jint (rs_devices s)); ("incarnations", jint (rs_incarnations s));
       ("streams", jint (rs_streams s)); ("records_total", jint (rs_records_total s));
       ("records_active", jint (rs_records_active s));
       ("records_superseded", jint (rs_records_superseded s));
       ("records_retired", jint (rs_records_retired s));
       ("records_rejected", jint (rs_records_rejected s));
       ("records_fenced", jint (rs_records_fenced s)); ("records_stale", jint (rs_records_stale s));
       ("records_outranked", jint (rs_records_outranked s));
       ("records_evicted", jint (rs_records_evicted s));
       ("eviction_ledger_dropped", jint (rs_eviction_ledger_dropped s));
       ("conflicts_open", jint (rs_conflicts_open s));
       ("conflicts_resolved", jint (rs_conflicts_resolved s));
       ("conflicts_dropped", jint (rs_conflicts_dropped s)); ("tombstones", jint (rs_tombstones s));
       ("tombstones_dropped", jint (rs_tombstones_dropped s));
       ("resolutions", jint (rs_resolutions s));
       ("resolutions_dropped", jint (rs_resolutions_dropped s));
       ("decisions_emitted", jint (rs_decisions_emitted s));
       ("decisions_evicted", jint (rs_decisions_evicted s));
       ("registry_epoch", jint (rs_registry_epoch s)); ("rule_generation", jint (rs_rule_generation s));
       ("policy_revision", jint (rs_policy_revision s)); ("boot_epoch", jint (rs_boot_epoch s));
       ("logical_tick", jint (rs_logical_tick s))].

Definition verify_report (v : OpenReport) : JsonValue :=
  obj [("ok", JBool true); ("recovery_class", JString (recovery_class_to_string (or_classification v)));
       ("reason", JString (reason_to_string (or_reason v))); ("existed", JBool (or_existed v));
       ("snapshot_present", JBool (or_snapshot_present v)); ("journal_present", JBool (or_journal_present v));
       ("snapshot_bytes", jint (or_snapshot_bytes v)); ("journal_bytes", jint (or_journal_bytes v));
       ("bytes_discarded", jint (or_bytes_discarded v));
       ("journal_entries_scanned", jint (or_journal_entries_scanned v));
       ("journal_entries_valid", jint (or_journal_entries_valid v));
       ("journal_entries_dropped", jint (or_journal_entries_dropped v));
       ("record_count", jint (Z.of_nat (length (s_records (or_state v)))));
       ("state_digest", json_of_digest (state_digest (or_state v)))].

Definition query_fact_json (f : EvidenceStateFact) : JsonValue :=
  obj [("id", json_of_digest (sf_id f)); ("state", JString (evidence_state_to_string (sf_state f)));
       ("reason", JString (reason_to_string (sf_reason f))); ("generation", jint (sf_generation f));
       ("observed_at", jint (sf_observed_at f)); ("age", jint (sf_age f));
       ("authority", JString (authority_rank_to_string (sf_authority f)));
       ("capability_version", JString (semver_str (sf_capability_version f)))].

Definition query_json (r : QueryResult) : JsonValue :=
  obj ([("decision", JString (decision_kind_to_string (qr_kind r))); ("reasons", reason_array (qr_reasons r));
        ("evidence", arr query_fact_json (qr_facts r))] ++
       opt_field "selected" json_of_digest (qr_selected r) ++
       opt_field "conflict" json_of_digest (qr_conflict r)).

Definition decision_fact_json (f : EvidenceStateFact) : JsonValue :=
  obj [("id", json_of_digest (sf_id f)); ("state", JString (evidence_state_to_string (sf_state f)));
       ("reason", JString (reason_to_string (sf_reason f))); ("age", jint (sf_age f));
       ("authority", JString (authority_rank_to_string (sf_authority f)))].

Definition decision_json (d : CompatibilityDecision) : JsonValue :=
  obj ([("decision", JString (decision_kind_to_string (cd_kind d))); ("decision_id", json_of_digest (cd_id d));
        ("reasons", reason_array (cd_reasons d)); ("registry_epoch", jint (cd_registry_epoch d));
        ("rule_generation", jint (cd_rule_generation d)); ("policy_revision", jint (cd_policy_revision d));
        ("evaluated_at", jint (cd_evaluated_at d));
        ("selected_authority", JString (authority_rank_to_string (cd_selected_authority d)))] ++
       opt_field "selected" json_of_digest (cd_selected d) ++
       opt_field "conflict" json_of_digest (cd_conflict d) ++
       [("evidence", arr decision_fact_json (cd_evidence_facts d))]).

Definition explanation_json (o : Outcome Explanation) : JsonValue :=
  obj ([("available", JBool (outcome_ok o));
        ("reason", JString (reason_to_string (if outcome_ok o then Ok_ else outcome_reason o)))] ++
       match outcome_ok o, oc_value o with
       | true, Some e =>
           [("decision", JString (decision_kind_to_string (cd_kind (ex_decision e))));
            ("reasons", reason_array (cd_reasons (ex_decision e)));
            ("evidence", arr json_of_digest (cd_evidence (ex_decision e)))]
       | _, _ => []
       end).

(** ** The commands *)

Definition default_store_options (path : string) : StoreOptions :=
  mkStoreOptions path default_store_limits true 4096.

(** [load_store], without the summary no command reads. *)
Definition load_store (path : string) : Io (Outcome RegistryState) :=
  loaded <- load_state (default_store_options path) ;; io_ret (snd loaded).

(** [Tick{}] when the option is absent or not a number. *)
Definition tick_from (a : Arguments) : Tick :=
  match get a "tick" with Some text => default 0 (parse_unsigned text) | None => 0 end.

(** The opening of the commands that work on a loaded registry: load the store,
    construct the registry from it, adopt the state. *)
Definition with_store (path : string) (now : Tick) (body : Impl -> Exit) : Io Exit :=
  loaded <- load_store path ;;
  match outcome_ok loaded, oc_value loaded with
  | true, Some state =>
      let '(adopted, x) := adopt_state state now (registry_restore (s_policy state) state) in
      io_ret (if negb (outcome_ok adopted) then refuses adopted else body x)
  | _, _ => io_ret (refuses loaded)
  end.

Definition command_verify (a : Arguments) : Io Exit :=
  match get a "store" with
  | None => io_ret (complains kExitUsage "verify requires --store")
  | Some store =>
      report <- store_open (default_store_options store) ;;
      io_ret (match outcome_ok report, oc_value report with
              | true, Some v => prints (verify_report v) kExitOk
              | _, _ => prints (obj [("ok", JBool false); ("reason", JString (reason_to_string (outcome_reason report)));
                                     ("detail", JString (st_detail (oc_status report)))]) kExitFailure
              end)
  end.

Definition command_stats (a : Arguments) : Io Exit :=
  match get a "store" with
  | None => io_ret (complains kExitUsage "stats requires --store")
  | Some store =>
      with_store store (tick_from a) (fun x => prints (stats_to_json (stats (tick_from a) x)) kExitOk)
  end.

Definition pretty_options (a : Arguments) : ExportOptions :=
  mkExportOptions true true true true (flag a "pretty") (eo_max_records default_export_options)
    (eo_max_bytes default_export_options).

Definition command_export (a : Arguments) : Io Exit :=
  match get a "store" with
  | None => io_ret (complains kExitUsage "export requires --store")
  | Some store =>
      with_store store (tick_from a) (fun x =>
        show_reply (export_registry x (pretty_options a) (tick_from a))
          (fun r => mkExit (endl (er_document r)) "" kExitOk))
  end.

Definition parse_device (a : Arguments) : option DeviceIncarnationRef :=
  match get a "provider", get a "model", get a "unit", get a "incarnation" with
  | Some provider, Some model, Some unit, Some incarnation =>
      match name_parse provider, name_parse model with
      | Some provider, Some model =>
          match parse_unsigned unit with
          | None => None
          | Some unit_index =>
              match parse_unsigned incarnation with
              | None => None
              | Some incarnation_id =>
                  if incarnation_id =? 0 then None
                  else Some (mkDeviceRef (mkDeviceIdentity provider model (u32 unit_index) None) incarnation_id)
              end
          end
      | _, _ => None
      end
  | _, _, _, _ => None
  end.

Definition command_query (a : Arguments) : Io Exit :=
  match get a "store", get a "kind" with
  | Some store, Some kind_text =>
      match parse_device a with
      | None => io_ret (complains kExitUsage "query requires --provider --model --unit --incarnation")
      | Some device =>
          match parse_capability_kind kind_text with
          | None => io_ret (complains kExitUsage ("unknown capability kind: " +:+ kind_text))
          | Some kind =>
              with_store store (tick_from a) (fun x =>
                show_reply (query (mkQuery device kind 0 (flag a "history")) (tick_from a) x)
                  (fun r => prints (query_json r) kExitOk))
          end
      end
  | _, _ => io_ret (complains kExitUsage "query requires --store and --kind")
  end.

Definition command_explain (a : Arguments) : Io Exit :=
  match get a "store", get a "decision" with
  | Some store, Some decision_text =>
      match digest_parse decision_text with
      | None => io_ret (complains kExitUsage "decision must be a 64 character lower-case hex digest")
      | Some digest =>
          with_store store (tick_from a) (fun x =>
            let explanation := explain digest x in
            prints (explanation_json explanation) (if outcome_ok explanation then kExitOk else kExitFailure))
      end
  | _, _ => io_ret (complains kExitUsage "explain requires --store and --decision")
  end.

(** The registry the records of an imported document are admitted to, with the
    three counts and the reasons of the refusals. *)
Record Ingest := mkIngest {
  in_registry : Impl;
  in_accepted : Z;
  in_idempotent : Z;
  in_refused : Z;
  in_refusals : list ReasonCode }.

Definition ingest_request (e : CapabilityEvidence) : AdmissionRequest :=
  mkAdmission (ek_device (ce_key e)) (ek_kind (ce_key e)) (ce_source_incarnation e)
    (ce_capability_version e) (ce_features e) (ce_limits e) (ce_firmware_version e)
    (ce_firmware_generation e) (ce_runtime_version e) (ce_runtime_generation e) (ce_observed_at e)
    (ce_valid_until e) (ce_generation e).

(** One turn of the loop over the records. *)
Definition ingest_record (now : Tick) (g : Ingest) (r : StoredEvidence) : Ingest :=
  let '(outcome, x) := registry_admit (ingest_request (se_evidence r)) now (in_registry g) in
  match outcome_ok outcome, oc_value outcome with
  | true, Some v =>
      if ao_idempotent v
      then mkIngest x (in_accepted g) (u64 (in_idempotent g + 1)) (in_refused g) (in_refusals g)
      else if bool_decide (ao_state v = StRejected)
      then mkIngest x (in_accepted g) (in_idempotent g) (u64 (in_refused g + 1)) (in_refusals g ++ [ao_reason v])
      else mkIngest x (u64 (in_accepted g + 1)) (in_idempotent g) (in_refused g) (in_refusals g)
  | _, _ => mkIngest x (in_accepted g) (in_idempotent g) (u64 (in_refused g + 1))
              (in_refusals g ++ [outcome_reason outcome])
  end.

(** The loop over the incarnations, which stops at the first refusal. *)
Fixpoint install_incarnations (now : Tick) (entries : list DeviceIncarnationEntry) (x : Impl)
  : Outcome Z + Impl :=
  match entries with
  | [] => inr x
  | e :: entries' =>
      let '(installed, x) := set_device_incarnation (ie_device e) (ie_current e) now x in
      if negb (outcome_ok installed) then inl installed else install_incarnations now entries' x
  end.

Definition ingest_state (policy : RegistryPolicy) (now : Tick) (source : RegistryState)
  : Outcome Z + Ingest :=
  match install_incarnations now (s_incarnations source) (registry_create policy) with
  | inl refused => inl refused
  | inr x => inr (fold_left (ingest_record now) (s_records source) (mkIngest x 0 0 0 []))
  end.

Definition with_store_generation (generation : Z) (s : RegistryState) : RegistryState :=
  mkState (s_policy s) (s_epoch s) (s_rule_generation s) (s_policy_revision s) (s_boot_epoch s) generation
    (s_logical_tick s) (s_next_incarnation s) (s_incarnations s) (s_records s) (s_tombstones s)
    (s_conflicts s) (s_resolutions s) (s_evictions s) (s_counters s).
Definition with_policy (policy : RegistryPolicy) (s : RegistryState) : RegistryState :=
  mkState policy (s_epoch s) (s_rule_generation s) (s_policy_revision s) (s_boot_epoch s)
    (s_store_generation s) (s_logical_tick s) (s_next_incarnation s) (s_incarnations s) (s_records s)
    (s_tombstones s) (s_conflicts s) (s_resolutions s) (s_evictions s) (s_counters s).

(** The closing of [import] and [ingest]: bind the store and replace it. *)
Definition replace_store (path : string) (state : RegistryState) (now : Tick) (report : CommitToken -> Exit)
  : Io Exit :=
  bound <- store_bind (default_store_options path) ;;
  match outcome_ok bound, oc_value bound with
  | true, Some impl =>
      compacted <- store_compact impl state now ;;
      let committed := snd compacted in
      io_ret (match outcome_ok committed, oc_value committed with
              | true, Some token => report token
              | _, _ => refuses committed
              end)
  | _, _ => io_ret (refuses bound)
  end.

Section Environment.

(** The content of a readable text file, and what [net::connect_to] answers. *)
Variable read_text_file : string -> option string.
Variable connect_to : ClientOptions -> Outcome Socket.

(** Any failure falls back to the lab policy. *)
Definition policy_from (a : Arguments) : RegistryPolicy :=
  match get a "policy" with
  | None => make_lab_policy
  | Some path =>
      match read_text_file path with
      | None => make_lab_policy
      | Some document =>
          let parsed := parse_policy_document document in
          match outcome_ok parsed, oc_value parsed with
          | true, Some policy => policy
          | _, _ => make_lab_policy
          end
      end
  end.

(** The opening of [import] and [ingest]: both options, the document's text, the
    state it holds. *)
Definition with_document (a : Arguments) (command : string) (body : string -> RegistryState -> Io Exit)
  : Io Exit :=
  match get a "store", get a "document" with
  | Some store, Some document =>
      match read_text_file document with
      | None => io_ret (complains kExitFailure (command +:+ " could not read " +:+ document))
      | Some text =>
          let imported := import_document text in
          match outcome_ok imported, oc_value imported with
          | true, Some r => body store (im_state r)
          | _, _ => io_ret (refuses imported)
          end
      end
  | _, _ => io_ret (complains kExitUsage (command +:+ " requires --store and --document"))
  end.

(** The state [import] writes. *)
Definition imported_state (a : Arguments) (state : RegistryState) : RegistryState :=
  let state := if flag a "policy" then with_policy (policy_from a) state else state in
  with_store_generation (u64 (s_store_generation state + 1)) state.

Definition command_import (a : Arguments) : Io Exit :=
  with_document a "import" (fun store state =>
    let state := imported_state a state in
    replace_store store state (tick_from a) (fun token =>
      prints (obj [("ok", JBool true); ("records", jint (Z.of_nat (length (s_records state))));
                   ("store_generation", jint (s_store_generation state));
                   ("payload_digest", json_of_digest (ct_payload_digest token))]) kExitOk)).

Definition command_ingest (a : Arguments) : Io Exit :=
  with_document a "ingest" (fun store source =>
    let policy := if flag a "policy" then policy_from a else s_policy source in
    let now := tick_from a in
    match ingest_state policy now source with
    | inl refused => io_ret (refuses refused)
    | inr g =>
        let snapshot := snapshot_state (in_registry g) in
        match outcome_ok snapshot, oc_value snapshot with
        | true, Some snapshot =>
            let committed_state := with_store_generation (u64 (s_store_generation source + 1)) snapshot in
            replace_store store committed_state now (fun _ =>
              prints (obj [("ok", JBool true); ("accepted", jint (in_accepted g));
                           ("idempotent", jint (in_idempotent g)); ("refused", jint (in_refused g));
                           ("refusal_reasons", reason_array (canonical_reasons (in_refusals g)));
                           ("state_digest", json_of_digest (state_digest (to_state (in_registry g))))]) kExitOk)
        | _, _ => io_ret (refuses snapshot)
        end
    end).

Definition command_evaluate (a : Arguments) : Io Exit :=
  match get a "store", get a "requirement" with
  | Some store, Some requirement_path =>
      match read_text_file requirement_path with
      | None => io_ret (complains kExitFailure ("evaluate could not read " +:+ requirement_path))
      | Some text =>
          let requirement := parse_requirement_document text in
          match outcome_ok requirement, oc_value requirement with
          | true, Some r =>
              with_store store (tick_from a) (fun x =>
                prints (decision_json (fst (evaluate r (tick_from a) x))) kExitOk)
          | _, _ => io_ret (refuses requirement)
          end
      end
  | _, _ => io_ret (complains kExitUsage "evaluate requires --store and --requirement")
  end.

(** [with_client]; the client is closed when the body returns. *)
Definition with_client (a : Arguments) (body : Client -> Tick -> Exit) : Exit :=
  match get a "port" with
  | None => complains kExitUsage "a --port is required"
  | Some port_text =>
      match parse_unsigned port_text with
      | Some port =>
          if (port =? 0) || (port >? 65535) then complains kExitUsage "port must be in 1..65535"
          else
          let options := mkClientOptions (get_or a "host" "127.0.0.1") (u16 port) kMaxFramePayload in
          let client := client_connect options (connect_to options) in
          match outcome_ok client, oc_value client with
          | true, Some cl => body cl (tick_from a)
          | _, _ => refuses client
          end
      | None => complains kExitUsage "port must be in 1..65535"
      end
  end.

(** The bodies of the remote commands. *)
Definition remote_ping (cl : Client) (now : Tick) : Exit :=
  show_reply (fst (client_ping now cl))
    (fun v => prints (obj [("pong", JBool (br_value v))]) kExitOk).
Definition remote_stats (cl : Client) (now : Tick) : Exit :=
  show_reply (fst (client_stats now cl)) (fun v => prints (stats_to_json v) kExitOk).
Definition remote_export (a : Arguments) (cl : Client) (now : Tick) : Exit :=
  show_reply (fst (client_export (pretty_options a) now cl))
    (fun v => mkExit (endl (xr_document v)) "" kExitOk).

Definition ocreg_main (argv : list string) : Io Exit :=
  let a := parse_arguments argv in
  let command := ar_command a in
  if str_empty command || String.eqb command "help" || String.eqb command "--help"
  then io_ret (mkExit print_usage "" (if str_empty command then kExitUsage else kExitOk))
  else if String.eqb command "verify" then command_verify a
  else if String.eqb command "stats" then command_stats a
  else if String.eqb command "export" then command_export a
  else if String.eqb command "import" then command_import a
  else if String.eqb command "ingest" then command_ingest a
  else if String.eqb command "query" then command_query a
  else if String.eqb command "evaluate" then command_evaluate a
  else if String.eqb command "explain" then command_explain a
  else if String.eqb command "remote-ping" then io_ret (with_client a remote_ping)
  else if String.eqb command "remote-stats" then io_ret (with_client a remote_stats)
  else if String.eqb command "remote-export" then io_ret (with_client a (remote_export a))
  else io_ret (mkExit print_usage (endl ("unknown command: " +:+ command)) kExitUsage).

End Environment.
