(* ===== verification/ArgumentThms.v ===== *)
(** * Command lines

    What [parse_arguments] makes of a command line and what [parse_unsigned]
    makes of a number. *)

From Stdlib Require Import ZArith Lia Ascii String ZifyBool.
From stdpp Require Import base tactics list strings.
From S2P Require Import Prelude Checked Reason Text SemVer Json JsonThms Tools.

#[local] Open Scope string_scope.
#[local] Open Scope Z_scope.
#[local] Open Scope list_scope.

(** ** Numbers *)

Lemma digit_bytes c : is_digit c = negb ((byte_of_char c <? 48) || (byte_of_char c >? 57)).
Proof. unfold is_digit, byte_of_char. lia. Qed.

Lemma unsigned_loop_spec text : forall value,
  unsigned_loop value text =
  if str_all is_digit text then Some (if str_empty text then value else u64 (dec_acc value text)) else None.
Proof.
  induction text as [|c text IH]; intros value; [done|]. cbn [unsigned_loop str_all str_empty dec_acc].
  rewrite digit_bytes. destruct (_ || _) eqn:E; [done|]. cbn [negb andb]. rewrite IH.
  destruct (str_all is_digit text); [|done]. f_equal.
  assert (u64 (u64 (value * 10) + digit_val c) = u64 (value * 10 + digit_val c)) as Hstep.
  { unfold u64, wrap. by rewrite Zplus_mod_idemp_l. }
  destruct text as [|c' text]; [done|]. cbn [str_empty]. rewrite Hstep, !(dec_acc_shift _ (String c' text)).
  unfold u64, wrap. rewrite Z.add_mod, Z.mul_mod, Z.mod_mod by lia. by rewrite <- Z.mul_mod, <- Z.add_mod by lia.
Qed.

(** A number is read exactly when it is one to twenty digits, and modulo the
    width: above [u64_max] the result is another number. *)
Lemma parse_unsigned_spec text v :
  parse_unsigned text = Some v <->
  str_all is_digit text = true /\ (1 <= String.length text <= 20)%nat /\ v = u64 (dec_val text).
Proof.
  unfold parse_unsigned. rewrite unsigned_loop_spec. fold (dec_val text).
  destruct text as [|c text]; [split; [done|simpl; lia]|]. cbn [str_empty orb].
  destruct (20 <? _)%nat eqn:E; [split; [done|lia]|].
  destruct (str_all is_digit (String c text)); [|naive_solver].
  split; [intros [= <-]; split_and!; [done|simpl; lia|lia|done]|]. by intros (_ & _ & ->).
Qed.

Lemma parse_unsigned_range text v : parse_unsigned text = Some v -> in_u 64 v.
Proof. intros (_ & _ & ->)%parse_unsigned_spec. by apply wrap_bound. Qed.

Lemma tick_from_range a : in_u 64 (tick_from a).
Proof.
  unfold tick_from. destruct (get a "tick") as [t|]; [|by vm_compute].
  destruct (parse_unsigned t) eqn:E; [by eapply parse_unsigned_range|by vm_compute].
Qed.

Lemma dec_loop_size fuel : forall n acc, (String.length (dec_loop fuel n acc) <= fuel + String.length acc)%nat.
Proof.
  induction fuel as [|fuel IH]; intros n acc; [done|]. cbn [dec_loop]. case_if; [cbn; lia|].
  specialize (IH (n / 10) (String (digit_char (n mod 10)) acc)). cbn [String.length] in IH. lia.
Qed.

Lemma parse_unsigned_dec n : in_u 64 n -> parse_unsigned (dec_str n) = Some n.
Proof.
  intros Hn. destruct (dec_str_ok n) as [H1 H2 H3 H4]; [unfold in_u, u64_max in *; lia|].
  apply parse_unsigned_spec. rewrite H2. unfold dec_str in *.
  pose proof (dec_loop_size 20 n "") as Hl. cbn [String.length] in Hl.
  split_and!; [done|destruct (dec_loop 20 n ""); [done|cbn; lia]|lia|symmetry; by apply wrap_small].
Qed.

(** ** Tokens *)

Definition no_equals (s : string) : bool := str_all (fun c => negb (char_is "=" c)) s.

(** The spelling of an option as one token, and of a whole command line. *)
Definition option_token (kv : string * string) : string := "--" +:+ fst kv +:+ String "=" (snd kv).
Definition render (a : Arguments) : list string :=
  ar_command a :: map option_token (ar_options a) ++ ar_positional a.

Record renderable (a : Arguments) : Prop := {
  rn_command : ar_command a <> "" /\ is_option (ar_command a) = false;
  rn_options : Forall (fun kv => no_equals (fst kv) = true) (ar_options a);
  rn_positional : Forall (fun w => is_option w = false) (ar_positional a) }.

Lemma parse_option_token kv argv a :
  no_equals (fst kv) = true ->
  parse_tokens (option_token kv :: argv) a = parse_tokens argv (add_option (fst kv) (snd kv) a).
Proof.
  destruct kv as [k v]. intros Hk. cbn [fst snd] in *. cbn [parse_tokens].
  assert (str_break "=" (option_token (k, v)) = Some ("--" +:+ k, v)) as ->
    by by apply (str_break_app "=" ("--" +:+ k)).
  assert (is_option (option_token (k, v)) = true) as -> by by destruct k.
  done.
Qed.

(** An option and its value as two tokens are the same option. *)
Lemma parse_spaced_option k v argv a :
  no_equals k = true -> is_option v = false ->
  parse_tokens (("--" +:+ k)%string :: v :: argv) a = parse_tokens (option_token (k, v) :: argv) a.
Proof.
  intros Hk Hv. rewrite parse_option_token by done. cbn [parse_tokens fst snd].
  assert (str_break "=" ("--" +:+ k) = None) as -> by by apply str_break_none.
  assert (is_option ("--" +:+ k) = true) as -> by by destruct k.
  by rewrite Hv.
Qed.

Lemma parse_words words : forall a,
  ar_command a <> "" -> Forall (fun w => is_option w = false) words ->
  parse_tokens words a = mkArguments (ar_command a) (ar_options a) (ar_positional a ++ words).
Proof.
  induction words as [|w words IH]; intros [c o p] Hc Hw; cbn [ar_command] in Hc.
  { cbn. by rewrite app_nil_r. }
  apply Forall_cons in Hw as [Hw Hws]. cbn [parse_tokens]. rewrite Hw. unfold add_word. cbn [ar_command].
  destruct (str_empty c) eqn:E; [by destruct c|]. rewrite IH by done. cbn. by rewrite <- app_assoc.
Qed.

Lemma parse_option_tokens opts argv : forall a,
  Forall (fun kv => no_equals (fst kv) = true) opts ->
  parse_tokens (map option_token opts ++ argv) a =
  parse_tokens argv (mkArguments (ar_command a) (ar_options a ++ opts) (ar_positional a)).
Proof.
  induction opts as [|[k v] opts IH]; intros [c o p] Ho; [cbn; by rewrite app_nil_r|].
  apply Forall_cons in Ho as [Hk Ho]. cbn [map app]. rewrite parse_option_token by done.
  rewrite IH by done. cbn. by rewrite <- app_assoc.
Qed.

(** A command line is read back from its spelling. *)
Lemma parse_render a : renderable a -> parse_arguments (render a) = a.
Proof.
  intros [[Hc Hc'] Ho Hp]. unfold parse_arguments, render. cbn [parse_tokens]. rewrite Hc'.
  change (add_word (ar_command a) no_arguments) with (mkArguments (ar_command a) [] []).
  rewrite parse_option_tokens, parse_words by done. by destruct a.
Qed.

(** No token that starts with two dashes becomes the command: asking for [--help]
    is an option, and [main] prints the usage as an error. *)
Lemma command_not_option argv : forall a,
  is_option (ar_command a) = false -> is_option (ar_command (parse_tokens argv a)) = false.
Proof.
  induction argv as [argv IH] using (induction_ltof1 _ (@length string)); unfold ltof in IH.
  intros a Ha. destruct argv as [|t argv]; [done|]. cbn [parse_tokens].
  destruct (is_option t) eqn:Et.
  - destruct (str_break "=" t) as [[k v]|]; [apply IH; [simpl; lia|done]|].
    destruct argv as [|n argv]; [done|]. destruct (is_option n); (apply IH; [simpl; lia|done]).
  - apply IH; [simpl; lia|]. unfold add_word. by destruct (str_empty (ar_command a)).
Qed.

Lemma help_option_is_error files connect w :
  ar_command (parse_arguments ["--help"]) = "" /\
  ocreg_main files connect ["--help"] w = (w, Some (mkExit print_usage "" kExitUsage)).
Proof. by split. Qed.

(** Values above the width are accepted and wrapped. *)
Lemma unsigned_wraps : parse_unsigned "18446744073709551617" = Some 1.
Proof. by vm_compute. Qed.

(** A unit number is cut to 32 bits: the query is about another unit. *)
Lemma unit_truncated :
  parse_device (parse_arguments ["--provider=acme"; "--model=nic"; "--unit=4294967296"; "--incarnation=1"]) =
  parse_device (parse_arguments ["--provider=acme"; "--model=nic"; "--unit=0"; "--incarnation=1"]).
Proof. by vm_compute. Qed.
