(* ===== verification/ServiceTool.v ===== *)
(** * The service executable and the crash helper

    [ocreg_service] (tools/ocreg_service.cpp) loads the store, serves the
    registry until a shutdown and commits the final state; the run between is
    any schedule of the service's threads.  [ocreg_crash_helper]
    (tools/ocreg_crash_helper.cpp) commits a synthetic state and dies at a
    chosen boundary. *)

From Stdlib Require Import ZArith Lia Ascii String.
From stdpp Require Import base tactics list strings relations.
From S2P Require Import Prelude OrdMap Checked Reason Text Name SemVer Hash Units Catalog Evidence State Codec CodecTypes.
From S2P Require Import Registry RegistryOps Persist Protocol Json Export Import Net Service ServiceThreads Client Tools.

#[local] Open Scope string_scope.
#[local] Open Scope Z_scope.
#[local] Open Scope list_scope.
#[local] Open Scope io_scope.

(** ** The service *)

Definition service_usage : string := String.concat "" (map endl
  ["usage: ocreg_service --store PATH [--port N] [--bind ADDR] [--workers N]";
   "                    [--connections N] [--policy FILE] [--tick N]";
   "Prints 'PORT <n>' once listening and exits after a Shutdown request."]).

(** A store with nothing to adopt. *)
Definition carries_state (state : RegistryState) (summary : RecoverySummary) : bool :=
  negb (length (s_records state) =? 0)%nat || negb (length (s_incarnations state) =? 0)%nat ||
  negb (length (s_tombstones state) =? 0)%nat || negb (length (s_conflicts state) =? 0)%nat ||
  bool_decide (sm_classification summary = JournalReplayed) ||
  bool_decide (sm_classification summary = TornTailTruncated) ||
  bool_decide (sm_classification summary = TrailingCorruptDropped).

(** A numeric option with an upper bound; anything else keeps the default. *)
Definition bounded_option (a : Arguments) (name : string) (high fallback : Z) : Z :=
  match get a name with
  | None => fallback
  | Some text =>
      match parse_unsigned text with
      | Some value => if (value >? 0) && (value <=? high) then value else fallback
      | None => fallback
      end
  end.

(** [None] when the port is refused. *)
Definition port_option (a : Arguments) : option Z :=
  match get a "port" with
  | None => Some 0
  | Some text =>
      match parse_unsigned text with
      | Some port => if port >? 65535 then None else Some port
      | None => None
      end
  end.

Definition server_options (a : Arguments) (port : Z) : ServerOptions :=
  let d := default_server_options in
  mkServerOptions (get_or a "bind" "127.0.0.1") (u16 port)
    (bounded_option a "connections" 4096 (so_max_connections d)) (bounded_option a "workers" 64 (so_max_workers d))
    (so_max_frame_payload d) (so_max_queued_requests d) (so_max_requests_per_connection d)
    (so_max_export_bytes d) (so_reuse_address d).

(** [Store::bind] then [commit], as both executables end: [refuse] of a failed
    binding, [finish] of the commit's outcome. *)
Definition bind_and_commit (path : string) (state : RegistryState) (now : Tick)
    (refuse : Outcome StoreImpl -> Exit) (finish : Outcome CommitToken -> Exit) : Io Exit :=
  bound <- store_bind (default_store_options path) ;;
  match outcome_ok bound, oc_value bound with
  | true, Some impl => committed <- store_commit impl state now [] ;; io_ret (finish (snd committed))
  | _, _ => io_ret (refuse bound)
  end.

(** The registry ready to be served. *)
Record Booted := mkBooted {
  bo_registry : Impl;
  bo_options : ServerOptions;
  bo_now : Tick;
  bo_store : string;
  bo_stderr : string }.

Section Process.
Variable read_text_file : string -> option string.

(** [load_policy], with what it writes to the error stream. *)
Definition load_policy (a : Arguments) : RegistryPolicy * string :=
  match get a "policy" with
  | None => (make_lab_policy, "")
  | Some path =>
      match read_text_file path with
      | None => (make_lab_policy, endl ("policy file could not be read: " +:+ path))
      | Some document =>
          let parsed := parse_policy_document document in
          match outcome_ok parsed, oc_value parsed with
          | true, Some policy => (policy, "")
          | _, _ => (make_lab_policy, endl ("policy rejected: " +:+ reason_to_string (outcome_reason parsed)))
          end
      end
  end.

(** The block that loads the store: the state to adopt and the policy. *)
Definition boot_state (policy : RegistryPolicy) (loaded : RecoverySummary * Outcome RegistryState)
  : Outcome RegistryState + option RegistryState * RegistryPolicy :=
  let '(summary, outcome) := loaded in
  match outcome_ok outcome, oc_value outcome with
  | true, Some state =>
      if carries_state state summary
      then inr (Some state, match rp_sources (s_policy state) with [] => policy | _ => s_policy state end)
      else inr (None, policy)
  | _, _ => if bool_decide (outcome_reason outcome = StoreEmptyNew) then inr (None, policy) else inl outcome
  end.

Definition boot_registry (policy : RegistryPolicy) (state : option RegistryState) (now : Tick)
  : Outcome RecoverySummary + Impl :=
  let x := registry_create policy in
  match state with
  | None => inr x
  | Some s =>
      let '(adopted, y) := adopt_state s now x in
      if negb (outcome_ok adopted) then inl adopted else inr y
  end.

(** The body of [main] up to the start of the service. *)
Definition service_boot (argv : list string) : Io (Exit + Booted) :=
  let a := parse_arguments argv in
  if String.eqb (ar_command a) "help" || String.eqb (ar_command a) "--help"
  then io_ret (inl (mkExit service_usage "" 0))
  else
  match get a "store" with
  | None => io_ret (inl (complains 2 "a --store path is required"))
  | Some store =>
      let '(policy, warning) := load_policy a in
      loaded <- load_state (default_store_options store) ;;
      io_ret
        (match boot_state policy loaded with
         | inl refused =>
             let detail := st_detail (oc_status refused) in
             inl (mkExit "" (warning +:+ endl ("store rejected: " +:+ reason_to_string (outcome_reason refused) +:+
                               (if str_empty detail then "" else ": " +:+ detail))) 1)
         | inr (state, policy) =>
             match boot_registry policy state (tick_from a) with
             | inl refused =>
                 inl (mkExit "" (warning +:+ endl ("state rejected: " +:+ reason_to_string (outcome_reason refused))) 1)
             | inr x =>
                 match port_option a with
                 | None => inl (mkExit "" (warning +:+ endl "port must be in 0..65535") 2)
                 | Some port => inr (mkBooted x (server_options a port) (tick_from a) store warning)
                 end
             end
         end)
  end.

(** The body of [main] after [stop]: [printed] is the announced port. *)
Definition service_finish (b : Booted) (printed : string) (final : Core) : Io Exit :=
  let fails message reason :=
    mkExit printed (bo_stderr b +:+ endl (message +:+ reason_to_string reason)) 1 in
  let snapshot := snapshot_state (sc_registry final) in
  match outcome_ok snapshot, oc_value snapshot with
  | true, Some snapshot =>
      let final_state := with_store_generation (u64 (s_store_generation snapshot + 1)) snapshot in
      bind_and_commit (bo_store b) final_state (bo_now b)
        (fun bound => fails "store bind failed: " (outcome_reason bound))
        (fun committed =>
           match outcome_ok committed, oc_value committed with
           | true, Some token =>
               mkExit (printed +:+ endl ("SERVED " +:+ dec_str (requests_served (sc_counters final))) +:+
                       endl ("COMMITTED " +:+ digest_hex (ct_payload_digest token))) (bo_stderr b) 0
           | _, _ => fails "final commit failed: " (outcome_reason committed)
           end)
  | _, _ => io_ret (fails "final snapshot refused: " (outcome_reason snapshot))
  end.

(** The process: it ends before listening, or serves until [stop] is complete
    and commits, or is interrupted.  [listener] is the outcome of binding and
    listening. *)
Inductive service_process (argv : list string) (w : World) : World -> option Exit -> Prop :=
| process_refused w' e :
    service_boot argv w = (w', Some (inl e)) -> service_process argv w w' (Some e)
| process_interrupted_boot w' :
    service_boot argv w = (w', None) -> service_process argv w w' None
| process_not_started w' b listener :
    service_boot argv w = (w', Some (inr b)) ->
    outcome_ok (fst (service_start (bo_options b) listener (new_service (bo_registry b)))) = false ->
    service_process argv w w'
      (Some (mkExit "" (bo_stderr b +:+ endl ("service failed to start: " +:+
        reason_to_string (outcome_reason (fst (service_start (bo_options b) listener
                                                  (new_service (bo_registry b))))))) 1))
| process_killed w' b :
    service_boot argv w = (w', Some (inr b)) -> service_process argv w w' None
| process_served w1 b port s w2 r :
    service_boot argv w = (w1, Some (inr b)) ->
    rtc (service_step (bo_options b))
      (snd (service_start (bo_options b) (outcome_value port) (new_service (bo_registry b)))) s ->
    sv_stop s = Stopped ->
    service_finish b (endl ("PORT " +:+ dec_str port)) (sv_core s) w1 = (w2, r) ->
    service_process argv w w2 r.

End Process.

(** ** The crash helper *)

Module CrashHelper.

(** The boundaries end the process with [hard_kill], which flushes nothing; the
    exit code of a killed process is 9. *)
Definition hard_kill (printed : string) : Exit := mkExit printed "" 9.

Definition fixture_policy : RegistryPolicy :=
  let p := make_lab_policy in
  mkPolicy (rp_sources p) (rp_require_configured_source p) (rp_refuse_untrusted_sources p) (rp_boot_policy p)
    (rp_clock_mode p) 0 (rp_max_future_skew p) 0 (rp_limits p) (rp_rule_generation p) (rp_policy_name p).

Definition fixture_device : DeviceIncarnationRef :=
  mkDeviceRef (mkDeviceIdentity "fixture-sim" "sim-nic-100" 0 None) 1.

(** [*SemVer::parse(text)] of a text that parses. *)
Definition parsed_version (text : string) : SemVer := default (mkSemVer 0 0 0 "" "") (semver_parse text).

Definition ChecksumIpv4HeaderTx : Z := 20.
Definition ChecksumL4Tx : Z := 22.
Definition MaximumTransmissionUnit : Z := 19.

Definition fixture_request (seed index : Z) : AdmissionRequest :=
  mkAdmission fixture_device ChecksumOffload (mkSourceIncarnation "fixture-sim" 1)
    (parsed_version ("1." +:+ dec_str (index mod 8) +:+ ".0"))
    (feature_set_from_validated [ChecksumIpv4HeaderTx; ChecksumL4Tx])
    (limit_set_from_validated [mkLimitValue MaximumTransmissionUnit (unity UByte) 9000])
    (Some (parsed_version "3.0.0")) (u64 (seed + index)) None 0 (u64 (1000 + index)) None (u64 (index + 1)).

(** The loop of [build_state]; [inl] is the message before [std::exit(4)]. *)
Fixpoint build_loop (seed count : Z) (indices : list Z) (x : Impl) : string + Impl :=
  match indices with
  | [] => inr x
  | index :: indices' =>
      let '(outcome, x) := registry_admit (fixture_request seed index) (u64 (1000 + count)) x in
      if negb (outcome_ok outcome)
      then inl (endl ("synthetic admission refused: " +:+ reason_to_string (outcome_reason outcome)))
      else build_loop seed count indices' x
  end.

Definition build_state (seed count : Z) : string + RegistryState :=
  match build_loop seed count (map Z.of_nat (seq 0 (Z.to_nat count))) (registry_create fixture_policy) with
  | inl message => inl message
  | inr x =>
      let snapshot := snapshot_state x in
      match outcome_ok snapshot, oc_value snapshot with
      | true, Some state => inr (with_store_generation seed state)
      | _, _ => inl (endl "synthetic snapshot refused")
      end
  end.

(** Runs [body] on the built state, or ends with code 4. *)
Definition with_state (seed count : Z) (body : RegistryState -> Io Exit) : Io Exit :=
  match build_state seed count with
  | inl message => io_ret (mkExit "" message 4)
  | inr state => body state
  end.

(** [fopen], the writes and [fflush], whose results are ignored, then the kill. *)
Fixpoint write_pieces (f : FileId) (pieces : list (list Z)) : Io unit :=
  match pieces with
  | [] => io_ret tt
  | p :: pieces' => _ <- write_all f p ;; write_pieces f pieces'
  end.
Definition write_and_die (open : Io bool) (f : FileId) (pieces : list (list Z)) : Io Exit :=
  opened <- open ;;
  if negb opened then io_ret (mkExit "" "" 1)
  else
  _ <- write_pieces f pieces ;;
  io_ret (hard_kill "").

Definition partial_header : list Z := [0x4F; 0x43; 0x4A; 0x52; 0x00; 0x01; 0x00; 0x01; 0; 0].

(** The header written before the payload, its checksum and digest zero. *)
Definition headless_frame (size : nat) : list Z :=
  let length := u32 (Z.of_nat size) in
  [0x4F; 0x43; 0x4A; 0x52; 0x00; 0x01; 0x00; 0x01] ++ replicate 8 0 ++ replicate 8 0 ++ replicate 8 0 ++
  [byte_at length 24; byte_at length 16; byte_at length 8; byte_at length 0] ++
  replicate 32 0 ++ replicate 4 0.

(** Bind, commit, then [finish]. *)
Definition commit_and (store : string) (finish : CommitToken -> Exit) (state : RegistryState) : Io Exit :=
  bind_and_commit store state 0 (fun _ => mkExit "" "" 1)
    (fun committed =>
       match outcome_ok committed, oc_value committed with
       | true, Some token => finish token
       | _, _ => mkExit "" "" 1
       end).

Definition acknowledgement (token : CommitToken) : string :=
  endl ("COMMITTED " +:+ digest_hex (ct_payload_digest token)).

(** One boundary, by name. *)
Definition at_boundary (store boundary : string) (seed count : Z) : Io Exit :=
  if String.eqb boundary "none" then
    with_state seed count (commit_and store (fun token => mkExit (acknowledgement token) "" 0))
  else if String.eqb boundary "before-commit" then
    with_state seed count (fun _ => io_ret (hard_kill ""))
  else if String.eqb boundary "partial-header" then
    write_and_die (open_append JournalFile) JournalFile [partial_header]
  else if String.eqb boundary "payload-no-trailer" then
    with_state seed count (fun state =>
      let payload := enc_state state in
      write_and_die (open_append JournalFile) JournalFile [headless_frame (length payload); payload])
  else if String.eqb boundary "mid-snapshot" then
    with_state seed count (fun state =>
      let payload := enc_state state in
      write_and_die (open_write TempFile) TempFile [take (length payload / 2) payload])
  else if String.eqb boundary "after-commit-before-ack" || String.eqb boundary "after-ack" then
    with_state seed count (commit_and store (fun token =>
      hard_kill (if String.eqb boundary "after-ack" then acknowledgement token else "")))
  else io_ret (complains 2 ("unknown boundary: " +:+ boundary)).

Definition seed_option (a : Arguments) : Z :=
  match get a "seed" with Some text => default 1 (parse_unsigned text) | None => 1 end.

Definition usage_text : string := String.concat "" (map endl
  ["usage: ocreg_crash_helper --store PATH --boundary B [--seed N] [--count N]";
   "boundaries: none, before-commit, partial-header, payload-no-trailer,";
   "            after-commit-before-ack, after-ack, mid-snapshot"]).

Definition main (argv : list string) : Io Exit :=
  let a := parse_arguments argv in
  match get a "store", get a "boundary" with
  | Some store, Some boundary =>
      at_boundary store boundary (seed_option a) (bounded_option a "count" 4096 4)
  | _, _ => io_ret (mkExit "" usage_text 2)
  end.

End CrashHelper.
