(* ===== verification/ToolThms.v ===== *)
(** * The tools over the store

    What the commands of [ocreg] and the service executable leave on disk:
    reading commands keep what the store holds whatever faults they meet, an
    acknowledged import or shutdown is durable, and a store exported and
    imported elsewhere is restored. *)

From Stdlib Require Import ZArith Lia Ascii String ZifyBool.
From stdpp Require Import base tactics list strings relations.
From S2P Require Import Prelude OrdMap Checked Reason Text Name SemVer Hash Catalog Evidence State Codec CodecTypes.
From S2P Require Import CodecThms Registry RegistryOps Persist PersistFormat PersistThms StoreThms Protocol Json JsonThms.
From S2P Require Import Export Import ImportThms Printable ExportThms RegistryInv RegistryThms.
From S2P Require Import Net Service Client Tools.

#[local] Open Scope string_scope.
#[local] Open Scope Z_scope.
#[local] Open Scope list_scope.
#[local] Opaque digest_of crc32c catalog_fingerprint reason_table_fingerprint snapshot_bytes enc_state.

(** ** Opening the store under faults *)

Section open.
Context (ev : IoEvent -> Prop).

(** A call that leaves the disk alone. *)
Lemma wp_query {A} (ok : Disk -> A) (bad : nat -> A) d (Q : Disk -> option A -> Prop) :
  Q d (Some (ok d)) -> (forall n, Q d (Some (bad n))) -> Q d None ->
  wp ev (syscall (fun d => (d, ok d)) (fun n d => (d, bad n)) untouched) Q d.
Proof. intros H1 H2 H3. apply wp_syscall; [exact H1|intros n _; exact (H2 n)|intros n; exact H3]. Qed.

Lemma wp_exists f d (Q : Disk -> option bool -> Prop) :
  (forall b, Q d (Some b)) -> Q d None -> wp ev (fs_exists f) Q d.
Proof. intros H1 H2. apply (wp_query (fun d => is_present d f) (fun _ => false)); auto. Qed.

(** A file that was read was read as it is. *)
Lemma wp_read_whole base f max d :
  wp ev (read_whole_file base f max)
    (fun d' r => d' = d /\ forall o data, r = Some o -> oc_value o = Some data -> default [] (file_of d f) = data) d.
Proof.
  unfold read_whole_file. apply wp_bind.
  apply (wp_query (fun d => (fun c => Z.of_nat (length c)) <$> file_of d f) (fun _ => None)).
  2: { intros _. apply wp_ret. split; [done|]. by intros ? ? [= <-]. }
  2: done.
  destruct (file_of d f) as [c|] eqn:Ef; cbn [fmap option_fmap option_map].
  2: { apply wp_ret. split; [done|]. by intros ? ? [= <-]. }
  case_if. { apply wp_ret. split; [done|]. by intros ? ? [= <-]. }
  apply wp_bind, (wp_query (fun d => is_present d f) (fun _ => false)); [|intros _|done].
  2: { cbn. apply wp_ret. split; [done|]. by intros ? ? [= <-]. }
  destruct (is_present d f); cbn [negb].
  2: { apply wp_ret. split; [done|]. by intros ? ? [= <-]. }
  case_if.
  { apply wp_ret. split; [done|]. intros ? ? [= <-] [= <-]. destruct c; [done|]. simpl in *. lia. }
  apply wp_bind, (wp_query (fun d => file_of d f) (fun _ => None)); [|intros _|done].
  - rewrite Ef. apply wp_ret. split; [done|]. by intros ? ? [= <-] [= <-].
  - apply wp_ret. split; [done|]. by intros ? ? [= <-].
Qed.

Context (opts : StoreOptions) (snap : option (RegistryState * Tick)) (es : list Entry).

(** The same snapshot and entries, perhaps without the torn tail. *)
Definition keeps (tail : list Z) (d' : Disk) : Prop := view opts d' snap es tail \/ view opts d' snap es [].

Lemma view_cut d tail :
  view opts d snap es tail ->
  view opts (set_file JournalFile (Some (frames es)) d) snap es [].
Proof.
  intros []. constructor; [done..| |done|done|by left|].
  - simpl. by rewrite app_nil_r.
  - rewrite length_app in *. simpl. lia.
Qed.

Lemma wp_open_journal state d tail :
  view opts d snap es tail -> wp ev (open_journal opts state) (fun d' _ => keeps tail d') d.
Proof.
  intros Hv. unfold open_journal. apply wp_bind. eapply wp_mono; [apply wp_read_whole|].
  intros d' r [-> Hr]. destruct r as [bytes|]; [|by left].
  destruct (oc_value bytes) as [data|] eqn:Eb; [|apply wp_ret; by left].
  specialize (Hr bytes data eq_refl Eb). cbn [file_of] in Hr. rewrite (v_journal _ _ _ _ _ Hv) in Hr. subst data.
  destruct (oc_value (choose_state _ _)) as [[[st v] dr]|]; [|apply wp_ret; by left].
  destruct (scan_class _) as [cl re]. case_if; [|apply wp_ret; by left].
  apply wp_bind. apply wp_syscall; [|intros n _; cbn; apply wp_ret; by left|intros n; by left].
  destruct (scan_journal_unread _ es tail (v_entries _ _ _ _ _ Hv) (v_unread _ _ _ _ _ Hv)) as (Eb1 & _).
  cbn [file_of]. pose proof (v_journal _ _ _ _ _ Hv) as Ej.
  destruct (d_journal d) as [c|] eqn:Ec; cbn [fst snd negb]; [|apply wp_ret; by left].
  apply wp_ret. right. simpl in Ej. subst c. rewrite Eb1. unfold resized.
  rewrite take_app_length, length_app.
  replace (length (frames es) - (length (frames es) + length tail))%nat with 0%nat by lia.
  cbn [replicate]. rewrite app_nil_r. by eapply view_cut.
Qed.

Lemma wp_open d tail :
  view opts d snap es tail -> wp ev (store_open opts) (fun d' _ => keeps tail d') d.
Proof.
  intros Hv. unfold store_open. case_if; [apply wp_ret; by left|].
  apply wp_bind, wp_exists; [intros b1|by left].
  apply wp_bind, wp_exists; [intros b2|by left].
  apply wp_bind, wp_exists; [intros b3|by left].
  apply wp_bind.
  assert (view opts (set_file TempFile None d) snap es tail) as Hv1 by by destruct Hv.
  assert (forall d1 stale, view opts d1 snap es tail ->
            wp ev (open_files opts b1 b2 stale) (fun d' _ => keeps tail d') d1) as Hfiles.
  { clear d Hv Hv1. intros d stale Hv. unfold open_files. apply wp_bind.
    assert (forall (Q : Disk -> option (Outcome (option RegistryState * Z)) -> Prop), (forall r, Q d r) ->
      wp ev (if b1 then io_bind (read_whole_file (so_base_path opts) SnapshotFile (max_snapshot_bytes (so_limits opts)))
        (fun bytes => io_ret (match oc_value bytes with
              | None => mkOutcome None (oc_status bytes)
              | Some data => let opened := open_snapshot data in
                mkOutcome ((fun s => (Some s, Z.of_nat (length data))) <$> oc_value opened) (oc_status opened)
              end)) else io_ret (outcome_value (None, 0))) Q d) as Hsnap.
    { intros Q HQ. destruct b1; [|by apply wp_ret]. apply wp_bind. eapply wp_mono; [apply wp_read_whole|].
      intros d' r [-> _]. destruct r; [by apply wp_ret|done]. }
    apply Hsnap. intros [snapshot|]; [|by left].
    destruct (oc_value snapshot) as [[state n]|]; [|apply wp_ret; by left].
    apply wp_bind. destruct b2.
    - eapply wp_mono; [by eapply wp_open_journal|]. intros d' r Hk. destruct r as [journal|]; [|done].
      repeat case_match; by apply wp_ret.
    - apply wp_ret. repeat case_match; apply wp_ret; by left. }
  destruct b3; [|apply wp_ret; by apply Hfiles].
  apply wp_syscall; [by apply Hfiles|intros n _; by apply Hfiles|intros n; by left].
Qed.
End open.

(** ** The reading commands *)

Section reading.
Context (ev : IoEvent -> Prop) (snap : option (RegistryState * Tick)) (es : list Entry) (tail : list Z).

Notation kept path := (fun d' _ => keeps (default_store_options path) snap es tail d').

(** The layout on disk does not depend on the path. *)
Lemma keeps_path p q d :
  keeps (default_store_options p) snap es tail d -> keeps (default_store_options q) snap es tail d.
Proof. intros [[]|[]]; [left|right]; by constructor. Qed.

Lemma keeps_open path d :
  keeps (default_store_options path) snap es tail d -> wp ev (store_open (default_store_options path)) (kept path) d.
Proof.
  intros [Hv|Hv]; [by apply wp_open|]. eapply wp_mono; [by apply wp_open|]. intros d' r [H|H]; by right.
Qed.

Lemma wp_load_store path d :
  keeps (default_store_options path) snap es tail d -> wp ev (load_store path) (kept path) d.
Proof.
  intros Hk. unfold load_store, load_state. cbv zeta. apply wp_bind, wp_bind.
  eapply wp_mono; [by apply keeps_open|]. intros d' r Hk'. destruct r as [report|]; [|done].
  by destruct (oc_value report); apply wp_ret, wp_ret.
Qed.

Lemma wp_with_store path now body d :
  keeps (default_store_options path) snap es tail d -> wp ev (with_store path now body) (kept path) d.
Proof.
  intros Hk. unfold with_store. apply wp_bind. eapply wp_mono; [by apply wp_load_store|].
  intros d' r Hk'. destruct r as [loaded|]; [|done].
  destruct (outcome_ok loaded), (oc_value loaded) as [state|]; [|by apply wp_ret..].
  destruct (adopt_state _ _ _) as [adopted x]. by apply wp_ret.
Qed.

(** Every command other than [import] and [ingest]. *)
Lemma wp_reading files connect argv path d :
  let a := parse_arguments argv in
  ar_command a <> "import" -> ar_command a <> "ingest" ->
  keeps (default_store_options path) snap es tail d ->
  wp ev (ocreg_main files connect argv) (kept path) d.
Proof.
  intros a Hi Hg Hk.
  assert (forall body p now, wp ev (with_store p now body) (kept path) d) as Hws.
  { intros body p now. eapply wp_mono; [apply wp_with_store; by eapply keeps_path|].
    intros d' r. by apply keeps_path. }
  unfold ocreg_main. fold a. apply String.eqb_neq in Hi, Hg. rewrite Hi, Hg.
  unfold command_verify, command_stats, command_export, command_query, command_evaluate, command_explain.
  repeat case_match; try (by apply wp_ret); try (by apply Hws).
  apply (keeps_path path) with (q := s) in Hk. apply wp_bind.
  eapply wp_mono; [by apply keeps_open|]. intros d' r Hk'. apply (keeps_path _ path) in Hk'.
  destruct r; [by apply wp_ret|done].
Qed.
End reading.

(** C24: only [import] and [ingest] change what a store holds.  Every other command
    of [ocreg], with whatever arguments, files and peer, started on a store that
    the library wrote (even one with a torn or corrupt journal tail) leaves a store that
    reopens to the same state, however the operating system answers and also
    when the command is interrupted. *)
Theorem reading_commands_preserve files connect argv path d snap es tail s script :
  get (parse_arguments argv) "store" = Some path -> path <> "" ->
  ar_command (parse_arguments argv) <> "import" -> ar_command (parse_arguments argv) <> "ingest" ->
  view (default_store_options path) d snap es tail -> current snap es = Some s ->
  recovers (default_store_options path)
    (w_disk (fst (ocreg_main files connect argv (mkWorld d script)))) s.
Proof.
  intros _ Hp Hi Hg Hv Hc.
  destruct (wp_run any_event _ _ d script
              (wp_reading any_event snap es tail files connect argv path d Hi Hg ltac:(by left))
              (any_script script)) as [Hv'|Hv'];
    (eapply open_view; [|exact Hv'|exact Hc]; by constructor).
Qed.

Lemma reading_commands_preserve_witness :
  let d := mkDisk (Some (snapshot_bytes (Shelf.state 1) 7)) None (Some [1; 2; 3]) in
  recovers (default_store_options "store")
    (w_disk (fst (ocreg_main (fun _ => None) (fun _ => outcome_failure TransportClosed "")
                    ["verify"; "--store"; "store"] (mkWorld d [IoDone; IoError 0; IoDone; IoCrash 0]))))
    (Shelf.state 1).
Proof.
  intros d. destruct Shelf.first_commit as [W1 W2 W3 W4].
  apply (reading_commands_preserve _ _ ["verify"; "--store"; "store"] "store" d (Some (Shelf.state 1, 7)) [] []
           (Shelf.state 1)); [reflexivity|discriminate..| |reflexivity].
  constructor; [reflexivity| |reflexivity|by constructor|done|by left|vm_compute; congruence].
  intros s now [= <- <-]. split_and!; [exact W1|exact W2|exact W4].
Defined.

(** ** Replacing a store *)

(** What fits into a store with the default bounds. *)
Definition storable (s : RegistryState) (now : Tick) : Prop :=
  state_wf s /\ in_u 64 now /\
  Z.of_nat (length (snapshot_bytes s now)) <= max_snapshot_bytes default_store_limits.

Lemma storable_committable path impl s now :
  storable s now -> si_sequence impl = 0 -> committable (default_store_options path) impl s now.
Proof. intros (H1 & H2 & H3) Hq. constructor; [done|done|rewrite Hq; done|done]. Qed.

Lemma default_options_ok path : path <> "" -> options_ok (default_store_options path).
Proof. by constructor. Qed.

Section replace.
Context (ev : IoEvent -> Prop).

Lemma wp_store_bind opts d :
  wp ev (store_bind opts)
    (fun d' r => d' = d /\ forall o impl, r = Some o -> oc_value o = Some impl ->
       outcome_ok o = true /\ si_options impl = opts /\ si_sequence impl = 0 /\
       so_base_path opts <> "" /\ (default [] (d_journal d) = [] -> si_journal_size impl = 0)) d.
Proof.
  unfold store_bind. destruct (String.eqb _ _) eqn:E.
  { apply wp_ret. split; [done|]. by intros ? ? [= <-]. }
  apply String.eqb_neq in E. apply wp_bind, wp_exists; [intros b|done]. apply wp_bind.
  assert (forall n, (default [] (d_journal d) = [] -> n = 0) ->
    wp ev (io_ret (outcome_value (mkStoreImpl opts 0 0 n 0 0)))
      (fun d' r => d' = d /\ forall o impl, r = Some o -> oc_value o = Some impl ->
         outcome_ok o = true /\ si_options impl = opts /\ si_sequence impl = 0 /\
         so_base_path opts <> "" /\ (default [] (d_journal d) = [] -> si_journal_size impl = 0)) d) as Hend.
  { intros n Hn. apply wp_ret. split; [done|]. by intros ? ? [= <-] [= <-]. }
  destruct b; [|by apply wp_ret, Hend]. apply wp_bind.
  apply (wp_query ev (fun d => (fun c => Z.of_nat (length c)) <$> file_of d JournalFile) (fun _ => None));
    [|intros _; by apply wp_ret, Hend|done].
  cbn [file_of]. apply wp_ret, Hend. destruct (d_journal d) as [c|]; [|done]. by intros [= ->].
Qed.

(** Success means that the new state is on disk, whatever was there before. *)
Lemma wp_replace path s now report d :
  storable s now ->
  wp ev (replace_store path s now report)
    (fun d' r => forall e, r = Some e -> ex_code e = kExitOk ->
       recovers (default_store_options path) d' s /\ exists token, e = report token) d.
Proof.
  intros Hs. unfold replace_store. apply wp_bind. eapply wp_mono; [apply wp_store_bind|].
  intros d' r [-> Hr]. destruct r as [bound|]; [|done].
  destruct (oc_value bound) as [impl|] eqn:Eb.
  2: { destruct (outcome_ok bound); apply wp_ret; by intros e [= <-]. }
  destruct (Hr bound impl eq_refl Eb) as (-> & Hopt & Hq & Hp & _). cbn [so_base_path default_store_options] in Hp.
  apply wp_bind. eapply wp_mono; [by apply (wp_rotate ev _ (default_options_ok path Hp))|].
  intros d' r Hrot. destruct r as [[impl' committed]|]; [|done]. apply wp_ret. cbn [snd].
  intros e [= <-] He. destruct (outcome_ok committed) eqn:Eo; [|done].
  destruct (oc_value committed) as [token|]; [|done]. split; [|by exists token].
  destruct Hrot as [_ [Hno|(J & S & _)]]; [simpl in Hno; congruence|].
  eapply holds_recovers; [by apply default_options_ok|].
  eapply (holds_emptied _ (default_options_ok path Hp) impl impl s now d' 0);
    [done|lia|by apply storable_committable|done|done].
Qed.
End replace.

(** With no faults the replacement succeeds. *)
Lemma bind_quiet path d :
  path <> "" -> exists n, store_bind (default_store_options path) (mkWorld d []) =
    (mkWorld d [], Some (outcome_value (mkStoreImpl (default_store_options path) 0 0 n 0 0))).
Proof.
  intros Hp. unfold store_bind. cbn [so_base_path default_store_options]. apply String.eqb_neq in Hp. rewrite Hp.
  unfold fs_exists, fs_file_size, io_bind, syscall, io_ret. cbn. destruct (is_present d JournalFile); cbn; eauto.
Qed.

Lemma compact_quiet path impl s now d :
  si_options impl = default_store_options path -> storable s now ->
  exists w impl' token, store_compact impl s now (mkWorld d []) = (w, Some (impl', outcome_value token)).
Proof.
  intros Hopt (Hs & Hn & Hz). rewrite snapshot_bytes_length in Hz.
  assert (0 < length (snapshot_bytes s now))%nat as Hl 
    by (rewrite snapshot_bytes_length; unfold kSnapshotHeaderSize; lia).
  unfold store_compact, snapshot_and_truncate, store_write_snapshot, io_bind. rewrite Hopt.
  cbn [so_limits so_sync_on_commit default_store_options]. case_if; [lia|].
  unfold open_write, write_all, syscall. cbn [w_script w_disk hd tl negb].
  destruct (length (snapshot_bytes s now) =? 0)%nat eqn:El; [lia|].
  unfold handle_sync, handle_close, publish_snapshot, fs_rename, io_bind, syscall, renamed, appended.
  cbn [w_script w_disk hd tl negb file_of set_file d_temp d_snapshot d_journal default fst snd].
  unfold io_ret at 1. cbn [fst snd negb w_disk w_script set_file d_temp d_snapshot d_journal].
  unfold io_ret at 1. cbn [outcome_ok oc_status st_failed negb outcome_value].
  unfold truncate_journal, fs_exists, open_write, fs_resize, io_bind, syscall, is_present.
  cbn [w_script w_disk hd tl negb file_of set_file d_temp d_snapshot d_journal].
  destruct (d_journal d); cbn; eauto.
Qed.

Lemma replace_quiet path s now report d :
  path <> "" -> storable s now ->
  exists w token, replace_store path s now report (mkWorld d []) = (w, Some (report token)).
Proof.
  intros Hp Hs. destruct (bind_quiet path d Hp) as [n E]. unfold replace_store, io_bind. rewrite E.
  cbn [outcome_value oc_value outcome_ok oc_status st_failed negb].
  destruct (compact_quiet path (mkStoreImpl (default_store_options path) 0 0 n 0 0) s now d eq_refl Hs)
    as (w & impl' & token & ->). by eexists _, _.
Qed.

(** ** Export and import *)

(** A command line naming a command and a store. *)
Definition runs (command path : string) (argv : list string) : Prop :=
  ar_command (parse_arguments argv) = command /\ get (parse_arguments argv) "store" = Some path.

(** The registry the commands build from a loaded state. *)
Definition adopted (s : RegistryState) (now : Tick) : Impl :=
  snd (adopt_state s now (registry_restore (s_policy s) s)).

Lemma adopt_state_ok s now x : outcome_ok (fst (adopt_state s now x)) = true.
Proof. unfold adopt_state. cbv zeta. by destruct (if _ >? 0 then _ else _). Qed.

Lemma with_loaded (loaded : RecoverySummary * Outcome RegistryState) path now body w0 w s :
  load_state (default_store_options path) w0 = (w, Some loaded) -> snd loaded = outcome_value s ->
  with_store path now body w0 = (w, Some (body (adopted s now))).
Proof.
  intros E1 E2. unfold with_store, load_store, io_bind. rewrite E1. unfold io_ret at 1. rewrite E2.
  cbn [outcome_value oc_value outcome_ok oc_status st_failed negb]. unfold adopted.
  pose proof (adopt_state_ok s now (registry_restore (s_policy s) s)) as Ho.
  destruct (adopt_state _ _ _) as [o x]. cbn [fst snd] in *. by rewrite Ho.
Qed.

Lemma load_quiet path d s :
  recovers (default_store_options path) d s ->
  exists w loaded, load_state (default_store_options path) (mkWorld d []) = (w, Some loaded) /\
    snd loaded = outcome_value s.
Proof.
  intros (w & rep & E & <-). unfold load_state, io_bind. cbv zeta. rewrite E. exists w.
  cbn [outcome_value oc_value]. unfold io_ret. by eexists.
Qed.

Lemma with_store_quiet path now body d s :
  recovers (default_store_options path) d s ->
  exists w, with_store path now body (mkWorld d []) = (w, Some (body (adopted s now))).
Proof. intros (w & loaded & E1 & E2)%load_quiet. exists w. by eapply with_loaded. Qed.

Lemma export_cases x o now :
  (exists r, export_registry x o now = outcome_value r) \/
  exists c m, export_registry x o now = outcome_failure c m.
Proof. unfold export_registry. destruct (export_records _ _ _). destruct (_ >? _); eauto. Qed.

(** What [export] prints. *)
Lemma export_result files connect argv path d s :
  runs "export" path argv -> recovers (default_store_options path) d s ->
  let a := parse_arguments argv in
  snd (ocreg_main files connect argv (mkWorld d [])) =
  Some (show_reply (export_registry (adopted s (tick_from a)) (pretty_options a) (tick_from a))
          (fun r => mkExit (endl (er_document r)) "" kExitOk)).
Proof.
  intros [Hc Hs] Hr a.
  assert (ocreg_main files connect argv = command_export a) as ->
    by (unfold ocreg_main; fold a in Hc |- *; rewrite Hc; reflexivity).
  unfold command_export. fold a in Hs. rewrite Hs.
  edestruct (with_store_quiet path) as [w Ew]; [exact Hr|]. by rewrite Ew.
Qed.

Lemma export_prints files connect argv path d s e :
  runs "export" path argv -> recovers (default_store_options path) d s ->
  snd (ocreg_main files connect argv (mkWorld d [])) = Some e -> ex_code e = kExitOk ->
  let a := parse_arguments argv in
  exists r, export_registry (adopted s (tick_from a)) (pretty_options a) (tick_from a) = outcome_value r /\
            ex_stdout e = endl (er_document r).
Proof.
  intros Hrun Hr He Hk a. rewrite (export_result files connect argv path d s Hrun Hr) in He.
  apply (inj Some) in He. subst e. fold a in Hk |- *.
  destruct (export_cases (adopted s (tick_from a)) (pretty_options a) (tick_from a)) as [[r E]|(c & m & E)];
    rewrite E in Hk |- *; [|done]. by exists r.
Qed.

Lemma export_line_imported x o now r :
  doc_state (to_state x) -> complete_options o (to_state x) -> doc_num now ->
  export_registry x o now = outcome_value r ->
  Z.of_nat (String.length (endl (er_document r))) <= jl_max_bytes default_json_limits ->
  json_items (export_document (to_state x) o now) <= jl_max_items default_json_limits ->
  import_document (endl (er_document r)) = outcome_value (import_result (to_state x)).
Proof.
  intros Hs Ho Hnow He Hb Hi. unfold export_registry in He. rewrite (complete_records _ o Ho) in He.
  destruct (_ >? _); [done|]. apply (f_equal oc_value) in He. cbn [outcome_value oc_value] in He.
  apply (inj Some) in He. subst r. cbn [er_document] in *.
  rewrite (complete_document _ o now Ho) in *.
  eapply import_document_of; [|apply obj_is_object|by eapply import_state_written].
  unfold endl in *. rewrite str_app_length in Hb. cbn [String.length] in Hb.
  eapply printable_line_back; [by apply document_printable|cbn; lia|lia|done].
Qed.

Section import.
Context (files : string -> option string) (connect : ClientOptions -> Outcome Socket) (argv : list string).
Context (path document text : string) (r : ImportResult).
Let a := parse_arguments argv.
Context (Hrun : runs "import" path argv) (Hdoc : get a "document" = Some document)
  (Htext : files document = Some text) (Himp : import_document text = outcome_value r).

(** An acknowledged import is durable, whatever the store held before. *)
Lemma wp_import ev d :
  storable (imported_state files a (im_state r)) (tick_from a) ->
  wp ev (ocreg_main files connect argv)
    (fun d' res => forall e, res = Some e -> ex_code e = kExitOk ->
       recovers (default_store_options path) d' (imported_state files a (im_state r))) d.
Proof.
  intros Hst. destruct Hrun as [Hc Hs]. 
  assert (ocreg_main files connect argv = command_import files a) as ->
    by (unfold ocreg_main; fold a in Hc |- *; rewrite Hc; reflexivity).
  unfold command_import, with_document. fold a in Hs. rewrite Hs, Hdoc, Htext, Himp.
  cbn [outcome_value oc_value outcome_ok oc_status st_failed negb].
  eapply wp_mono; [by apply wp_replace|]. intros d' res H e He Hk. by destruct (H e He Hk).
Qed.

Lemma import_quiet d :
  path <> "" -> storable (imported_state files a (im_state r)) (tick_from a) ->
  exists e, snd (ocreg_main files connect argv (mkWorld d [])) = Some e /\ ex_code e = kExitOk.
Proof.
  intros Hp Hst. destruct Hrun as [Hc Hs]. 
  assert (ocreg_main files connect argv = command_import files a) as ->
    by (unfold ocreg_main; fold a in Hc |- *; rewrite Hc; reflexivity).
  unfold command_import, with_document. fold a in Hs. rewrite Hs, Hdoc, Htext, Himp.
  cbn [outcome_value oc_value outcome_ok oc_status st_failed negb].
  edestruct (replace_quiet path (imported_state files a (im_state r)) (tick_from a)) as (w & token & E); [done..|].
  cbv zeta. rewrite E. by eexists.
Qed.
End import.

(** C23: a store is restored from a backup.  Take a store whose registry is a state
    that a document can carry (as for the round trip: every number below 2^63,
    every record of a listed device incarnation), with at most 262144 records, and
    a document within the parser's 8 MiB and 262144 values.  What [export] prints of
    it, saved to a file and given to [import] (without [--policy]) on any other
    disk, gives a store that reopens to the exported registry, its store
    generation raised by one, as soon as [import] exits with success, whatever
    faults it met; and with no faults it does succeed.  The restored state is to
    fit the bounds of a store. *)
Theorem backup_restores files connect out_argv in_argv from to document d s e d' script :
  let a := parse_arguments out_argv in
  let x := adopted s (tick_from a) in
  let restored := with_store_generation (u64 (s_store_generation (to_state x) + 1)) (to_state x) in
  let b := parse_arguments in_argv in
  runs "export" from out_argv -> recovers (default_store_options from) d s ->
  snd (ocreg_main files connect out_argv (mkWorld d [])) = Some e -> ex_code e = kExitOk ->
  doc_state (to_state x) -> Z.of_nat (length (s_records (to_state x))) <= 262144 -> doc_num (tick_from a) ->
  Z.of_nat (String.length (ex_stdout e)) <= jl_max_bytes default_json_limits ->
  json_items (export_document (to_state x) (pretty_options a) (tick_from a)) <= jl_max_items default_json_limits ->
  runs "import" to in_argv -> get b "document" = Some document -> flag b "policy" = false ->
  files document = Some (ex_stdout e) -> storable restored (tick_from b) ->
  (forall w r, ocreg_main files connect in_argv (mkWorld d' script) = (w, Some r) -> ex_code r = kExitOk ->
     recovers (default_store_options to) (w_disk w) restored) /\
  (to <> "" -> exists r, snd (ocreg_main files connect in_argv (mkWorld d' [])) = Some r /\ ex_code r = kExitOk).
Proof.
  intros a x restored b Hout Hd He Hk Hs Hn Ht Hb Hi Hin Hdoc Hpol Hf Hst.
  destruct (export_prints files connect out_argv from d s e Hout Hd He Hk) as (r & Hr & Hprint).
  fold a in Hr. fold x in Hr. rewrite Hprint in *.
  assert (complete_options (pretty_options a) (to_state x)) as Ho by by split_and!.
  pose proof (export_line_imported x (pretty_options a) (tick_from a) r Hs Ho Ht Hr Hb Hi) as Himp.
  assert (imported_state files b (to_state x) = restored) as Hres by (unfold imported_state; by rewrite Hpol).
  rewrite <- Hres in Hst |- *. split.
  - intros w res E Hc.
    pose proof (wp_run any_event _ _ d' script (wp_import files connect in_argv to document _ _ Hin Hdoc Hf Himp
                  any_event d' Hst) (any_script script)) as H.
    rewrite E in H. by apply (H res).
  - intros Hto. by apply (import_quiet files connect in_argv to document _ _ Hin Hdoc Hf Himp).
Qed.

(** A saved store and its restored copy. *)
Module Backup.
Definition saved : RegistryState := to_state Sample.superseded.
Definition disk : Disk := mkDisk (Some (snapshot_bytes saved 7)) None None.
Definition argv_out : list string := ["export"; "--store"; "a"].
Definition argv_in : list string := ["import"; "--store=b"; "--document=doc"].
Definition registry : Impl := adopted saved 0.
Definition copy : RegistryState :=
  with_store_generation (u64 (s_store_generation (to_state registry) + 1)) (to_state registry).

Lemma saved_recovers : recovers (default_store_options "a") disk saved.
Proof.
  apply (open_view _ disk (Some (saved, 7)) [] [] saved); [by constructor| |done].
  constructor; [reflexivity| |reflexivity|by constructor|done|by left|vm_compute; congruence].
  intros s now [= <- <-]. split_and!; [|by vm_compute|rewrite snapshot_bytes_length; vm_compute; congruence].
  apply Shelf.decodes_wf; vm_compute; reflexivity.
Qed.

Lemma copy_storable : storable copy 0.
Proof.
  split_and!; [|by vm_compute|rewrite snapshot_bytes_length; vm_compute; congruence].
  apply Shelf.decodes_wf; vm_compute; reflexivity.
Qed.

Lemma registry_doc : doc_state (to_state registry).
Proof. exportable. Qed.

Lemma registry_fits :
  json_weight (export_document (to_state registry) default_export_options 0) <= 65536 /\
  json_items (export_document (to_state registry) default_export_options 0) <= 262144.
Proof. small_document registry. Qed.

Lemma registry_eq : registry = adopted saved 0.
Proof. reflexivity. Qed.
Lemma no_tick : tick_from (parse_arguments argv_out) = 0.
Proof. by vm_compute. Qed.
Lemma no_tick_in : tick_from (parse_arguments argv_in) = 0.
Proof. by vm_compute. Qed.
Lemma copy_eq :
  copy = with_store_generation (u64 (s_store_generation (to_state registry) + 1)) (to_state registry).
Proof. reflexivity. Qed.
Lemma registry_size : length (s_records (to_state registry)) = 2%nat.
Proof. by vm_compute. Qed.
Lemma zero_doc : doc_num 0.
Proof. by vm_compute. Qed.
Lemma no_pretty : pretty_options (parse_arguments argv_out) = default_export_options.
Proof. by vm_compute. Qed.
End Backup.

Lemma backup_restores_witness :
  exists text,
    let files p := if String.eqb p "doc" then Some text else None in
    let connect _ := outcome_failure TransportClosed "" in
    snd (ocreg_main files connect Backup.argv_out (mkWorld Backup.disk [])) = Some (mkExit text "" kExitOk) /\
    forall d' script w r, ocreg_main files connect Backup.argv_in (mkWorld d' script) = (w, Some r) ->
      ex_code r = kExitOk -> recovers (default_store_options "b") (w_disk w) Backup.copy.
Proof.
  destruct Backup.registry_fits as [Hw Hi].
  assert (complete_options default_export_options (to_state Backup.registry)) as Ho
    by (split_and!; [done..|vm_compute; congruence]).
  pose proof (dump_length (export_document (to_state Backup.registry) default_export_options 0) 0) as Hl.
  destruct (export_complete Backup.registry default_export_options 0 Ho) as (r & Hr & Hd);
    [change (64 * 1024 * 1024) with 67108864; unfold dump; cbn [eo_pretty default_export_options eo_max_bytes]; lia|].
  exists (endl (er_document r)). intros files connect.
  assert (snd (ocreg_main files connect Backup.argv_out (mkWorld Backup.disk [])) =
          Some (mkExit (endl (er_document r)) "" kExitOk)) as He.
  { pose proof (export_result files connect Backup.argv_out "a" Backup.disk Backup.saved
                  (conj eq_refl eq_refl) Backup.saved_recovers) as E. cbv zeta in E.
    rewrite Backup.no_tick, Backup.no_pretty in E. rewrite <- Backup.registry_eq, Hr in E. exact E. }
  split; [exact He|]. intros d' script.
  assert (Z.of_nat (String.length (endl (er_document r))) <= jl_max_bytes default_json_limits) as Hb.
  { unfold endl. rewrite str_app_length, Hd. cbn [String.length]. unfold dump.
    change (jl_max_bytes default_json_limits) with 8388608.
    change (eo_pretty default_export_options) with false. lia. }
  pose proof (backup_restores files connect Backup.argv_out Backup.argv_in "a" "b" "doc" Backup.disk Backup.saved
    (mkExit (endl (er_document r)) "" kExitOk) d' script) as H. cbv zeta in H.
  rewrite Backup.no_tick, Backup.no_tick_in, Backup.no_pretty, <- Backup.registry_eq, <- Backup.copy_eq in H.
  rewrite Backup.registry_size in H.
  exact (proj1 (H (conj eq_refl eq_refl) Backup.saved_recovers He eq_refl Backup.registry_doc
    (Zle_bool_imp_le 2 262144 eq_refl) Backup.zero_doc Hb Hi (conj eq_refl eq_refl) eq_refl eq_refl eq_refl
    Backup.copy_storable)).
Defined.

(** ** Explanations *)

(** Adopting a state leaves no retained decision. *)
Lemma adopted_decisions s now : i_decisions (adopted s now) = [].
Proof.
  unfold adopted, adopt_state. cbv zeta. destruct (if _ >? 0 then _ else _) as [c r]. cbn [snd].
  unfold adopt_restored. cbv zeta.
  match goal with |- i_decisions (refresh_all_conflicts ?t ?y) = _ =>
    destruct (refresh_all_core t y) as (Hc & _); pose proof (f_equal (fun p => fst (snd p)) Hc) as H end.
  cbn [fst snd core] in H. rewrite H. by destruct (rp_sources (s_policy s)).
Qed.

(** A command over a loaded registry fails to load it or ends with its body. *)
Lemma with_store_ends path now body w w' e :
  with_store path now body w = (w', Some e) -> ex_code e = kExitFailure \/ exists s, e = body (adopted s now).
Proof.
  unfold with_store, io_bind. destruct (load_store path w) as [w1 [loaded|]]; [|done].
  destruct (outcome_ok loaded), (oc_value loaded) as [s|]; try (intros [= _ <-]; by left).
  pose proof (adopt_state_ok s now (registry_restore (s_policy s) s)) as Ho.
  unfold adopted. destruct (adopt_state _ _ _) as [o x] eqn:Ea. cbn [fst] in Ho. rewrite Ho.
  intros [= _ <-]. right. exists s. by rewrite Ea.
Qed.

(** [explain] never reprints a decision.  Decisions are not part of the
    persisted state and the command adopts a freshly loaded one, so on every
    store, with every identifier and however the operating system answers, it
    does not exit with success; given a readable identifier and a store that
    opens it prints that the explanation is unavailable. *)
Theorem explain_never_available files connect argv path digest d s w w' e :
  let a := parse_arguments argv in
  runs "explain" path argv -> get a "decision" ≫= digest_parse = Some digest ->
  recovers (default_store_options path) d s ->
  ocreg_main files connect argv w = (w', Some e) ->
  ex_code e <> kExitOk /\
  snd (ocreg_main files connect argv (mkWorld d [])) =
    Some (prints (obj [("available", JBool false); ("reason", JString (reason_to_string UnknownNoEvidence))])
            kExitFailure).
Proof.
  intros a [Hc Hs] Hd Hr.
  assert (ocreg_main files connect argv = command_explain a) as ->
    by (unfold ocreg_main; fold a in Hc |- *; rewrite Hc; reflexivity).
  fold a in Hs. unfold command_explain. rewrite Hs. destruct (get a "decision") as [text|]; [|done].
  cbn in Hd. rewrite Hd.
  assert (forall s now, explain digest (adopted s now) =
    outcome_failure UnknownNoEvidence "decision is not retained in the bounded explanation store") as Hex.
  { intros s' now. unfold explain. by rewrite adopted_decisions. }
  intros E. split.
  - apply with_store_ends in E as [->|[s' ->]]; [done|]. by rewrite Hex.
  - edestruct (with_store_quiet path) as [w1 ->]; [exact Hr|]. cbn [snd]. by rewrite Hex.
Qed.

Lemma explain_never_available_witness :
  let argv := ["explain"; "--store=a"; ("--decision=" +:+ digest_hex digest_zero)%string] in
  let run := ocreg_main (fun _ => None) (fun _ => outcome_failure TransportClosed "") argv in
  exists e, snd (run (mkWorld Shelf.blank [])) = Some e /\ ex_code e <> kExitOk.
Proof.
  intros argv run.
  assert (exists w' e, run (mkWorld Shelf.blank []) = (w', Some e)) as (w' & e & E) by (vm_compute; eauto).
  exists e. split; [by rewrite E|].
  refine (proj1 (explain_never_available (fun _ => None) (fun _ => outcome_failure TransportClosed "") argv "a"
    digest_zero Backup.disk Backup.saved _ w' e (conj eq_refl eq_refl) _ Backup.saved_recovers E)).
  vm_compute. reflexivity.
Defined.

(** ** Documents the store can not hold *)

(** [import_document] does not compare the tombstones with the bound the imported
    policy sets, the decoder of the store does: [import] acknowledges such a
    document and the store it wrote is refused from then on. *)
Module Overfull.
Definition limits : RegistryLimits :=
  mkLimits 4096 64 65536 262144 64 0 16384 16384 65536 1024 8192 64 64 64 64.
Definition tombstone : RetirementRecord :=
  mkRetirement (mkEvidenceKey (mkDeviceRef (mkDeviceIdentity "acme" "nic" 0 None) 1) ChecksumOffload "fixture-sim")
    3 10 UnknownCapabilityRetired 1 1 ArSynthetic.
Definition state : RegistryState :=
  mkState (set_rp_limits limits make_lab_policy) 1 1 1 1 0 10 2 [] [] [tombstone] [] [] [] zero_counters.
Definition stored : RegistryState := with_store_generation 1 state.

Lemma zero_is_doc : doc_num 0.
Proof. by vm_compute. Qed.

Lemma exported : doc_state state.
Proof. exportable. Qed.

Lemma complete : complete_options default_export_options state.
Proof. by split_and!. Qed.

Lemma small :
  json_weight (export_document state default_export_options 0) <= 65536 /\
  json_items (export_document state default_export_options 0) <= 262144.
Proof.
  rewrite complete_document by exact complete.
  assert (String.length (digest_hex (state_digest state)) = 64%nat) as Hd
    by (rewrite digest_hex_length; unfold state_digest; by rewrite digest_of_length).
  unfold document_fields, json_of_digest at 1; revert Hd.
  generalize catalog_fingerprint reason_table_fingerprint (digest_hex (state_digest state)). intros ? ? d ?.
  do 64 (destruct d as [|? d]; [done|]); destruct d; [|done]; split; vm_compute; congruence.
Qed.

Lemma accepted :
  import_document (dump false (export_document state default_export_options 0)) =
    outcome_value (import_result state).
Proof.
  destruct small as [Hw Hi]. pose proof (dump_length (export_document state default_export_options 0) 0) as Hl.
  pose proof (complete_document state default_export_options 0 complete) as E.
  refine (import_document_of _ (export_document state default_export_options 0) state _ _ _);
    [|rewrite E; apply obj_is_object|rewrite E; exact (import_state_written _ default_export_options _ exported complete)].
  eapply printable_read_back; [rewrite E; exact (document_printable _ _ exported zero_is_doc)|cbn; lia| |exact Hi].
  unfold dump. change (jl_max_bytes default_json_limits) with 8388608. lia.
Qed.

Lemma import_unopenable :
  import_document (dump false (export_document state default_export_options 0)) =
    outcome_value (import_result state) /\
  imported_state (fun _ => None) (parse_arguments []) state = stored /\
  outcome_ok (open_snapshot (snapshot_bytes stored 0)) = false.
Proof. split; [exact accepted|]. split; [reflexivity|]. vm_compute. reflexivity. Qed.
End Overfull.
