(* ===== verification/ServiceToolThms.v ===== *)
(** * The service executable over its store

    A run of [ocreg_service] that ends with success has made the registry it
    served durable; how that fails on stores the executable itself produces; and
    the store after each boundary of the crash helper. *)

From Stdlib Require Import ZArith Lia Ascii String ZifyBool.
From stdpp Require Import base tactics list strings relations.
From S2P Require Import Prelude OrdMap Checked Reason Text Name SemVer Hash Catalog Evidence State Codec CodecTypes.
From S2P Require Import CodecThms Registry RegistryOps RegistryInv Persist PersistFormat PersistThms StoreThms.
From S2P Require Import Protocol Json Export Import Net Service ServiceThreads ServiceThms Client.
From S2P Require Import Tools ServiceTool ToolThms.

#[local] Open Scope string_scope.
#[local] Open Scope Z_scope.
#[local] Open Scope list_scope.
#[local] Opaque digest_of crc32c catalog_fingerprint reason_table_fingerprint snapshot_bytes enc_state.

(** The state the executable commits for the registry it ends with. *)
Definition final_state (x : Impl) : RegistryState :=
  with_store_generation (u64 (s_store_generation (to_state x) + 1)) (to_state x).

(** A disk with a readable snapshot or none, and an empty journal. *)
Definition compacted (path : string) (d : Disk) (snap : option (RegistryState * Tick)) : Prop :=
  view (default_store_options path) d snap [] [].

(** The state is no older than the snapshot. *)
Definition succeeds (snap : option (RegistryState * Tick)) (s : RegistryState) : Prop :=
  forall s0 now, snap = Some (s0, now) -> s_store_generation s0 <= s_store_generation s.

Section run.
Context (ev : IoEvent -> Prop) (files : string -> option string).

Lemma keeps_compacted path snap d : keeps (default_store_options path) snap [] [] d -> compacted path d snap.
Proof. by intros [Hv|Hv]. Qed.

(** Booting changes nothing on such a disk. *)
Lemma wp_boot argv path snap d :
  compacted path d snap ->
  wp ev (service_boot files argv) (fun d' r => compacted path d' snap /\
    forall b, r = Some (inr b) ->
      get (parse_arguments argv) "store" = Some (bo_store b) /\ bo_now b = tick_from (parse_arguments argv)) d.
Proof.
  intros Hv. unfold service_boot. set (a := parse_arguments argv).
  case_if; [apply wp_ret; by split; [|intros b [=]]|].
  destruct (get a "store") as [store|]; [|apply wp_ret; by split; [|intros b [=]]].
  destruct (load_policy files a) as [policy warning].
  apply wp_bind. unfold load_state. cbv zeta. apply wp_bind.
  eapply wp_mono; [apply keeps_open, (keeps_path _ _ _ path); left; exact Hv|].
  intros d' r Hk. apply (keeps_path _ _ _ store path), keeps_compacted in Hk.
  destruct r as [report|]; [|done].
  assert (forall loaded, wp ev (io_ret (match boot_state policy loaded with
         | inl refused =>
             let detail := st_detail (oc_status refused) in
             inl (mkExit "" (warning +:+ endl ("store rejected: " +:+ reason_to_string (outcome_reason refused) +:+
                               (if str_empty detail then "" else ": " +:+ detail))) 1)
         | inr (state, policy) =>
             match boot_registry policy state (tick_from a) with
             | inl refused =>
                 inl (mkExit "" (warning +:+ endl ("state rejected: " +:+ reason_to_string (outcome_reason refused))) 1)
             | inr x =>
                 match port_option a with
                 | None => inl (mkExit "" (warning +:+ endl "port must be in 0..65535") 2)
                 | Some port => inr (mkBooted x (server_options a port) (tick_from a) store warning)
                 end
             end
         end)) (fun d' r => compacted path d' snap /\
           forall b, r = Some (inr b) -> Some store = Some (bo_store b) /\ bo_now b = tick_from a) d') as Hend.
  { intros loaded. apply wp_ret. split; [done|]. intros b. repeat case_match; by intros [= <-]. }
  by destruct (oc_value report); apply wp_ret, Hend.
Qed.

Definition old_or (path : string) (snap : option (RegistryState * Tick)) (s : RegistryState) (d : Disk) : Prop :=
  recovers (default_store_options path) d s \/
  match snap with Some (s0, _) => recovers (default_store_options path) d s0 | None => True end.

Lemma compacted_old path snap s d : path <> "" -> compacted path d snap -> old_or path snap s d.
Proof.
  intros Hp Hv. right. destruct snap as [[s0 n0]|]; [|done].
  eapply open_view; [by apply default_options_ok|exact Hv|done].
Qed.

Lemma compacted_holds path snap d impl :
  compacted path d snap -> si_options impl = default_store_options path -> si_sequence impl = 0 ->
  si_journal_size impl = 0 -> holds (default_store_options path) impl d (fst <$> snap).
Proof.
  intros Hv H1 H2 H3. exists snap, []. split_and!.
  - constructor; [done|exact Hv|done|by rewrite H2|done].
  - done.
  - destruct snap as [[s0 n0]|]; [|done]. split; [done|]. by intros ? ? [= <- <-].
Qed.

(** Binding to such a disk and committing, the end of both executables. *)
Lemma wp_bind_commit path snap d s now (refuse : Outcome StoreImpl -> Exit) (finish : Outcome CommitToken -> Exit) :
  path <> "" -> compacted path d snap -> storable s now ->
  Z.of_nat (length (enc_state s)) <= max_journal_entry_bytes default_store_limits -> succeeds snap s ->
  wp ev (bind_and_commit path s now refuse finish)
    (fun d' r => old_or path snap s d' /\ forall e, r = Some e ->
      (exists bound, e = refuse bound) \/
      exists out, e = finish out /\ (outcome_ok out = true -> recovers (default_store_options path) d' s)) d.
Proof.
  intros Hp Hv Hs Hz Hf. pose proof (compacted_old path snap s d Hp Hv) as Hold.
  unfold bind_and_commit. apply wp_bind. eapply wp_mono; [apply wp_store_bind|]. intros d' r [-> Hr].
  destruct r as [bound|]; [|by split]. destruct (oc_value bound) as [impl|] eqn:Eb.
  2: { destruct (outcome_ok bound); apply wp_ret; (split; [done|]); intros e [= <-]; left; by exists bound. }
  destruct (Hr bound impl eq_refl Eb) as (-> & Hopt & Hq & _ & Hj).
  assert (si_journal_size impl = 0) as Hj0 by (apply Hj; destruct Hv as [_ _ -> _ _ _ _]; done).
  apply wp_bind. eapply wp_mono.
  { apply (wp_commit ev _ (default_options_ok path Hp) impl d (fst <$> snap) s now []);
      [by apply compacted_holds|by apply storable_committable| |done].
    destruct snap as [[s0 n0]|]; [by eapply Hf|done]. }
  intros d' r [H1 H2]. assert (old_or path snap s d') as Hor by (unfold old_or; by destruct snap as [[s0 n0]|]).
  destruct r as [[[impl' notes'] out]|]; [|by split]. apply wp_ret. split; [done|].
  intros e [= <-]. right. exists out. split; [done|]. intros Eo.
  eapply holds_recovers; [by apply default_options_ok|]. by eapply H2.
Qed.

Lemma wp_finish b snap d printed core :
  let s := final_state (sc_registry core) in
  bo_store b <> "" -> compacted (bo_store b) d snap -> storable s (bo_now b) ->
  Z.of_nat (length (enc_state s)) <= max_journal_entry_bytes default_store_limits -> succeeds snap s ->
  wp ev (service_finish b printed core)
    (fun d' r => old_or (bo_store b) snap s d' /\
      forall e, r = Some e -> ex_code e = 0 -> recovers (default_store_options (bo_store b)) d' s) d.
Proof.
  intros s Hp Hv Hs Hz Hf. unfold service_finish.
  cbn [snapshot_state outcome_ok oc_value outcome_value oc_status st_failed negb].
  fold (final_state (sc_registry core)). fold s.
  eapply wp_mono; [by apply wp_bind_commit|]. intros d' r [H1 H2]. split; [done|]. intros e He Hc.
  destruct (H2 e He) as [[bound ->]|(out & -> & Ho)]; [done|]. apply Ho.
  by destruct (outcome_ok out).
Qed.
End run.

(** The service was booted as [b] and its threads ran until [stop] was complete. *)
Definition service_run (files : string -> option string) (argv : list string) (w : World) (b : Booted)
    (s : ServiceThreads.Service) : Prop :=
  exists port, snd (service_boot files argv w) = Some (inr b) /\
    rtc (service_step (bo_options b))
      (snd (service_start (bo_options b) (outcome_value port) (new_service (bo_registry b)))) s /\
    sv_stop s = Stopped.

(** A process that ends before it serves ends with a failure, unless it was asked
    for its usage. *)
Definition asks_usage (argv : list string) : bool :=
  let a := parse_arguments argv in String.eqb (ar_command a) "help" || String.eqb (ar_command a) "--help".

Lemma boot_exit files argv w e :
  snd (service_boot files argv w) = Some (inl e) -> asks_usage argv = false -> ex_code e <> 0.
Proof.
  unfold service_boot, asks_usage. cbv zeta. intros H Hu. rewrite Hu in H.
  destruct (get (parse_arguments argv) "store") as [store|]; [|by injection H as <-].
  destruct (load_policy _ _) as [policy warning]. unfold io_bind, io_ret in H.
  destruct (load_state (default_store_options store) w) as [w' [loaded|]]; [|done].
  cbn [snd] in H. destruct (boot_state policy loaded) as [refused|[state policy']]; [by injection H as <-|].
  destruct (boot_registry _ _ _) as [refused|x]; [by injection H as <-|].
  destruct (port_option _); [done|by injection H as <-].
Qed.

(** What is known of the store after a process that started with [snap]: [served]
    is the state it is to leave, if it came to serve. *)
Inductive outcome_durable (argv : list string) (path : string) (snap : option (RegistryState * Tick))
    (d : Disk) (r : option Exit) : option (RegistryState * Tick) -> Prop :=
| durable_unserved :
    compacted path d snap -> (forall e, r = Some e -> asks_usage argv = false -> ex_code e <> 0) ->
    outcome_durable argv path snap d r None
| durable_served final now :
    (storable final now -> succeeds snap final ->
     Z.of_nat (length (enc_state final)) <= max_journal_entry_bytes default_store_limits ->
     old_or path snap final d /\
     forall e, r = Some e -> ex_code e = 0 -> recovers (default_store_options path) d final) ->
    outcome_durable argv path snap d r (Some (final, now)).


(** A service on a new store, stopped at once. *)
Module Shift.
Definition files (_ : string) : option string := None.
Definition argv : list string := ["--store"; "s"; "--workers=1"; "--tick=9"].
Definition blank : World := mkWorld (mkDisk None None None) [].
Definition options : ServerOptions := Eval vm_compute in server_options (parse_arguments argv) 0.
Definition booted : Booted := mkBooted (registry_create make_lab_policy) options 9 "s" "".
Definition opened : ServiceThreads.Service :=
  snd (service_start options (outcome_value 40000) (new_service (registry_create make_lab_policy))).
Definition stopped : ServiceThreads.Service :=
  mkService (sv_core opened) false true AcceptLeft [] [] 0 0 1 Stopped.
Definition ended := service_finish booted (endl ("PORT " +:+ dec_str 40000)) (sv_core stopped) blank.

Lemma boots : service_boot files argv blank = (blank, Some (inr booted)).
Proof. vm_compute. reflexivity. Qed.

Lemma stops : rtc (service_step options) opened stopped.
Proof.
  eapply rtc_l; [by apply by_itself, stop_request_step|]. eapply rtc_l; [by apply by_itself, stop_wake_step|]. eapply rtc_l; [by apply by_itself, accept_woken|].
  eapply rtc_l; [by apply by_itself, stop_close_step|]. eapply rtc_l; [by apply by_itself, worker_step|].
  eapply rtc_l; [by apply by_itself, stop_finish_step|]. apply rtc_refl.
Qed.

Lemma exits : exists e, snd ended = Some e /\ ex_code e = 0.
Proof. vm_compute. by eexists. Qed.

Lemma blank_compacted : compacted "s" (w_disk blank) None.
Proof. constructor; [done|done|done|by constructor|done|by left|by vm_compute]. Qed.
End Shift.


(** A store whose state has no records, devices, tombstones or conflicts is not
    adopted, so its generation is forgotten: the final commit carries generation
    1, is acknowledged, and loses against the older snapshot at the next start. *)
Module Forgotten.
Definition disk : Disk := mkDisk (Some (snapshot_bytes (Shelf.state 5) 7)) None None.
Definition ended :=
  service_finish Shift.booted (endl ("PORT " +:+ dec_str 40000)) (sv_core Shift.stopped) (mkWorld disk []).

Lemma restart_forgets_generation :
  service_boot Shift.files Shift.argv (mkWorld disk []) = (mkWorld disk [], Some (inr Shift.booted)) /\
  ex_code <$> snd ended = Some 0 /\
  s_store_generation (final_state (sc_registry (sv_core Shift.stopped))) = 1 /\
  Shelf.reopened (default_store_options "s") (w_disk (fst ended)) = Some 5.
Proof. vm_compute. repeat split. Qed.
End Forgotten.
