(* ===== verification/CrashThms.v ===== *)
(** * The boundaries of the crash helper

    The bytes [ocreg_crash_helper] leaves at each of its boundaries are bytes the
    recovery discards: the store reopens to the state it held before, and at the
    boundaries after the commit to the committed one. *)

From Stdlib Require Import ZArith Lia Ascii String ZifyBool.
From stdpp Require Import base tactics list strings.
From S2P Require Import Prelude Reason Text Hash Evidence State Codec CodecTypes CodecThms Registry RegistryOps.
From S2P Require Import Persist PersistFormat PersistThms StoreThms Tools ServiceTool ToolThms ServiceToolThms.

#[local] Open Scope string_scope.
#[local] Open Scope Z_scope.
#[local] Open Scope list_scope.
#[local] Opaque digest_of crc32c snapshot_bytes enc_state.

Import CrashHelper.

(** ** Bytes the scan stops at *)

Section junk.
Context (limits : StoreLimits).

Lemma short_unread tail : (length tail < kJournalHeaderSize)%nat -> unread limits tail.
Proof.
  intros H. destruct tail as [|b tail]; [by left|right]. intros fuel pos q g s. cbn [scan_loop].
  change (length (b :: tail) =? 0)%nat with false. cbn iota.
  replace (length (b :: tail) <? kJournalHeaderSize)%nat with true by lia.
  eexists. split; [done|]. split_and!; done.
Qed.

(** A header that announces more than there is. *)
Lemma long_unread tail :
  (forall h, parse_journal_header tail = inr h ->
     (length tail < kJournalHeaderSize + Z.to_nat (jh_payload_len h) + kJournalTrailerSize)%nat) ->
  unread limits tail.
Proof.
  intros H. destruct (decide (length tail < kJournalHeaderSize)%nat) as [|Hl]; [by apply short_unread|].
  right. intros fuel pos q g s. cbn [scan_loop].
  replace (length tail =? 0)%nat with false by (unfold kJournalHeaderSize in *; lia).
  replace (length tail <? kJournalHeaderSize)%nat with false by lia.
  destruct (parse_journal_header tail) as [reason|h]; [eexists; split; [done|]; split_and!; done|].
  specialize (H h eq_refl). case_if; [eexists; split; [done|]; split_and!; done|].
  replace (length tail <? _)%nat with true by lia. eexists. split; [done|]. split_and!; done.
Qed.
End junk.

Lemma headless_length n : length (headless_frame n) = kJournalHeaderSize.
Proof. done. Qed.

(** The header without checksum announces the payload's length. *)
Lemma headless_announces n rest :
  in_u 32 (Z.of_nat n) -> get_u32 (headless_frame n ++ rest) 32 = Z.of_nat n.
Proof.
  intros Hn.
  assert (headless_frame n ++ rest =
    ([0x4F; 0x43; 0x4A; 0x52; 0x00; 0x01; 0x00; 0x01] ++ replicate 24 0) ++ put_u32 (u32 (Z.of_nat n)) ++
    (replicate 36 0 ++ rest)) as -> by done.
  unfold u32. rewrite wrap_small by done. by apply get_u32_at.
Qed.

Lemma parse_header_len data h : parse_journal_header data = inr h -> jh_payload_len h = get_u32 data 32.
Proof.
  unfold parse_journal_header. intros H.
  do 3 (destruct (negb _) in H; [discriminate H|]).
  destruct (journal_kind_from _) in H; [|discriminate H]. apply (inj inr) in H. by subst h.
Qed.

Lemma headless_unread limits n payload :
  in_u 32 (Z.of_nat (length payload)) ->
  unread limits (take n (headless_frame (length payload) ++ payload)).
Proof.
  intros Hp. apply long_unread. intros h Hh.
  destruct (decide (n < kJournalHeaderSize)%nat) as [Hn|Hn].
  { rewrite length_take. unfold kJournalTrailerSize. lia. }
  rewrite take_app_ge in * by (rewrite headless_length; lia). rewrite headless_length in *.
  assert (jh_payload_len h = Z.of_nat (length payload)) as ->.
  { rewrite <- (headless_announces (length payload) (take (n - kJournalHeaderSize) payload)) by done.
    apply parse_header_len in Hh. exact Hh. }
  rewrite length_app, headless_length, length_take, Nat2Z.id. unfold kJournalTrailerSize. lia.
Qed.

(** ** Writing and dying *)

(** Without failing calls the journal gains a prefix of the pieces. *)
Lemma wp_pieces d0 pieces : forall before d,
  d_snapshot d = d_snapshot d0 -> default [] (d_journal d) = default [] (d_journal d0) ++ before ->
  wp no_error (write_pieces JournalFile pieces)
    (fun d' _ => exists n, d_snapshot d' = d_snapshot d0 /\
       default [] (d_journal d') = default [] (d_journal d0) ++ take n (before ++ concat pieces)) d.
Proof.
  induction pieces as [|p pieces IH]; intros before d Hs Hj; cbn [write_pieces concat].
  { apply wp_ret. exists (length before). by rewrite app_nil_r, firstn_all. }
  assert (forall n, exists m, d_snapshot (appended JournalFile (take n p) d) = d_snapshot d0 /\
    default [] (d_journal (appended JournalFile (take n p) d)) =
    default [] (d_journal d0) ++ take m (before ++ p ++ concat pieces)) as Hcut.
  { intros n. exists (length before + length (take n p))%nat. split; [done|]. cbn. rewrite Hj, <- app_assoc.
    f_equal. rewrite take_app_add', take_app_le by (rewrite ?length_take; lia || done). f_equal.
    rewrite length_take. destruct (decide (n <= length p)%nat).
    - by rewrite Nat.min_l by lia.
    - rewrite Nat.min_r by lia. by rewrite firstn_all, take_ge by lia. }
  assert (wp no_error (write_pieces JournalFile pieces) (fun d' _ => exists n, d_snapshot d' = d_snapshot d0 /\
       default [] (d_journal d') = default [] (d_journal d0) ++ take n (before ++ p ++ concat pieces))
       (appended JournalFile p d)) as Hnext.
  { rewrite app_assoc. apply IH; [done|]. cbn. by rewrite Hj, app_assoc. }
  apply wp_bind. unfold write_all. destruct p as [|b p].
  - apply wp_ret. by apply (IH before d).
  - cbn [length Nat.eqb]. apply wp_syscall; [exact Hnext|by intros n []|]. exact Hcut.
Qed.

Section boundaries.
Context (path : string) (seed count : Z) (built : RegistryState) (d : Disk).
Context (snap : option (RegistryState * Tick)) (es : list Entry).
Context (Hp : path <> "") (Hbuilt : build_state seed count = inr built).
Context (Hv : view (default_store_options path) d snap es []).
Context (Hroom : Z.of_nat (length (frames es) + kJournalHeaderSize + length (enc_state built)) <=
                 max_journal_bytes default_store_limits).

(** Junk appended to the journal is one more unread tail. *)
Lemma view_junk d' tail :
  d_snapshot d' = d_snapshot d -> default [] (d_journal d') = default [] (d_journal d) ++ tail ->
  unread default_store_limits tail -> (length tail <= kJournalHeaderSize + length (enc_state built))%nat ->
  keeps (default_store_options path) snap es tail d'.
Proof.
  intros Es Ej Hu Hl. left. destruct Hv as [V1 V2 V3 V4 V5 V6 V7].
  constructor; [congruence|done|by rewrite Ej, V3, app_nil_r|done|done|exact Hu|].
  cbn [so_limits default_store_options]. rewrite length_app. lia.
Qed.

Lemma wp_junk pieces :
  (forall n, unread default_store_limits (take n (concat pieces))) ->
  (length (concat pieces) <= kJournalHeaderSize + length (enc_state built))%nat ->
  wp no_error (write_and_die (open_append JournalFile) JournalFile pieces)
    (fun d' _ => exists tail, keeps (default_store_options path) snap es tail d') d.
Proof.
  intros Hu Hl. unfold write_and_die. apply wp_bind.
  assert (exists tail, keeps (default_store_options path) snap es tail d) as Hk by (exists []; by left).
  apply wp_syscall; [|by intros n []|done]. cbn [fst snd negb]. apply wp_bind.
  eapply wp_mono; [apply (wp_pieces d pieces []); [done|cbn; by rewrite app_nil_r]|].
  intros d' r (n & Es & Ej). cbn [app] in Ej.
  assert (exists tail, keeps (default_store_options path) snap es tail d') as Hk'.
  { exists (take n (concat pieces)). apply view_junk; [done..|apply Hu|]. rewrite length_take. lia. }
  destruct r; [by apply wp_ret|done].
Qed.

(** The boundaries before the commit leave the store as it was. *)
Lemma wp_before boundary :
  boundary ∈ ["before-commit"; "partial-header"; "payload-no-trailer"; "mid-snapshot"] ->
  wp no_error (at_boundary path boundary seed count)
    (fun d' _ => exists tail, keeps (default_store_options path) snap es tail d') d.
Proof.
  intros Hb. assert (in_u 32 (Z.of_nat (length (enc_state built)))) as Hz
    by (cbn in Hroom; unfold in_u, kJournalHeaderSize in *; lia).
  assert (forall d', d_snapshot d' = d_snapshot d -> d_journal d' = d_journal d ->
            exists tail, keeps (default_store_options path) snap es tail d') as Hsame.
  { intros d' E1 E2. exists []. left. destruct Hv. constructor; congruence || done. }
  repeat (apply elem_of_cons in Hb as [->|Hb]); [| | | |by apply elem_of_nil in Hb];
    unfold at_boundary; cbn [String.eqb Ascii.eqb Bool.eqb]; unfold with_state; rewrite ?Hbuilt.
  - apply wp_ret. by apply Hsame.
  - apply wp_junk; [|cbn; unfold kJournalHeaderSize; lia]. intros n. apply short_unread.
    rewrite length_take. cbn. unfold kJournalHeaderSize. lia.
  - apply wp_junk; cbn [concat]; rewrite app_nil_r; [intros n; by apply headless_unread|].
    rewrite length_app, headless_length. lia.
  - unfold write_and_die. apply wp_bind, wp_syscall; [|by intros n []|by intros n; apply Hsame].
    cbn [fst snd negb write_pieces]. apply wp_bind, wp_bind. unfold write_all. case_if.
    + apply wp_ret, wp_ret, wp_ret. by apply Hsame.
    + apply wp_syscall; [|by intros n []|intros n; by apply Hsame]. apply wp_ret, wp_ret. by apply Hsame.
Qed.
End boundaries.


Module Crashed.
Definition disk : Disk := mkDisk (Some (snapshot_bytes (Shelf.state 1) 7)) None None.
Definition built : RegistryState :=
  Eval vm_compute in match build_state 7 1 with inr s => s | inl _ => Shelf.state 0 end.
Lemma builds : build_state 7 1 = inr built.
Proof. vm_compute. reflexivity. Qed.

Lemma disk_view : view (default_store_options "s") disk (Some (Shelf.state 1, 7)) [] [].
Proof.
  destruct Shelf.first_commit as [W1 W2 W3 W4].
  constructor; [reflexivity| |reflexivity|by constructor|done|by left|vm_compute; congruence].
  intros s now [= <- <-]. split_and!; [exact W1|exact W2|exact W4].
Qed.
Lemma room : Z.of_nat (length (frames []) + kJournalHeaderSize + length (enc_state built)) <=
  max_journal_bytes default_store_limits.
Proof. vm_compute. congruence. Qed.
End Crashed.

